(* ===== verification/_CoqProject ===== *)
-Q . S2P
Prelude.v
GoStrings.v
GoFloat.v
GoRuntime.v
Proto.v
External.v
Typestate.v
RelyGuarantee.v
Linearizability.v
Grpc.v
GrpcStubs.v
Stores.v
UserService.v
UserProofs.v
OrderService.v
OrderProofs.v
OrderCacheProofs.v
OrderServiceProofs.v
MemWorld.v
UserTheorems.v
OrderTheorems.v
Transport.v
Vault.v
Config.v
Migrations.v
Lifecycle.v
LifecycleProofs.v
ExtAuthz.v
LoadTest.v
Resources.v
Deadlock.v
Fairness.v
Concurrency.v
Monitor.v
System.v
Interceptors.v
UserLinearizability.v
Client.v
OrderConcurrency.v
OrderAnswers.v
SystemConcurrency.v
SystemHistory.v
Drain.v
LoadTestProofs.v
LoadTestWorkers.v
LoadTestRun.v
