(* ===== verification/Prelude.v ===== *)
(** * Verification of the gRPC microservices

    Two gRPC services written in Go, with their shared packages, the Envoy
    authorization service with its health check, and a load test.  user-service
    keeps users in PostgreSQL; order-service keeps orders in PostgreSQL with a
    Redis cache and asks user-service, over mutual TLS, whether the user of an
    order exists.  Both are started by a [main] that reads its configuration,
    optionally fetches database credentials from Vault and keeps refreshing
    them, runs the embedded migrations, serves RPCs under two interceptors,
    watches the database and shuts down on a signal.

    ** How the code is modelled

    A Go function is a program of type [GoRuntime.prog]: a tree of calls to
    what is outside the repository (SQL statements, Redis commands, RPCs,
    locks, clocks, loggers; the constructors of [External.extcall]), ending in
    a value or a panic, with [defer] and [recover] as [with_defer] and
    [with_recover].  A Go pair of a pointer and an error is a pair of
    options, since both can be nil.  There are three ways to read a program:
    - [exec p tr o]: some behaviour of the outside answers the calls of [p] as
      the trace [tr] says, and [p] then ends with [o].  Theorems about [exec]
      hold whatever the libraries do.
    - [run H p w]: [p] runs against an environment [H], a function from a call
      and a world to an answer and a new world, and so it terminates.
      Theorems about [run] assume what the interfaces of [Stores] and
      [Migrations] say that PostgreSQL and Redis promise: [RepoCell] (the pool
      pointer), [UserDB], [OrderDB] (with what its columns keep of a number or
      a text, [columns]), [OrderTx] (what several open transactions may see and
      commit), [OrderKV] (which also says that protojson gives an order without
      nil items back), [MigrationDB].  Their worlds are abstract; a failing
      statement may or may not have had its effect.
    - [Concurrency.env_step], [RelyGuarantee.mstep]: one call of one of several
      goroutines, over one environment or one for each of them.  [cwp] is the
      weakest precondition under interleaving: every call keeps an invariant
      and what the other goroutines rely on, each goroutine owning a token (for
      order-service, the transaction it has open).
    Whether the calls of a program come in an allowed order is a protocol
    automaton: [Typestate.obeys] relates a program to a partial transition
    function on calls, and what it proves holds of every trace of [exec].  That
    a handler answers Internal only after a call that failed ([Typestate.blames])
    is one of them.

    Integers are [Z] with the wrap-around of their Go type written out
    ([Prelude.to_int32], [to_int64]); float64 is the Stdlib's [spec_float] at
    binary64; strings are byte strings.

    ** Files

    - Prelude, GoStrings, GoFloat, GoRuntime: Go itself.  Results, machine
      integers; the functions of [strings], [strconv], [path/filepath] and
      [sort] the source calls; binary64; programs, traces, runs, and the
      weakest preconditions [wp] the specifications are proved with.
    - Proto: the messages of [services/{common,user,order}/v1/*.pb.go], their
      getters and the status tables.  External: the calls, errors, contexts.
      Typestate: protocol automata and the rules that check a program.
      Grpc: interceptors and the generated stub bodies; GrpcStubs: the stubs of
      [services/{user,order}/v1/*_grpc.pb.go].
    - Stores: the interfaces of the stores.  MemWorld: an executable in-memory
      environment that satisfies all of them; the witnesses run on it.
    - UserService ([services/user-service/{repository,server}.go]); UserProofs
      its specifications, UserTheorems its claims: every handler refines an
      operation on the table of users, on every branch, and answers Internal
      only for an error of the database it has no other answer for; any sequence
      of requests keeps names and emails valid and emails unique; a created user
      is read back.
    - OrderService ([services/order-service/{repository,server,cache,client}.go]);
      OrderProofs (repository), OrderCacheProofs (cache), OrderServiceProofs
      (handlers), OrderTheorems the claims: refinement of every handler,
      verification before any write, atomicity of creation, pages, totals,
      status texts, coherence of the cache in sequential use (for canonical
      ids; [other_spelling_stale] shows why).
    - Transport ([internal/tls/tls.go] and the connection of client.go), Vault
      ([internal/vault/client.go]), Config ([services/*/config.go]), Migrations
      ([db/migrations/embed.go] with the embedded files), Lifecycle
      ([internal/{log,otel,shutdown}] and [services/*/main.go]) with
      LifecycleProofs, ExtAuthz ([envoy/ext_authz/{main,healthcheck}.go]):
      credentials and the files they come from, refresh schedule, defaults,
      applied migrations, start-up and shutdown order, health reports, pool
      rotation (the pool it puts in place is not closed at shutdown),
      authorization, and when the health check passes.
    - Resources: a monitor over traces; every handler gives back locks,
      transactions and result sets on every path, and asks for none while it
      holds one.  Deadlock: with the blocking behaviour of the lock and of the
      connection pools, some goroutine of a service can always go on, pool
      rotations included, and none race on the pool pointer.  Fairness: beside
      the endless loops, every request ends in every fair infinite run.
    - Monitor: the health monitor in a world in which its pool was closed by a
      rotation, alone and beside other goroutines.
    - Drain: the process of a service, its [main] with the goroutines it starts
      and the requests that arrive, up to the end of the shutdown: nothing that
      requests use is closed before they have ended, and stopping ends.
    - Concurrency: interleavings of requests, rotations and goroutines of
      [main]; the directory of users stays well formed, and a read can leave a
      stale cache entry.
      RelyGuarantee: the rules of [cwp] and their soundness.  OrderConcurrency:
      order requests and rotations side by side, with any number of open
      transactions; every committed order is complete and valid, and a cache
      entry is a read of it that may only still say PENDING after the
      cancellation.
      OrderAnswers: what each of those requests answers, whatever runs beside.
    - Linearizability: answers of interleaved programs explained by the order
      in which they touch the store.  UserLinearizability: any requests of
      user-service running side by side, with the rotations and the background
      goroutines of its [main], answer as one after another.
    - Interceptors: the handler with its interceptors against the handler
      alone, and the types of the answers.  Client: a call through the client
      stubs and a connection that delivers against a call of the handler, with
      marshalling as an interface ([Wire]): nil items arrive as empty ones, and
      a message that cannot be marshalled fails the call.
    - System: order-service over an environment in which its RPCs run the
      handlers of user-service; an order is created only for a stored user.
      The one message of that link is a GetUserRequest, a single string taken
      from a request that arrived, so it is delivered as it is.
      SystemConcurrency: goroutines of both services interleaved; without
      DeleteUser, every stored order is of a stored user in every reachable
      state; [order_of_deleted_user] shows why DeleteUser is left out.
      SystemHistory: with DeleteUser, every stored order is of a user that was
      stored at some moment of the run; a ghost record of the users is added to
      the world, and erased again.
    - LoadTest ([scripts/loadtest/main.go], the whole program);
      LoadTestProofs: the consumer and the report, whose percentiles are the
      nearest-rank ones, and the race between the two; LoadTestWorkers: what a
      virtual user sends on every run, and the accounts of the whole test;
      LoadTestRun: its goroutines side by side, with the blocking of the
      channel, the wait group and the locks of the statistics: none misuses
      them, one can go on until [main] ends or one panics, and every schedule
      ends.

    A goroutine started by [main] is a call [GoSpawn] in the trace of [main];
    its body is [Lifecycle.Common.goroutine].  Drain gives the call its effect.

    ** Bounds

    Handlers have no fuel: a program is a finite tree, and its loops run over
    request fields or delivered rows.  The two endless loops,
    [Vault.vault.refresher] and [Lifecycle.Common.monitorDBHealth], take the
    number of turns to run; the theorems about what they do hold for every
    number, and describe the trace turn by turn, and Drain's claim that a
    stopping process ends is for any number of their turns.  Where the end of
    a loop would matter to the requests, in Fairness, the loops are endless: a
    goroutine whose turn returned [true] starts the next one.  The loops of the
    load test, [loadtest.consumer] and [loadtest.worker_loop], take a number of
    results or turns; the theorems hold for every number of turns and for any
    number above that of the results, which in LoadTestRun is at most the turns
    of all virtual users together.
    The counts of the load test are below 2^45, where the binary64 percentile
    index is exact; an int64 counter could hold more.

    ** Not modelled

    The wire format and reflection data of protobuf, the gRPC transport, HTTP
    routing, SQL execution, TLS handshakes and Redis expiry are the libraries'
    own: they are calls, or parameters stated as interfaces. The serving loops
    of the HTTP and gRPC servers are library code; so are the options of
    [grpc.NewServer] other than the credentials and the interceptors. The server
    structs are their repository and client, which the handlers take as
    arguments. The goroutines of the load test are calls [GoLoad] in the trace
    of its [main], their bodies [loadtest.consumer] and [loadtest.worker].
    Blocking is modelled in Deadlock and Fairness, for the lock and the pools,
    in Drain, also for GracefulStop, and in LoadTestRun, for the load test (not
    the memory limit of its channel's buffer); the other interleavings have
    none, which only adds some, and the race of [LoadTestProofs.report_race]
    uses none of those. The SQL scripts, Envoy and deployment files configure
    other programs.

    Linearizability is proved for user-service, whose requests make one statement
    each.  order-service is not linearizable with its cache ([cancel_get_race]);
    OrderAnswers says what does hold of its answers.

    That answers arrive at all (liveness of PostgreSQL, Redis, Vault and the
    network) is assumed where a theorem says that something ends. *)
From stdpp Require Export base list option strings gmap pretty.
From Stdlib Require Export ZArith Lia.

Declare Scope go_scope.
Delimit Scope go_scope with go.

#[export] Set Default Goal Selector "!".

(** ** Values *)

(** A library call that returns [(v, nil)] or [(zero, err)]: exactly one of
    the two is meaningful.  Functions of the repository that may return
    [(nil, nil)] are modelled with a pair of options instead. *)
Inductive result (E A : Type) : Type :=
| Ok (a : A)
| Fail (e : E).
Arguments Ok {E A} a.
Arguments Fail {E A} e.

#[export] Instance result_eq_dec {E A} `{EqDecision E} `{EqDecision A} :
  EqDecision (result E A).
Proof. solve_decision. Defined.

(** How a Go function ends: it returns, or it panics with a message. *)
Inductive outcome (A : Type) : Type :=
| Returned (a : A)
| Panicked (msg : string).
Arguments Returned {A} a.
Arguments Panicked {A} msg.

Definition outcome_map {A B} (f : A → B) (o : outcome A) : outcome B :=
  match o with
  | Returned a => Returned (f a)
  | Panicked s => Panicked s
  end.

(** ** Machine integers

    Go's signed integers wrap around in two's complement. *)
Definition wrap_signed (bits : Z) (z : Z) : Z :=
  (z + 2 ^ (bits - 1)) `mod` 2 ^ bits - 2 ^ (bits - 1).

Definition to_int32 (z : Z) : Z := wrap_signed 32 z.
Definition to_int64 (z : Z) : Z := wrap_signed 64 z.

Definition is_int32 (z : Z) : Prop := (- 2147483648 ≤ z ≤ 2147483647)%Z.
Definition is_int64 (z : Z) : Prop :=
  (- 9223372036854775808 ≤ z ≤ 9223372036854775807)%Z.

(** Multiplication and subtraction on [int32]. *)
Definition mul32 (x y : Z) : Z := to_int32 (x * y).
Definition sub32 (x y : Z) : Z := to_int32 (x - y).
Definition mul64 (x y : Z) : Z := to_int64 (x * y).

Lemma to_int32_id z : is_int32 z → to_int32 z = z.
Proof.
  unfold is_int32, to_int32, wrap_signed. intros Hz.
  change (2 ^ (32 - 1))%Z with 2147483648%Z.
  change (2 ^ 32)%Z with 4294967296%Z.
  rewrite Z.mod_small; lia.
Qed.

Lemma to_int32_range z : is_int32 (to_int32 z).
Proof.
  unfold is_int32, to_int32, wrap_signed.
  change (2 ^ (32 - 1))%Z with 2147483648%Z.
  change (2 ^ 32)%Z with 4294967296%Z.
  pose proof (Z.mod_pos_bound (z + 2147483648) 4294967296). lia.
Qed.

Lemma to_int64_id z : is_int64 z → to_int64 z = z.
Proof.
  unfold is_int64, to_int64, wrap_signed. intros Hz.
  change (2 ^ (64 - 1))%Z with 9223372036854775808%Z.
  change (2 ^ 64)%Z with 18446744073709551616%Z.
  rewrite Z.mod_small; lia.
Qed.

Lemma to_int64_range z : is_int64 (to_int64 z).
Proof.
  unfold is_int64, to_int64, wrap_signed.
  change (2 ^ (64 - 1))%Z with 9223372036854775808%Z.
  change (2 ^ 64)%Z with 18446744073709551616%Z.
  pose proof (Z.mod_pos_bound (z + 9223372036854775808) 18446744073709551616).
  lia.
Qed.

Create HintDb go_ints.
#[export] Hint Resolve to_int32_range to_int64_range : go_ints.

(** ** Booleans and strings *)

Definition str_eqb (s t : string) : bool := bool_decide (s = t).

Lemma str_eqb_spec s t : reflect (s = t) (str_eqb s t).
Proof. apply bool_decide_reflect. Qed.

Lemma str_eqb_refl s : str_eqb s s = true.
Proof. by apply bool_decide_eq_true. Qed.

Lemma str_eqb_true s t : str_eqb s t = true ↔ s = t.
Proof. apply bool_decide_eq_true. Qed.

Lemma str_eqb_false s t : str_eqb s t = false ↔ s ≠ t.
Proof. apply bool_decide_eq_false. Qed.

(** ** Tactics *)

(** Case analysis on the innermost scrutinee of the goal or a hypothesis. *)
Ltac case_in_goal :=
  match goal with
  | |- context [match ?x with _ => _ end] =>
      lazymatch x with
      | context [match _ with _ => _ end] => fail
      | _ => let E := fresh "E" in destruct x eqn:E
      end
  end.

Ltac case_in_hyp H :=
  match type of H with
  | context [match ?x with _ => _ end] =>
      lazymatch x with
      | context [match _ with _ => _ end] => fail
      | _ => let E := fresh "E" in destruct x eqn:E
      end
  end.

Ltac str_cases :=
  repeat match goal with
  | H : str_eqb _ _ = true |- _ => apply str_eqb_true in H
  | H : str_eqb _ _ = false |- _ => apply str_eqb_false in H
  | |- str_eqb _ _ = true => apply str_eqb_true
  | |- str_eqb _ _ = false => apply str_eqb_false
  end.
