(* ===== verification/GoStrings.v ===== *)
(** * The parts of Go's [strings], [strconv], [fmt], [path] and [sort] the code uses

    A Go string is its sequence of bytes.  [TrimSpace] removes the UTF-8
    encodings of the code points [unicode.IsSpace] accepts; on valid and on
    invalid UTF-8 this is what decoding rune by rune from either end does,
    because each of these encodings is recognised by its bytes alone. *)
From S2P Require Import Prelude.
From Stdlib Require Import Ascii.
From stdpp Require Import sorting.

Definition bytes (s : string) : list ascii := String.list_ascii_of_string s.
Definition of_bytes (l : list ascii) : string := String.string_of_list_ascii l.

Lemma of_bytes_bytes s : of_bytes (bytes s) = s.
Proof. apply String.string_of_list_ascii_of_string. Qed.

Lemma bytes_of_bytes l : bytes (of_bytes l) = l.
Proof. apply String.list_ascii_of_string_of_list_ascii. Qed.

Lemma bytes_app s t : bytes (s +:+ t) = bytes s ++ bytes t.
Proof.
  induction s as [|c s IH]; [done|].
  change (String c s +:+ t) with (String c (s +:+ t)).
  change (c :: bytes (s +:+ t) = c :: (bytes s ++ bytes t)). by rewrite IH.
Qed.

#[export] Instance bytes_inj : Inj (=) (=) bytes.
Proof. intros s t Hst. by rewrite <-(of_bytes_bytes s), Hst, of_bytes_bytes. Qed.

(** ** strings.TrimSpace *)

Definition byte_val (c : ascii) : Z := Z.of_N (N_of_ascii c).

(** One-, two- and three-byte encodings of white space. *)
Definition space1 (a : ascii) : bool :=
  let a := byte_val a in ((9 <=? a) && (a <=? 13) || (a =? 32))%Z.
Definition space2 (a b : ascii) : bool :=
  let a := byte_val a in let b := byte_val b in
  ((a =? 0xC2) && ((b =? 0x85) || (b =? 0xA0)))%Z.
Definition space3 (a b c : ascii) : bool :=
  let a := byte_val a in let b := byte_val b in let c := byte_val c in
  ((a =? 0xE1) && (b =? 0x9A) && (c =? 0x80)
   || (a =? 0xE2) && (b =? 0x80) &&
        ((0x80 <=? c) && (c <=? 0x8A) || (c =? 0xA8) || (c =? 0xA9) || (c =? 0xAF))
   || (a =? 0xE2) && (b =? 0x81) && (c =? 0x9F)
   || (a =? 0xE3) && (b =? 0x80) && (c =? 0x80))%Z.

Section Trim.
Context (p1 : ascii → bool) (p2 : ascii → ascii → bool)
        (p3 : ascii → ascii → ascii → bool).

(** Number of bytes of the space at the head of [l], 0 if there is none. *)
Definition space_len (l : list ascii) : nat :=
  match l with
  | a :: l1 =>
      if p1 a then 1 else
      match l1 with
      | b :: l2 =>
          if p2 a b then 2 else
          match l2 with
          | c :: _ => if p3 a b c then 3 else 0
          | [] => 0
          end
      | [] => 0
      end
  | [] => 0
  end.

Fixpoint trim_prefix (l : list ascii) : list ascii :=
  match l with
  | a :: l1 =>
      if p1 a then trim_prefix l1 else
      match l1 with
      | b :: l2 =>
          if p2 a b then trim_prefix l2 else
          match l2 with
          | c :: l3 => if p3 a b c then trim_prefix l3 else l
          | [] => l
          end
      | [] => l
      end
  | [] => []
  end.

Lemma trim_prefix_step l :
  trim_prefix l = if decide (space_len l = 0) then l else trim_prefix (drop (space_len l) l).
Proof.
  destruct l as [|a [|b [|c l]]]; cbn; [done|..];
    repeat (case_match; cbn; try done).
Qed.


Lemma trim_prefix_suffix l : ∃ k, trim_prefix l = drop k l ∧ space_len (trim_prefix l) = 0.
Proof.
  induction l as [l IH] using (well_founded_induction (well_founded_ltof _ length)).
  unfold ltof in IH.
  rewrite trim_prefix_step. case_decide as Hs.
  - by exists 0.
  - destruct (IH (drop (space_len l) l)) as (k & Hk & Hz).
    + destruct l as [|a l]; [done|]. rewrite length_drop. cbn [length]. lia.
    + exists (space_len l + k). rewrite <-drop_drop. rewrite <-Hk. eauto.
Qed.

Lemma trim_prefix_fixed l : space_len l = 0 → trim_prefix l = l.
Proof. intros Hl. rewrite trim_prefix_step. by rewrite decide_True. Qed.

Lemma space_len_app l l' : space_len l ≠ 0 → space_len (l ++ l') ≠ 0.
Proof.
  destruct l as [|a [|b [|c l]]]; cbn; [done|..];
    repeat (case_match; cbn; try done).
Qed.
End Trim.

Definition trim_left : list ascii → list ascii := trim_prefix space1 space2 space3.
Definition trim_right (l : list ascii) : list ascii :=
  reverse (trim_prefix space1 (λ b a, space2 a b) (λ c b a, space3 a b c) (reverse l)).

Definition TrimSpace (s : string) : string := of_bytes (trim_right (trim_left (bytes s))).

(** No white space at either end. *)
Definition trimmed (s : string) : Prop :=
  space_len space1 space2 space3 (bytes s) = 0 ∧
  space_len space1 (λ b a, space2 a b) (λ c b a, space3 a b c) (reverse (bytes s)) = 0.

#[export] Instance trimmed_dec s : Decision (trimmed s).
Proof. unfold trimmed. apply _. Defined.

Lemma trim_right_prefix l : ∃ l', l = trim_right l ++ l'.
Proof.
  unfold trim_right.
  destruct (trim_prefix_suffix space1 (λ b a, space2 a b) (λ c b a, space3 a b c) (reverse l))
    as (k & -> & _).
  exists (reverse (take k (reverse l))).
  by rewrite <-reverse_app, take_drop, reverse_involutive.
Qed.

Lemma TrimSpace_trimmed s : trimmed (TrimSpace s).
Proof.
  unfold trimmed, TrimSpace. rewrite bytes_of_bytes. split.
  - destruct (trim_right_prefix (trim_left (bytes s))) as [l' Hl'].
    destruct (trim_prefix_suffix space1 space2 space3 (bytes s)) as (_ & _ & Hz).
    fold trim_left in Hz. rewrite Hl' in Hz.
    destruct (decide (space_len space1 space2 space3 (trim_right (trim_left (bytes s))) = 0))
      as [|Hn]; [done|].
    by apply (space_len_app _ _ _ _ l') in Hn.
  - unfold trim_right. rewrite reverse_involutive.
    by destruct (trim_prefix_suffix space1 (λ b a, space2 a b) (λ c b a, space3 a b c)
      (reverse (trim_left (bytes s)))) as (_ & _ & Hz).
Qed.

Lemma TrimSpace_id s : trimmed s → TrimSpace s = s.
Proof.
  intros [H1 H2]. unfold TrimSpace, trim_left, trim_right.
  rewrite (trim_prefix_fixed _ _ _ _ H1), (trim_prefix_fixed _ _ _ _ H2).
  by rewrite reverse_involutive, of_bytes_bytes.
Qed.

Lemma TrimSpace_idemp s : TrimSpace (TrimSpace s) = TrimSpace s.
Proof. apply TrimSpace_id, TrimSpace_trimmed. Qed.

Example TrimSpace_ex1 : TrimSpace "  a b	
" = "a b".
Proof. reflexivity. Qed.

Example TrimSpace_ex2 :
  TrimSpace (of_bytes (map ascii_of_nat [0xE2; 0x80; 0x83; 65; 0xC2; 0xA0])) = "A".
Proof. reflexivity. Qed.

(** ** strings.Contains, HasSuffix, TrimSuffix *)

Fixpoint is_prefix (p s : list ascii) : bool :=
  match p, s with
  | [], _ => true
  | a :: p', b :: s' => bool_decide (a = b) && is_prefix p' s'
  | _ :: _, [] => false
  end.

Fixpoint contains_bytes (sub s : list ascii) : bool :=
  is_prefix sub s ||
  match s with
  | [] => false
  | _ :: s' => contains_bytes sub s'
  end.

Definition Contains (s sub : string) : bool := contains_bytes (bytes sub) (bytes s).

Definition HasSuffix (s suf : string) : bool :=
  is_prefix (reverse (bytes suf)) (reverse (bytes s)).

Definition TrimSuffix (s suf : string) : string :=
  if HasSuffix s suf
  then of_bytes (take (length (bytes s) - length (bytes suf)) (bytes s))
  else s.

Lemma is_prefix_spec p s : is_prefix p s = true ↔ ∃ s', s = p ++ s'.
Proof.
  revert s. induction p as [|a p IH]; intros s; cbn.
  - split; [by exists s|done].
  - destruct s as [|b s]; [split; [done|by intros []]|].
    rewrite andb_true_iff, bool_decide_eq_true, IH. split.
    + intros [-> [s' ->]]. by exists s'.
    + intros [s' [= -> ->]]. eauto.
Qed.

Lemma contains_bytes_spec sub s :
  contains_bytes sub s = true ↔ ∃ s1 s2, s = s1 ++ sub ++ s2.
Proof.
  induction s as [|c s IH]; cbn; rewrite orb_true_iff, is_prefix_spec.
  - split.
    + intros [[s' Hs]|]; [|done]. by exists [], s'.
    + intros (s1 & s2 & Hs). left. exists [].
      symmetry in Hs. apply app_eq_nil in Hs as [-> Hs].
      apply app_eq_nil in Hs as [-> ->]. done.
  - rewrite IH. split.
    + intros [[s' Hs]|(s1 & s2 & ->)]; [by exists [], s'|by exists (c :: s1), s2].
    + intros (s1 & s2 & Hs). destruct s1 as [|c' s1]; [left; eauto|right].
      simplify_eq/=. eauto.
Qed.

Lemma Contains_spec s sub : Contains s sub = true ↔ ∃ a b, s = a +:+ sub +:+ b.
Proof.
  unfold Contains. rewrite contains_bytes_spec. split.
  - intros (s1 & s2 & Hs). exists (of_bytes s1), (of_bytes s2).
    apply (inj bytes). by rewrite !bytes_app, !bytes_of_bytes.
  - intros (a & b & ->). exists (bytes a), (bytes b). by rewrite !bytes_app.
Qed.

Lemma HasSuffix_spec s suf : HasSuffix s suf = true ↔ ∃ p, s = p +:+ suf.
Proof.
  unfold HasSuffix. rewrite is_prefix_spec. split.
  - intros (s' & Hs). exists (of_bytes (reverse s')).
    apply (inj bytes). rewrite bytes_app, bytes_of_bytes.
    rewrite <-(reverse_involutive (bytes s)), Hs, reverse_app.
    by rewrite reverse_involutive.
  - intros (p & ->). exists (reverse (bytes p)). by rewrite bytes_app, reverse_app.
Qed.

Lemma TrimSuffix_app p suf : TrimSuffix (p +:+ suf) suf = p.
Proof.
  unfold TrimSuffix. rewrite (proj2 (HasSuffix_spec _ _)); [|by exists p].
  rewrite bytes_app, length_app, Nat.add_sub, take_app_length. apply of_bytes_bytes.
Qed.

(** ** filepath.Ext and the glob pattern of the migrations *)

(** The suffix that starts at the last dot of the last path element. *)
Fixpoint ext_rev (l acc : list ascii) : list ascii :=
  match l with
  | [] => []
  | c :: l' =>
      if bool_decide (c = "/"%char) then []
      else if bool_decide (c = "."%char) then c :: acc
      else ext_rev l' (c :: acc)
  end.
Definition filepath_Ext (s : string) : string := of_bytes (ext_rev (reverse (bytes s)) []).

Example filepath_Ext_ex : filepath_Ext "000001_create_users.up.sql" = ".sql".
Proof. reflexivity. Qed.

(** [path.Match] with a pattern that is one star and a literal suffix: the
    star matches any sequence of bytes other than ['/']. *)
Definition glob_star (suf name : string) : bool :=
  HasSuffix name suf &&
  forallb (λ c, negb (bool_decide (c = "/"%char)))
    (take (length (bytes name) - length (bytes suf)) (bytes name)).

(** ** sort.Strings: the sorted permutation for byte-wise order *)

Definition sort_Strings (l : list string) : list string := merge_sort String.le l.

Lemma sort_Strings_perm l : sort_Strings l ≡ₚ l.
Proof. apply merge_sort_Permutation. Qed.

Lemma sort_Strings_sorted l : Sorted String.le (sort_Strings l).
Proof. apply (Sorted_merge_sort _). Qed.

(** ** fmt verbs and strconv.Atoi *)

(** [%d] *)
Definition fmt_d (z : Z) : string := pretty z.

#[export] Instance fmt_d_inj : Inj (=) (=) fmt_d.
Proof. unfold fmt_d. apply _. Qed.

Definition digit_val (c : ascii) : option Z :=
  let v := (byte_val c - 48)%Z in
  if ((0 <=? v) && (v <=? 9))%Z then Some v else None.

Fixpoint digits_val (l : list ascii) (acc : Z) : option Z :=
  match l with
  | [] => Some acc
  | c :: l' => d ← digit_val c; digits_val l' (10 * acc + d)%Z
  end.

(** [strconv.Atoi] on a 64-bit platform: an optional sign, at least one digit,
    nothing else, and a value that fits; [None] stands for its two errors. *)
Definition Atoi (s : string) : option Z :=
  let '(neg, ds) :=
    match bytes s with
    | c :: l => if bool_decide (c = "-"%char) then (true, l)
                else if bool_decide (c = "+"%char) then (false, l)
                else (false, c :: l)
    | [] => (false, [])
    end in
  match ds with
  | [] => None
  | _ =>
      v ← digits_val ds 0%Z;
      let v := if neg then (- v)%Z else v in
      if decide (is_int64 v) then Some v else None
  end.
