(* ===== verification/GoFloat.v ===== *)
(** * Go's [float64]

    IEEE 754 binary64 with round-to-nearest-even, as the Standard Library's
    executable specification defines it ([SpecFloat]: mantissa and exponent on
    integers, no primitive floats).  A product and a sum are two roundings: the
    compiler does not fuse them on amd64, the platform the services are built
    for. *)
From S2P Require Import Prelude.
From Stdlib Require Import Floats.SpecFloat.

Abbreviation float64 := spec_float.

Definition f64_prec : Z := 53.
Definition f64_emax : Z := 1024.

Definition f64_zero : float64 := S754_zero false.
Definition f64_nan : float64 := S754_nan.
Definition f64_inf : float64 := S754_infinity false.

(** [float64(n)] for an integer [n]. *)
Definition f64_of_int (n : Z) : float64 := binary_normalize f64_prec f64_emax n 0 false.

Definition f64_mul (x y : float64) : float64 := SFmul f64_prec f64_emax x y.
Definition f64_add (x y : float64) : float64 := SFadd f64_prec f64_emax x y.

(** [x < y]: false as soon as one of the two is a NaN. *)
Definition f64_ltb (x y : float64) : bool := SFltb x y.

#[export] Instance float64_eq_dec : EqDecision float64.
Proof. solve_decision. Defined.

Definition f64_is_nan (x : float64) : bool :=
  match x with S754_nan => true | _ => false end.

(** Zero of either sign, positive finite or positive infinite. *)
Definition f64_nonneg (x : float64) : bool :=
  match x with
  | S754_zero _ => true
  | S754_infinity s | S754_finite s _ _ => negb s
  | S754_nan => false
  end.

(** Strictly positive and finite. *)
Definition f64_pos_fin (x : float64) : bool :=
  match x with
  | S754_finite s _ _ => negb s
  | _ => false
  end.

Lemma f64_ltb_zero x : f64_ltb x f64_zero = negb (f64_nonneg x || f64_is_nan x).
Proof. by destruct x as [[]|[]| |[]]. Qed.

(** ** The sign of rounded results *)

Lemma shr_1_nonneg mrs : (0 ≤ shr_m mrs)%Z → (0 ≤ shr_m (shr_1 mrs))%Z.
Proof. by destruct mrs as [[|[]|[]] r s]. Qed.

Lemma iter_pos_nonneg n mrs :
  (0 ≤ shr_m mrs)%Z → (0 ≤ shr_m (iter_pos shr_1 n mrs))%Z.
Proof.
  revert mrs. induction n as [n IH|n IH|]; intros mrs Hm; cbn;
    auto using shr_1_nonneg.
Qed.

Lemma shr_nonneg mrs e n : (0 ≤ shr_m mrs)%Z → (0 ≤ shr_m (shr mrs e n).1)%Z.
Proof. destruct n; cbn; auto using iter_pos_nonneg. Qed.

Lemma shr_record_of_loc_m m l : shr_m (shr_record_of_loc m l) = m.
Proof. by destruct l as [|[]]. Qed.

Lemma shr_fexp_nonneg p em m e l : (0 ≤ m)%Z → (0 ≤ shr_m (shr_fexp p em m e l).1)%Z.
Proof. intros Hm. apply shr_nonneg. by rewrite shr_record_of_loc_m. Qed.

Lemma round_nearest_even_nonneg m l : (0 ≤ m)%Z → (0 ≤ round_nearest_even m l)%Z.
Proof. intros Hm. destruct l as [|[]]; cbn; try case_match; lia. Qed.

(** Rounding a non-negative mantissa keeps the sign and does not make a NaN. *)
Lemma binary_round_aux_sign p em s m e l :
  (0 ≤ m)%Z →
  match binary_round_aux p em s m e l with
  | S754_zero s' | S754_infinity s' | S754_finite s' _ _ => s' = s
  | S754_nan => False
  end.
Proof.
  intros Hm. unfold binary_round_aux.
  destruct (shr_fexp p em m e l) as [mrs e1] eqn:E1.
  assert (0 ≤ shr_m mrs)%Z as H1.
  { change mrs with (mrs, e1).1. rewrite <-E1. by apply shr_fexp_nonneg. }
  destruct (shr_fexp p em _ e1 loc_Exact) as [mrs2 e2] eqn:E2.
  assert (0 ≤ shr_m mrs2)%Z as H2.
  { change mrs2 with (mrs2, e2).1. rewrite <-E2.
    by apply shr_fexp_nonneg, round_nearest_even_nonneg. }
  destruct (shr_m mrs2); [done| |lia]. by destruct (Z.leb _ _).
Qed.

Lemma binary_normalize_nonneg p em m e :
  (0 ≤ m)%Z → f64_nonneg (binary_normalize p em m e false) = true.
Proof.
  intros Hm. destruct m as [|m|]; [done| |lia]. cbn. unfold binary_round.
  destruct (shl_align _ _ _) as [mz ez].
  pose proof (binary_round_aux_sign p em false (Z.pos mz) ez loc_Exact ltac:(lia)) as Hs.
  by destruct (binary_round_aux _ _ _ _ _ _); cbn in Hs |- *; subst.
Qed.

Lemma f64_mul_nonneg x y :
  f64_pos_fin x = true → f64_nonneg y = true → f64_nonneg (f64_mul x y) = true.
Proof.
  destruct x as [| | |[] mx ex]; try done. intros _.
  destruct y as [|[]| |[] my ey]; try done. intros _. cbn.
  pose proof (binary_round_aux_sign f64_prec f64_emax false (Z.pos (mx * my)) (ex + ey)
    loc_Exact ltac:(lia)) as Hs.
  by destruct (binary_round_aux _ _ _ _ _ _); cbn in Hs |- *; subst.
Qed.

Lemma f64_add_nonneg x y :
  f64_nonneg x = true → f64_nonneg y = true → f64_nonneg (f64_add x y) = true.
Proof.
  destruct x as [[]|[]| |[] mx ex]; destruct y as [[]|[]| |[] my ey]; try done.
  intros _ _. cbn [f64_add]. apply binary_normalize_nonneg. cbn. lia.
Qed.

Lemma f64_mul_nan x y :
  f64_pos_fin x = true → f64_is_nan (f64_mul x y) = f64_is_nan y.
Proof.
  destruct x as [| | |[] mx ex]; try done. intros _.
  destruct y as [| | |s my ey]; try done. cbn.
  pose proof (binary_round_aux_sign f64_prec f64_emax s (Z.pos (mx * my)) (ex + ey)
    loc_Exact ltac:(lia)) as Hs.
  by destruct s; destruct (binary_round_aux _ _ _ _ _ _).
Qed.

(** ** Rounding, and small integers *)

Lemma digits2_pos_iter_xO m n :
  digits2_pos (Pos.iter xO m n) = (digits2_pos m + n)%positive.
Proof.
  induction n as [|n IH] using Pos.peano_ind; cbn; [lia|].
  rewrite Pos.iter_succ. cbn. rewrite IH. lia.
Qed.

Lemma digits2_pos_bound m : (2 ^ (Zpos (digits2_pos m) - 1) ≤ Zpos m)%Z.
Proof.
  induction m as [m IH|m IH|]; cbn [digits2_pos]; [..|done];
    rewrite Pos2Z.inj_succ, Z.sub_succ_l, <-Z.add_1_r, Z.sub_add;
    replace (Z.pos (digits2_pos m)) with (1 + (Z.pos (digits2_pos m) - 1))%Z by lia;
    rewrite Z.pow_add_r; lia.
Qed.

Lemma digits2_pos_small m n : (0 < n)%Z → (Zpos m < 2 ^ n)%Z → (Zpos (digits2_pos m) ≤ n)%Z.
Proof.
  intros Hn Hm. destruct (Z.le_gt_cases (Zpos (digits2_pos m)) n) as [|Hgt]; [done|].
  pose proof (digits2_pos_bound m).
  pose proof (Z.pow_le_mono_r 2 n (Zpos (digits2_pos m) - 1)). lia.
Qed.

Lemma digits2_pos_upper m : (Zpos m < 2 ^ Zpos (digits2_pos m))%Z.
Proof.
  induction m as [m IH|m IH|]; cbn [digits2_pos]; [..|done];
    rewrite Pos2Z.inj_succ, Z.pow_succ_r by lia; lia.
Qed.

(** [n] bits shifted out of [mrs0]: the rest, which half of the last place it
    is in, and whether it is exactly nothing or a half. *)
Definition shifted (mrs0 : shr_record) (n : Z) (mrs : shr_record) : Prop :=
  ∃ rest, (shr_m mrs0 = shr_m mrs * 2 ^ n + rest ∧ 0 ≤ rest < 2 ^ n ∧ 0 ≤ shr_m mrs ∧
    (if shr_r mrs then 2 ^ n ≤ 2 * rest else 2 * rest < 2 ^ n) ∧
    (shr_s mrs = false → shr_r mrs0 = false ∧ shr_s mrs0 = false ∧
       2 * rest = if shr_r mrs then 2 ^ n else 0))%Z.

Lemma shifted_1 mrs : (0 ≤ shr_m mrs)%Z → shifted mrs 1 (shr_1 mrs).
Proof.
  destruct mrs as [[|[p|p|]|p] r s]; intros Hm; cbn in Hm; try lia.
  - exists 0%Z. destruct r, s; cbn; split_and!; lia || done.
  - exists 1%Z. destruct r, s; cbn; split_and!; lia || done.
  - exists 0%Z. destruct r, s; cbn; split_and!; lia || done.
  - exists 1%Z. destruct r, s; cbn; split_and!; lia || done.
Qed.

Lemma shifted_trans mrs0 n1 n2 mrs1 mrs2 :
  (1 ≤ n1)%Z → (1 ≤ n2)%Z → shifted mrs0 n1 mrs1 → shifted mrs1 n2 mrs2 → shifted mrs0 (n1 + n2) mrs2.
Proof.
  intros H1 H2 (r1 & E1 & B1 & _ & _ & S1) (r2 & E2 & B2 & P2 & Hr & S2).
  exists (r2 * 2 ^ n1 + r1)%Z. rewrite Z.pow_add_r by lia.
  assert (2 ^ n2 = 2 * 2 ^ (n2 - 1))%Z as E by (rewrite <-Z.pow_succ_r by lia; f_equal; lia).
  assert (0 < 2 ^ n1)%Z by lia. assert (0 < 2 ^ (n2 - 1))%Z by (apply Z.pow_pos_nonneg; lia).
  split; [rewrite E1, E2 at 1; ring|]. split; [nia|]. split; [done|]. split.
  - destruct (shr_r mrs2); [nia|]. rewrite E in *. nia.
  - intros Hs. destruct (S2 Hs) as (Hr1 & Hs1 & Hh). destruct (S1 Hs1) as (? & ? & Hz).
    rewrite Hr1 in Hz. split; [done|]. split; [done|]. destruct (shr_r mrs2); nia.
Qed.

Lemma iter_shifted p mrs : (0 ≤ shr_m mrs)%Z → shifted mrs (Zpos p) (iter_pos shr_1 p mrs).
Proof.
  revert mrs. induction p as [p IH|p IH|]; intros mrs Hm; cbn [iter_pos].
  - pose proof (shifted_1 mrs Hm) as S1. destruct (S1) as (? & _ & _ & P1 & _).
    pose proof (IH _ P1) as S2. destruct (S2) as (? & _ & _ & P2 & _). pose proof (IH _ P2) as S3.
    replace (Z.pos p~1) with (1 + Z.pos p + Z.pos p)%Z by lia.
    eapply shifted_trans; [lia|lia| |exact S3]. by eapply shifted_trans; [lia|lia|exact S1|].
  - pose proof (IH _ Hm) as S2. destruct (S2) as (? & _ & _ & P2 & _). pose proof (IH _ P2) as S3.
    replace (Z.pos p~0) with (Z.pos p + Z.pos p)%Z by lia.
    by eapply shifted_trans; [lia|lia|exact S2|].
  - by apply shifted_1.
Qed.

(** Rounding to nearest is at most half a unit in the last place away. *)
Lemma round_near n mrs0 mrs :
  (1 ≤ n)%Z → shifted mrs0 n mrs →
  let q := round_nearest_even (shr_m mrs) (loc_of_shr_record mrs) in
  (- 2 ^ n ≤ 2 * (q * 2 ^ n - shr_m mrs0) ≤ 2 ^ n ∧ shr_m mrs ≤ q ≤ shr_m mrs + 1)%Z.
Proof.
  intros Hn (r & -> & B & P & Hr & Hs). destruct mrs as [q [] []]; cbn in *.
  - nia.
  - destruct (Hs eq_refl) as (_ & _ & ?). destruct (Z.even q); nia.
  - nia.
  - nia.
Qed.

(** *** The product of two binary64 mantissas *)

Lemma Zdigits2_bounds m d : (2 ^ (d - 1) ≤ m < 2 ^ d)%Z → (1 ≤ d)%Z → Zdigits2 m = d.
Proof.
  intros [Hl Hu] Hd. assert (0 < 2 ^ (d - 1))%Z by (apply Z.pow_pos_nonneg; lia).
  destruct m as [|m|m]; try lia. cbn [Zdigits2].
  pose proof (digits2_pos_bound m). pose proof (digits2_pos_upper m).
  assert (¬ (Z.pos (digits2_pos m) < d)%Z).
  { intros Hlt. pose proof (Z.pow_le_mono_r 2 (Z.pos (digits2_pos m)) (d - 1)). lia. }
  assert (¬ (d < Z.pos (digits2_pos m))%Z); [|lia].
  intros Hlt. pose proof (Z.pow_le_mono_r 2 d (Z.pos (digits2_pos m) - 1)). lia.
Qed.

(** A mantissa of [53 + sh] bits is rounded to one of 53 bits, at most half a
    unit away. *)
Lemma round_aux_near s m e sh :
  (1 ≤ sh)%Z → (2 ^ (52 + sh) ≤ m < 2 ^ (53 + sh))%Z → (-1074 ≤ e + sh)%Z → (e + sh < 971)%Z →
  ∃ q m' e', binary_round_aux f64_prec f64_emax s m e loc_Exact = S754_finite s m' e' ∧
    (2 ^ 52 ≤ q ≤ 2 ^ 53)%Z ∧ (- 2 ^ sh ≤ 2 * (q * 2 ^ sh - m) ≤ 2 ^ sh)%Z ∧
    (Zpos m' = q ∧ e' = e + sh ∨ 2 * Zpos m' = q ∧ e' = e + sh + 1)%Z.
Proof.
  intros Hsh Hm He1 He2. unfold binary_round_aux.
  assert (fexp f64_prec f64_emax (Zdigits2 m + e) - e = sh)%Z as Hf.
  { rewrite (Zdigits2_bounds m (53 + sh)); [|by replace (53 + sh - 1)%Z with (52 + sh)%Z by lia|lia].
    unfold fexp, emin, f64_prec, f64_emax. lia. }
  unfold shr_fexp at 1. rewrite Hf. cbn [shr_record_of_loc].
  destruct sh as [|p|]; try lia. cbn [shr].
  pose proof (iter_shifted p (Build_shr_record m false false)) as Hit. cbn [shr_m] in Hit.
  assert (0 < 2 ^ (52 + Z.pos p))%Z by (apply Z.pow_pos_nonneg; lia).
  specialize (Hit ltac:(lia)). set (mrs := iter_pos shr_1 p _) in *.
  pose proof (round_near _ _ _ Hsh Hit) as Hr. cbn [shr_m] in Hr.
  set (q := round_nearest_even (shr_m mrs) (loc_of_shr_record mrs)) in *. cbn zeta in Hr.
  destruct Hr as [Hnear Hq].
  assert (2 ^ 52 ≤ q ≤ 2 ^ 53)%Z as Hqb.
  { destruct Hit as (rest & E & B & P & _). cbn [shr_m] in E.
    rewrite !Z.pow_add_r in Hm by lia.
    assert (2 ^ 52 ≤ shr_m mrs < 2 ^ 53)%Z; [|lia]. change (2 ^ 53)%Z with (2 * 2 ^ 52)%Z in *. nia. }
  exists q. unfold shr_fexp. cbn [shr_record_of_loc].
  destruct (decide (q = 2 ^ 53)%Z) as [Hq53|Hq53].
  - rewrite Hq53. cbn [Zdigits2].
    replace (fexp f64_prec f64_emax (Zdigits2 (2 ^ 53) + (e + Z.pos p)) - (e + Z.pos p))%Z with 1%Z
      by (change (Zdigits2 (2 ^ 53)) with 54%Z; unfold fexp, emin, f64_prec, f64_emax; lia).
    change (shr _ _ 1%Z) with (shr_1 (Build_shr_record (2 ^ 53) false false), (e + Z.pos p + 1)%Z).
    cbn [shr_m shr_1]. rewrite (proj2 (Z.leb_le _ _)); [|unfold f64_prec, f64_emax; lia].
    do 2 eexists. split; [reflexivity|]. split_and!; [lia..|]. right. lia.
  - replace (fexp f64_prec f64_emax (Zdigits2 q + (e + Z.pos p)) - (e + Z.pos p))%Z with 0%Z.
    2: { rewrite (Zdigits2_bounds q 53) by (change (53 - 1)%Z with 52%Z; lia).
         unfold fexp, emin, f64_prec, f64_emax. lia. }
    cbn [shr shr_m]. destruct q as [|q'|]; try lia.
    rewrite (proj2 (Z.leb_le _ _)); [|unfold f64_prec, f64_emax; lia].
    do 2 eexists. split; [reflexivity|]. split_and!; [lia..|]. by left.
Qed.

(** A small positive integer is represented exactly, with a full mantissa. *)
Lemma f64_of_int_form n :
  (0 < n)%Z → (n < 2 ^ 52)%Z →
  ∃ m p, f64_of_int n = S754_finite false m (- p) ∧ (1 ≤ p)%Z ∧
    Zpos m = (n * 2 ^ p)%Z ∧ (2 ^ 52 ≤ n * 2 ^ p < 2 ^ 53)%Z.
Proof.
  intros Hn Hlt. destruct n as [|m|]; [lia| |lia].
  pose proof (digits2_pos_small m 52 ltac:(lia) Hlt) as Hd.
  pose proof (digits2_pos_bound m) as Hl. pose proof (digits2_pos_upper m) as Hu.
  unfold f64_of_int, binary_normalize, binary_round.
  assert (fexp f64_prec f64_emax (Z.pos (digits2_pos m) + 0) = Z.pos (digits2_pos m) - 53)%Z as ->.
  { unfold fexp, emin, f64_prec, f64_emax. lia. }
  unfold shl_align.
  destruct (Z.pos (digits2_pos m) - 53 - 0)%Z as [|p|p] eqn:Ep; [lia..|].
  assert (Z.pos (Pos.iter xO m p) = Z.pos m * 2 ^ Z.pos p)%Z as Hiter.
  { clear. induction p as [|p IH] using Pos.peano_ind; [cbn; lia|].
    rewrite Pos.iter_succ, Pos2Z.inj_succ, Z.pow_succ_r by lia. cbn. lia. }
  assert (2 ^ 52 ≤ Z.pos m * 2 ^ Z.pos p < 2 ^ 53)%Z as Hb.
  { replace 52%Z with (Z.pos (digits2_pos m) - 1 + Z.pos p)%Z by lia.
    replace 53%Z with (Z.pos (digits2_pos m) + Z.pos p)%Z by lia.
    rewrite !Z.pow_add_r by lia. assert (0 < 2 ^ Z.pos p)%Z by lia. nia. }
  exists (Pos.iter xO m p), (Z.pos p). split_and!; [|lia|exact Hiter|lia|lia].
  unfold binary_round_aux, shr_fexp.
  assert (fexp f64_prec f64_emax
    (Zdigits2 (Z.pos (Pos.iter xO m p)) + (Z.pos (digits2_pos m) - 53))
    - (Z.pos (digits2_pos m) - 53) = 0)%Z as Hz.
  { unfold fexp, emin, f64_prec, f64_emax. cbn [Zdigits2].
    rewrite digits2_pos_iter_xO. lia. }
  rewrite Hz. cbn [shr shr_record_of_loc loc_of_shr_record round_nearest_even shr_m].
  rewrite Hz. cbn [shr shr_record_of_loc shr_m].
  rewrite (proj2 (Z.leb_le _ _)); [|unfold f64_prec, f64_emax; lia].
  f_equal. lia.
Qed.

(** ** Division, rounding up and conversion to an integer *)

Definition f64_div (x y : float64) : float64 := SFdiv f64_prec f64_emax x y.

(** [math.Ceil]. *)
Definition f64_Ceil (x : float64) : float64 :=
  match x with
  | S754_finite s m e =>
      if (0 <=? e)%Z then x
      else
        let z := (if s then - Zpos m else Zpos m)%Z in
        let c := (- (- z / 2 ^ (- e)))%Z in
        if (c =? 0)%Z then S754_zero s else f64_of_int c
  | _ => x
  end.

(** [int(x)], which truncates; a value outside of the range gives the smallest
    integer on amd64. *)
Definition f64_int (x : float64) : Z :=
  match x with
  | S754_zero _ => 0
  | S754_finite s m e =>
      let z := (if s then - Zpos m else Zpos m)%Z in
      let t := (if 0 <=? e then z * 2 ^ e else Z.quot z (2 ^ (- e)))%Z in
      if (to_int64 t =? t)%Z then t else (- 2 ^ 63)%Z
  | _ => (- 2 ^ 63)%Z
  end.

Lemma f64_int_of_int c : (0 < c)%Z → (c < 2 ^ 52)%Z → f64_int (f64_of_int c) = c.
Proof.
  intros H0 H1. destruct (f64_of_int_form c H0 H1) as (m & p & -> & Hp & Hm & _).
  unfold f64_int. rewrite Hm. destruct (Z.leb_spec 0 (- p)) as [|_]; [lia|].
  rewrite Z.opp_involutive, Z.quot_mul by (apply Z.pow_nonzero; lia).
  rewrite to_int64_id, Z.eqb_refl; [done|]. unfold is_int64. lia.
Qed.

Lemma ceil_div_unique z k c :
  (0 < k)%Z → ((c - 1) * k < z ≤ c * k)%Z → (- (- z / k) = c)%Z.
Proof.
  intros Hk Hz. pose proof (Z.div_mod (- z) k ltac:(lia)). pose proof (Z.mod_pos_bound (- z) k Hk). nia.
Qed.

Lemma f64_int_Ceil m e c :
  (e < 0)%Z → (0 < c)%Z → (c < 2 ^ 52)%Z → ((c - 1) * 2 ^ (- e) < Zpos m ≤ c * 2 ^ (- e))%Z →
  f64_int (f64_Ceil (S754_finite false m e)) = c.
Proof.
  intros He H0 H1 Hm. unfold f64_Ceil. destruct (Z.leb_spec 0 e) as [|_]; [lia|].
  rewrite (ceil_div_unique (Zpos m) (2 ^ (- e)) c) by (try done; apply Z.pow_pos_nonneg; lia).
  destruct (Z.eqb_spec c 0) as [|_]; [lia|]. by apply f64_int_of_int.
Qed.

(** The rounded product lies between the same integers as the fraction. *)
Lemma rounded_between n a b c q P S D M m :
  (0 < a < b)%Z → (b ≤ 100)%Z → (b * m = a * 2 ^ 53 - 8)%Z → (0 < n < 2 ^ 45)%Z →
  (b * (c - 1) < a * n ≤ b * c)%Z → (256 ≤ P)%Z → (0 < S ≤ 2 ^ 53)%Z → (0 < D)%Z →
  (P * 2 ^ 53 = D * S)%Z → (M = n * P * m)%Z → (- S ≤ 2 * (q * S - M) ≤ S)%Z →
  ((c - 1) * D < q ≤ c * D)%Z.
Proof.
  intros Hab Hb Hm Hn Hc HP HS HD HPD -> Hq.
  assert (b * (n * P * m) = P * (n * (a * 2 ^ 53 - 8)))%Z as HM by (rewrite <-Hm; ring).
  assert (b * ((c - 1) * D * S) = P * (2 ^ 53 * (b * (c - 1))))%Z as HL.
  { transitivity (b * (c - 1) * (D * S))%Z; [ring|]. rewrite <-HPD. ring. }
  assert (b * (c * D * S) = P * (2 ^ 53 * (b * c)))%Z as HU.
  { transitivity (b * c * (D * S))%Z; [ring|]. rewrite <-HPD. ring. }
  assert (P * (n * (a * 2 ^ 53 - 8)) ≤ P * (2 ^ 53 * (b * c)))%Z as H1 by nia.
  assert (P * (2 ^ 53 - 8 * n) ≤ P * (n * (a * 2 ^ 53 - 8)) - P * (2 ^ 53 * (b * (c - 1))))%Z as H2 by nia.
  assert (b * S < 2 * (P * (2 ^ 53 - 8 * n)))%Z as H3 by nia.
  assert (n * P * m ≤ c * D * S)%Z as H4 by nia.
  assert (b * S < 2 * (b * (n * P * m) - b * ((c - 1) * D * S)))%Z as H5 by lia.
  assert (S < 2 * (n * P * m - (c - 1) * D * S))%Z as H6 by nia.
  split; nia.
Qed.

(** [int(math.Ceil(float64(n) * c))] for a constant [c] that is [8/2^53/b] below
    the fraction [a/b]: the rounding hides that, so the result is the fraction
    of [n] rounded up. *)
Lemma ceil_fraction n a b m :
  (0 < a < b)%Z → (b ≤ 100)%Z → (b * Zpos m = a * 2 ^ 53 - 8)%Z → (2 ^ 52 ≤ Zpos m < 2 ^ 53)%Z →
  (0 < n)%Z → (n < 2 ^ 45)%Z →
  let c := f64_int (f64_Ceil (f64_mul (f64_of_int n) (S754_finite false m (-53)))) in
  (b * (c - 1) < a * n ≤ b * c)%Z.
Proof.
  intros Hab Hb100 Hm Hmb Hn Hlt.
  destruct (f64_of_int_form n Hn ltac:(lia)) as (mn & p & -> & Hp & Hmn & Hmnb).
  assert (8 ≤ p ≤ 52)%Z as Hp8.
  { split.
    - destruct (Z.le_gt_cases 8 p) as [|Hgt]; [done|].
      pose proof (Z.pow_le_mono_r 2 p 7 ltac:(lia) ltac:(lia)). nia.
    - destruct (Z.le_gt_cases p 52) as [|Hgt]; [done|].
      pose proof (Z.pow_le_mono_r 2 53 p ltac:(lia) ltac:(lia)). nia. }
  assert (∃ c, b * (c - 1) < a * n ≤ b * c)%Z as [c Hc].
  { exists (- (- (a * n) / b))%Z. pose proof (Z.div_mod (- (a * n)) b ltac:(lia)).
    pose proof (Z.mod_pos_bound (- (a * n)) b ltac:(lia)). lia. }
  assert (0 < c < 2 ^ 52)%Z as Hc0 by nia.
  cbn zeta. enough (f64_int (f64_Ceil (f64_mul (S754_finite false mn (- p)) (S754_finite false m (-53)))) = c)
    as -> by exact Hc.
  unfold f64_mul, SFmul. cbn [xorb].
  assert (∃ sh, 52 ≤ sh ≤ 53 ∧ 2 ^ (52 + sh) ≤ Z.pos (mn * m) < 2 ^ (53 + sh))%Z as (sh & Hsh & HM).
  { rewrite Pos2Z.inj_mul, Hmn. destruct (Z.lt_ge_cases (n * 2 ^ p * Z.pos m) (2 ^ 105)).
    - exists 52%Z. split; [lia|]. change (2 ^ (52 + 52))%Z with (2 ^ 52 * 2 ^ 52)%Z.
      change (2 ^ (53 + 52))%Z with (2 ^ 105)%Z. nia.
    - exists 53%Z. split; [lia|]. change (2 ^ (52 + 53))%Z with (2 ^ 105)%Z.
      change (2 ^ (53 + 53))%Z with (2 ^ 53 * 2 ^ 53)%Z. nia. }
  destruct (round_aux_near false (Z.pos (mn * m)) (- p + -53) sh ltac:(lia) HM ltac:(lia) ltac:(lia))
    as (q & m' & e' & -> & Hqb & Hq & Hcase).
  set (d := (p + 53 - sh)%Z). assert (8 ≤ d)%Z as Hd by (unfold d; lia).
  assert ((c - 1) * 2 ^ d < q ≤ c * 2 ^ d)%Z as Hbt.
  { eapply (rounded_between n a b c q (2 ^ p) (2 ^ sh) (2 ^ d) (Z.pos (mn * m)) (Z.pos m)); try done.
    - change 256%Z with (2 ^ 8)%Z. apply Z.pow_le_mono_r; lia.
    - split; [apply Z.pow_pos_nonneg; lia|apply Z.pow_le_mono_r; lia].
    - apply Z.pow_pos_nonneg; lia.
    - unfold d. rewrite <-!Z.pow_add_r by lia. f_equal. lia.
    - by rewrite Pos2Z.inj_mul, Hmn. }
  destruct Hcase as [[Hm' ->]|[Hm' ->]].
  - apply f64_int_Ceil; [lia..|]. rewrite Hm'. by replace (- (- p + -53 + sh))%Z with d by (unfold d; lia).
  - apply f64_int_Ceil; [lia..|]. replace (- (- p + -53 + sh + 1))%Z with (d - 1)%Z by (unfold d; lia).
    replace (2 ^ d)%Z with (2 * 2 ^ (d - 1))%Z in Hbt by (rewrite <-Z.pow_succ_r by lia; f_equal; lia).
    lia.
Qed.

Lemma f64_of_int_pos_fin n :
  (0 < n)%Z → (n < 2 ^ 52)%Z → f64_pos_fin (f64_of_int n) = true.
Proof. intros Hn Hlt. by destruct (f64_of_int_form n Hn Hlt) as (m & p & -> & _). Qed.

Example f64_ex : f64_add f64_zero (f64_mul (f64_of_int 2) (S754_finite false 31 (-1))) = f64_of_int 31.
Proof. vm_compute. reflexivity. Qed.
