(* ===== verification/GoRuntime.v ===== *)
(** * Go programs as trees of calls

    A handler of the repository is a sequential Go function that computes,
    calls code the repository does not contain (the database driver, Redis,
    gRPC, the clock, the logger ...) and may panic.  [prog] is the type of such
    functions: a finite tree whose nodes are calls and whose branches are the
    answers.  The tree fixes what the code does for every answer it can get, so
    the same definition is used
    - with [exec], which relates a program to its possible traces, whatever the
      environment answers;
    - with [run], which executes it against a concrete environment;
    - with [tstep], which interleaves several programs call by call.

    Deferred calls, [recover] and loops with early return are defined on the
    tree. *)
From S2P Require Import Prelude.

Section Prog.
Context {C : Type} {res : C → Type}.

Inductive prog (A : Type) : Type :=
| Ret (a : A)
| Panic (msg : string)
| Call (c : C) (k : res c → prog A).
#[local] Arguments Ret {A} a.
#[local] Arguments Panic {A} msg.
#[local] Arguments Call {A} c k.

#[global] Instance prog_ret : MRet prog := @Ret.

#[global] Instance prog_bind : MBind prog := λ A B f,
  fix bind (p : prog A) : prog B :=
    match p with
    | Ret a => f a
    | Panic s => Panic s
    | Call c k => Call c (λ r, bind (k r))
    end.

(** One call, returning its answer. *)
Definition call (c : C) : prog (res c) := Call c Ret.

(** [defer d; body]: [d] runs when [body] ends, also when it panics. *)
Fixpoint with_defer {A} (d : prog unit) (p : prog A) : prog A :=
  match p with
  | Ret a => d ≫= λ _, Ret a
  | Panic s => d ≫= λ _, Panic s
  | Call c k => Call c (λ r, with_defer d (k r))
  end.

(** [defer func() { if r := recover(); r != nil { h(r) } }()]. *)
Fixpoint with_recover {A} (h : string → prog A) (p : prog A) : prog A :=
  match p with
  | Ret a => Ret a
  | Panic s => h s
  | Call c k => Call c (λ r, with_recover h (k r))
  end.

(** Use of a pointer that may be nil. *)
Definition deref {A} (x : option A) : prog A :=
  match x with
  | Some a => Ret a
  | None => Panic "invalid memory address or nil pointer dereference"
  end.

(** [for i, x := range xs { body }] from index [i] on; [body] answers
    [Some r] to return [r] from the enclosing function. *)
Fixpoint for_range {X R} (i : nat) (xs : list X)
    (body : nat → X → prog (option R)) : prog (option R) :=
  match xs with
  | [] => Ret None
  | x :: xs' =>
      body i x ≫= λ o,
      match o with
      | Some r => Ret (Some r)
      | None => for_range (S i) xs' body
      end
  end.

(** ** Traces *)

Inductive event : Type := Ev (c : C) (r : res c).

(** [exec p tr o]: some environment answers the calls of [p] as in [tr], and
    [p] then ends with [o]. *)
Fixpoint exec {A} (p : prog A) (tr : list event) (o : outcome A) : Prop :=
  match p with
  | Ret a => tr = [] ∧ o = Returned a
  | Panic s => tr = [] ∧ o = Panicked s
  | Call c k => ∃ r tr', tr = Ev c r :: tr' ∧ exec (k r) tr' o
  end.

Lemma exec_bind {A B} (f : A → prog B) (p : prog A) tr o :
  exec (p ≫= f) tr o ↔
    (∃ tr1 a tr2, tr = tr1 ++ tr2 ∧ exec p tr1 (Returned a) ∧ exec (f a) tr2 o) ∨
    (∃ s, exec p tr (Panicked s) ∧ o = Panicked s).
Proof.
  unfold mbind. revert tr.
  induction p as [a|s|c k IH]; intros tr; cbn.
  - split.
    + intros He. left. by exists [], a, tr.
    + intros [(tr1 & b & tr2 & -> & [-> [= <-]] & He)|(s & [_ ?] & _)]; done.
  - split.
    + intros [-> ->]. right. by exists s.
    + intros [(tr1 & b & tr2 & _ & [_ ?] & _)|(s' & [-> [= <-]] & ->)]; done.
  - split.
    + intros (r & tr' & -> & He). apply IH in He.
      destruct He as [(tr1 & a & tr2 & -> & H1 & H2)|(s & He & ->)].
      * left. exists (Ev c r :: tr1), a, tr2. eauto 10.
      * right. eauto 10.
    + intros [(tr1 & a & tr2 & -> & (r & tr' & -> & H1) & H2)
             |(s & (r & tr' & -> & He) & ->)];
        exists r; eexists; (split; [done|]); apply IH; eauto 10.
Qed.

Lemma exec_call_bind {A} c (f : res c → prog A) tr o :
  exec (call c ≫= f) tr o ↔ ∃ r tr', tr = Ev c r :: tr' ∧ exec (f r) tr' o.
Proof. done. Qed.

Lemma exec_call c tr (o : outcome (res c)) :
  exec (call c) tr o ↔ ∃ r, tr = [Ev c r] ∧ o = Returned r.
Proof.
  split.
  - intros (r & tr' & -> & -> & ->). eauto.
  - intros (r & -> & ->). by exists r, [].
Qed.

Lemma exec_defer {A} d (p : prog A) tr o :
  exec (with_defer d p) tr o ↔
    ∃ tr1 o1 tr2, tr = tr1 ++ tr2 ∧ exec p tr1 o1 ∧
      ((exec d tr2 (Returned tt) ∧ o = o1) ∨
       (∃ s, exec d tr2 (Panicked s) ∧ o = Panicked s)).
Proof.
  revert tr. induction p as [a|s|c k IH]; intros tr; cbn.
  - rewrite exec_bind. split.
    + intros [(tr1 & [] & tr2 & -> & H1 & [-> ->])|(s & H1 & ->)].
      * exists [], (Returned a), tr1. rewrite app_nil_r. naive_solver.
      * exists [], (Returned a), tr. naive_solver.
    + intros (tr1 & o1 & tr2 & -> & [-> ->] & [[H1 ->]|(s & H1 & ->)]).
      * left. exists tr2, tt, []. by rewrite app_nil_r.
      * right. eauto.
  - rewrite exec_bind. split.
    + intros [(tr1 & [] & tr2 & -> & H1 & [-> ->])|(s' & H1 & ->)].
      * exists [], (Panicked s), tr1. rewrite app_nil_r. naive_solver.
      * exists [], (Panicked s), tr. naive_solver.
    + intros (tr1 & o1 & tr2 & -> & [-> ->] & [[H1 ->]|(s' & H1 & ->)]).
      * left. exists tr2, tt, []. by rewrite app_nil_r.
      * right. eauto.
  - split.
    + intros (r & tr' & -> & He). apply IH in He.
      destruct He as (tr1 & o1 & tr2 & -> & H1 & H2).
      exists (Ev c r :: tr1), o1, tr2. eauto 10.
    + intros (tr1 & o1 & tr2 & -> & (r & tr' & -> & H1) & H2).
      exists r. eexists. split; [done|]. apply IH. eauto 10.
Qed.

Lemma exec_recover {A} h (p : prog A) tr o :
  exec (with_recover h p) tr o ↔
    (∃ a, exec p tr (Returned a) ∧ o = Returned a) ∨
    (∃ tr1 s tr2, tr = tr1 ++ tr2 ∧ exec p tr1 (Panicked s) ∧ exec (h s) tr2 o).
Proof.
  revert tr. induction p as [a|s|c k IH]; intros tr; cbn.
  - split.
    + intros [-> ->]. left. eauto.
    + intros [(b & [-> [= ->]] & ->)|(tr1 & s & tr2 & _ & [_ ?] & _)]; done.
  - split.
    + intros He. right. exists [], s, tr. eauto.
    + intros [(b & [_ ?] & _)|(tr1 & s' & tr2 & -> & [-> [= ->]] & He)]; done.
  - split.
    + intros (r & tr' & -> & He). apply IH in He.
      destruct He as [(a & He & ->)|(tr1 & s & tr2 & -> & H1 & H2)].
      * left. eauto 10.
      * right. exists (Ev c r :: tr1), s, tr2. eauto 10.
    + intros [(a & (r & tr' & -> & He) & ->)
             |(tr1 & s & tr2 & -> & (r & tr' & -> & H1) & H2)];
        exists r; eexists; (split; [done|]); apply IH; eauto 10.
Qed.

(** Two programs that have the same executions. *)
#[global] Instance prog_equiv {A} : Equiv (prog A) := λ p q,
  ∀ tr o, exec p tr o ↔ exec q tr o.

#[global] Instance prog_equivalence {A} : Equivalence (≡@{prog A}).
Proof.
  split.
  - by intros p tr o.
  - intros p q Hpq tr o. symmetry. apply Hpq.
  - intros p q r Hpq Hqr tr o. by rewrite (Hpq tr o).
Qed.

#[global] Instance prog_bind_proper {A B} :
  Proper (pointwise_relation A (≡) ==> (≡) ==> (≡)) (@mbind prog prog_bind A B).
Proof.
  intros f g Hfg p q Hpq tr o. rewrite !exec_bind.
  setoid_rewrite (Hpq _ _). by setoid_rewrite (Hfg _ _ _).
Qed.

#[global] Instance with_defer_proper {A} :
  Proper ((≡) ==> (≡) ==> (≡)) (@with_defer A).
Proof.
  intros d d' Hd p q Hpq tr o. rewrite !exec_defer.
  setoid_rewrite (Hpq _ _). by setoid_rewrite (Hd _ _).
Qed.

Lemma bind_ret_l {A B} (a : A) (f : A → prog B) : mret a ≫= f ≡ f a.
Proof. done. Qed.

Lemma bind_ret_r {A} (p : prog A) : p ≫= mret ≡ p.
Proof.
  intros tr o. rewrite exec_bind. split.
  - intros [(tr1 & a & tr2 & -> & H1 & [-> ->])|(s & H1 & ->)]; [|done].
    by rewrite app_nil_r.
  - destruct o as [a|s]; intros He; [left|right; eauto].
    exists tr, a, []. by rewrite app_nil_r.
Qed.

Lemma bind_assoc {A B D} (p : prog A) (f : A → prog B) (g : B → prog D) :
  (p ≫= f) ≫= g ≡ p ≫= λ a, f a ≫= g.
Proof.
  intros tr o. unfold mbind. revert tr.
  induction p as [a|s|c k IH]; intros tr; cbn; [done..|].
  by setoid_rewrite IH.
Qed.

(** ** Programs that only make some calls *)

Fixpoint calls_only (P : C → Prop) {A} (p : prog A) : Prop :=
  match p with
  | Ret _ | Panic _ => True
  | Call c k => P c ∧ ∀ r, calls_only P (k r)
  end.

Lemma calls_only_bind P {A B} (p : prog A) (f : A → prog B) :
  calls_only P p → (∀ a, calls_only P (f a)) → calls_only P (p ≫= f).
Proof.
  unfold mbind. intros Hp Hf. induction p as [a|s|c k IH]; cbn in *; [apply Hf|done|].
  destruct Hp as [Hc Hk]. split; [done|]. intros r. apply IH, Hk.
Qed.

Lemma calls_only_defer P {A} d (p : prog A) :
  calls_only P d → calls_only P p → calls_only P (with_defer d p).
Proof.
  intros Hd Hp. induction p as [a|s|c k IH]; cbn in *.
  - by apply calls_only_bind.
  - by apply calls_only_bind.
  - destruct Hp as [Hc Hk]. split; [done|]. intros r. apply IH, Hk.
Qed.

Lemma calls_only_recover P {A} h (p : prog A) :
  (∀ m, calls_only P (h m)) → calls_only P p → calls_only P (with_recover h p).
Proof.
  intros Hh Hp. induction p as [a|m|c k IH]; cbn in *; [done|apply Hh|].
  destruct Hp as [Hc Hk]. split; [done|]. intros r. apply IH, Hk.
Qed.

Lemma calls_only_mono (P Q : C → Prop) {A} (p : prog A) :
  (∀ c, P c → Q c) → calls_only P p → calls_only Q p.
Proof. intros HPQ. induction p as [a|s|c k IH]; cbn; [done..|]. intros [? ?]. auto. Qed.

Lemma calls_only_and (P Q : C → Prop) {A} (p : prog A) :
  calls_only P p → calls_only Q p → calls_only (λ c, P c ∧ Q c) p.
Proof. induction p as [a|s|c k IH]; cbn; [done..|]. intros [? ?] [? ?]. auto. Qed.

Lemma calls_only_deref P {A} (x : option A) : calls_only P (deref x).
Proof. by destruct x. Qed.

Lemma calls_only_for_range P {X R} (body : nat → X → prog (option R)) i xs :
  (∀ i x, calls_only P (body i x)) → calls_only P (for_range i xs body).
Proof.
  intros Hb. revert i. induction xs as [|x xs IH]; intros i; [done|].
  apply calls_only_bind; [done|]. by intros [r|].
Qed.

Lemma calls_only_exec P {A} (p : prog A) tr o :
  calls_only P p → exec p tr o → Forall (λ e, let '(Ev c _) := e in P c) tr.
Proof.
  revert tr. induction p as [a|s|c k IH]; intros tr Hp He; cbn in *.
  - by destruct He as [-> _].
  - by destruct He as [-> _].
  - destruct He as (r & tr' & -> & He), Hp as [Hc Hk]. constructor; [done|]. by eapply IH.
Qed.

(** ** Programs that only return some values *)

Fixpoint returns {A} (P : A → Prop) (p : prog A) : Prop :=
  match p with
  | Ret a => P a
  | Panic _ => True
  | Call c k => ∀ r, returns P (k r)
  end.

Lemma returns_bind {A B} (P : B → Prop) (p : prog A) (f : A → prog B) :
  returns (λ a, returns P (f a)) p → returns P (p ≫= f).
Proof. unfold mbind. induction p as [a|s|c k IH]; cbn; [done..|]. intros Hk r. apply IH, Hk. Qed.

Lemma returns_mono {A} (P Q : A → Prop) (p : prog A) :
  returns P p → (∀ a, P a → Q a) → returns Q p.
Proof. intros Hp HPQ. induction p as [a|s|c k IH]; cbn in *; auto. Qed.

Lemma returns_any {A} (P : A → Prop) (p : prog A) : (∀ a, P a) → returns P p.
Proof. intros HP. induction p as [a|s|c k IH]; cbn; auto. Qed.

Lemma returns_exec {A} (P : A → Prop) (p : prog A) tr a :
  returns P p → exec p tr (Returned a) → P a.
Proof.
  revert tr. induction p as [b|s|c k IH]; intros tr Hp; cbn in *.
  - by intros [_ [= ->]].
  - by intros [_ ?].
  - intros (r & tr' & _ & He). by eapply IH.
Qed.

Lemma returns_for_range {X R} (P : R → Prop) (body : nat → X → prog (option R)) i xs :
  (∀ i x, returns (λ o, ∀ r, o = Some r → P r) (body i x)) →
  returns (λ o, ∀ r, o = Some r → P r) (for_range i xs body).
Proof.
  intros Hb. revert i. induction xs as [|x xs IH]; intros i; [done|].
  apply returns_bind. eapply returns_mono; [apply Hb|]. by intros [r|] Hr.
Qed.

(** ** Running against an environment *)

Section Run.
Context {W : Type} (H : ∀ c : C, W → res c * W).

Fixpoint run {A} (p : prog A) (w : W) : outcome A * W :=
  match p with
  | Ret a => (Returned a, w)
  | Panic s => (Panicked s, w)
  | Call c k => let '(r, w') := H c w in run (k r) w'
  end.

(** The events of that run. *)
Fixpoint trace {A} (p : prog A) (w : W) : list event :=
  match p with
  | Ret _ | Panic _ => []
  | Call c k => let '(r, w') := H c w in Ev c r :: trace (k r) w'
  end.

Lemma run_exec {A} (p : prog A) w : exec p (trace p w) (run p w).1.
Proof.
  revert w. induction p as [a|s|c k IH]; intros w; cbn; [done..|].
  destruct (H c w) as [r w']. eauto.
Qed.

Lemma run_bind {A B} (p : prog A) (f : A → prog B) w :
  run (p ≫= f) w =
    match run p w with
    | (Returned a, w') => run (f a) w'
    | (Panicked s, w') => (Panicked s, w')
    end.
Proof.
  unfold mbind. revert w.
  induction p as [a|s|c k IH]; intros w; cbn; [done..|].
  by destruct (H c w).
Qed.

Lemma run_defer {A} d (p : prog A) w :
  run (with_defer d p) w =
    let '(o, w1) := run p w in
    match run d w1 with
    | (Returned _, w2) => (o, w2)
    | (Panicked s, w2) => (Panicked s, w2)
    end.
Proof.
  revert w. induction p as [a|s|c k IH]; intros w; cbn.
  - rewrite run_bind. by destruct (run d w) as [[]].
  - rewrite run_bind. by destruct (run d w) as [[]].
  - destruct (H c w). apply IH.
Qed.

Lemma run_call c w : run (call c) w = let '(r, w') := H c w in (Returned r, w').
Proof. by cbn; destruct (H c w). Qed.
(** [wp p Q w]: running [p] from [w] ends in an outcome and a world that
    satisfy [Q].  Programs always end, so this is total correctness. *)
Definition wp {A} (p : prog A) (Q : outcome A → W → Prop) (w : W) : Prop :=
  Q (run p w).1 (run p w).2.

Lemma wp_ret {A} (a : A) Q w : Q (Returned a) w → wp (mret a) Q w.
Proof. done. Qed.

Lemma wp_panic {A} s (Q : outcome A → W → Prop) w : Q (Panicked s) w → wp (Panic s) Q w.
Proof. done. Qed.

Lemma wp_call {A} c (k : res c → prog A) Q w :
  (∀ r w', H c w = (r, w') → wp (k r) Q w') → wp (Call c k) Q w.
Proof.
  intros Hk. unfold wp. cbn. destruct (H c w) as [r w'] eqn:E. by apply Hk.
Qed.

Lemma wp_call_bind {A} c (f : res c → prog A) Q w :
  (∀ r w', H c w = (r, w') → wp (f r) Q w') → wp (call c ≫= f) Q w.
Proof. apply (wp_call c f). Qed.

Lemma wp_just_call c (Q : outcome (res c) → W → Prop) w :
  (∀ r w', H c w = (r, w') → Q (Returned r) w') → wp (call c) Q w.
Proof. apply (wp_call c Ret). Qed.

Lemma wp_bind {A B} (p : prog A) (f : A → prog B) Q w :
  wp p (λ o w', match o with
                | Returned a => wp (f a) Q w'
                | Panicked s => Q (Panicked s) w'
                end) w →
  wp (p ≫= f) Q w.
Proof. unfold wp. rewrite run_bind. by destruct (run p w) as [[]]. Qed.

Lemma wp_defer {A} d (p : prog A) Q w :
  wp p (λ o w', wp d (λ od w'', match od with
                                | Returned _ => Q o w''
                                | Panicked s => Q (Panicked s) w''
                                end) w') w →
  wp (with_defer d p) Q w.
Proof.
  unfold wp. rewrite run_defer. destruct (run p w) as [o w1]. cbn.
  by destruct (run d w1) as [[]].
Qed.

Lemma run_recover {A} h (p : prog A) w :
  run (with_recover h p) w =
    match run p w with
    | (Returned a, w') => (Returned a, w')
    | (Panicked s, w') => run (h s) w'
    end.
Proof.
  revert w. induction p as [a|s|c k IH]; intros w; cbn; [done..|]. by destruct (H c w).
Qed.

Lemma wp_recover {A} h (p : prog A) Q w :
  wp p (λ o w', match o with
                | Returned a => Q (Returned a) w'
                | Panicked s => wp (h s) Q w'
                end) w →
  wp (with_recover h p) Q w.
Proof. unfold wp. rewrite run_recover. by destruct (run p w) as [[]]. Qed.

Lemma wp_mono {A} (p : prog A) (P Q : outcome A → W → Prop) w :
  wp p P w → (∀ o w', P o w' → Q o w') → wp p Q w.
Proof. unfold wp. auto. Qed.

Lemma wp_and {A} (p : prog A) (P Q : outcome A → W → Prop) w :
  wp p P w → wp p Q w → wp p (λ o w', P o w' ∧ Q o w') w.
Proof. done. Qed.

Lemma wp_run {A} (p : prog A) (Q : outcome A → W → Prop) w o w' :
  wp p Q w → run p w = (o, w') → Q o w'.
Proof. unfold wp. intros HQ Hr. by rewrite Hr in HQ. Qed.

(** What every allowed call preserves, the program preserves. *)
Lemma wp_calls_only (P : C → Prop) (R : W → W → Prop) `{!PreOrder R} {A} (p : prog A) w :
  calls_only P p → (∀ c w, P c → R w (H c w).2) → wp p (λ _ w', R w w') w.
Proof.
  intros Hp HR. unfold wp. revert w.
  induction p as [a|s|c k IH]; intros w; cbn; [done..|].
  destruct Hp as [Hc Hk]. pose proof (HR c w Hc) as Hw.
  destruct (H c w) as [r w']. cbn in Hw. etrans; [done|]. apply IH, Hk.
Qed.

End Run.

(** ** Interleaving

    Several goroutines over a shared world: each step performs one call of
    one of them.  [R c w r w'] says that call [c] can be answered by [r] in
    [w], leaving [w']; a blocking call is one with no answer. *)
Section Threads.
Context {W : Type} (R : ∀ c : C, W → res c → W → Prop).

Inductive tstep {A} : list (prog A) * W → list (prog A) * W → Prop :=
| tstep_call ts i c k w r w' :
    ts !! i = Some (Call c k) →
    R c w r w' →
    tstep (ts, w) (<[i := k r]> ts, w').
End Threads.
End Prog.

Arguments prog : clear implicits.
Arguments prog {C} res A.
Arguments Ret {C res A} a.
Arguments Panic {C res A} msg.
Arguments Call {C res A} c k.
Arguments event : clear implicits.
Arguments event {C} res.
Arguments Ev {C res} c r.

#[global] Opaque wp.

(** Symbolic execution under [wp]: consume the next instruction. *)
Ltac wp_pure :=
  lazymatch goal with
  | |- wp _ (with_defer _ _) _ _ => apply wp_defer
  | |- wp _ (mret _) _ _ => apply wp_ret
  | |- wp _ (Ret _) _ _ => apply wp_ret
  | |- wp _ (Panic _) _ _ => apply wp_panic
  | |- wp _ (_ ≫= _) _ _ => apply wp_bind
  end; cbn beta iota.

(** Consume a call; its answer, the new world and the equation are named. *)
Ltac wp_call_intro r w E :=
  lazymatch goal with
  | |- wp ?H (call ?c ≫= ?f) ?Q _ => apply (wp_call_bind H c f Q)
  | |- wp ?H (call ?c) ?Q _ => apply (wp_just_call H c Q)
  end; intros r w E; cbn beta iota.

(** Proves [calls_only P p] for a straight-line [p], leaving [P] on each call. *)
Ltac calls_only_step :=
  lazymatch goal with
  | |- calls_only _ (with_defer _ _) => apply calls_only_defer
  | |- calls_only _ (_ ≫= _) => apply calls_only_bind; [|intros ?]
  | |- calls_only _ (deref _) => apply calls_only_deref
  | |- calls_only _ (for_range _ _ _) => apply calls_only_for_range; intros ? ?
  | |- calls_only _ (mret _) => exact I
  | |- calls_only _ (Ret _) => exact I
  | |- calls_only _ (Panic _) => exact I
  | |- calls_only _ (call _) => split; [|intros ?; exact I]
  | |- calls_only _ (Call _ _) => split; [|intros ?]
  | |- calls_only _ (match ?x with _ => _ end) => destruct x
  | |- calls_only _ ((match ?x with _ => _ end) _) => destruct x
  | |- calls_only _ (let '(_, _) := ?x in _) => destruct x
  | |- calls_only _ _ => progress cbn beta iota
  end.

(** Walks through [returns P p], leaving [P] at each value. *)
Ltac returns_step :=
  lazymatch goal with
  | |- returns _ (_ ≫= _) => apply returns_bind
  | |- returns _ (call _) => intros ?; cbn beta iota
  | |- returns _ (Call _ _) => intros ?; cbn beta iota
  | |- returns ?P (mret ?a) => change (P a); cbn beta
  | |- returns ?P (Ret ?a) => change (P a); cbn beta
  | |- returns _ (Panic _) => exact I
  | |- returns _ (match ?x with _ => _ end) => destruct x
  end.

(** Finds an event in an explicit trace. *)
Ltac in_trace := solve [repeat first [by left|right]].

(** Evaluates a predicate over an explicit trace in hypothesis [H]. *)
Ltac exists_trace H :=
  repeat (apply Exists_cons in H as [H|H]; cbn in H; try done);
  try (by apply Exists_nil in H).
