(* ===== verification/Proto.v ===== *)
(** * The messages of the three proto packages

    The generated structs of [services/common/v1], [services/user/v1] and
    [services/order/v1], without the runtime's bookkeeping fields ([state],
    [sizeCache], [unknownFields]).  A pointer field is an [option], a field of
    type [[]*T] a list of options, an [int32] an integer; [M_zero] is Go's zero
    value [M{}], and [M_GetF] the getter of field [F], which is total on nil. *)
From S2P Require Import Prelude.
From S2P Require Import GoFloat.

(** [timestamppb.New(t)] of a database time; the conversion is the protobuf
    runtime's, so the message is kept as the call that builds it. *)
Inductive Timestamp : Type := timestamppb_New (t : Z).

(** [fieldmaskpb.FieldMask]. *)
Record FieldMask := mkFieldMask { FieldMask_Paths : list string }.

#[export] Instance Timestamp_eq_dec : EqDecision Timestamp.
Proof. solve_decision. Defined.

Module commonv1.
Record Pagination := mkPagination {
  Pagination_Page : Z;
  Pagination_PageSize : Z
}.
Definition Pagination_zero : Pagination := mkPagination 0%Z 0%Z.
Definition Pagination_GetPage (x : option Pagination) : Z :=
  match x with Some x => Pagination_Page x | None => 0%Z end.
Definition Pagination_GetPageSize (x : option Pagination) : Z :=
  match x with Some x => Pagination_PageSize x | None => 0%Z end.

Record PaginationResponse := mkPaginationResponse {
  PaginationResponse_TotalCount : Z;
  PaginationResponse_HasMore : bool
}.
Definition PaginationResponse_zero : PaginationResponse := mkPaginationResponse 0%Z false.
Definition PaginationResponse_GetTotalCount (x : option PaginationResponse) : Z :=
  match x with Some x => PaginationResponse_TotalCount x | None => 0%Z end.
Definition PaginationResponse_GetHasMore (x : option PaginationResponse) : bool :=
  match x with Some x => PaginationResponse_HasMore x | None => false end.

End commonv1.

Module userv1.
Record User := mkUser {
  User_Id : string;
  User_Name : string;
  User_Email : string;
  User_CreatedAt : option Timestamp;
  User_UpdatedAt : option Timestamp
}.
Definition User_zero : User := mkUser "" "" "" None None.
Definition User_GetId (x : option User) : string :=
  match x with Some x => User_Id x | None => "" end.
Definition User_GetName (x : option User) : string :=
  match x with Some x => User_Name x | None => "" end.
Definition User_GetEmail (x : option User) : string :=
  match x with Some x => User_Email x | None => "" end.
Definition User_GetCreatedAt (x : option User) : option Timestamp :=
  match x with Some x => User_CreatedAt x | None => None end.
Definition User_GetUpdatedAt (x : option User) : option Timestamp :=
  match x with Some x => User_UpdatedAt x | None => None end.

Record CreateUserRequest := mkCreateUserRequest {
  CreateUserRequest_Name : string;
  CreateUserRequest_Email : string
}.
Definition CreateUserRequest_zero : CreateUserRequest := mkCreateUserRequest "" "".
Definition CreateUserRequest_GetName (x : option CreateUserRequest) : string :=
  match x with Some x => CreateUserRequest_Name x | None => "" end.
Definition CreateUserRequest_GetEmail (x : option CreateUserRequest) : string :=
  match x with Some x => CreateUserRequest_Email x | None => "" end.

Record CreateUserResponse := mkCreateUserResponse {
  CreateUserResponse_User : option User
}.
Definition CreateUserResponse_zero : CreateUserResponse := mkCreateUserResponse None.
Definition CreateUserResponse_GetUser (x : option CreateUserResponse) : option User :=
  match x with Some x => CreateUserResponse_User x | None => None end.

Record GetUserRequest := mkGetUserRequest {
  GetUserRequest_Id : string
}.
Definition GetUserRequest_zero : GetUserRequest := mkGetUserRequest "".
Definition GetUserRequest_GetId (x : option GetUserRequest) : string :=
  match x with Some x => GetUserRequest_Id x | None => "" end.

Record GetUserResponse := mkGetUserResponse {
  GetUserResponse_User : option User
}.
Definition GetUserResponse_zero : GetUserResponse := mkGetUserResponse None.
Definition GetUserResponse_GetUser (x : option GetUserResponse) : option User :=
  match x with Some x => GetUserResponse_User x | None => None end.

Record UpdateUserRequest := mkUpdateUserRequest {
  UpdateUserRequest_Id : string;
  UpdateUserRequest_User : option User;
  UpdateUserRequest_UpdateMask : option FieldMask
}.
Definition UpdateUserRequest_zero : UpdateUserRequest := mkUpdateUserRequest "" None None.
Definition UpdateUserRequest_GetId (x : option UpdateUserRequest) : string :=
  match x with Some x => UpdateUserRequest_Id x | None => "" end.
Definition UpdateUserRequest_GetUser (x : option UpdateUserRequest) : option User :=
  match x with Some x => UpdateUserRequest_User x | None => None end.
Definition UpdateUserRequest_GetUpdateMask (x : option UpdateUserRequest) : option FieldMask :=
  match x with Some x => UpdateUserRequest_UpdateMask x | None => None end.

Record UpdateUserResponse := mkUpdateUserResponse {
  UpdateUserResponse_User : option User
}.
Definition UpdateUserResponse_zero : UpdateUserResponse := mkUpdateUserResponse None.
Definition UpdateUserResponse_GetUser (x : option UpdateUserResponse) : option User :=
  match x with Some x => UpdateUserResponse_User x | None => None end.

Record DeleteUserRequest := mkDeleteUserRequest {
  DeleteUserRequest_Id : string
}.
Definition DeleteUserRequest_zero : DeleteUserRequest := mkDeleteUserRequest "".
Definition DeleteUserRequest_GetId (x : option DeleteUserRequest) : string :=
  match x with Some x => DeleteUserRequest_Id x | None => "" end.

Record DeleteUserResponse := mkDeleteUserResponse {
  DeleteUserResponse_Message : string
}.
Definition DeleteUserResponse_zero : DeleteUserResponse := mkDeleteUserResponse "".
Definition DeleteUserResponse_GetMessage (x : option DeleteUserResponse) : string :=
  match x with Some x => DeleteUserResponse_Message x | None => "" end.

End userv1.

Module orderv1.
(** [type OrderStatus int32]: the named constants are the values the code
      uses; the wire may carry any other [int32]. *)
Definition OrderStatus : Type := Z.
Definition OrderStatus_ORDER_STATUS_UNSPECIFIED : OrderStatus := 0%Z.
Definition OrderStatus_ORDER_STATUS_PENDING : OrderStatus := 1%Z.
Definition OrderStatus_ORDER_STATUS_CONFIRMED : OrderStatus := 2%Z.
Definition OrderStatus_ORDER_STATUS_SHIPPED : OrderStatus := 3%Z.
Definition OrderStatus_ORDER_STATUS_DELIVERED : OrderStatus := 4%Z.
Definition OrderStatus_ORDER_STATUS_CANCELLED : OrderStatus := 5%Z.

Definition OrderStatus_name : list (Z * string) :=
  [(0%Z, "ORDER_STATUS_UNSPECIFIED"); (1%Z, "ORDER_STATUS_PENDING");
     (2%Z, "ORDER_STATUS_CONFIRMED"); (3%Z, "ORDER_STATUS_SHIPPED");
     (4%Z, "ORDER_STATUS_DELIVERED"); (5%Z, "ORDER_STATUS_CANCELLED")].
Definition OrderStatus_value : list (string * Z) :=
    [("ORDER_STATUS_UNSPECIFIED", 0%Z); ("ORDER_STATUS_PENDING", 1%Z);
     ("ORDER_STATUS_CONFIRMED", 2%Z); ("ORDER_STATUS_SHIPPED", 3%Z);
     ("ORDER_STATUS_DELIVERED", 4%Z); ("ORDER_STATUS_CANCELLED", 5%Z)].

Record OrderItem := mkOrderItem {
  OrderItem_ProductId : string;
  OrderItem_ProductName : string;
  OrderItem_Quantity : Z;
  OrderItem_UnitPrice : float64
}.
Definition OrderItem_zero : OrderItem := mkOrderItem "" "" 0%Z f64_zero.
Definition OrderItem_GetProductId (x : option OrderItem) : string :=
  match x with Some x => OrderItem_ProductId x | None => "" end.
Definition OrderItem_GetProductName (x : option OrderItem) : string :=
  match x with Some x => OrderItem_ProductName x | None => "" end.
Definition OrderItem_GetQuantity (x : option OrderItem) : Z :=
  match x with Some x => OrderItem_Quantity x | None => 0%Z end.
Definition OrderItem_GetUnitPrice (x : option OrderItem) : float64 :=
  match x with Some x => OrderItem_UnitPrice x | None => f64_zero end.

Record Order := mkOrder {
  Order_Id : string;
  Order_UserId : string;
  Order_Items : list (option OrderItem);
  Order_Total : float64;
  Order_Status : OrderStatus;
  Order_CreatedAt : option Timestamp
}.
Definition Order_zero : Order := mkOrder "" "" [] f64_zero OrderStatus_ORDER_STATUS_UNSPECIFIED None.
Definition Order_GetId (x : option Order) : string :=
  match x with Some x => Order_Id x | None => "" end.
Definition Order_GetUserId (x : option Order) : string :=
  match x with Some x => Order_UserId x | None => "" end.
Definition Order_GetItems (x : option Order) : list (option OrderItem) :=
  match x with Some x => Order_Items x | None => [] end.
Definition Order_GetTotal (x : option Order) : float64 :=
  match x with Some x => Order_Total x | None => f64_zero end.
Definition Order_GetStatus (x : option Order) : OrderStatus :=
  match x with Some x => Order_Status x | None => OrderStatus_ORDER_STATUS_UNSPECIFIED end.
Definition Order_GetCreatedAt (x : option Order) : option Timestamp :=
  match x with Some x => Order_CreatedAt x | None => None end.

Record CreateOrderRequest := mkCreateOrderRequest {
  CreateOrderRequest_UserId : string;
  CreateOrderRequest_Items : list (option OrderItem)
}.
Definition CreateOrderRequest_zero : CreateOrderRequest := mkCreateOrderRequest "" [].
Definition CreateOrderRequest_GetUserId (x : option CreateOrderRequest) : string :=
  match x with Some x => CreateOrderRequest_UserId x | None => "" end.
Definition CreateOrderRequest_GetItems (x : option CreateOrderRequest) : list (option OrderItem) :=
  match x with Some x => CreateOrderRequest_Items x | None => [] end.

Record CreateOrderResponse := mkCreateOrderResponse {
  CreateOrderResponse_Order : option Order
}.
Definition CreateOrderResponse_zero : CreateOrderResponse := mkCreateOrderResponse None.
Definition CreateOrderResponse_GetOrder (x : option CreateOrderResponse) : option Order :=
  match x with Some x => CreateOrderResponse_Order x | None => None end.

Record GetOrderRequest := mkGetOrderRequest {
  GetOrderRequest_Id : string
}.
Definition GetOrderRequest_zero : GetOrderRequest := mkGetOrderRequest "".
Definition GetOrderRequest_GetId (x : option GetOrderRequest) : string :=
  match x with Some x => GetOrderRequest_Id x | None => "" end.

Record GetOrderResponse := mkGetOrderResponse {
  GetOrderResponse_Order : option Order
}.
Definition GetOrderResponse_zero : GetOrderResponse := mkGetOrderResponse None.
Definition GetOrderResponse_GetOrder (x : option GetOrderResponse) : option Order :=
  match x with Some x => GetOrderResponse_Order x | None => None end.

Record ListOrdersRequest := mkListOrdersRequest {
  ListOrdersRequest_UserId : string;
  ListOrdersRequest_Pagination : option commonv1.Pagination
}.
Definition ListOrdersRequest_zero : ListOrdersRequest := mkListOrdersRequest "" None.
Definition ListOrdersRequest_GetUserId (x : option ListOrdersRequest) : string :=
  match x with Some x => ListOrdersRequest_UserId x | None => "" end.
Definition ListOrdersRequest_GetPagination (x : option ListOrdersRequest) : option commonv1.Pagination :=
  match x with Some x => ListOrdersRequest_Pagination x | None => None end.

Record ListOrdersResponse := mkListOrdersResponse {
  ListOrdersResponse_Orders : list (option Order);
  ListOrdersResponse_Pagination : option commonv1.PaginationResponse
}.
Definition ListOrdersResponse_zero : ListOrdersResponse := mkListOrdersResponse [] None.
Definition ListOrdersResponse_GetOrders (x : option ListOrdersResponse) : list (option Order) :=
  match x with Some x => ListOrdersResponse_Orders x | None => [] end.
Definition ListOrdersResponse_GetPagination (x : option ListOrdersResponse) : option commonv1.PaginationResponse :=
  match x with Some x => ListOrdersResponse_Pagination x | None => None end.

Record CancelOrderRequest := mkCancelOrderRequest {
  CancelOrderRequest_Id : string
}.
Definition CancelOrderRequest_zero : CancelOrderRequest := mkCancelOrderRequest "".
Definition CancelOrderRequest_GetId (x : option CancelOrderRequest) : string :=
  match x with Some x => CancelOrderRequest_Id x | None => "" end.

Record CancelOrderResponse := mkCancelOrderResponse {
  CancelOrderResponse_Order : option Order
}.
Definition CancelOrderResponse_zero : CancelOrderResponse := mkCancelOrderResponse None.
Definition CancelOrderResponse_GetOrder (x : option CancelOrderResponse) : option Order :=
  match x with Some x => CancelOrderResponse_Order x | None => None end.

End orderv1.
