(* ===== verification/External.v ===== *)
(** * What the repository calls but does not contain

    The signature of every call the Go code makes into the database driver
    (pgx), Redis, gRPC, Vault, the logger, the clock, the operating system and
    the [crypto/tls] package, together with the two shared objects of a
    repository that goroutines access (the mutex and the pool pointer).  The
    answers are left to the environment: an [env] is any function that answers
    every call.  The data types of those packages that the code inspects
    (errors and their text, gRPC status codes, scanned rows) are defined here. *)
From S2P Require Import Prelude.
From S2P Require Import GoStrings.
From S2P Require Import GoFloat.
From S2P Require Import Proto.
From S2P Require Import GoRuntime.

(** ** Errors *)

(** [codes.Code]. *)
Inductive code : Type :=
| OK | Canceled | Unknown | InvalidArgument | DeadlineExceeded | NotFound
| AlreadyExists | PermissionDenied | ResourceExhausted | FailedPrecondition
| Aborted | OutOfRange | Unimplemented | Internal | Unavailable | DataLoss
| Unauthenticated.

#[export] Instance code_eq_dec : EqDecision code.
Proof. solve_decision. Defined.

(** [codes.Code.String]. *)
Definition code_String (c : code) : string :=
  match c with
  | OK => "OK" | Canceled => "Canceled" | Unknown => "Unknown"
  | InvalidArgument => "InvalidArgument" | DeadlineExceeded => "DeadlineExceeded"
  | NotFound => "NotFound" | AlreadyExists => "AlreadyExists"
  | PermissionDenied => "PermissionDenied" | ResourceExhausted => "ResourceExhausted"
  | FailedPrecondition => "FailedPrecondition" | Aborted => "Aborted"
  | OutOfRange => "OutOfRange" | Unimplemented => "Unimplemented"
  | Internal => "Internal" | Unavailable => "Unavailable" | DataLoss => "DataLoss"
  | Unauthenticated => "Unauthenticated"
  end.

#[export] Instance code_String_inj : Inj (=) (=) code_String.
Proof. by intros [] []. Qed.

(** An [error] value: one a library made, known by its text; the sentinel
    [redis.Nil]; a [status.Error]; a [fmt.Errorf("... %w", err)]. *)
Inductive go_error : Type :=
| ErrText (text : string)
| ErrRedisNil
| ErrStatus (c : code) (msg : string)
| ErrWrap (prefix : string) (inner : go_error).

#[export] Instance go_error_eq_dec : EqDecision go_error.
Proof. solve_decision. Defined.

(** [err.Error()]. *)
Fixpoint Error (e : go_error) : string :=
  match e with
  | ErrText s => s
  | ErrRedisNil => "redis: nil"
  | ErrStatus c m => "rpc error: code = " +:+ code_String c +:+ " desc = " +:+ m
  | ErrWrap p e => p +:+ ": " +:+ Error e
  end.

(** [status.FromError(err)] on an error: the code of the status it is or
    wraps, if any. *)
Fixpoint status_FromError (e : go_error) : option code :=
  match e with
  | ErrStatus c _ => Some c
  | ErrWrap _ e => status_FromError e
  | _ => None
  end.

(** [status.Code(err)] on a non-nil error. *)
Definition status_Code (e : go_error) : code := default Unknown (status_FromError e).

Abbreviation gresult := (result go_error).

(** ** Contexts, pools, transactions *)

Inductive ctx : Type :=
| CtxBackground
| CtxRequest
| CtxWithTimeout (parent : ctx) (d : Z).

#[export] Instance ctx_eq_dec : EqDecision ctx.
Proof. solve_decision. Defined.

(** Handles the driver hands out. *)
Inductive pool : Type := Pool (id : nat).
Inductive txn : Type := Txn (id : nat).

#[export] Instance pool_eq_dec : EqDecision pool.
Proof. solve_decision. Defined.
#[export] Instance txn_eq_dec : EqDecision txn.
Proof. solve_decision. Defined.

(** ** Durations, in nanoseconds *)

Definition Nanosecond : Z := 1.
Definition Microsecond : Z := 1000.
Definition Millisecond : Z := 1000000.
Definition Second : Z := 1000000000.
Definition Minute : Z := 60 * Second.

(** ** SQL arguments and scanned rows *)

Inductive sqlarg : Type :=
| AString (s : string)
| AFloat64 (x : float64)
| AInt32 (z : Z).

#[export] Instance sqlarg_eq_dec : EqDecision sqlarg.
Proof. solve_decision. Defined.

(** The Go types of the destinations of a [Scan]. *)
Inductive scan_kind : Type := KString | KFloat64 | KInt32 | KInt | KTime.

#[export] Instance scan_kind_eq_dec : EqDecision scan_kind.
Proof. solve_decision. Defined.

Definition scan_val (k : scan_kind) : Type :=
  match k with
  | KString => string
  | KFloat64 => float64
  | KInt32 | KInt | KTime => Z
  end.

Fixpoint scan_row (ks : list scan_kind) : Type :=
  match ks with
  | [] => unit
  | k :: ks' => scan_val k * scan_row ks'
  end.

(** What a query delivers: for each [Next] that answers true, what [Scan] then
    gives; and what [Err] would tell after the [Next] that answers false. *)
Record rows (ks : list scan_kind) : Type := mkRows {
  rows_id : nat;
  rows_scans : list (gresult (scan_row ks));
  rows_Err : option go_error
}.
Arguments mkRows {ks} _ _ _.
Arguments rows_id {ks} _.
Arguments rows_scans {ks} _.
Arguments rows_Err {ks} _.

(** ** Messages as dynamic values *)

Inductive mkind : Type :=
| MCreateUserRequest | MCreateUserResponse | MGetUserRequest | MGetUserResponse
| MUpdateUserRequest | MUpdateUserResponse | MDeleteUserRequest | MDeleteUserResponse
| MCreateOrderRequest | MCreateOrderResponse | MGetOrderRequest | MGetOrderResponse
| MListOrdersRequest | MListOrdersResponse | MCancelOrderRequest | MCancelOrderResponse.

#[export] Instance mkind_eq_dec : EqDecision mkind.
Proof. solve_decision. Defined.

Definition msg (k : mkind) : Type :=
  match k with
  | MCreateUserRequest => userv1.CreateUserRequest
  | MCreateUserResponse => userv1.CreateUserResponse
  | MGetUserRequest => userv1.GetUserRequest
  | MGetUserResponse => userv1.GetUserResponse
  | MUpdateUserRequest => userv1.UpdateUserRequest
  | MUpdateUserResponse => userv1.UpdateUserResponse
  | MDeleteUserRequest => userv1.DeleteUserRequest
  | MDeleteUserResponse => userv1.DeleteUserResponse
  | MCreateOrderRequest => orderv1.CreateOrderRequest
  | MCreateOrderResponse => orderv1.CreateOrderResponse
  | MGetOrderRequest => orderv1.GetOrderRequest
  | MGetOrderResponse => orderv1.GetOrderResponse
  | MListOrdersRequest => orderv1.ListOrdersRequest
  | MListOrdersResponse => orderv1.ListOrdersResponse
  | MCancelOrderRequest => orderv1.CancelOrderRequest
  | MCancelOrderResponse => orderv1.CancelOrderResponse
  end.

(** ** Logging *)

Inductive level : Type := Debug_ | Info_ | Warn_ | Error_ | Fatal_.

Inductive zfield : Type :=
| ZString (k v : string)
| ZError (e : go_error)
| ZDuration (k : string) (d : Z)
| ZInt32 (k : string) (z : Z)
| ZAny (k v : string).

(** ** Vault, TLS *)

(** A value of type [interface{}] decoded from JSON. *)
#[warnings="-register-all"]
Inductive any : Type :=
| AnyString (s : string)
| AnyMap (m : list (string * any))
| AnyOther.

(** [vapi.Secret]: the fields the code reads; [Data] may be nil. *)
Record Secret := mkSecret {
  Secret_Data : option (list (string * any));
  Secret_LeaseID : string;
  Secret_LeaseDuration : Z
}.

(** A certificate with its key, and what a [tls.Config] is built from. *)
Inductive certificate : Type := Cert (id : string).
Inductive client_auth : Type := NoClientCert | RequireAndVerifyClientCert.
Inductive tls_version : Type := VersionTLS12 | VersionTLS13.
Record tls_config := mkTlsConfig {
  tls_Certificates : list certificate;
  tls_ClientCAs : option string;
  tls_RootCAs : option string;
  tls_ClientAuth : client_auth;
  tls_MinVersion : tls_version
}.
(** [credentials.TransportCredentials]: [credentials.NewTLS] of a
    configuration, or [insecure.NewCredentials()]. *)
Inductive transport_creds : Type :=
| CredsTLS (c : tls_config)
| CredsInsecure.

(** ** Process start and stop *)

(** [pgxpool.Config]: the connection string and the fields the code sets. *)
Record pool_config := mkPoolConfig {
  pc_url : string;
  pc_MaxConns : Z;
  pc_MinConns : Z;
  pc_MaxConnLifetime : Z;
  pc_MaxConnIdleTime : Z;
  pc_HealthCheckPeriod : Z
}.

(** The goroutines [main] starts. *)
Inductive thread : Type :=
| GoCredentialRefresher (role : string)
| GoMonitorDBHealth (p : pool) (service : string) (interval : Z)
| GoServeMetrics (port : string)
| GoServeGRPC.

(** ** What a command-line program uses *)

(** An argument of [fmt.Printf], or the string a [fmt.Sprintf] makes. *)
Inductive fmt_arg : Type :=
| FString (s : string)
| FInt (z : Z)
| FFloat (x : float64)
| FDuration (d : Z)
| FSprintf (format : string) (x : fmt_arg).

(** An access to one of the statistics objects of the load test, or a
    goroutine it starts. *)
Inductive stats_access : Type :=
| AddCount | AddErrCount | AppendDur (d : Z)
| GetCount | GetErrCount | GetDurs
| StatsLock | StatsUnlock.

Inductive load_thread : Type := LoadConsumer | LoadWorker (id : Z).

(** ** Calls and their answers *)

Inductive extcall : Type :=
(* the shared state of a repository object: r.mu and r.pool *)
| MuRLock | MuRUnlock | MuLock | MuUnlock
| LoadPool | StorePool (p : option pool)
(* context *)
| CtxCancel (c : ctx)
(* pgx *)
| PoolBegin (p : pool) (c : ctx)
| PoolQueryRow (p : pool) (c : ctx) (sql : string) (args : list sqlarg) (ks : list scan_kind)
| PoolQuery (p : pool) (c : ctx) (sql : string) (args : list sqlarg) (ks : list scan_kind)
| RowsClose (id : nat)
| PoolExec (p : pool) (c : ctx) (sql : string) (args : list sqlarg)
| PoolClose (p : pool)
| PoolPing (p : pool) (c : ctx)
| TxQueryRow (t : txn) (c : ctx) (sql : string) (args : list sqlarg) (ks : list scan_kind)
| TxExec (t : txn) (c : ctx) (sql : string) (args : list sqlarg)
| TxCommit (t : txn) (c : ctx)
| TxRollback (t : txn) (c : ctx)
(* go-redis and protojson *)
| RedisGet (c : ctx) (key : string)
| RedisSet (c : ctx) (key data : string) (ttl : Z)
| RedisDel (c : ctx) (key : string)
| PjMarshal (o : orderv1.Order)
| PjUnmarshal (data : string)
(* uuid.New().String() *)
| UuidNew
(* grpc *)
| GrpcInvoke (c : ctx) (method : string) (ki ko : mkind) (i : msg ki)
| GrpcDial (addr : string) (creds : list (option transport_creds))
| ConnClose (conn : nat)
| GrpcNewServer (creds : option transport_creds)
| GrpcRegister (service : string)
| GrpcGracefulStop
(* zap *)
| ZapLog (l : level) (m : string) (fs : list zfield)
(* time *)
| TimeNow
| SelectDoneOrAfter (c : ctx) (d : Z)
| SelectDoneOrTick (c : ctx) (interval : Z)
(* vault api *)
| VaultNewClient (addr : string)
| VaultSetToken (token : string)
| VaultRead (c : ctx) (path : string)
| VaultRenew (c : ctx) (lease : string) (increment : Z)
(* os, crypto *)
| OsGetenv (key : string)
| OsReadFile (path : string)
| LoadX509KeyPair (cert key : string)
| AppendCertsFromPEM (pem : string)
(* health server *)
| SetServingStatus (service : string) (serving : bool)
(* construction of pools, Redis clients, loggers and OpenTelemetry providers *)
| PgxParseConfig (url : string)
| PgxNewWithConfig (c : ctx) (cfg : pool_config)
| RedisParseURL (url : string)
| RedisPing (c : ctx)
| RedisClose
| ZapLevelUnmarshal (text : string)
| ZapBuild (l : level)
| ZapSync
| OtelResourceNew (service : string)
| OtelTraceExporterNew (endpoint : string)
| OtelSetTracerProvider
| OtelSetTextMapPropagator
| OtelPromExporterNew
| OtelSetMeterProvider
| PromHandlerFor
| TracerShutdown (c : ctx)
| MeterShutdown (c : ctx)
(* the loops of the servers, which end with an error, and the listener's address *)
| HttpListenAndServe (addr : string)
| GrpcServe
| LisAddr
(* process *)
| TimeParseDuration (text : string)
| StdLog (m : string)
| WaitSignalOrDone (c : ctx)
| NetListen (addr : string)
| HttpShutdown (c : ctx)
| GoSpawn (t : thread)
(* http.Get and the body of its response *)
| HttpGet (url : string)
| BodyClose
(* flag, fmt, math/rand *)
| FlagInt (name : string) (value : Z)
| FlagDuration (name : string) (value : Z)
| FlagString (name : string) (value : string)
| FlagFloat64 (name : string) (value : float64)
| FmtPrintf (format : string) (args : list fmt_arg)
| RandFloat64
| RandIntn (n : Z)
(* the statistics, the channel and the goroutines of the load test *)
| LoadStats (i : nat) (a : stats_access)
| ChanMake (size : Z)
| ChanSend (d : Z) (err : bool) (op : string)
| ChanRecv
| ChanClose
| WgAdd
| WgDone
| WgWait
| GoLoad (t : load_thread).

Definition extres (c : extcall) : Type :=
  match c with
  | MuRLock | MuRUnlock | MuLock | MuUnlock | StorePool _ | CtxCancel _
  | RowsClose _ | PoolClose _ | ZapLog _ _ _ | SetServingStatus _ _
  | GrpcNewServer _ | GrpcRegister _ | GrpcGracefulStop | VaultSetToken _ | ZapSync
  | OtelSetTracerProvider | OtelSetTextMapPropagator | OtelSetMeterProvider | PromHandlerFor | StdLog _ | GoSpawn _
  | BodyClose | FmtPrintf _ _ | ChanMake _ | ChanSend _ _ _ | ChanClose | WgAdd | WgDone | WgWait | GoLoad _ => unit
  (* the result received, or nothing when the channel is closed and empty *)
  | ChanRecv => option (Z * bool * string)
  | HttpGet _ => gresult Z
  | FlagInt _ _ | FlagDuration _ _ | RandIntn _ => Z
  | FlagString _ _ => string
  | FlagFloat64 _ _ | RandFloat64 => float64
  | LoadStats _ a =>
      match a with
      | AddCount | AddErrCount | AppendDur _ | StatsLock | StatsUnlock => unit
      | GetCount | GetErrCount => Z
      | GetDurs => list Z
      end
  | LoadPool => option pool
  | PoolBegin _ _ => gresult txn
  | PoolQueryRow _ _ _ _ ks | TxQueryRow _ _ _ _ ks => gresult (scan_row ks)
  | PoolQuery _ _ _ _ ks => gresult (rows ks)
  | PoolExec _ _ _ _ => gresult Z
  | PoolPing _ _ | TxExec _ _ _ _ | TxCommit _ _ | TxRollback _ _
  | RedisSet _ _ _ _ | RedisDel _ _
  | ConnClose _ | PgxParseConfig _ | RedisParseURL _ | RedisPing _ | RedisClose | ZapBuild _
  | OtelResourceNew _ | OtelTraceExporterNew _ | OtelPromExporterNew
  | TracerShutdown _ | MeterShutdown _ | NetListen _ | HttpShutdown _
  | HttpListenAndServe _ | GrpcServe => option go_error
  | VaultNewClient _ => gresult nat
  | PgxNewWithConfig _ _ => gresult pool
  | ZapLevelUnmarshal _ => gresult level
  | TimeParseDuration _ => gresult Z
  (* the signal, or nothing when the context is done *)
  | WaitSignalOrDone _ => option string
  | RedisGet _ _ => gresult string
  | PjMarshal _ => gresult string
  | PjUnmarshal _ => gresult orderv1.Order
  | UuidNew | LisAddr => string
  | GrpcInvoke _ _ _ ko _ => gresult (msg ko)
  | GrpcDial _ _ => gresult nat
  | TimeNow => Z
  | SelectDoneOrAfter _ _ | SelectDoneOrTick _ _ => bool
  | VaultRead _ _ => gresult (option Secret)
  | VaultRenew _ _ _ => option go_error
  | OsGetenv _ => string
  | OsReadFile _ => gresult string
  | LoadX509KeyPair _ _ => gresult certificate
  | AppendCertsFromPEM _ => bool
  end.

(** Go functions of the repository. *)
Abbreviation go := (prog extres).
Abbreviation gevent := (event extres).

(** An environment over a world [W]. *)
Definition env (W : Type) : Type := ∀ c : extcall, W → extres c * W.

(** [err != nil] decides between two programs. *)
Abbreviation gocall c := (@GoRuntime.call extcall extres c).

Definition zap_log (l : level) (m : string) (fs : list zfield) : go unit :=
  gocall (ZapLog l m fs).

(** [context.WithTimeout] gives the derived context and its cancel function. *)
Definition ctx_cancel (c : ctx) : go unit := gocall (CtxCancel c).

(** Executes the next call of a handler, seen through the two wrappers. *)
Ltac go_call r w E := unfold zap_log, ctx_cancel; wp_call_intro r w E.

(** A Go function's [( *A, error)], as it is: both may be nil. *)
Abbreviation goret A := (option A * option go_error)%type.

(** [nil, status.Error(c, m)]. *)
Definition status_fail {A} (c : code) (m : string) : goret A :=
  (None, Some (ErrStatus c m)).

(** An uninteresting answer to every call, for environments that only look at
    some of them. *)
Definition default_answer (c : extcall) : extres c :=
  match c return extres c with
  | MuRLock | MuRUnlock | MuLock | MuUnlock | StorePool _ | CtxCancel _
  | RowsClose _ | PoolClose _ | ZapLog _ _ _ | SetServingStatus _ _
  | GrpcNewServer _ | GrpcRegister _ | GrpcGracefulStop | VaultSetToken _ | ZapSync
  | OtelSetTracerProvider | OtelSetTextMapPropagator | OtelSetMeterProvider | PromHandlerFor | StdLog _ | GoSpawn _
  | BodyClose | FmtPrintf _ _ | ChanMake _ | ChanSend _ _ _ | ChanClose | WgAdd | WgDone | WgWait | GoLoad _ => tt
  | ChanRecv => None
  | HttpGet _ => Fail (ErrText "connection refused")
  | FlagInt _ v | FlagDuration _ v => v
  | FlagString _ v => v
  | FlagFloat64 _ v => v
  | RandIntn _ => 0%Z
  | RandFloat64 => f64_zero
  | LoadStats _ a =>
      match a with
      | AddCount | AddErrCount | AppendDur _ | StatsLock | StatsUnlock => tt
      | GetCount | GetErrCount => 0%Z
      | GetDurs => []
      end
  | LoadPool => None
  | PoolBegin _ _ | PoolQueryRow _ _ _ _ _ | TxQueryRow _ _ _ _ _ | PoolQuery _ _ _ _ _
  | PoolExec _ _ _ _ | RedisGet _ _ | PjMarshal _ | PjUnmarshal _ | GrpcInvoke _ _ _ _ _
  | GrpcDial _ _ | VaultNewClient _ | VaultRead _ _ | OsReadFile _ | LoadX509KeyPair _ _
  | PgxNewWithConfig _ _ | ZapLevelUnmarshal _ | TimeParseDuration _ => Fail (ErrText "")
  | PoolPing _ _ | TxExec _ _ _ _ | TxCommit _ _ | TxRollback _ _ | RedisSet _ _ _ _
  | RedisDel _ _ | ConnClose _ | PgxParseConfig _ | RedisParseURL _ | RedisPing _ | RedisClose
  | ZapBuild _ | OtelResourceNew _ | OtelTraceExporterNew _ | OtelPromExporterNew
  | TracerShutdown _ | MeterShutdown _ | NetListen _ | HttpShutdown _ | VaultRenew _ _ _
  | HttpListenAndServe _ | GrpcServe => None
  | UuidNew | LisAddr | OsGetenv _ => ""
  | TimeNow => 0%Z
  | SelectDoneOrAfter _ _ | SelectDoneOrTick _ _ | AppendCertsFromPEM _ => true
  | WaitSignalOrDone _ => None
  end.

(** The executions of one call, and of a call followed by a program. *)
Lemma go_exec_call c tr o :
  exec (gocall c) tr o ↔ ∃ r : extres c, tr = [Ev c r] ∧ o = Returned r.
Proof. apply (exec_call (res := extres)). Qed.

Lemma go_exec_call_bind {A} c (f : extres c → go A) tr o :
  exec (gocall c ≫= f) tr o ↔ ∃ r tr', tr = Ev c r :: tr' ∧ exec (f r) tr' o.
Proof. done. Qed.
