(* ===== verification/Typestate.v ===== *)
(** * Programs that follow a protocol

    A protocol is an automaton over the calls of a program and their answers.
    [obeys] says that a program only makes calls its state allows, whatever they
    answer; the protocols of the development (locks and result sets, statements
    per request, the channel and the wait group of the load test) are automata
    [δ] of this section. *)
From S2P Require Import Prelude.
From S2P Require Import GoRuntime.
From S2P Require Import External.

Section Typestate.
Context {S : Type} (δ : S → ∀ c : extcall, extres c → option S).

(** The program, started in [s], ends in a state that [Q] relates to its end. *)
Fixpoint obeys {A} (s : S) (p : go A) (Q : outcome A → S → Prop) : Prop :=
  match p with
  | Ret a => Q (Returned a) s
  | Panic m => Q (Panicked m) s
  | Call c k => ∀ r, match δ s c r with Some s' => obeys s' (k r) Q | None => False end
  end.

(** The state after a trace. *)
Fixpoint follows (s : S) (tr : list gevent) : option S :=
  match tr with
  | [] => Some s
  | Ev c r :: tr => s' ← δ s c r; follows s' tr
  end.

Lemma obeys_exec {A} s (p : go A) Q tr o :
  obeys s p Q → exec p tr o → ∃ s', follows s tr = Some s' ∧ Q o s'.
Proof.
  revert s tr. induction p as [a|m|c k IH]; intros s tr Hs He; cbn in *.
  - destruct He as [-> ->]. by exists s.
  - destruct He as [-> ->]. by exists s.
  - destruct He as (r & tr' & -> & He). specialize (Hs r). cbn.
    destruct (δ s c r) as [s'|]; [|done]. cbn. by eapply IH.
Qed.

Lemma obeys_mono {A} s (p : go A) (P Q : outcome A → S → Prop) :
  obeys s p P → (∀ o s', P o s' → Q o s') → obeys s p Q.
Proof.
  intros Hp HPQ. revert s Hp. induction p as [a|m|c k IH]; intros s Hp; cbn in *; [by auto..|].
  intros r. specialize (Hp r). destruct (δ s c r); [|done]. by apply IH.
Qed.

Lemma obeys_bind {A B} s (p : go A) (f : A → go B) Q :
  obeys s p (λ o s', match o with
                     | Returned a => obeys s' (f a) Q
                     | Panicked m => Q (Panicked m) s'
                     end) →
  obeys s (p ≫= f) Q.
Proof.
  unfold mbind. revert s. induction p as [a|m|c k IH]; intros s Hp; cbn in *; [done..|].
  intros r. specialize (Hp r). destruct (δ s c r); [|done]. by apply IH.
Qed.

Lemma obeys_defer {A} s d (p : go A) Q :
  obeys s p (λ o s', obeys s' d (λ od s'', match od with
                                          | Returned _ => Q o s''
                                          | Panicked m => Q (Panicked m) s''
                                          end)) →
  obeys s (with_defer d p) Q.
Proof.
  revert s. induction p as [a|m|c k IH]; intros s Hp; cbn in *.
  - apply obeys_bind. eapply obeys_mono; [exact Hp|]. by intros [].
  - apply obeys_bind. eapply obeys_mono; [exact Hp|]. by intros [].
  - intros r. specialize (Hp r). destruct (δ s c r); [|done]. by apply IH.
Qed.

Lemma obeys_recover {A} s h (p : go A) Q :
  obeys s p (λ o s', match o with
                     | Returned a => Q (Returned a) s'
                     | Panicked m => obeys s' (h m) Q
                     end) →
  obeys s (with_recover h p) Q.
Proof.
  revert s. induction p as [a|m|c k IH]; intros s Hp; cbn in *; [done..|].
  intros r. specialize (Hp r). destruct (δ s c r); [|done]. by apply IH.
Qed.

Lemma obeys_ret {A} s (a : A) (Q : outcome A → S → Prop) : Q (Returned a) s → obeys s (mret a) Q.
Proof. done. Qed.

Lemma obeys_panic {A} s m (Q : outcome A → S → Prop) : Q (Panicked m) s → obeys s (Panic m) Q.
Proof. done. Qed.

(** A call that leads to one state, whatever it answers. *)
Lemma obeys_call s s' c (Q : outcome (extres c) → S → Prop) :
  (∀ r, δ s c r = Some s') → (∀ r, Q (Returned r) s') → obeys s (gocall c) Q.
Proof. intros Hc HQ r. rewrite Hc. apply HQ. Qed.

Lemma obeys_call_bind {A} s s' c (k : extres c → go A) Q :
  (∀ r, δ s c r = Some s') → (∀ r, obeys s' (k r) Q) → obeys s (gocall c ≫= k) Q.
Proof. intros Hc HQ r. rewrite Hc. apply HQ. Qed.

(** A program of calls that leave the state as it is. *)
Lemma obeys_neutral {A} s (p : go A) :
  calls_only (λ c, ∀ r, δ s c r = Some s) p → obeys s p (λ _ s', s' = s).
Proof.
  induction p as [a|m|c k IH]; cbn; [done..|]. intros [Hc Hk] r. rewrite Hc. by apply IH.
Qed.

(** What every allowed call has in common, along states of one kind. *)
Lemma obeys_calls_only {A} (kind : S → Prop) (P : extcall → Prop) s (p : go A) Q :
  (∀ s c r s', kind s → δ s c r = Some s' → P c ∧ kind s') →
  kind s → obeys s p Q → calls_only P p.
Proof.
  intros Hk. revert s. induction p as [a|m|c k IH]; intros s Hs Hp; cbn in *; [done..|]. split.
  - specialize (Hp (default_answer c)). destruct (δ s c _) as [s'|] eqn:E; [|done]. by eapply Hk.
  - intros r. specialize (Hp r). destruct (δ s c r) as [s'|] eqn:E; [|done].
    eapply IH; [|exact Hp]. by eapply Hk.
Qed.

(** The next call is allowed. *)
Lemma obeys_next {A} s c (k : extres c → go A) Q r :
  obeys s (Call c k) Q → ∃ s', δ s c r = Some s' ∧ obeys s' (k r) Q.
Proof. intros Hp. specialize (Hp r). destruct (δ s c r) as [s'|]; [by exists s'|done]. Qed.
End Typestate.

(** ** Whether a call ended in a certain way *)

Definition seen (P : gevent → Prop) (s : Prop) (c : extcall) (r : extres c) : option Prop :=
  Some (s ∨ P (Ev c r)).

Lemma seen_exists P s tr s' : follows (seen P) s tr = Some s' → s' → s ∨ Exists P tr.
Proof.
  revert s. induction tr as [|[c r] tr IH]; intros s Hf Hs; cbn in Hf.
  { injection Hf as ->. by left. }
  destruct (IH _ Hf Hs) as [[?|?]|?]; [by left|right; by apply Exists_cons_hd|right; by apply Exists_cons_tl].
Qed.

(** Only what was seen matters, not when. *)
Definition seen_mono {A} (Q : outcome A → Prop → Prop) : Prop :=
  ∀ o (s s' : Prop), (s → s') → Q o s → Q o s'.

Lemma seen_weaken {A} P (s s' : Prop) (p : go A) Q :
  seen_mono Q → (s → s') → obeys (seen P) s p Q → obeys (seen P) s' p Q.
Proof.
  intros HQ. revert s s'. induction p as [a|m|c k IH]; intros s s' Hs Hp; cbn in *; [by eapply HQ..|].
  intros r. eapply IH; [|exact (Hp r)]. intros [?|?]; auto.
Qed.

Lemma seen_mono_bind {A B} P (f : A → go B) Q :
  seen_mono Q → seen_mono (λ o s, match o with
                                  | Returned a => obeys (seen P) s (f a) Q
                                  | Panicked m => Q (Panicked m) s
                                  end).
Proof. intros HQ [a|m] s s' Hs; [by apply seen_weaken|by apply HQ]. Qed.

(** A handler answers Internal only when a call ended in such a way. *)
Definition internal {A} (o : outcome (goret A)) : Prop :=
  ∃ m, o = Returned (None, Some (ErrStatus Internal m)).

Definition answers_blamed {A} (o : outcome (goret A)) (s : Prop) : Prop := internal o → s.
Lemma answers_blamed_mono {A} : seen_mono (A := goret A) answers_blamed.
Proof. unfold seen_mono, answers_blamed. auto. Qed.

Definition blames {A} (P : gevent → Prop) (p : go (goret A)) : Prop :=
  obeys (seen P) False p answers_blamed.

Lemma blames_exec {A} P (p : go (goret A)) tr o :
  blames P p → exec p tr o → internal o → Exists P tr.
Proof.
  intros Hp He Hi. destruct (obeys_exec _ _ _ _ _ _ Hp He) as (s & Hs & HQ).
  by destruct (seen_exists _ _ _ _ Hs (HQ Hi)) as [[]|?].
Qed.

Lemma run_blames {W A} (H : env W) P (p : go (goret A)) w o w' :
  blames P p → run H p w = (o, w') → internal o → Exists P (trace H p w).
Proof.
  intros Hp Hr. apply (blames_exec P p _ _ Hp). pose proof (run_exec H p w) as He. by rewrite Hr in He.
Qed.

(** ** Goroutines that make steps *)

(** A step of one element of a list. *)
Section Steps.
Context {X : Type} (R : X → X → Prop).

(** [R y x]: [y] comes after [x]. *)
Inductive one_step : list X → list X → Prop :=
| one_step_at xs i x y : xs !! i = Some x → R y x → one_step (<[i := y]> xs) xs.

Lemma one_step_wf xs : (∀ x, Acc R x) → Acc one_step xs.
Proof.
  intros HR. induction xs as [|x xs IH].
  { constructor. intros xs H. inversion H; simplify_list_eq; done. }
  revert xs IH. induction (HR x) as [x _ IHx]. intros xs Hxs.
  induction Hxs as [xs Hacc IHxs]. constructor. intros ys H. inversion H as [? i u v Hi Hu]; subst.
  destruct i as [|i]; cbn in *.
  - injection Hi as ->. by apply IHx; [|constructor].
  - apply IHxs. by econstructor.
Qed.
End Steps.

(** A program after one of its calls. *)
Definition next_of {A} (p' p : go A) : Prop :=
  match p with Call c k => ∃ r, p' = k r | _ => False end.

Lemma next_of_wf {A} (p : go A) : Acc next_of p.
Proof.
  induction p as [a|m|c k IH]; constructor; intros p'; [done..|]. intros [r ->]. apply IH.
Qed.
