(* ===== verification/RelyGuarantee.v ===== *)
(** * Goroutines that run side by side

    A concurrent reading of programs: [cwp] says that a goroutine keeps an
    invariant of the shared world with each of its calls, although the other
    goroutines may make any steps allowed by [rely] between any two of them.
    Each goroutine owns a token that protects facts about the world from the
    others.  Goroutines may run over different environments of one world, as
    those of two services do. *)
From S2P Require Import Prelude.
From S2P Require Import GoRuntime.
From S2P Require Import External.
From stdpp Require Import relations.

(** One call of goroutine [i], answered by its environment. *)
Inductive mstep {W A} (Hs : nat → env W) : list (go A) * W → list (go A) * W → Prop :=
| mstep_call ts i c k w :
    ts !! i = Some (Call c k) →
    mstep Hs (ts, w) (<[i := k (Hs i c w).1]> ts, (Hs i c w).2).

(** Calls in the order of a schedule; a goroutine that has ended, or that does
    not exist, makes none. *)
Fixpoint mschedule {W A} (Hs : nat → env W) (sch : list nat) (ts : list (go A)) (w : W) :
    list (go A) * W :=
  match sch with
  | [] => (ts, w)
  | i :: sch =>
      match ts !! i with
      | Some (Call c k) => let '(r, w') := Hs i c w in mschedule Hs sch (<[i := k r]> ts) w'
      | _ => mschedule Hs sch ts w
      end
  end.

Lemma mschedule_steps {W A} (Hs : nat → env W) sch (ts : list (go A)) w :
  rtc (mstep Hs) (ts, w) (mschedule Hs sch ts w).
Proof.
  revert ts w. induction sch as [|i sch IH]; intros ts w; cbn; [done|].
  destruct (ts !! i) as [[a|s|c k]|] eqn:Hi; try done.
  pose proof (mstep_call Hs ts i c k w Hi) as Hstep.
  destruct (Hs i c w) as [r w']. eapply rtc_l; [exact Hstep|apply IH].
Qed.

Section RelyGuarantee.
Context {W T : Type} (I : W → Prop) (rely : T → W → W → Prop)
        (valid : T → W → Prop) (compat : T → T → Prop).
Context {rely_pre : ∀ τ, PreOrder (rely τ)} {compat_sym : Symmetric compat}.

(** What a step from [w] to [w'] of a goroutine that owned [τ] and then owns
    [τ'] promises the others. *)
Definition guarantee (τ : T) (w : W) (τ' : T) (w' : W) : Prop :=
  I w' ∧ valid τ' w' ∧
  ∀ σ, valid σ w → compat τ σ → rely σ w w' ∧ valid σ w' ∧ compat τ' σ.

Section Program.
Context (H : env W).

Fixpoint cwp {A} (p : go A) (Q : outcome A → T → W → Prop) (τ : T) (w : W) : Prop :=
  match p with
  | Ret a => Q (Returned a) τ w
  | Panic s => Q (Panicked s) τ w
  | Call c k => ∀ w1, rely τ w w1 → valid τ w1 → I w1 →
      ∃ τ', guarantee τ w1 τ' (H c w1).2 ∧ cwp (k (H c w1).1) Q τ' (H c w1).2
  end.

Lemma cwp_mono {A} (p : go A) (Q Q' : outcome A → T → W → Prop) τ w :
  cwp p Q τ w → (∀ o τ' w', Q o τ' w' → Q' o τ' w') → cwp p Q' τ w.
Proof.
  intros Hp HQ. revert τ w Hp. induction p as [a|s|c k IH]; intros τ w Hp; cbn in *; [by apply HQ..|].
  intros w1 Hr Hv Hi. destruct (Hp w1 Hr Hv Hi) as (τ' & Hg & Hk). exists τ'. split; [done|]. by apply IH.
Qed.

(** The steps of the others may come first. *)
Lemma cwp_rely {A} (p : go A) (Q : outcome A → T → W → Prop) τ w w' :
  cwp p Q τ w → rely τ w w' →
  (∀ o, Q o τ w → Q o τ w') → cwp p Q τ w'.
Proof.
  intros Hp Hr HQ. destruct p as [a|s|c k]; cbn in *; [by apply HQ..|].
  intros w1 Hr1. apply Hp. by etrans.
Qed.

Lemma cwp_bind {A B} (p : go A) (f : A → go B) Q τ w :
  cwp p (λ o τ' w', match o with
                    | Returned a => cwp (f a) Q τ' w'
                    | Panicked s => Q (Panicked s) τ' w'
                    end) τ w →
  cwp (p ≫= f) Q τ w.
Proof.
  unfold mbind. revert τ w. induction p as [a|s|c k IH]; intros τ w Hp; cbn in *; [done..|].
  intros w1 Hr Hv Hi. destruct (Hp w1 Hr Hv Hi) as (τ' & Hg & Hk). exists τ'. split; [done|]. by apply IH.
Qed.

Lemma cwp_ret {A} (a : A) (Q : outcome A → T → W → Prop) τ w :
  Q (Returned a) τ w → cwp (mret a) Q τ w.
Proof. done. Qed.

Lemma cwp_panic {A} s (Q : outcome A → T → W → Prop) τ w : Q (Panicked s) τ w → cwp (Panic s) Q τ w.
Proof. done. Qed.

Lemma cwp_call {A} c (k : extres c → go A) Q τ w :
  (∀ w1, rely τ w w1 → valid τ w1 → I w1 →
     ∃ τ', guarantee τ w1 τ' (H c w1).2 ∧ cwp (k (H c w1).1) Q τ' (H c w1).2) →
  cwp (gocall c ≫= k) Q τ w.
Proof. done. Qed.

Lemma cwp_defer {A} d (p : go A) Q τ w :
  cwp p (λ o τ' w', cwp d (λ od τ'' w'', match od with
                                         | Returned _ => Q o τ'' w''
                                         | Panicked s => Q (Panicked s) τ'' w''
                                         end) τ' w') τ w →
  cwp (with_defer d p) Q τ w.
Proof.
  revert τ w. induction p as [a|s|c k IH]; intros τ w Hp; cbn in *.
  - apply cwp_bind. eapply cwp_mono; [done|]. by intros [].
  - apply cwp_bind. eapply cwp_mono; [done|]. by intros [].
  - intros w1 Hr Hv Hi. destruct (Hp w1 Hr Hv Hi) as (τ' & Hg & Hk). exists τ'. split; [done|].
    by apply IH.
Qed.

Lemma cwp_recover {A} h (p : go A) Q τ w :
  cwp p (λ o τ' w', match o with
                    | Returned a => Q (Returned a) τ' w'
                    | Panicked s => cwp (h s) Q τ' w'
                    end) τ w →
  cwp (with_recover h p) Q τ w.
Proof.
  revert τ w. induction p as [a|s|c k IH]; intros τ w Hp; cbn in *; [done..|].
  intros w1 Hr Hv Hi. destruct (Hp w1 Hr Hv Hi) as (τ' & Hg & Hk). exists τ'. split; [done|]. by apply IH.
Qed.

(** A program of calls that keep the token and only make steps the goroutine
    itself may rely on. *)
Definition harmless (c : extcall) : Prop :=
  ∀ τ w, valid τ w → I w → guarantee τ w τ (H c w).2 ∧ rely τ w (H c w).2.

Lemma cwp_harmless_call {A} c (k : extres c → go A) Q τ w :
  harmless c → (∀ r w2, rely τ w w2 → cwp (k r) Q τ w2) → cwp (gocall c ≫= k) Q τ w.
Proof.
  intros Hc Hk w1 Hr Hv Hi. exists τ. destruct (Hc τ w1 Hv Hi) as [Hg Hr']. split; [done|].
  apply Hk. by etrans.
Qed.

Lemma cwp_harmless_one c (Q : outcome (extres c) → T → W → Prop) τ w :
  harmless c → (∀ r w2, rely τ w w2 → Q (Returned r) τ w2) → cwp (gocall c) Q τ w.
Proof. intros Hc Hk. by apply (cwp_harmless_call c mret). Qed.

Lemma cwp_harmless {A} (p : go A) τ w :
  calls_only harmless p → cwp p (λ _ τ' w', τ' = τ ∧ rely τ w w') τ w.
Proof.
  intros Hp. assert (∀ w0, rely τ w w0 → cwp p (λ _ τ' w', τ' = τ ∧ rely τ w w') τ w0) as Hw.
  { induction p as [a|s|c k IH]; intros w0 H0; cbn in *; [done..|].
    destruct Hp as [Hc Hk]. intros w1 Hr Hv Hi. exists τ. destruct (Hc τ w1 Hv Hi) as [Hg Hrel].
    split; [done|]. apply IH; [apply Hk|]. by do 2 (etrans; [done|]). }
  by apply Hw.
Qed.
End Program.

(** ** Soundness *)

Section Sound.
Context (Hs : nat → env W) {A : Type} (Qs : nat → outcome A → T → W → Prop).
(** What a goroutine has achieved the others do not undo. *)
Context (Qs_lasting : ∀ i o τ w w', Qs i o τ w → rely τ w w' → Qs i o τ w').

(** Every goroutine is ready to go on, and their tokens are compatible. *)
Definition ready (ts : list (go A)) (w : W) : Prop :=
  I w ∧ ∃ τs : nat → T,
    (∀ i p, ts !! i = Some p → valid (τs i) w ∧ cwp (Hs i) p (Qs i) (τs i) w) ∧
    (∀ i j, i ≠ j → i < length ts → j < length ts → compat (τs i) (τs j)).

Lemma ready_step ts w ts' w' : ready ts w → mstep Hs (ts, w) (ts', w') → ready ts' w'.
Proof.
  intros (Hi & τs & Hts & Hc) Hstep. inversion Hstep as [? i c k ? Hik]; subst.
  destruct (Hts _ _ Hik) as [Hv Hp]. cbn in Hp.
  destruct (Hp w ltac:(done) Hv Hi) as (τ' & (Hi' & Hv' & Hg) & Hk).
  assert (i < length ts) as Hlen by by eapply lookup_lt_Some.
  split; [done|]. exists (λ j, if decide (j = i) then τ' else τs j). split.
  - intros j p Hj. destruct (decide (j = i)) as [->|Hne].
    + rewrite list_lookup_insert_eq in Hj by done. by injection Hj as <-.
    + rewrite list_lookup_insert_ne in Hj by done. destruct (Hts _ _ Hj) as [Hvj Hpj].
      destruct (Hg (τs j) Hvj) as (Hr & Hvj' & _); [by apply Hc; eauto using lookup_lt_Some|].
      split; [done|]. eapply cwp_rely; [done..|]. intros o HQ. by eapply Qs_lasting.
  - rewrite length_insert. intros j1 j2 Hne H1 H2.
    assert (∀ j, j ≠ i → j < length ts → compat τ' (τs j)) as Hnew.
    { intros j Hj Hjl. destruct (lookup_lt_is_Some_2 ts j Hjl) as [p Hpj].
      apply (Hg (τs j)); [by destruct (Hts _ _ Hpj)|]. by apply Hc. }
    destruct (decide (j1 = i)), (decide (j2 = i)); subst; [done|by apply Hnew| |by apply Hc].
    symmetry. by apply Hnew.
Qed.

Lemma ready_steps ts w ts' w' : ready ts w → rtc (mstep Hs) (ts, w) (ts', w') → ready ts' w'.
Proof.
  intros Hr Hs'. remember (ts, w) as x eqn:Hx. remember (ts', w') as y eqn:Hy.
  revert ts w Hx Hr. induction Hs' as [x|x z y Hstep _ IH]; intros ts w -> Hr.
  - by injection Hy as -> ->.
  - destruct z as [ts1 w1]. apply (IH Hy ts1 w1); [done|]. by eapply ready_step.
Qed.

(** The invariant holds in every reachable state. *)
Lemma ready_invariant ts w ts' w' : ready ts w → rtc (mstep Hs) (ts, w) (ts', w') → I w'.
Proof. intros Hr Hs'. by apply (ready_steps ts w ts' w' Hr Hs'). Qed.

(** What a goroutine that has returned achieved holds from then on. *)
Lemma ready_answer ts w ts' w' i a :
  ready ts w → rtc (mstep Hs) (ts, w) (ts', w') → ts' !! i = Some (Ret a) →
  ∃ τ, Qs i (Returned a) τ w'.
Proof.
  intros Hr Hs' Hi. destruct (ready_steps ts w ts' w' Hr Hs') as (_ & τs & Hts & _).
  destruct (Hts _ _ Hi) as [_ HQ]. by exists (τs i).
Qed.
End Sound.
End RelyGuarantee.

(** Symbolic execution under [cwp]. *)
Ltac cwp_pure :=
  lazymatch goal with
  | |- cwp _ _ _ _ _ (with_defer _ _) _ _ _ => apply cwp_defer
  | |- cwp _ _ _ _ _ (mret _) _ _ _ => apply cwp_ret
  | |- cwp _ _ _ _ _ (Ret _) _ _ _ => apply cwp_ret
  | |- cwp _ _ _ _ _ (Panic _) _ _ _ => apply cwp_panic
  | |- cwp _ _ _ _ _ (_ ≫= _) _ _ _ => apply cwp_bind
  end; cbn beta iota.
