(* ===== verification/Linearizability.v ===== *)
(** * Requests that take effect at one instant

    A server that starts a goroutine for every request that arrives.  When the
    program of a request makes at most one statement on its path, and a trace of
    it with that statement made in any state meets the sequential specification,
    then every execution of the server is explained by a log of the requests in
    the order of their effects: each request takes effect at one instant
    between its arrival and its answer. *)
From S2P Require Import Prelude.
From S2P Require Import GoRuntime.
From S2P Require Import External.
From S2P Require Import Typestate.
From stdpp Require Import relations.

Definition call_of (e : event extres) : extcall := match e with Ev c _ => c end.

(** ** Programs that make at most [n] calls of a kind *)

(** The budget after a call. *)
Definition budget (kind : extcall → bool) (n : nat) (c : extcall) (_ : extres c) : option nat :=
  if kind c then match n with O => None | S n => Some n end else Some n.

(** The budget left when the program ends, and how it ends. *)
Abbreviation spend kind n p Q := (obeys (budget kind) n p Q).

Section Budget.
Context (kind : extcall → bool).

Definition at_most {A} (n : nat) (p : go A) : Prop := spend kind n p (λ _ _, True).

Lemma at_most_call {A} n c (k : extres c → go A) r :
  at_most n (Call c k) → if kind c then ∃ m, n = S m ∧ at_most m (k r) else at_most n (k r).
Proof.
  intros Hp. specialize (Hp r). unfold budget in Hp. destruct (kind c); [|done].
  destruct n as [|n]; [done|]. by exists n.
Qed.

Lemma spend_at_most {A} n (p : go A) Q : spend kind n p Q → at_most n p.
Proof. intros Hp. by eapply obeys_mono. Qed.

Lemma spend_skip n c (Q : outcome (extres c) → nat → Prop) :
  kind c = false → (∀ r, Q (Returned r) n) → spend kind n (gocall c) Q.
Proof. intros Hc. apply obeys_call. unfold budget. by rewrite Hc. Qed.

Lemma spend_use n c (Q : outcome (extres c) → nat → Prop) :
  kind c = true → (∀ r, Q (Returned r) n) → spend kind (S n) (gocall c) Q.
Proof. intros Hc. apply obeys_call. unfold budget. by rewrite Hc. Qed.

(** A trace within the budget. *)
Lemma at_most_exec {A} n (p : go A) tr o :
  at_most n p → exec p tr o → length (filter (λ e, kind (call_of e) = true) tr) ≤ n.
Proof.
  intros Hp He. destruct (obeys_exec _ _ _ _ _ _ Hp He) as (m & Hf & _). clear Hp He.
  revert n Hf. induction tr as [|[c r] tr IH]; intros n Hf; [cbn; lia|].
  apply bind_Some in Hf as (n' & Hn & Hf). unfold budget in Hn. specialize (IH n' Hf).
  rewrite filter_cons. cbn [call_of]. destruct (kind c) eqn:Hk.
  - rewrite decide_True by done. destruct n as [|n]; [done|]. injection Hn as ->. cbn. lia.
  - rewrite decide_False by done. by injection Hn as ->.
Qed.
End Budget.

(** Walks through [spend kind n p Q] for a concrete [kind]. *)
Ltac spend_step :=
  lazymatch goal with
  | |- obeys _ _ (with_defer _ _) _ => apply obeys_defer
  | |- obeys _ _ (_ ≫= _) _ => apply obeys_bind
  | |- obeys (budget ?kind) ?n (gocall ?c) ?Q =>
      first [refine (spend_skip kind n c Q eq_refl _)|refine (spend_use kind _ c Q eq_refl _)]; intros ?
  | |- obeys _ _ (match ?x with _ => _ end) _ => destruct x
  | |- obeys _ _ (let '(_, _) := ?x in _) _ => destruct x
  | |- obeys (budget ?kind) ?n (deref (Some ?a)) ?Q => refine (obeys_ret _ n a Q _)
  | |- obeys (budget ?kind) ?n (deref None) ?Q => refine (obeys_panic _ n _ Q _)
  | |- obeys _ _ (deref ?x) _ => destruct x
  | |- obeys (budget ?kind) ?n (mret ?a) ?Q => refine (obeys_ret _ n a Q _)
  | |- obeys (budget ?kind) ?n (Ret ?a) ?Q => refine (obeys_ret _ n a Q _)
  | |- obeys (budget ?kind) ?n (Panic ?s) ?Q => refine (obeys_panic _ n s Q _)
  end; cbn beta iota.

(** ** The server *)

Section Server.
Context {W T Q A : Type} (H : env W) (abs : W → T) (inv : W → Prop).
Context (stmt : extcall → bool) (allowed : extcall → Prop) (ok : event extres → Prop).
Context (prog : Q → go A) (post : Q → T → A → T → Prop).

Definition quiet_call (c : extcall) : Prop := allowed c ∧ stmt c = false.

(** A goroutine for a request, or one of the program's own. *)
#[local] Abbreviation job := (option Q * go A)%type.

Inductive serving : list job * W → list job * W → Prop :=
| serving_arrive ts w q : serving (ts, w) (ts ++ [(Some q, prog q)], w)
| serving_start ts w p : calls_only quiet_call p → serving (ts, w) (ts ++ [(None, p)], w)
| serving_call ts w i j c k :
    ts !! i = Some (j, Call c k) → serving (ts, w) (<[i := (j, k (H c w).1)]> ts, (H c w).2).

(** Steps in a given order; a step of a goroutine that has ended, or that does
    not exist, does nothing. *)
Inductive move : Type := Arrive (q : Q) | Start (p : go A) | Turn (i : nat).

Definition move_ok (m : move) : Prop :=
  match m with Start p => calls_only quiet_call p | _ => True end.

Fixpoint serve_run (ms : list move) (ts : list job) (w : W) : list job * W :=
  match ms with
  | [] => (ts, w)
  | Arrive q :: ms => serve_run ms (ts ++ [(Some q, prog q)]) w
  | Start p :: ms => serve_run ms (ts ++ [(None, p)]) w
  | Turn i :: ms =>
      match ts !! i with
      | Some (j, Call c k) =>
          let '(r, w') := H c w in serve_run ms (<[i := (j, k r)]> ts) w'
      | _ => serve_run ms ts w
      end
  end.

Lemma serve_run_steps ms ts w :
  Forall move_ok ms → rtc serving (ts, w) (serve_run ms ts w).
Proof.
  revert ts w. induction ms as [|m ms IH]; intros ts w Hms; cbn; [done|].
  apply Forall_cons in Hms as [Hm Hms]. destruct m as [q|p|i].
  - eapply rtc_l; [apply serving_arrive|by apply IH].
  - eapply rtc_l; [by apply serving_start|by apply IH].
  - destruct (ts !! i) as [[j [a|m|c k]]|] eqn:Hi; try by apply IH.
    pose proof (serving_call ts w i j c k Hi) as Hstep.
    destruct (H c w) as [r w']. eapply rtc_l; [exact Hstep|by apply IH].
Qed.

(** The requests in the order of their effects, with the state before and after. *)
Definition history : Type := list (nat * T * T).
Definition ids (l : history) : list nat := map (λ e, e.1.1) l.

Fixpoint chain (U : T) (l : history) (U' : T) : Prop :=
  match l with [] => U' = U | (_, U1, U2) :: l => U1 = U ∧ chain U2 l U' end.

(** The history leads to the present state; every effect is the one the
    specification gives its request, with the answer it got or an answer it can
    still get; and every answered request has its effect. *)
Definition explained (w0 : W) (s : list job * W) (l : history) : Prop :=
  chain (abs w0) l (abs s.2) ∧ NoDup (ids l) ∧
  (∀ i U U', (i, U, U') ∈ l →
     ∃ q p a, s.1 !! i = Some (Some q, p) ∧ post q U a U' ∧ ∀ b, p = Ret b → a = b) ∧
  (∀ i q a, s.1 !! i = Some (Some q, Ret a) → i ∈ ids l).

Lemma chain_app U l1 l2 U' : chain U (l1 ++ l2) U' ↔ ∃ V, chain U l1 V ∧ chain V l2 U'.
Proof.
  revert U. induction l1 as [|[[i U1] U2] l1 IH]; intros U; cbn.
  - split; [by eauto|]. by intros (V & -> & ?).
  - rewrite IH. split; [intros (-> & V & ? & ?)|intros (V & (-> & ?) & ?)]; eauto.
Qed.

Lemma ids_app l1 l2 : ids (l1 ++ l2) = ids l1 ++ ids l2.
Proof. apply map_app. Qed.

Lemma elem_of_ids i l : i ∈ ids l ↔ ∃ U U', (i, U, U') ∈ l.
Proof.
  unfold ids. rewrite list_elem_of_fmap. split.
  - intros ([[j U] U'] & -> & Hin). eauto.
  - intros (U & U' & Hin). by exists (i, U, U').
Qed.

(** The statements of a trace, made from [w], lead to [w']. *)
Fixpoint stmts (tr : list (event extres)) (w w' : W) : Prop :=
  match tr with
  | [] => w' = w
  | Ev c r :: tr => if stmt c then ∃ w1, H c w = (r, w1) ∧ stmts tr w1 w' else stmts tr w w'
  end.

Lemma stmts_app tr1 tr2 w w' : stmts (tr1 ++ tr2) w w' ↔ ∃ w1, stmts tr1 w w1 ∧ stmts tr2 w1 w'.
Proof.
  revert w. induction tr1 as [|[c r] tr1 IH]; intros w; cbn.
  - split; [by eauto|]. by intros (? & -> & ?).
  - destruct (stmt c); [|apply IH]. setoid_rewrite IH.
    split; [intros (w1 & ? & w2 & ? & ?)|intros (w2 & (w1 & ? & ?) & ?)]; eauto 10.
Qed.

Lemma stmts_none {B} (p : go B) tr o w : at_most stmt 0 p → exec p tr o → stmts tr w w.
Proof.
  revert tr. induction p as [a|s|c k IH]; intros tr Hp; cbn.
  - by intros [-> _].
  - by intros [-> _].
  - intros (r & tr' & -> & He). apply (at_most_call _ _ _ _ r) in Hp. cbn.
    destruct (stmt c); [by destruct Hp as (? & ? & _)|]. by eapply IH.
Qed.

Class Atomic : Prop := {
  atomic_inv : ∀ c w, allowed c → inv w → inv (H c w).2;
  atomic_ok : ∀ c w, allowed c → inv w → ok (Ev c (H c w).1);
  atomic_quiet : ∀ c w, allowed c → stmt c = false → abs (H c w).2 = abs w;
  atomic_allowed : ∀ q, calls_only allowed (prog q);
  atomic_starts : ∀ q, ∃ c k, prog q = Call c k;
  atomic_returns : ∀ q tr o, exec (prog q) tr o → ∃ a, o = Returned a;
  atomic_once : ∀ q, at_most stmt 1 (prog q);
  atomic_spec : ∀ q tr a w w', exec (prog q) tr (Returned a) → Forall ok tr → inv w →
    stmts tr w w' → post q (abs w) a (abs w')
}.
(** ** The invariant *)

Section Proof.
Context `{!Atomic}.

(** The rest of a program after its allowed calls of [tr]. *)
Definition after (q : Q) (tr : list (event extres)) (p : go A) : Prop :=
  (∀ tr' o, exec p tr' o → exec (prog q) (tr ++ tr') o) ∧ Forall ok tr ∧ calls_only allowed p.

Definition unfinished (p : go A) : Prop := ∃ c k, p = Call c k.

(** The request of goroutine [i], before and after its effect. *)
Inductive status (l : history) (i : nat) (q : Q) (p : go A) : Prop :=
| before_effect tr :
    after q tr p → (∀ w, stmts tr w w) → at_most stmt 1 p → unfinished p → i ∉ ids l →
    status l i q p
| after_effect tr w1 w1' :
    after q tr p → inv w1 → stmts tr w1 w1' → at_most stmt 0 p → (i, abs w1, abs w1') ∈ l →
    status l i q p.

Definition linear (w0 : W) (s : list job * W) (l : history) : Prop :=
  inv s.2 ∧ chain (abs w0) l (abs s.2) ∧ NoDup (ids l) ∧
  (∀ i, i ∈ ids l → ∃ q p, s.1 !! i = Some (Some q, p)) ∧
  (∀ i q p, s.1 !! i = Some (Some q, p) → status l i q p) ∧
  (∀ i p, s.1 !! i = Some (None, p) → calls_only quiet_call p).

Lemma after_call q tr c k w :
  inv w → after q tr (Call c k) → after q (tr ++ [Ev c (H c w).1]) (k (H c w).1).
Proof.
  intros Hw (He & Hok & Ha & Hk). split_and!.
  - intros tr' o Hx. rewrite <-app_assoc. apply He. cbn. eauto.
  - apply Forall_app_2; [done|]. apply Forall_singleton. by apply atomic_ok.
  - apply Hk.
Qed.

(** Another goroutine's step, or a longer history, changes no status. *)
Lemma status_grows l l' i q p : status l i q p → i ∉ ids l' → status (l ++ l') i q p.
Proof.
  intros [tr Ha Hs Hm Hu Hi|tr w1 w1' Ha Hw Hs Hm Hi] Hl'.
  - eapply before_effect; [done..|]. rewrite ids_app, not_elem_of_app. done.
  - eapply after_effect; [done..|]. apply elem_of_app. by left.
Qed.

(** What the step of the goroutine of a request adds to the history. *)
Lemma status_call l i q c k w :
  inv w → status l i q (Call c k) →
  ∃ l', status (l ++ l') i q (k (H c w).1) ∧ chain (abs w) l' (abs (H c w).2) ∧
    NoDup (ids l') ∧ (∀ j, j ∈ ids l' → j = i ∧ i ∉ ids l).
Proof.
  intros Hw Hst. assert (allowed c) as Hal by by destruct Hst as [? (_ & _ & [? _])|? ? ? (_ & _ & [? _])].
  destruct (H c w) as [r w'] eqn:Hc.
  assert (∀ tr, after q tr (Call c k) → after q (tr ++ [Ev c r]) (k r)) as Haft.
  { intros tr Ha. pose proof (after_call q tr c k w Hw Ha) as Hac. by rewrite Hc in Hac. }
  pose proof (atomic_quiet c w Hal) as Hqu. rewrite Hc in Hqu. cbn [fst snd] in Hqu |- *.
  destruct Hst as [tr Ha Hs Hm Hu Hi|tr w1 w1' Ha Hw1 Hs Hm Hi]; apply (at_most_call _ _ _ _ r) in Hm.
  - destruct (stmt c) eqn:Hsc.
    + destruct Hm as (m & [= <-] & Hm). exists [(i, abs w, abs w')]. split_and!; [|by split|apply NoDup_singleton|by intros j ->%list_elem_of_singleton].
      eapply (after_effect _ _ _ _ (tr ++ [Ev c r]) w w'); [by apply Haft|done| |apply Hm|apply elem_of_app; right; by apply list_elem_of_singleton].
      apply stmts_app. exists w. split; [done|]. cbn. rewrite Hsc. eauto.
    + assert (∀ v, stmts (tr ++ [Ev c r]) v v) as Hs'.
      { intros v. apply stmts_app. exists v. split; [done|]. cbn. by rewrite Hsc. }
      destruct (k r) as [a|m|c' k'] eqn:Hk; cycle 2.
      * exists []. split_and!; [|cbn; by apply Hqu|apply NoDup_nil_2|by intros j ?%elem_of_nil].
        rewrite app_nil_r. eapply before_effect; [by apply Haft|done| |by repeat eexists|done].
        exact Hm.
      * exists [(i, abs w, abs w)]. split_and!; [|split; [done|by apply Hqu]|apply NoDup_singleton|by intros j ->%list_elem_of_singleton].
        eapply (after_effect _ _ _ _ _ w w); [by apply Haft|done|done|done|apply elem_of_app; right; by apply list_elem_of_singleton].
      * exists [(i, abs w, abs w)]. split_and!; [|split; [done|by apply Hqu]|apply NoDup_singleton|by intros j ->%list_elem_of_singleton].
        eapply (after_effect _ _ _ _ _ w w); [by apply Haft|done|done|done|apply elem_of_app; right; by apply list_elem_of_singleton].
  - destruct (stmt c) eqn:Hsc; [by destruct Hm as (? & ? & _)|].
    exists []. split_and!; [|cbn; by apply Hqu|apply NoDup_nil_2|by intros j ?%elem_of_nil].
    rewrite app_nil_r. eapply after_effect; [by apply Haft|done| |apply Hm|done].
    apply stmts_app. exists w1'. split; [done|]. cbn. by rewrite Hsc.
Qed.
Lemma linear_start w : inv w → linear w ([], w) [].
Proof.
  intros Hw. unfold linear. cbn. split_and!; [done|done|apply NoDup_nil_2|..].
  - by intros i ?%elem_of_nil.
  - done.
  - done.
Qed.

(** A new goroutine changes nothing. *)
Lemma linear_new w0 ts w l j p :
  linear w0 (ts, w) l →
  (∀ q, j = Some q → status l (length ts) q p) → (j = None → calls_only quiet_call p) →
  linear w0 (ts ++ [(j, p)], w) l.
Proof.
  intros (Hi & Hch & Hnd & Hids & Hst & Hbg) Hq Hn.
  assert (∀ i x, (ts ++ [(j, p)]) !! i = Some x → ts !! i = Some x ∨ i = length ts ∧ x = (j, p)) as Hl.
  { intros i x Hx. destruct (decide (i < length ts)) as [Hlt|Hge].
    - left. by rewrite lookup_app_l in Hx.
    - right. rewrite lookup_app_r in Hx by lia. apply list_lookup_singleton_Some in Hx as [? <-].
      split; [lia|done]. }
  unfold linear. split_and!; [done|done|done|..]; cbn.
  - intros i Hin. destruct (Hids i Hin) as (q & p' & Hp). exists q, p'.
    rewrite lookup_app_l by by eapply lookup_lt_Some. done.
  - intros i q p' [Hp|[-> [= <- <-]]]%Hl; [by apply Hst|by apply Hq].
  - intros i p' [Hp|[-> [= <- <-]]]%Hl; [by eapply Hbg|by apply Hn].
Qed.

Lemma new_not_logged w0 ts w l : linear w0 (ts, w) l → length ts ∉ ids l.
Proof.
  intros (_ & _ & _ & Hids & _) Hin. destruct (Hids _ Hin) as (q & p & Hp).
  apply lookup_lt_Some in Hp. cbn in Hp. lia.
Qed.

Lemma linear_step w0 s s' l : linear w0 s l → serving s s' → ∃ l', linear w0 s' (l ++ l').
Proof.
  intros Hl Hstep. destruct Hstep as [ts w q|ts w p Hp|ts w i j c k Hi].
  - exists []. rewrite app_nil_r. apply linear_new; [done| |done]. intros q' [= <-].
    eapply (before_effect _ _ _ _ []); [|done|apply atomic_once|apply atomic_starts|by eapply new_not_logged].
    split_and!; [done|apply Forall_nil_2|apply atomic_allowed].
  - exists []. rewrite app_nil_r. by apply linear_new.
  - destruct Hl as (Hinv & Hch & Hnd & Hids & Hst & Hbg). cbn in *.
    assert (i < length ts) as Hlt by by eapply lookup_lt_Some.
    assert (∃ l', (∀ q, j = Some q → status (l ++ l') i q (k (H c w).1)) ∧
      chain (abs w) l' (abs (H c w).2) ∧ NoDup (ids l') ∧ allowed c ∧
      (∀ n, n ∈ ids l' → n = i ∧ (i ∉ ids l) ∧ is_Some j) ∧
      (j = None → calls_only quiet_call (k (H c w).1))) as (l' & Hs' & Hch' & Hnd' & Hal & Hin' & Hb').
    { destruct j as [q|].
      - destruct (status_call l i q c k w Hinv (Hst _ _ _ Hi)) as (l' & ? & ? & ? & Hn).
        exists l'. split_and!; [by intros ? [= <-]|done|done| | |done].
        + by destruct (Hst _ _ _ Hi) as [? (_ & _ & [? _])|? ? ? (_ & _ & [? _])].
        + intros n Hin. destruct (Hn n Hin). eauto.
      - exists []. destruct (Hbg _ _ Hi) as [[Hal Hq] Hk].
        split_and!; [done|by apply atomic_quiet|apply NoDup_nil_2|done|by intros n ?%elem_of_nil|intros _; apply Hk]. }
    exists l'. unfold linear. cbn. split_and!.
    + by apply atomic_inv.
    + apply chain_app. eauto.
    + rewrite ids_app. apply NoDup_app. split_and!; [done| |done].
      intros n Hn Hn'. by destruct (Hin' n Hn') as (-> & ? & _).
    + intros n Hn. rewrite ids_app, elem_of_app in Hn.
      assert (∃ q p, ts !! n = Some (Some q, p)) as (q & p & Hp).
      { destruct Hn as [Hn|Hn]; [by apply Hids|]. destruct (Hin' n Hn) as (-> & _ & [q ->]). eauto. }
      destruct (decide (n = i)) as [->|Hne].
      * rewrite Hi in Hp. injection Hp as -> _. exists q. eexists. by apply list_lookup_insert_eq.
      * exists q, p. by rewrite list_lookup_insert_ne.
    + intros n q p Hp. destruct (decide (n = i)) as [->|Hne].
      * rewrite list_lookup_insert_eq in Hp by done. injection Hp as -> <-. by apply Hs'.
      * rewrite list_lookup_insert_ne in Hp by done. apply status_grows; [by apply Hst|].
        intros Hn. by destruct (Hin' n Hn).
    + intros n p Hp. destruct (decide (n = i)) as [->|Hne].
      * rewrite list_lookup_insert_eq in Hp by done. injection Hp as -> <-. by apply Hb'.
      * rewrite list_lookup_insert_ne in Hp by done. by eapply Hbg.
Qed.

Lemma linear_steps w0 s s' l : linear w0 s l → rtc serving s s' → ∃ l', linear w0 s' (l ++ l').
Proof.
  intros Hl Hs. revert l Hl. induction Hs as [s|s1 s2 s3 H1 _ IH]; intros l Hl.
  - exists []. by rewrite app_nil_r.
  - destruct (linear_step w0 s1 s2 l Hl H1) as [l1 H2]. destruct (IH _ H2) as [l2 H3].
    exists (l1 ++ l2). by rewrite app_assoc.
Qed.

(** ** The history explains the execution *)

(** A program can go on, with answers that are all right. *)
Lemma can_finish {B} (p : go B) w :
  calls_only allowed p → inv w → ∃ tr o, exec p tr o ∧ Forall ok tr.
Proof.
  revert w. induction p as [a|m|c k IH]; intros w Hp Hw; cbn.
  - eexists [], _. split; [done|apply Forall_nil_2].
  - eexists [], _. split; [done|apply Forall_nil_2].
  - destruct Hp as [Hc Hk]. destruct (IH (H c w).1 (H c w).2) as (tr & o & He & Hok); [done|by apply atomic_inv|].
    exists (Ev c (H c w).1 :: tr), o. split; [eauto|]. constructor; [by apply atomic_ok|done].
Qed.

Lemma linear_explained w0 s l : linear w0 s l → explained w0 s l.
Proof.
  intros (Hinv & Hch & Hnd & Hids & Hst & _). split_and!; [done|done| |].
  - intros i U U' Hin. destruct (Hids i) as (q & p & Hp); [apply elem_of_ids; eauto|].
    destruct (Hst i q p Hp) as [tr _ _ _ _ Hni|tr w1 w1' (He & Hok & Hal) Hw1 Hs Hm Hin1].
    { destruct Hni. apply elem_of_ids. eauto. }
    assert ((i, U, U') = (i, abs w1, abs w1')) as [= -> ->].
    { clear -Hnd Hin Hin1. induction l as [|e l IH]; [by apply elem_of_nil in Hin|].
      cbn in Hnd. apply NoDup_cons in Hnd as [Hn Hnd].
      apply elem_of_cons in Hin as [<-|Hin], Hin1 as [<-|Hin1]; [done| | |by apply IH].
      - destruct Hn. apply elem_of_ids. eauto.
      - destruct Hn. apply elem_of_ids. eauto. }
    destruct (can_finish p (snd s) Hal Hinv) as (tr' & o & He' & Hok').
    pose proof (He _ _ He') as Hfull. destruct (atomic_returns q _ _ Hfull) as [a ->].
    exists q, p, a. split; [done|]. split.
    + eapply (atomic_spec q _ a w1 w1'); [exact Hfull|by apply Forall_app_2|done|].
      apply stmts_app. exists w1'. split; [done|]. by eapply stmts_none.
    + intros b ->. by destruct He' as [_ [= ->]].
  - intros i q a Hp. destruct (Hst i q _ Hp) as [? _ _ _ (c & k & ?)|? ? ? _ _ _ _ Hin]; [done|].
    apply elem_of_ids. eauto.
Qed.

(** Histories only grow along an execution. *)
Lemma serving_explained w0 s1 s2 :
  inv w0 → rtc serving ([], w0) s1 → rtc serving s1 s2 →
  ∃ l1 l2, explained w0 s1 l1 ∧ explained w0 s2 (l1 ++ l2).
Proof.
  intros Hw H1 H2. destruct (linear_steps w0 _ _ [] (linear_start w0 Hw) H1) as [l1 Hl1].
  destruct (linear_steps w0 _ _ _ Hl1 H2) as [l2 Hl2]. exists l1, l2. split; by apply linear_explained.
Qed.
End Proof.
End Server.
Arguments Arrive {Q A} _.
Arguments Start {Q A} _.
Arguments Turn {Q A} _.
