(* ===== verification/Grpc.v ===== *)
(** * Unary calls and interceptors

    The shape of the code [protoc-gen-go-grpc] generates for a unary method
    (one definition for the client side and one for the server side, of which
    the generated functions are instances) and the two interceptors both
    services install, [recoveryInterceptor] and [loggingInterceptor] of
    [services/*/main.go]. *)
From S2P Require Import Prelude.
From S2P Require Import GoStrings.
From S2P Require Import Proto.
From S2P Require Import GoRuntime.
From S2P Require Import External.

(** A non-nil [interface{}] that holds a message pointer, which may be nil. *)
Definition iface : Type := {k : mkind & option (msg k)}.

(** [(interface{}, error)]. *)
Abbreviation iret := (option iface * option go_error)%type.

(** The conversion of [( *T, error)]. *)
Definition to_iface (k : mkind) (r : goret (msg k)) : iret := (Some (existT k r.1), r.2).

(** The type assertion [req.( *T)]. *)
Definition assert_msg (k : mkind) (x : iface) : go (option (msg k)) :=
  match decide (projT1 x = k) with
  | left e => mret (eq_rect _ (λ k, option (msg k)) (projT2 x) _ e)
  | right _ => Panic "interface conversion"
  end.

Definition UnaryHandler : Type := ctx → iface → go iret.
(** [grpc.UnaryServerInterceptor]; of the info only the method is used. *)
Definition UnaryServerInterceptor : Type := ctx → iface → string → UnaryHandler → go iret.

(** A [_Service_Method_Handler]; [dec] decodes the received bytes. *)
Definition method_handler (S : Type) : Type :=
  S → ctx → (∀ k, gresult (msg k)) → option UnaryServerInterceptor → go iret.

Record ServiceDesc (S : Type) := mkServiceDesc {
  ServiceName : string;
  Methods : list (string * method_handler S)
}.
Arguments mkServiceDesc {S} _ _.
Arguments ServiceName {S} _.
Arguments Methods {S} _.

(** The body of a generated client method. *)
Definition invoke_stub (method : string) (ki ko : mkind) (c : ctx) (req : msg ki) :
    go (goret (msg ko)) :=
  r ← gocall (GrpcInvoke c method ki ko req);
  match r with
  | Fail err => mret (None, Some err)
  | Ok out => mret (Some out, None)
  end.

(** The body of a generated method handler. *)
Definition unary_stub {S} (fullMethod : string) (ki ko : mkind)
    (method : S → ctx → msg ki → go (goret (msg ko))) : method_handler S :=
  λ srv c dec interceptor,
    match dec ki with
    | Fail err => mret (None, Some err)
    | Ok req =>
        match interceptor with
        | None => r ← method srv c req; mret (to_iface ko r)
        | Some interceptor =>
            let handler : UnaryHandler := λ c x,
              m ← assert_msg ki x;
              req ← deref m;
              r ← method srv c req; mret (to_iface ko r) in
            interceptor c (existT ki (Some req)) fullMethod handler
        end
    end.

Definition recoveryInterceptor : UnaryServerInterceptor := λ c req fullMethod handler,
  with_recover (λ p,
      zap_log Error_ "panic recovered in gRPC handler"
        [ZString "method" fullMethod; ZAny "panic" p] ≫= λ _,
      mret (None, Some (ErrStatus Internal "internal server error")))
    (handler c req).

Definition loggingInterceptor : UnaryServerInterceptor := λ c req fullMethod handler,
  start ← gocall TimeNow;
  '(resp, err) ← handler c req;
  now ← gocall TimeNow;
  let fields := [ZString "method" fullMethod; ZDuration "duration" (now - start)] in
  match err with
  | Some e =>
      zap_log Warn_ "gRPC call" (fields ++ [ZString "code" (code_String (status_Code e))])
        ≫= λ _, mret (resp, err)
  | None => zap_log Info_ "gRPC call" fields ≫= λ _, mret (resp, err)
  end.

(** [grpc.ChainUnaryInterceptor(recoveryInterceptor, loggingInterceptor)]: the
    first interceptor is the outermost. *)
Definition server_interceptor : UnaryServerInterceptor := λ c req fullMethod handler,
  recoveryInterceptor c req fullMethod
    (λ c req, loggingInterceptor c req fullMethod handler).

(** A decoder for the bytes of one message. *)
Definition decoded (k0 : mkind) (x : msg k0) : ∀ k, gresult (msg k) := λ k,
  match decide (k0 = k) with
  | left e => Ok (eq_rect _ msg x _ e)
  | right _ => Fail (ErrStatus Internal "wrong message type")
  end.

(** What the caller of a method gets when its implementation ends with [o]. *)
Definition rpc_result (ko : mkind) (o : outcome (goret (msg ko))) : iret :=
  match o with
  | Returned r => to_iface ko r
  | Panicked _ => (None, Some (ErrStatus Internal "internal server error"))
  end.

(** ** Facts about calls *)

Lemma decoded_same k x : decoded k x k = Ok x.
Proof.
  unfold decoded. destruct (decide (k = k)) as [e|]; [|done].
  by rewrite (Eqdep_dec.UIP_dec mkind_eq_dec e eq_refl).
Qed.

Lemma assert_msg_same k (x : option (msg k)) : assert_msg k (existT k x) = mret x.
Proof.
  unfold assert_msg. cbn. destruct (decide (k = k)) as [e|]; [|done].
  by rewrite (Eqdep_dec.UIP_dec mkind_eq_dec e eq_refl).
Qed.

(** The bookkeeping of the interceptors. *)
Definition interceptor_call (c : extcall) : bool :=
  match c with ZapLog _ _ _ | TimeNow => true | _ => false end.

(** A call under both interceptors always returns: what the method returned, or
    an [Internal] status when it panicked. *)
Lemma wp_rpc {W S} (H : env W) (R : W → W → Prop) (fm : string) (ki ko : mkind)
    (method : S → ctx → msg ki → go (goret (msg ko))) srv c req
    (Q : outcome (goret (msg ko)) → W → Prop) w :
  (∀ c w, interceptor_call c = true → R w (H c w).2) →
  (∀ w1, R w w1 → wp H (method srv c req) Q w1) →
  (∀ o w1 w2, Q o w1 → R w1 w2 → Q o w2) →
  wp H (unary_stub fm ki ko method srv c (decoded ki req) (Some server_interceptor))
    (λ o w', ∃ o0, o = Returned (rpc_result ko o0) ∧ Q o0 w') w.
Proof.
  intros HR Hm HQ. assert (∀ c w r w', H c w = (r, w') → interceptor_call c = true → R w w') as HR'.
  { intros c' w0 r w' E Hc. pose proof (HR c' w0 Hc) as Hr. by rewrite E in Hr. }
  unfold unary_stub. rewrite decoded_same. cbn [server_interceptor].
  unfold server_interceptor, recoveryInterceptor, loggingInterceptor. apply wp_recover.
  wp_call_intro start w1 H1. rewrite assert_msg_same. repeat wp_pure. cbn [deref]. repeat wp_pure.
  eapply wp_mono; [apply Hm; by eapply HR'|]. cbn beta. intros [r|s] w2 HQ2; cbn beta iota.
  - wp_pure. unfold to_iface at 1. wp_call_intro now w3 H3.
    destruct r as [resp err]. cbn [fst snd].
    destruct err as [e|]; go_call x w4 H4; wp_pure;
      [exists (Returned (resp, Some e))|exists (Returned (resp, None))]; (split; [done|]);
      (eapply HQ; [eapply HQ; [done|]|]; by eapply HR').
  - go_call x w3 H3. wp_pure. exists (Panicked s). split; [done|]. eapply HQ; [done|]. by eapply HR'.
Qed.

(** The calls of a method are those of the call under the interceptors, up to
    their bookkeeping. *)
Lemma calls_only_rpc (P : extcall → Prop) {S} (fm : string) (ki ko : mkind)
    (method : S → ctx → msg ki → go (goret (msg ko))) srv c dec :
  P TimeNow → (∀ l m fs, P (ZapLog l m fs)) → (∀ req, calls_only P (method srv c req)) →
  calls_only P (unary_stub fm ki ko method srv c dec (Some server_interceptor)).
Proof.
  intros Ht Hl Hm. unfold unary_stub. destruct (dec ki) as [req|err]; [|done].
  unfold server_interceptor, recoveryInterceptor.
  apply calls_only_recover; [intros m; unfold zap_log; by repeat calls_only_step|].
  unfold loggingInterceptor, zap_log. rewrite assert_msg_same.
  repeat first [done | apply Hm | calls_only_step].
Qed.
