(* ===== verification/GrpcStubs.v ===== *)
(** * The generated gRPC code

    [services/user/v1/user_grpc.pb.go] and [services/order/v1/order_grpc.pb.go]:
    the full method names, the client stubs, the server interfaces (a [Record]
    of methods each), the unimplemented server, the method handlers and the
    service descriptors. *)
From S2P Require Import Prelude.
From S2P Require Import Proto.
From S2P Require Import GoRuntime.
From S2P Require Import External.
From S2P Require Import Grpc.

Module userv1_grpc.

Definition UserService_CreateUser_FullMethodName : string := "/user.v1.UserService/CreateUser".
Definition UserService_GetUser_FullMethodName : string := "/user.v1.UserService/GetUser".
Definition UserService_UpdateUser_FullMethodName : string := "/user.v1.UserService/UpdateUser".
Definition UserService_DeleteUser_FullMethodName : string := "/user.v1.UserService/DeleteUser".

Definition userServiceClient_CreateUser (c : ctx) (req : userv1.CreateUserRequest) :
    go (goret userv1.CreateUserResponse) :=
  invoke_stub UserService_CreateUser_FullMethodName MCreateUserRequest MCreateUserResponse c req.

Definition userServiceClient_GetUser (c : ctx) (req : userv1.GetUserRequest) :
    go (goret userv1.GetUserResponse) :=
  invoke_stub UserService_GetUser_FullMethodName MGetUserRequest MGetUserResponse c req.

Definition userServiceClient_UpdateUser (c : ctx) (req : userv1.UpdateUserRequest) :
    go (goret userv1.UpdateUserResponse) :=
  invoke_stub UserService_UpdateUser_FullMethodName MUpdateUserRequest MUpdateUserResponse c req.

Definition userServiceClient_DeleteUser (c : ctx) (req : userv1.DeleteUserRequest) :
    go (goret userv1.DeleteUserResponse) :=
  invoke_stub UserService_DeleteUser_FullMethodName MDeleteUserRequest MDeleteUserResponse c req.

Record UserServiceServer := mkUserServiceServer {
  CreateUser : ctx → userv1.CreateUserRequest → go (goret userv1.CreateUserResponse);
  GetUser : ctx → userv1.GetUserRequest → go (goret userv1.GetUserResponse);
  UpdateUser : ctx → userv1.UpdateUserRequest → go (goret userv1.UpdateUserResponse);
  DeleteUser : ctx → userv1.DeleteUserRequest → go (goret userv1.DeleteUserResponse)
}.

Definition UnimplementedUserServiceServer : UserServiceServer := {|
  CreateUser := λ _ _, mret (status_fail Unimplemented "method CreateUser not implemented");
  GetUser := λ _ _, mret (status_fail Unimplemented "method GetUser not implemented");
  UpdateUser := λ _ _, mret (status_fail Unimplemented "method UpdateUser not implemented");
  DeleteUser := λ _ _, mret (status_fail Unimplemented "method DeleteUser not implemented")
|}.

Definition UserService_CreateUser_Handler : method_handler UserServiceServer :=
  unary_stub UserService_CreateUser_FullMethodName MCreateUserRequest MCreateUserResponse CreateUser.

Definition UserService_GetUser_Handler : method_handler UserServiceServer :=
  unary_stub UserService_GetUser_FullMethodName MGetUserRequest MGetUserResponse GetUser.

Definition UserService_UpdateUser_Handler : method_handler UserServiceServer :=
  unary_stub UserService_UpdateUser_FullMethodName MUpdateUserRequest MUpdateUserResponse UpdateUser.

Definition UserService_DeleteUser_Handler : method_handler UserServiceServer :=
  unary_stub UserService_DeleteUser_FullMethodName MDeleteUserRequest MDeleteUserResponse DeleteUser.

Definition UserService_ServiceDesc : ServiceDesc UserServiceServer := {|
  ServiceName := "user.v1.UserService";
  Methods := [("CreateUser", UserService_CreateUser_Handler);
              ("GetUser", UserService_GetUser_Handler);
              ("UpdateUser", UserService_UpdateUser_Handler);
              ("DeleteUser", UserService_DeleteUser_Handler)]
|}.

End userv1_grpc.

Module orderv1_grpc.

Definition OrderService_CreateOrder_FullMethodName : string := "/order.v1.OrderService/CreateOrder".
Definition OrderService_GetOrder_FullMethodName : string := "/order.v1.OrderService/GetOrder".
Definition OrderService_ListOrders_FullMethodName : string := "/order.v1.OrderService/ListOrders".
Definition OrderService_CancelOrder_FullMethodName : string := "/order.v1.OrderService/CancelOrder".

Definition orderServiceClient_CreateOrder (c : ctx) (req : orderv1.CreateOrderRequest) :
    go (goret orderv1.CreateOrderResponse) :=
  invoke_stub OrderService_CreateOrder_FullMethodName MCreateOrderRequest MCreateOrderResponse c req.

Definition orderServiceClient_GetOrder (c : ctx) (req : orderv1.GetOrderRequest) :
    go (goret orderv1.GetOrderResponse) :=
  invoke_stub OrderService_GetOrder_FullMethodName MGetOrderRequest MGetOrderResponse c req.

Definition orderServiceClient_ListOrders (c : ctx) (req : orderv1.ListOrdersRequest) :
    go (goret orderv1.ListOrdersResponse) :=
  invoke_stub OrderService_ListOrders_FullMethodName MListOrdersRequest MListOrdersResponse c req.

Definition orderServiceClient_CancelOrder (c : ctx) (req : orderv1.CancelOrderRequest) :
    go (goret orderv1.CancelOrderResponse) :=
  invoke_stub OrderService_CancelOrder_FullMethodName MCancelOrderRequest MCancelOrderResponse c req.

Record OrderServiceServer := mkOrderServiceServer {
  CreateOrder : ctx → orderv1.CreateOrderRequest → go (goret orderv1.CreateOrderResponse);
  GetOrder : ctx → orderv1.GetOrderRequest → go (goret orderv1.GetOrderResponse);
  ListOrders : ctx → orderv1.ListOrdersRequest → go (goret orderv1.ListOrdersResponse);
  CancelOrder : ctx → orderv1.CancelOrderRequest → go (goret orderv1.CancelOrderResponse)
}.

Definition UnimplementedOrderServiceServer : OrderServiceServer := {|
  CreateOrder := λ _ _, mret (status_fail Unimplemented "method CreateOrder not implemented");
  GetOrder := λ _ _, mret (status_fail Unimplemented "method GetOrder not implemented");
  ListOrders := λ _ _, mret (status_fail Unimplemented "method ListOrders not implemented");
  CancelOrder := λ _ _, mret (status_fail Unimplemented "method CancelOrder not implemented")
|}.

Definition OrderService_CreateOrder_Handler : method_handler OrderServiceServer :=
  unary_stub OrderService_CreateOrder_FullMethodName MCreateOrderRequest MCreateOrderResponse CreateOrder.

Definition OrderService_GetOrder_Handler : method_handler OrderServiceServer :=
  unary_stub OrderService_GetOrder_FullMethodName MGetOrderRequest MGetOrderResponse GetOrder.

Definition OrderService_ListOrders_Handler : method_handler OrderServiceServer :=
  unary_stub OrderService_ListOrders_FullMethodName MListOrdersRequest MListOrdersResponse ListOrders.

Definition OrderService_CancelOrder_Handler : method_handler OrderServiceServer :=
  unary_stub OrderService_CancelOrder_FullMethodName MCancelOrderRequest MCancelOrderResponse CancelOrder.

Definition OrderService_ServiceDesc : ServiceDesc OrderServiceServer := {|
  ServiceName := "order.v1.OrderService";
  Methods := [("CreateOrder", OrderService_CreateOrder_Handler);
              ("GetOrder", OrderService_GetOrder_Handler);
              ("ListOrders", OrderService_ListOrders_Handler);
              ("CancelOrder", OrderService_CancelOrder_Handler)]
|}.

End orderv1_grpc.
