(* ===== verification/Stores.v ===== *)
(** * What the services rely on: PostgreSQL, Redis, protojson

    Interfaces between the services and their stores.  Each class gives an
    abstract view of the environment's world (the users table, the orders with
    their items, the Redis keys) and states, for the statements the code
    issues, the documented effect of a success and of a failure on that view.
    A statement may fail at any time, and a failed statement outside a
    transaction may or may not have been applied, as when the connection drops;
    a key may leave Redis at any time.  [UUID] columns are compared by value, so
    an id given as text names the row of its canonical form [uuid_key].  The
    theorems about the services are proved against these classes; the file
    MemWorld discharges them for an in-memory environment. *)
From S2P Require Import Prelude.
From S2P Require Import GoStrings.
From S2P Require Import GoFloat.
From S2P Require Import Proto.
From S2P Require Import GoRuntime.
From S2P Require Import External.
From S2P Require Import Typestate.
From stdpp Require Import sorting.

(** Calls that can change a table. *)
Definition sql_call (c : extcall) : bool :=
  match c with
  | PoolBegin _ _ | PoolQueryRow _ _ _ _ _ | PoolQuery _ _ _ _ _ | PoolExec _ _ _ _
  | TxQueryRow _ _ _ _ _ | TxExec _ _ _ _ | TxCommit _ _ | TxRollback _ _
  | PoolClose _ => true
  | _ => false
  end.

(** ** The pool pointer of a repository object *)

Class RepoCell {W} (H : env W) := {
  cell : W → option pool;
  cell_load : ∀ w, (H LoadPool w).1 = cell w;
  cell_store : ∀ p w, cell (H (StorePool p) w).2 = p;
  cell_frame : ∀ c w, (∀ p, c ≠ StorePool p) → cell (H c w).2 = cell w
}.

(** The calls every repository method makes around its statements. *)
Definition housekeeping (c : extcall) : bool :=
  match c with
  | MuRLock | MuRUnlock | LoadPool | CtxCancel _ => true
  | _ => false
  end.

(** Reading the pool pointer under the read lock: the text of [getPool] in
    both services. *)
Definition read_pool : go (option pool) :=
  gocall MuRLock ≫= λ _, with_defer (gocall MuRUnlock) (gocall LoadPool).

Section PoolAccess.
Context {W : Type} (H : env W) `{!RepoCell H}.
Context (R : W → W → Prop) `{!PreOrder R}
        (HR : ∀ c w, housekeeping c = true → R w (H c w).2).

Lemma housekeeping_call c w r w' :
  H c w = (r, w') → housekeeping c = true → R w w' ∧ cell w' = cell w.
Proof.
  intros Hc Hh. change w' with (r, w').2. rewrite <-Hc. split; [by apply HR|].
  apply cell_frame. by destruct c.
Qed.

Lemma wp_read_pool p (Q : outcome pool → W → Prop) w :
  cell w = Some p →
  (∀ w', R w w' → cell w' = cell w → Q (Returned p) w') →
  wp H (read_pool ≫= deref) Q w.
Proof.
  intros Hcell HQ. unfold read_pool.
  wp_pure. wp_call_intro r1 w1 H1. wp_pure.
  wp_call_intro r w2 H2. wp_call_intro r3 w3 H3.
  destruct (housekeeping_call _ _ _ _ H1 eq_refl) as [R1 C1].
  destruct (housekeeping_call _ _ _ _ H2 eq_refl) as [R2 C2].
  destruct (housekeeping_call _ _ _ _ H3 eq_refl) as [R3 C3].
  assert (r = Some p) as ->.
  { pose proof (cell_load w1) as Hl. rewrite H2 in Hl. cbn in Hl. congruence. }
  cbn [deref]. apply wp_ret, HQ; [|congruence]. by do 2 (etrans; [done|]).
Qed.

(** A body that runs under its own timeout with the pool of the repository. *)
Lemma wp_with_pool {A} p q (body : pool → go A) (Q : outcome A → W → Prop) w :
  cell w = Some p →
  (∀ w1, R w w1 → cell w1 = cell w →
     wp H (body p) (λ o w2, ∀ w3, R w2 w3 → cell w3 = cell w2 → Q o w3) w1) →
  wp H (with_defer (ctx_cancel q) ((read_pool ≫= deref) ≫= body)) Q w.
Proof.
  intros Hcell Hbody. wp_pure. apply wp_bind.
  eapply wp_read_pool; [done|]. intros w1 R1 C1. cbn beta iota.
  eapply wp_mono; [by apply Hbody|]. cbn. intros o w2 HQ.
  go_call r w3 E. by apply HQ; eapply housekeeping_call.
Qed.
End PoolAccess.

(** A method of the repository is to blame for what it does with the pool. *)
Lemma repository_blames {A} P q (body : pool → go A) (Q : outcome A → Prop → Prop) s :
  seen_mono Q → (∀ m s, Q (Panicked m) s) → (∀ p, obeys (seen P) s (body p) Q) →
  obeys (seen P) s (with_defer (ctx_cancel q) ((read_pool ≫= deref) ≫= body)) Q.
Proof.
  intros HQ Hp Hb. apply obeys_defer. eapply obeys_mono.
  2: { intros o s' Ho []. eapply HQ; [|exact Ho]. by left. }
  cbn. intros [] [p|] []; [|apply Hp]. eapply seen_weaken; [done| |apply Hb]. auto.
Qed.

(** The handler around it. *)
Lemma handler_blames {A B} P q (body : pool → go A) (f : A → go (goret B)) :
  (∀ p, obeys (seen P) False (body p) (λ o s, match o with
                                              | Returned a => obeys (seen P) s (f a) answers_blamed
                                              | Panicked _ => True
                                              end)) →
  blames P (with_defer (ctx_cancel q) ((read_pool ≫= deref) ≫= body) ≫= f).
Proof.
  intros Hb. apply obeys_bind. apply repository_blames.
  - apply seen_mono_bind, answers_blamed_mono.
  - by intros m s [? [=]].
  - intros p. eapply obeys_mono; [apply Hb|]. intros [a|m] s; [done|]. by intros _ [? [=]].
Qed.

(** ** The users table *)

Record user_row := mkUserRow {
  ur_name : string;
  ur_email : string;
  ur_created : Z;
  ur_updated : Z
}.

Definition email_free (email : string) (U : gmap string user_row) : Prop :=
  map_Forall (λ _ u, ur_email u ≠ email) U.

(** The text by which the driver reports a violated uniqueness constraint. *)
Definition says_duplicate (e : go_error) : Prop :=
  Contains (Error e) "unique" || Contains (Error e) "duplicate" = true.

Definition no_rows (e : go_error) : Prop := Error e = "no rows in result set".

Definition sql_update_user (nameSet emailSet : bool) : string :=
  match nameSet, emailSet with
  | true, true =>
"UPDATE users SET name = $1, email = $2, updated_at = NOW() WHERE id = $3
		 RETURNING id, name, email, created_at, updated_at"
  | true, false =>
"UPDATE users SET name = $1, updated_at = NOW() WHERE id = $2
		 RETURNING id, name, email, created_at, updated_at"
  | false, true =>
"UPDATE users SET email = $1, updated_at = NOW() WHERE id = $2
		 RETURNING id, name, email, created_at, updated_at"
  | false, false => ""
  end.

(** The row an UPDATE makes of [u]. *)
Definition set_row (u : user_row) (name email : string) (nameSet emailSet : bool) (now : Z) :
    user_row :=
  mkUserRow (if nameSet then name else ur_name u) (if emailSet then email else ur_email u)
    (ur_created u) now.

(** The UPDATE of row [id] is allowed: another row with the new email would
    violate the constraint. *)
Definition email_ok (id email : string) (emailSet : bool) (U : gmap string user_row) : Prop :=
  emailSet = true → email_free email (delete id U).

Class UserDB {W} (H : env W) := {
  users : W → gmap string user_row;
  user_key : string → string;
  users_frame : ∀ c w, sql_call c = false → users (H c w).2 = users w;
  users_close : ∀ p w, users (H (PoolClose p) w).2 = users w;
  users_insert : ∀ p cx name email w,
    let '(r, w') := H (PoolQueryRow p cx
"INSERT INTO users (name, email) VALUES ($1, $2)
		 RETURNING id, created_at, updated_at"
      [AString name; AString email] [KString; KTime; KTime]) w in
    match r with
    | Ok (id, (ca, (ua, _))) =>
        id ≠ "" ∧ user_key id = id ∧ users w !! id = None ∧ email_free email (users w) ∧
        users w' = <[id := mkUserRow name email ca ua]> (users w)
    | Fail e =>
        (says_duplicate e → users w' = users w ∧ ¬ email_free email (users w)) ∧
        (users w' = users w ∨
         ∃ id ca ua, users w !! id = None ∧ email_free email (users w) ∧
           users w' = <[id := mkUserRow name email ca ua]> (users w))
    end;
  users_select : ∀ p cx id w,
    let '(r, w') := H (PoolQueryRow p cx
"SELECT name, email, created_at, updated_at FROM users WHERE id = $1"
      [AString id] [KString; KString; KTime; KTime]) w in
    users w' = users w ∧
    match r with
    | Ok (name, (email, (ca, (ua, _)))) =>
        users w !! user_key id = Some (mkUserRow name email ca ua)
    | Fail e => no_rows e → users w !! user_key id = None
    end;
  users_update : ∀ p cx id name email nameSet emailSet w,
    nameSet || emailSet = true →
    let '(r, w') := H (PoolQueryRow p cx (sql_update_user nameSet emailSet)
      ((if nameSet then [AString name] else []) ++
       (if emailSet then [AString email] else []) ++ [AString id])
      [KString; KString; KString; KTime; KTime]) w in
    match r with
    | Ok (id', (name', (email', (ca, (ua, _))))) =>
        id' = user_key id ∧ email_ok id' email emailSet (users w) ∧
        ∃ u, users w !! id' = Some u ∧
          mkUserRow name' email' ca ua = set_row u name email nameSet emailSet ua ∧
          users w' = <[id' := mkUserRow name' email' ca ua]> (users w)
    | Fail e =>
        (no_rows e → users w' = users w ∧ users w !! user_key id = None) ∧
        (says_duplicate e →
           users w' = users w ∧ ¬ email_ok (user_key id) email emailSet (users w)) ∧
        (users w' = users w ∨
         ∃ u now, users w !! user_key id = Some u ∧
           email_ok (user_key id) email emailSet (users w) ∧
           users w' = <[user_key id := set_row u name email nameSet emailSet now]> (users w))
    end;
  users_delete : ∀ p cx id w,
    let '(r, w') := H (PoolExec p cx "DELETE FROM users WHERE id = $1" [AString id]) w in
    match r with
    | Ok n =>
        users w' = delete (user_key id) (users w) ∧
        n = match users w !! user_key id with Some _ => 1 | None => 0 end%Z
    | Fail e => users w' = users w ∨ users w' = delete (user_key id) (users w)
    end
}.

(** ** The orders and order_items tables *)

Record item_row := mkItemRow {
  ir_product : string;
  ir_name : string;
  ir_quantity : Z;
  ir_price : float64
}.

(** An order with the multiset of its items, as a list in some order. *)
Record order_row := mkOrderRow {
  or_user : string;
  or_status : string;
  or_total : float64;
  or_created : Z;
  or_items : list item_row
}.

Definition add_item (it : item_row) (o : order_row) : order_row :=
  mkOrderRow (or_user o) (or_status o) (or_total o) (or_created o) (or_items o ++ [it]).

Definition set_status (s : string) (o : order_row) : order_row :=
  mkOrderRow (or_user o) s (or_total o) (or_created o) (or_items o).

Abbreviation orders_map := (gmap string order_row).

Definition item_scan (it : item_row) : scan_row [KString; KString; KInt32; KFloat64] :=
  (ir_product it, (ir_name it, (ir_quantity it, (ir_price it, tt)))).

(** A result set that enumerates [xs]: when no error is reported after the last
    row it is complete; each row is scanned or fails to scan. *)
Definition delivers {X ks} (f : X → scan_row ks) (xs : list X) (rs : rows ks) : Prop :=
  ∃ seen rest, xs = seen ++ rest ∧ (rows_Err rs = None → rest = []) ∧
    Forall2 (λ s x, s = Ok (f x) ∨ ∃ e, s = Fail e) (rows_scans rs) seen.

Definition order_scan (io : string * order_row) :
    scan_row [KString; KString; KString; KFloat64; KTime] :=
  (io.1, (or_user io.2, (or_status io.2, (or_total io.2, (or_created io.2, tt))))).

(** The rows a query for the orders of [user] (all orders if it is empty)
    ranges over, newest first. *)
Definition lists_orders (user : option string) (O : orders_map)
    (l : list (string * order_row)) : Prop :=
  NoDup l.*1 ∧
  (∀ id o, (id, o) ∈ l ↔ O !! id = Some o ∧ (∀ u, user = Some u → or_user o = u)) ∧
  StronglySorted (λ x y, or_created y.2 ≤ or_created x.2)%Z l.

(** What a column keeps of a value: NUMERIC(10,2) of a float64, as it is read back,
    and VARCHAR(n) of a text, which drops trailing blanks beyond n characters and
    refuses other texts that are too long. *)
Record columns := mkColumns {
  c_numeric : float64 → float64;
  c_varchar : nat → string → string
}.

(** The row of an item of [order_items]. *)
Definition stored_item (col : columns) (pid pname : string) (q : Z) (price : float64) : item_row :=
  mkItemRow (c_varchar col 100 pid) (c_varchar col 255 pname) q (c_numeric col price).

Class OrderDB {W} (H : env W) := {
  orders : W → orders_map;
  (* what the open transaction would commit *)
  tx_view : W → txn → option orders_map;
  order_key : string → string;
  column : columns;
  column_fits : ∀ n s, String.length s ≤ n → c_varchar column n s = s;
  orders_frame : ∀ c w, sql_call c = false →
    orders (H c w).2 = orders w ∧ tx_view (H c w).2 = tx_view w;
  orders_close : ∀ p w,
    orders (H (PoolClose p) w).2 = orders w ∧ tx_view (H (PoolClose p) w).2 = tx_view w;
  orders_begin : ∀ p cx w,
    let '(r, w') := H (PoolBegin p cx) w in
    orders w' = orders w ∧
    match r with
    | Ok t => tx_view w' t = Some (orders w)
    | Fail _ => True
    end;
  orders_insert : ∀ t cx id user total w v,
    tx_view w t = Some v →
    let '(r, w') := H (TxQueryRow t cx
"INSERT INTO orders (id, user_id, total) VALUES ($1, $2, $3)
		 RETURNING created_at"
      [AString id; AString user; AFloat64 total] [KTime]) w in
    orders w' = orders w ∧
    match r with
    | Ok (ca, _) =>
        v !! order_key id = None ∧
        tx_view w' t = Some (<[order_key id :=
          mkOrderRow (order_key user) "PENDING" (c_numeric column total) ca []]> v)
    | Fail _ => True
    end;
  orders_insert_item : ∀ t cx iid id pid pname q price w v,
    tx_view w t = Some v →
    let '(r, w') := H (TxExec t cx
"INSERT INTO order_items (id, order_id, product_id, product_name, quantity, unit_price)
			 VALUES ($1, $2, $3, $4, $5, $6)"
      [AString iid; AString id; AString pid; AString pname; AInt32 q; AFloat64 price]) w in
    orders w' = orders w ∧
    match r with
    | None => ∃ o, v !! order_key id = Some o ∧
        tx_view w' t =
          Some (<[order_key id := add_item (stored_item column pid pname q price) o]> v)
    | Some _ => True
    end;
  orders_commit : ∀ t cx w v,
    tx_view w t = Some v →
    let '(r, w') := H (TxCommit t cx) w in
    match r with
    | None => orders w' = v
    | Some _ => orders w' = orders w ∨ orders w' = v
    end;
  orders_rollback : ∀ t cx w, orders (H (TxRollback t cx) w).2 = orders w;
  orders_cancel : ∀ p cx id w,
    let '(r, w') := H (PoolQueryRow p cx
"UPDATE orders SET status = 'CANCELLED' WHERE id = $1
		 RETURNING status" [AString id] [KString]) w in
    match r with
    | Ok (s, _) => s = "CANCELLED" ∧
        ∃ o, orders w !! order_key id = Some o ∧
          orders w' = <[order_key id := set_status "CANCELLED" o]> (orders w)
    | Fail e =>
        (no_rows e → orders w' = orders w ∧ orders w !! order_key id = None) ∧
        (orders w' = orders w ∨
         ∃ o, orders w !! order_key id = Some o ∧
          orders w' = <[order_key id := set_status "CANCELLED" o]> (orders w))
    end;
  orders_select : ∀ p cx id w,
    let '(r, w') := H (PoolQueryRow p cx
"SELECT user_id, status, total, created_at FROM orders WHERE id = $1"
      [AString id] [KString; KString; KFloat64; KTime]) w in
    orders w' = orders w ∧
    match r with
    | Ok (user, (s, (total, (ca, _)))) =>
        ∃ items, orders w !! order_key id = Some (mkOrderRow user s total ca items)
    | Fail e => no_rows e → orders w !! order_key id = None
    end;
  orders_items : ∀ p cx id w,
    let '(r, w') := H (PoolQuery p cx
"SELECT product_id, product_name, quantity, unit_price
		 FROM order_items WHERE order_id = $1"
      [AString id] [KString; KString; KInt32; KFloat64]) w in
    orders w' = orders w ∧
    match r with
    | Ok rs => ∃ l, delivers item_scan l rs ∧
        l ≡ₚ match orders w !! order_key id with Some o => or_items o | None => [] end
    | Fail _ => True
    end;
  orders_count : ∀ p cx user w,
    let '(r, w') :=
      match user with
      | None => H (PoolQueryRow p cx "SELECT COUNT(*) FROM orders" [] [KInt32]) w
      | Some u => H (PoolQueryRow p cx "SELECT COUNT(*) FROM orders WHERE user_id = $1"
                       [AString u] [KInt32]) w
      end in
    orders w' = orders w ∧
    match r with
    | Ok (n, _) => is_int32 n ∧
        ∀ l, lists_orders (order_key <$> user) (orders w) l → n = Z.of_nat (length l)
    | Fail _ => True
    end;
  orders_list : ∀ p cx user limit offset w,
    let '(r, w') :=
      match user with
      | None => H (PoolQuery p cx
"SELECT id, user_id, status, total, created_at FROM orders ORDER BY created_at DESC LIMIT $1 OFFSET $2"
          [AInt32 limit; AInt32 offset] [KString; KString; KString; KFloat64; KTime]) w
      | Some u => H (PoolQuery p cx
"SELECT id, user_id, status, total, created_at FROM orders WHERE user_id = $1 ORDER BY created_at DESC LIMIT $2 OFFSET $3"
          [AString u; AInt32 limit; AInt32 offset]
          [KString; KString; KString; KFloat64; KTime]) w
      end in
    orders w' = orders w ∧
    match r with
    | Ok rs => (0 ≤ limit)%Z ∧ (0 ≤ offset)%Z ∧
        ∃ l, lists_orders (order_key <$> user) (orders w) l ∧
          delivers order_scan (take (Z.to_nat limit) (drop (Z.to_nat offset) l)) rs
    | Fail _ => True
    end
}.

(** ** Transactions that run beside others

    [OrderDB] follows one transaction and what it would commit.  When several
    are open, each has the rows it inserted so far; a commit adds them to
    whatever the table holds by then, and the primary key makes it fail when
    one of the ids is taken. *)

Definition tx_call (c : extcall) : bool :=
  match c with
  | PoolBegin _ _ | TxQueryRow _ _ _ _ _ | TxExec _ _ _ _ | TxCommit _ _ | TxRollback _ _ => true
  | _ => false
  end.

(** The transaction a call works on. *)
Definition tx_of (c : extcall) : option txn :=
  match c with
  | TxQueryRow t _ _ _ _ | TxExec t _ _ _ | TxCommit t _ | TxRollback t _ => Some t
  | _ => None
  end.

Class OrderTx {W} (H : env W) `{!OrderDB H} := {
  (* the rows an open transaction has inserted *)
  tx_new : W → txn → option orders_map;
  (* handles the driver has given out; they are not given out twice *)
  tx_allocated : W → txn → Prop;
  tx_frame : ∀ c w, tx_call c = false → tx_new (H c w).2 = tx_new w;
  tx_allocated_keeps : ∀ c w t, tx_allocated w t → tx_allocated (H c w).2 t;
  tx_other : ∀ c t t' w, tx_of c = Some t → t' ≠ t → tx_new (H c w).2 t' = tx_new w t';
  tx_begin : ∀ p cx w,
    let '(r, w') := H (PoolBegin p cx) w in
    match r with
    | Ok t => ¬ tx_allocated w t ∧ tx_allocated w' t ∧ tx_new w' t = Some ∅ ∧
        ∀ t', t' ≠ t → tx_new w' t' = tx_new w t'
    | Fail _ => tx_new w' = tx_new w
    end;
  tx_insert : ∀ t cx id user total w d,
    tx_new w t = Some d →
    let '(r, w') := H (TxQueryRow t cx
"INSERT INTO orders (id, user_id, total) VALUES ($1, $2, $3)
		 RETURNING created_at"
      [AString id; AString user; AFloat64 total] [KTime]) w in
    orders w' = orders w ∧
    match r with
    | Ok (ca, _) => d !! order_key id = None ∧
        tx_new w' t = Some (<[order_key id :=
          mkOrderRow (order_key user) "PENDING" (c_numeric column total) ca []]> d)
    | Fail _ => True
    end;
  tx_insert_item : ∀ t cx iid id pid pname q price w d,
    tx_new w t = Some d →
    let '(r, w') := H (TxExec t cx
"INSERT INTO order_items (id, order_id, product_id, product_name, quantity, unit_price)
			 VALUES ($1, $2, $3, $4, $5, $6)"
      [AString iid; AString id; AString pid; AString pname; AInt32 q; AFloat64 price]) w in
    orders w' = orders w ∧
    match r with
    | None => ∀ o, d !! order_key id = Some o →
        tx_new w' t =
          Some (<[order_key id := add_item (stored_item column pid pname q price) o]> d)
    | Some _ => True
    end;
  tx_commit : ∀ t cx w d,
    tx_new w t = Some d →
    let '(r, w') := H (TxCommit t cx) w in
    let committed := d ##ₘ orders w ∧ orders w' = d ∪ orders w in
    match r with
    | None => committed
    | Some _ => orders w' = orders w ∨ committed
    end
}.

(** ** Redis and protojson *)

Class OrderKV {W} (H : env W) := {
  kv : W → gmap string string;
  (* the order a stored text stands for *)
  decodes : string → orderv1.Order → Prop;
  decodes_fun : ∀ d o o', decodes d o → decodes d o' → o = o';
  (* any key may expire or be evicted during any call *)
  kv_frame : ∀ c w, (∀ cx k d t, c ≠ RedisSet cx k d t) → kv (H c w).2 ⊆ kv w;
  kv_get : ∀ cx k w,
    match (H (RedisGet cx k) w).1 with
    | Ok d => kv w !! k = Some d
    | Fail _ => True
    end;
  kv_set : ∀ cx k d t w,
    let '(r, w') := H (RedisSet cx k d t) w in
    kv w' ⊆ <[k := d]> (kv w) ∨ r ≠ None ∧ kv w' ⊆ kv w;
  kv_del : ∀ cx k w,
    (H (RedisDel cx k) w).1 = None → kv (H (RedisDel cx k) w).2 ⊆ delete k (kv w);
  (* an order without nil items: protojson reads a nil item back as an empty one *)
  pj_marshal : ∀ o w d, Forall is_Some (orderv1.Order_Items o) →
    (H (PjMarshal o) w).1 = Ok d → decodes d o;
  pj_unmarshal : ∀ d w o o', decodes d o → (H (PjUnmarshal d) w).1 = Ok o' → o' = o
}.
