(* ===== verification/UserService.v ===== *)
(** * user-service: repository and gRPC handlers

    [Module UserRepository] is [services/user-service/repository.go] and
    [Module UserServiceServer] is [services/user-service/server.go], function by
    function.  A Go result [( *T, error)] is a pair of options. *)
From S2P Require Import Prelude.
From S2P Require Import GoStrings.
From S2P Require Import GoFloat.
From S2P Require Import Proto.
From S2P Require Import GoRuntime.
From S2P Require Import External.
From S2P Require Import Grpc.
From S2P Require Import GrpcStubs.
Import userv1.

Module UserRepository.

Definition dbQueryTimeout : Z := 10 * Second.

(** The pool pointer of the repository; the lock starts unlocked. *)
Definition NewUserRepository (p : option pool) : go unit := gocall (StorePool p).

Definition getPool : go (option pool) :=
  gocall MuRLock ≫= λ _,
  with_defer (gocall MuRUnlock) (gocall LoadPool).

Definition SetPool (new : option pool) : go unit :=
  gocall MuLock ≫= λ _,
  with_defer (gocall MuUnlock)
    (old ← gocall LoadPool;
     gocall (StorePool new) ≫= λ _,
     match old with
     | Some p => gocall (PoolClose p)
     | None => mret tt
     end).

(** The derived context; its cancel function is [ctx_cancel] of it. *)
Definition queryTimeout (c : ctx) : ctx := CtxWithTimeout c dbQueryTimeout.

Definition sql_insert_user : string :=
"INSERT INTO users (name, email) VALUES ($1, $2)
		 RETURNING id, created_at, updated_at".

Definition Create (c : ctx) (name email : string) : go (goret User) :=
  let qCtx := queryTimeout c in
  with_defer (ctx_cancel qCtx)
    (p ← getPool ≫= deref;
     r ← gocall (PoolQueryRow p qCtx sql_insert_user [AString name; AString email]
                   [KString; KTime; KTime]);
     match r with
     | Fail err => mret (None, Some (ErrWrap "create user" err))
     | Ok (id, (createdAt, (updatedAt, _))) =>
         mret (Some (mkUser id name email (Some (timestamppb_New createdAt))
                       (Some (timestamppb_New updatedAt))), None)
     end).

Definition sql_select_user : string :=
"SELECT name, email, created_at, updated_at FROM users WHERE id = $1".

Definition Get (c : ctx) (id : string) : go (goret User) :=
  let qCtx := queryTimeout c in
  with_defer (ctx_cancel qCtx)
    (p ← getPool ≫= deref;
     r ← gocall (PoolQueryRow p qCtx sql_select_user [AString id]
                   [KString; KString; KTime; KTime]);
     match r with
     | Fail err =>
         if str_eqb (Error err) "no rows in result set"
         then mret (None, None)
         else mret (None, Some (ErrWrap "get user" err))
     | Ok (name, (email, (createdAt, (updatedAt, _)))) =>
         mret (Some (mkUser id name email (Some (timestamppb_New createdAt))
                       (Some (timestamppb_New updatedAt))), None)
     end).

(** The SET clauses, arguments and next placeholder index [Update] builds. *)
Definition update_clauses (name email : string) (nameSet emailSet : bool) :
    string * list sqlarg * Z :=
  let '(setClauses, args, argIdx) := ("", [], 1%Z) in
  let '(setClauses, args, argIdx) :=
    if nameSet
    then (setClauses +:+ "name = $" +:+ fmt_d argIdx +:+ ", ",
          args ++ [AString name], (argIdx + 1)%Z)
    else (setClauses, args, argIdx) in
  if emailSet
  then (setClauses +:+ "email = $" +:+ fmt_d argIdx +:+ ", ",
        args ++ [AString email], (argIdx + 1)%Z)
  else (setClauses, args, argIdx).

Definition update_query (setClauses : string) (argIdx : Z) : string :=
"UPDATE users SET " +:+ setClauses +:+ " WHERE id = $" +:+ fmt_d argIdx +:+ "
		 RETURNING id, name, email, created_at, updated_at".

Definition Update (c : ctx) (id name email : string) (nameSet emailSet : bool) :
    go (goret User) :=
  let '(setClauses, args, argIdx) := update_clauses name email nameSet emailSet in
  if str_eqb setClauses "" then Get c id else
  let setClauses := setClauses +:+ "updated_at = NOW()" in
  let args := args ++ [AString id] in
  let query := update_query setClauses argIdx in
  let qCtx := queryTimeout c in
  with_defer (ctx_cancel qCtx)
    (p ← getPool ≫= deref;
     r ← gocall (PoolQueryRow p qCtx query args
                   [KString; KString; KString; KTime; KTime]);
     match r with
     | Fail err =>
         if str_eqb (Error err) "no rows in result set"
         then mret (None, None)
         else mret (None, Some (ErrWrap "update user" err))
     | Ok (outID, (outName, (outEmail, (createdAt, (updatedAt, _))))) =>
         mret (Some (mkUser outID outName outEmail (Some (timestamppb_New createdAt))
                       (Some (timestamppb_New updatedAt))), None)
     end).

Definition sql_delete_user : string := "DELETE FROM users WHERE id = $1".

Definition Delete (c : ctx) (id : string) : go (bool * option go_error) :=
  let qCtx := queryTimeout c in
  with_defer (ctx_cancel qCtx)
    (p ← getPool ≫= deref;
     r ← gocall (PoolExec p qCtx sql_delete_user [AString id]);
     match r with
     | Fail err => mret (false, Some (ErrWrap "delete user" err))
     | Ok affected => mret ((0 <? affected)%Z, None)
     end).

End UserRepository.

Module UserServiceServer.

(** [strings.Contains(err.Error(), "unique") || ... "duplicate"]. *)
Definition is_duplicate (err : go_error) : bool :=
  Contains (Error err) "unique" || Contains (Error err) "duplicate".

Definition invalid_email (email : string) : bool :=
  str_eqb email "" || negb (Contains email "@").

Definition CreateUser (c : ctx) (req : CreateUserRequest) : go (goret CreateUserResponse) :=
  let req := mkCreateUserRequest (TrimSpace (CreateUserRequest_Name req))
                                 (TrimSpace (CreateUserRequest_Email req)) in
  if str_eqb (CreateUserRequest_Name req) ""
  then mret (status_fail InvalidArgument "name is required") else
  if invalid_email (CreateUserRequest_Email req)
  then mret (status_fail InvalidArgument "valid email is required") else
  '(user, err) ← UserRepository.Create c (CreateUserRequest_Name req) (CreateUserRequest_Email req);
  match err with
  | Some err =>
      if is_duplicate err
      then mret (status_fail AlreadyExists "email already in use")
      else zap_log Error_ "failed to create user" [ZError err] ≫= λ _,
           mret (status_fail Internal "failed to create user")
  | None =>
      u ← deref user;
      zap_log Info_ "user created" [ZString "id" (User_Id u); ZString "email" (User_Email u)] ≫= λ _,
      mret (Some (mkCreateUserResponse user), None)
  end.

Definition GetUser (c : ctx) (req : GetUserRequest) : go (goret GetUserResponse) :=
  if str_eqb (GetUserRequest_Id req) ""
  then mret (status_fail InvalidArgument "id is required") else
  '(user, err) ← UserRepository.Get c (GetUserRequest_Id req);
  match err with
  | Some err =>
      zap_log Error_ "failed to get user" [ZString "id" (GetUserRequest_Id req); ZError err] ≫= λ _,
      mret (status_fail Internal "failed to get user")
  | None =>
      match user with
      | None => mret (status_fail NotFound "user not found")
      | Some _ => mret (Some (mkGetUserResponse user), None)
      end
  end.

(** The loop over [req.UpdateMask.Paths]: the fields to set, or the error that
    ends the handler. *)
Fixpoint mask_loop (user : option User) (paths : list string)
    (name email : string) (nameSet emailSet : bool) :
    gresult (string * string * bool * bool) :=
  match paths with
  | [] => Ok (name, email, nameSet, emailSet)
  | path :: paths' =>
      if str_eqb path "name" then
        let name := TrimSpace (User_GetName user) in
        if str_eqb name ""
        then Fail (ErrStatus InvalidArgument "name cannot be empty")
        else mask_loop user paths' name email true emailSet
      else if str_eqb path "email" then
        let email := TrimSpace (User_GetEmail user) in
        if invalid_email email
        then Fail (ErrStatus InvalidArgument "valid email is required")
        else mask_loop user paths' name email nameSet true
      else Fail (ErrStatus InvalidArgument ("unknown field: " +:+ path))
  end.

Definition UpdateUser (c : ctx) (req : UpdateUserRequest) : go (goret UpdateUserResponse) :=
  if str_eqb (UpdateUserRequest_Id req) ""
  then mret (status_fail InvalidArgument "id is required") else
  match UpdateUserRequest_UpdateMask req with
  | None | Some (mkFieldMask []) =>
      mret (status_fail InvalidArgument "update_mask is required")
  | Some (mkFieldMask paths) =>
      match mask_loop (UpdateUserRequest_User req) paths "" "" false false with
      | Fail err => mret (None, Some err)
      | Ok (name, email, nameSet, emailSet) =>
          '(user, err) ←
            UserRepository.Update c (UpdateUserRequest_Id req) name email nameSet emailSet;
          match err with
          | Some err =>
              if is_duplicate err
              then mret (status_fail AlreadyExists "email already in use")
              else zap_log Error_ "failed to update user"
                     [ZString "id" (UpdateUserRequest_Id req); ZError err] ≫= λ _,
                   mret (status_fail Internal "failed to update user")
          | None =>
              match user with
              | None => mret (status_fail NotFound "user not found")
              | Some u =>
                  zap_log Info_ "user updated" [ZString "id" (User_Id u)] ≫= λ _,
                  mret (Some (mkUpdateUserResponse user), None)
              end
          end
      end
  end.

Definition DeleteUser (c : ctx) (req : DeleteUserRequest) : go (goret DeleteUserResponse) :=
  if str_eqb (DeleteUserRequest_Id req) ""
  then mret (status_fail InvalidArgument "id is required") else
  '(found, err) ← UserRepository.Delete c (DeleteUserRequest_Id req);
  match err with
  | Some err =>
      zap_log Error_ "failed to delete user"
        [ZString "id" (DeleteUserRequest_Id req); ZError err] ≫= λ _,
      mret (status_fail Internal "failed to delete user")
  | None =>
      if negb found
      then mret (status_fail NotFound "user not found")
      else zap_log Info_ "user deleted" [ZString "id" (DeleteUserRequest_Id req)] ≫= λ _,
           mret (Some (mkDeleteUserResponse "user deleted"), None)
  end.

(** The implementation of the generated interface. *)
Definition server : userv1_grpc.UserServiceServer :=
  userv1_grpc.mkUserServiceServer CreateUser GetUser UpdateUser DeleteUser.

End UserServiceServer.
