(* ===== verification/UserProofs.v ===== *)
(** * user-service is correct against the users table

    The handlers refine an abstract directory of users: for every request, on
    every branch, the response and the new table are related by one of the
    [..._post] specifications below, for any environment that satisfies the
    [UserDB] interface. *)
From S2P Require Import Prelude.
From S2P Require Import GoStrings.
From S2P Require Import GoFloat.
From S2P Require Import Proto.
From S2P Require Import GoRuntime.
From S2P Require Import External.
From S2P Require Import Typestate.
From S2P Require Import Grpc.
From S2P Require Import GrpcStubs.
From S2P Require Import Stores.
From S2P Require Import UserService.
Import userv1.

(** ** Abstract specification *)

Definition user_of_row (id : string) (u : user_row) : User :=
  mkUser id (ur_name u) (ur_email u) (Some (timestamppb_New (ur_created u)))
    (Some (timestamppb_New (ur_updated u))).

Definition valid_name (name : string) : Prop := name ≠ "".
Definition valid_email (email : string) : Prop := email ≠ "" ∧ Contains email "@" = true.

#[export] Instance valid_name_dec name : Decision (valid_name name).
Proof. unfold valid_name. apply _. Defined.
#[export] Instance valid_email_dec email : Decision (valid_email email).
Proof. unfold valid_email. apply _. Defined.

Abbreviation users_map := (gmap string user_row).

(** The table after a user was added under a fresh id with a free email. *)
Definition user_added (U U' : users_map) (id : string) (u : user_row) : Prop :=
  U !! id = None ∧ email_free (ur_email u) U ∧ U' = <[id := u]> U.

Definition create_user_post (key : string → string) (U : users_map) (req : CreateUserRequest)
    (o : outcome (goret CreateUserResponse)) (U' : users_map) : Prop :=
  let name := TrimSpace (CreateUserRequest_Name req) in
  let email := TrimSpace (CreateUserRequest_Email req) in
  match o with
  | Returned (Some resp, None) =>
      valid_name name ∧ valid_email email ∧
      ∃ id u, CreateUserResponse_User resp = Some (user_of_row id u) ∧
        id ≠ "" ∧ key id = id ∧ ur_name u = name ∧ ur_email u = email ∧ user_added U U' id u
  | Returned (None, Some (ErrStatus InvalidArgument m)) =>
      U' = U ∧
      (¬ valid_name name ∧ m = "name is required" ∨
       valid_name name ∧ ¬ valid_email email ∧ m = "valid email is required")
  | Returned (None, Some (ErrStatus AlreadyExists m)) =>
      m = "email already in use" ∧ U' = U ∧ ¬ email_free email U
  | Returned (None, Some (ErrStatus Internal m)) =>
      m = "failed to create user" ∧ valid_name name ∧ valid_email email ∧
      (U' = U ∨ ∃ id u, ur_name u = name ∧ ur_email u = email ∧ user_added U U' id u)
  | _ => False
  end.

Definition get_user_post (key : string → string) (U : users_map) (req : GetUserRequest)
    (o : outcome (goret GetUserResponse)) (U' : users_map) : Prop :=
  let id := GetUserRequest_Id req in
  U' = U ∧
  match o with
  | Returned (Some resp, None) =>
      id ≠ "" ∧ ∃ u, U !! key id = Some u ∧ GetUserResponse_User resp = Some (user_of_row id u)
  | Returned (None, Some (ErrStatus InvalidArgument m)) => id = "" ∧ m = "id is required"
  | Returned (None, Some (ErrStatus NotFound m)) =>
      id ≠ "" ∧ U !! key id = None ∧ m = "user not found"
  | Returned (None, Some (ErrStatus Internal m)) => id ≠ "" ∧ m = "failed to get user"
  | _ => False
  end.

Definition delete_user_post (key : string → string) (U : users_map) (req : DeleteUserRequest)
    (o : outcome (goret DeleteUserResponse)) (U' : users_map) : Prop :=
  let id := DeleteUserRequest_Id req in
  match o with
  | Returned (Some resp, None) =>
      id ≠ "" ∧ is_Some (U !! key id) ∧ U' = delete (key id) U ∧
      DeleteUserResponse_Message resp = "user deleted"
  | Returned (None, Some (ErrStatus InvalidArgument m)) =>
      id = "" ∧ m = "id is required" ∧ U' = U
  | Returned (None, Some (ErrStatus NotFound m)) =>
      id ≠ "" ∧ U !! key id = None ∧ m = "user not found" ∧ U' = U
  | Returned (None, Some (ErrStatus Internal m)) =>
      id ≠ "" ∧ m = "failed to delete user" ∧ (U' = U ∨ U' = delete (key id) U)
  | _ => False
  end.

(** What a valid update mask asks for: each path is a known field whose new
    value, taken from the request's user, is acceptable. *)
Definition mask_path_ok (user : option User) (path : string) : Prop :=
  path = "name" ∧ valid_name (TrimSpace (User_GetName user)) ∨
  path = "email" ∧ valid_email (TrimSpace (User_GetEmail user)).

Definition mask_valid (req : UpdateUserRequest) : Prop :=
  ∃ paths, UpdateUserRequest_UpdateMask req = Some (mkFieldMask paths) ∧
    paths ≠ [] ∧ Forall (mask_path_ok (UpdateUserRequest_User req)) paths.

Definition in_mask (path : string) (req : UpdateUserRequest) : bool :=
  match UpdateUserRequest_UpdateMask req with
  | Some m => bool_decide (path ∈ FieldMask_Paths m)
  | None => false
  end.

(** The row [u] with the masked fields replaced and nothing else but the
    modification time. *)
Definition masked_row (req : UpdateUserRequest) (u : user_row) (now : Z) : user_row :=
  set_row u (TrimSpace (User_GetName (UpdateUserRequest_User req)))
    (TrimSpace (User_GetEmail (UpdateUserRequest_User req)))
    (in_mask "name" req) (in_mask "email" req) now.

Definition update_user_post (key : string → string) (U : users_map) (req : UpdateUserRequest)
    (o : outcome (goret UpdateUserResponse)) (U' : users_map) : Prop :=
  let id := UpdateUserRequest_Id req in
  let email := TrimSpace (User_GetEmail (UpdateUserRequest_User req)) in
  match o with
  | Returned (Some resp, None) =>
      id ≠ "" ∧ mask_valid req ∧ email_ok (key id) email (in_mask "email" req) U ∧
      ∃ u now, U !! key id = Some u ∧ U' = <[key id := masked_row req u now]> U ∧
        UpdateUserResponse_User resp = Some (user_of_row (key id) (masked_row req u now))
  | Returned (None, Some (ErrStatus InvalidArgument m)) =>
      (id = "" ∨ ¬ mask_valid req) ∧ U' = U
  | Returned (None, Some (ErrStatus NotFound m)) =>
      id ≠ "" ∧ mask_valid req ∧ U !! key id = None ∧ m = "user not found" ∧ U' = U
  | Returned (None, Some (ErrStatus AlreadyExists m)) =>
      m = "email already in use" ∧ id ≠ "" ∧ mask_valid req ∧ U' = U ∧
      ¬ email_ok (key id) email (in_mask "email" req) U
  | Returned (None, Some (ErrStatus Internal m)) =>
      m = "failed to update user" ∧ id ≠ "" ∧ mask_valid req ∧
      (U' = U ∨ ∃ u now, U !! key id = Some u ∧
         email_ok (key id) email (in_mask "email" req) U ∧
         U' = <[key id := masked_row req u now]> U)
  | _ => False
  end.

(** ** Error texts

    Wrapping an error does not change whether it reports a duplicate. *)

Lemma is_duplicate_wrap p e :
  p = "create user" ∨ p = "update user" →
  UserServiceServer.is_duplicate (ErrWrap p e) = true ↔ says_duplicate e.
Proof.
  unfold UserServiceServer.is_duplicate, says_duplicate, Contains.
  cbn [Error]. rewrite !bytes_app. by intros [-> | ->].
Qed.

Lemma invalid_email_spec email :
  UserServiceServer.invalid_email email = false ↔ valid_email email.
Proof.
  unfold UserServiceServer.invalid_email, valid_email.
  rewrite orb_false_iff, str_eqb_false, negb_false_iff. done.
Qed.

(** ** The SQL [Update] builds *)

(** The statement and its arguments: the placeholders are numbered by the
    arguments in order, and the text depends on the two flags only. *)
Lemma update_clauses_spec id name email nameSet emailSet :
  nameSet || emailSet = true →
  let '(cl, args, idx) := UserRepository.update_clauses name email nameSet emailSet in
  str_eqb cl "" = false ∧
  UserRepository.update_query (cl +:+ "updated_at = NOW()") idx = sql_update_user nameSet emailSet ∧
  args ++ [AString id] =
    (if nameSet then [AString name] else []) ++
    (if emailSet then [AString email] else []) ++ [AString id].
Proof. by destruct nameSet, emailSet. Qed.

(** ** The mask loop *)

Lemma mask_path_ok_cons user path :
  mask_path_ok user path ↔
    if str_eqb path "name" then valid_name (TrimSpace (User_GetName user))
    else if str_eqb path "email" then valid_email (TrimSpace (User_GetEmail user))
    else False.
Proof.
  unfold mask_path_ok. destruct (str_eqb_spec path "name") as [->|].
  - split; [by intros [[_ ?]|[? _]]|by left].
  - destruct (str_eqb_spec path "email") as [->|]; [|by split; [intros [[? _]|[? _]]|]].
    split; [by intros [[? _]|[_ ?]]|by right].
Qed.

Lemma elem_of_cons_bool (x y : string) l :
  x ≠ y → bool_decide (x ∈ y :: l) = bool_decide (x ∈ l).
Proof. intros Hxy. apply bool_decide_ext. rewrite elem_of_cons. tauto. Qed.

(** The loop accepts a mask exactly if every path is acceptable, and then sets
    exactly the fields the mask names, from the request. *)
Lemma mask_loop_ok user paths name email ns es :
  Forall (mask_path_ok user) paths →
  UserServiceServer.mask_loop user paths name email ns es =
    Ok (if bool_decide ("name" ∈ paths) then TrimSpace (User_GetName user) else name,
        if bool_decide ("email" ∈ paths) then TrimSpace (User_GetEmail user) else email,
        ns || bool_decide ("name" ∈ paths), es || bool_decide ("email" ∈ paths)).
Proof.
  revert name email ns es.
  induction paths as [|path paths IH]; intros name email ns es Hok; cbn.
  { by rewrite !orb_false_r. }
  apply Forall_cons in Hok as [Hp Hok]. apply mask_path_ok_cons in Hp.
  destruct (str_eqb_spec path "name") as [->|Hn].
  - unfold valid_name in Hp. rewrite (proj2 (str_eqb_false _ _)) by done.
    rewrite (IH _ _ _ _ Hok), orb_true_l, (bool_decide_true ("name" ∈ "name" :: _)) by set_solver.
    rewrite orb_true_r.
    rewrite (elem_of_cons_bool "email" "name") by done.
    by destruct (bool_decide ("name" ∈ paths)).
  - destruct (str_eqb_spec path "email") as [->|He]; [|done].
    rewrite (proj2 (invalid_email_spec _)) by done.
    rewrite (IH _ _ _ _ Hok), orb_true_l, (bool_decide_true ("email" ∈ "email" :: _)) by set_solver.
    rewrite orb_true_r.
    rewrite (elem_of_cons_bool "name" "email") by done.
    by destruct (bool_decide ("email" ∈ paths)).
Qed.

Lemma mask_loop_fail user paths name email ns es :
  ¬ Forall (mask_path_ok user) paths →
  ∃ m, UserServiceServer.mask_loop user paths name email ns es = Fail (ErrStatus InvalidArgument m).
Proof.
  revert name email ns es.
  induction paths as [|path paths IH]; intros name email ns es Hok; cbn.
  { by destruct Hok. }
  rewrite Forall_cons, mask_path_ok_cons in Hok.
  destruct (str_eqb_spec path "name") as [->|Hn].
  - destruct (str_eqb_spec (TrimSpace (User_GetName user)) ""); [by eexists|].
    apply IH. intros Hf. by apply Hok.
  - destruct (str_eqb_spec path "email") as [->|He]; [|by eexists].
    destruct (UserServiceServer.invalid_email (TrimSpace (User_GetEmail user))) eqn:Hi; [by eexists|].
    apply invalid_email_spec in Hi. apply IH. intros Hf. by apply Hok.
Qed.

#[export] Instance mask_path_ok_dec user path : Decision (mask_path_ok user path).
Proof. unfold mask_path_ok. apply _. Defined.

(** ** The repository against the table *)

Section Repository.
Context {W : Type} (H : env W) `{!RepoCell H} `{!UserDB H}.

(** The world changed, but neither the table nor the pool pointer. *)
Definition users_quiet (w w' : W) : Prop := users w' = users w ∧ cell w' = cell w.

Lemma users_quiet_call c w r w' :
  H c w = (r, w') → sql_call c = false → (∀ p, c ≠ StorePool p) → users_quiet w w'.
Proof.
  intros Hc Hs Hp. change w' with (r, w').2. rewrite <-Hc.
  split; [by apply users_frame|by apply cell_frame].
Qed.

Lemma users_quiet_trans w1 w2 w3 : users_quiet w1 w2 → users_quiet w2 w3 → users_quiet w1 w3.
Proof. intros [H1 H1'] [H2 H2']. split; congruence. Qed.

(** A call that is neither a statement nor a store of the pool. *)
Lemma wp_quiet_call c (Q : outcome (extres c) → W → Prop) w :
  sql_call c = false → (∀ p, c ≠ StorePool p) →
  (∀ r w', users_quiet w w' → Q (Returned r) w') → wp H (gocall c) Q w.
Proof. intros Hs Hp HQ. apply wp_just_call. eauto using users_quiet_call. Qed.

#[export] Instance users_quiet_preorder : PreOrder users_quiet.
Proof. split; [done|]. intros ???. apply users_quiet_trans. Qed.

Lemma users_quiet_housekeeping c w : housekeeping c = true → users_quiet w (H c w).2.
Proof.
  intros Hc. destruct (H c w) as [r w'] eqn:E. eapply users_quiet_call; [done|..]; by destruct c.
Qed.

(** One statement under its own timeout, as every repository method issues. *)
Lemma wp_statement {A} p (stmt : pool → extcall) q
    (k : ∀ p, extres (stmt p) → go A) (Q : outcome A → W → Prop) w :
  cell w = Some p →
  (∀ p0, stmt p ≠ StorePool p0) →
  (∀ r w1 w2, users w1 = users w → H (stmt p) w1 = (r, w2) → cell w2 = cell w →
     wp H (k p r) (λ o w3, ∀ w', users_quiet w3 w' → Q o w') w2) →
  wp H (with_defer (ctx_cancel q)
          ((UserRepository.getPool ≫= deref) ≫= λ p, gocall (stmt p) ≫= k p)) Q w.
Proof.
  intros Hcell Hns Hk. change UserRepository.getPool with read_pool.
  apply (wp_with_pool H users_quiet users_quiet_housekeeping p); [done|].
  intros w1 [Hu _] Hc. wp_call_intro r w2 H2.
  assert (cell w2 = cell w) as Hc2.
  { rewrite <-Hc. change w2 with (r, w2).2. rewrite <-H2. by apply cell_frame. }
  eapply wp_mono; [by apply (Hk _ _ _ Hu H2)|]. cbn. auto.
Qed.

Lemma UserRepository_Create_spec c name email w p :
  cell w = Some p →
  wp H (UserRepository.Create c name email) (λ o w',
    cell w' = cell w ∧
    match o with
    | Returned (Some u, None) =>
        ∃ id row, u = user_of_row id row ∧ id ≠ "" ∧ user_key id = id ∧
          ur_name row = name ∧ ur_email row = email ∧
          user_added (users w) (users w') id row
    | Returned (None, Some (ErrWrap m e)) =>
        m = "create user" ∧
        (says_duplicate e → users w' = users w ∧ ¬ email_free email (users w)) ∧
        (users w' = users w ∨
         ∃ id row, ur_name row = name ∧ ur_email row = email ∧
           user_added (users w) (users w') id row)
    | _ => False
    end) w.
Proof.
  intros Hcell. unfold UserRepository.Create. eapply wp_statement; [done..|].
  intros r w1 w2 Hu H2 Hc2.
  pose proof (users_insert p (UserRepository.queryTimeout c) name email w1) as Hl.
  fold UserRepository.sql_insert_user in Hl. rewrite H2 in Hl.
  destruct r as [(id & ca & ua & [])|e]; apply wp_ret; intros w' [Hu' Hc'];
    rewrite Hu', <-Hu; (split; [congruence|]).
  - destruct Hl as (Hne & Hkey & Hid & Hf & ->).
    exists id, (mkUserRow name email ca ua). done.
  - destruct Hl as (Hdup & Hins). split; [done|]. split; [done|].
    destruct Hins as [->|(id & ca & ua & ? & ? & ->)]; [by left|right].
    exists id, (mkUserRow name email ca ua). done.
Qed.

Lemma UserRepository_Get_spec c id w p :
  cell w = Some p →
  wp H (UserRepository.Get c id) (λ o w',
    cell w' = cell w ∧ users w' = users w ∧
    match o with
    | Returned (Some u, None) =>
        ∃ row, u = user_of_row id row ∧ users w !! user_key id = Some row
    | Returned (None, None) => users w !! user_key id = None
    | Returned (None, Some _) => True
    | _ => False
    end) w.
Proof.
  intros Hcell. unfold UserRepository.Get. eapply wp_statement; [done..|].
  intros r w1 w2 Hu H2 Hc2.
  pose proof (users_select p (UserRepository.queryTimeout c) id w1) as Hl.
  fold UserRepository.sql_select_user in Hl. rewrite H2 in Hl.
  destruct Hl as [Hs Hl]. rewrite Hu in Hs, Hl.
  destruct r as [(name & email & ca & ua & [])|e].
  - apply wp_ret; intros w' [-> ->]. split_and!; [done..|].
    by exists (mkUserRow name email ca ua).
  - destruct (str_eqb_spec (Error e) "no rows in result set"); apply wp_ret;
      intros w' [-> ->]; auto.
Qed.

Lemma UserRepository_Update_spec c id name email ns es w p :
  cell w = Some p → ns || es = true →
  wp H (UserRepository.Update c id name email ns es) (λ o w',
    cell w' = cell w ∧
    match o with
    | Returned (Some u, None) =>
        email_ok (user_key id) email es (users w) ∧
        ∃ row now, users w !! user_key id = Some row ∧
          users w' = <[user_key id := set_row row name email ns es now]> (users w) ∧
          u = user_of_row (user_key id) (set_row row name email ns es now)
    | Returned (None, None) => users w' = users w ∧ users w !! user_key id = None
    | Returned (None, Some (ErrWrap m e)) =>
        m = "update user" ∧
        (says_duplicate e →
           users w' = users w ∧ ¬ email_ok (user_key id) email es (users w)) ∧
        (users w' = users w ∨
         ∃ row now, users w !! user_key id = Some row ∧
           email_ok (user_key id) email es (users w) ∧
           users w' = <[user_key id := set_row row name email ns es now]> (users w))
    | _ => False
    end) w.
Proof.
  intros Hcell Hset. unfold UserRepository.Update.
  pose proof (update_clauses_spec id name email ns es Hset) as Hcl.
  destruct (UserRepository.update_clauses name email ns es) as [[cl args] idx].
  destruct Hcl as (-> & Hq & ->). rewrite Hq.
  eapply wp_statement; [done..|]. intros r w1 w2 Hu H2 Hc2.
  pose proof (users_update p (UserRepository.queryTimeout c) id name email ns es w1 Hset) as Hl.
  rewrite H2, Hu in Hl.
  destruct r as [(id' & name' & email' & ca & ua & [])|e].
  - apply wp_ret; intros w' [-> ->]. split; [done|].
    destruct Hl as (-> & He & row & Hrow & Heq & ->). split; [done|].
    exists row, ua. rewrite <-Heq. done.
  - destruct Hl as (Hno & Hdup & Hany).
    destruct (str_eqb_spec (Error e) "no rows in result set"); apply wp_ret;
      intros w' [-> ->]; (split; [done|]); [by apply Hno|done].
Qed.

Lemma UserRepository_Delete_spec c id w p :
  cell w = Some p →
  wp H (UserRepository.Delete c id) (λ o w',
    cell w' = cell w ∧
    match o with
    | Returned (found, None) =>
        users w' = delete (user_key id) (users w) ∧
        found = bool_decide (is_Some (users w !! user_key id))
    | Returned (_, Some _) =>
        users w' = users w ∨ users w' = delete (user_key id) (users w)
    | _ => False
    end) w.
Proof.
  intros Hcell. unfold UserRepository.Delete. eapply wp_statement; [done..|].
  intros r w1 w2 Hu H2 Hc2.
  pose proof (users_delete p (UserRepository.queryTimeout c) id w1) as Hl.
  fold UserRepository.sql_delete_user in Hl. rewrite H2, Hu in Hl.
  destruct r as [n|e]; apply wp_ret; intros w' [-> ->]; (split; [done|]); [|done].
  destruct Hl as [-> ->]. by destruct (users w !! user_key id).
Qed.
End Repository.

(** ** The handlers refine the abstract directory *)

Section Service.
Context {W : Type} (H : env W) `{!RepoCell H} `{!UserDB H}.

(** A handler call is a repository call followed by code that only logs. *)
Lemma users_wp_log l m fs {A} (k : go A) (Q : outcome A → W → Prop) w :
  (∀ w', users_quiet H w w' → wp H k Q w') → wp H (zap_log l m fs ≫= λ _, k) Q w.
Proof. intros Hk. go_call r w' E. apply Hk. by eapply users_quiet_call. Qed.

Lemma CreateUser_spec c req w p :
  cell w = Some p →
  wp H (UserServiceServer.CreateUser c req) (λ o w',
    cell w' = cell w ∧ create_user_post user_key (users w) req o (users w')) w.
Proof.
  intros Hcell. unfold UserServiceServer.CreateUser, create_user_post. cbn [CreateUserRequest_Name CreateUserRequest_Email].
  set (name := TrimSpace (CreateUserRequest_Name req)).
  set (email := TrimSpace (CreateUserRequest_Email req)).
  destruct (str_eqb_spec name "") as [Hn|Hn].
  { apply wp_ret. unfold valid_name. naive_solver. }
  destruct (UserServiceServer.invalid_email email) eqn:He.
  { apply wp_ret. cbn. split_and!; [done..|]. right. split_and!; [done| |done].
    rewrite <-invalid_email_spec. congruence. }
  apply invalid_email_spec in He. wp_pure.
  eapply wp_mono; [by eapply UserRepository_Create_spec|]. cbn beta. intros o w1 [Hc Ho].
  destruct o as [[[u|] [err|]]|]; cbn beta iota in Ho |- *; try done.
  - destruct Ho as (id & row & -> & Hne & Hkey & <- & <- & Hadd). cbn [deref]. wp_pure. wp_pure.
    apply users_wp_log. intros w' [Hu' Hc']. apply wp_ret. rewrite Hu', Hc'.
    split; [done|]. cbn. eauto 10.
  - destruct err as [| | |m e]; try done. destruct Ho as (-> & Hdup & Hany).
    destruct (UserServiceServer.is_duplicate _) eqn:Ed.
    + apply is_duplicate_wrap in Ed; [|by left]. apply Hdup in Ed as [? ?]. by apply wp_ret.
    + apply users_wp_log. intros w' [Hu' Hc']. apply wp_ret. rewrite Hu', Hc'.
      split; [done|]. cbn. auto.
Qed.

Lemma GetUser_spec c req w p :
  cell w = Some p →
  wp H (UserServiceServer.GetUser c req) (λ o w',
    cell w' = cell w ∧ get_user_post user_key (users w) req o (users w')) w.
Proof.
  intros Hcell. unfold UserServiceServer.GetUser, get_user_post.
  destruct (str_eqb_spec (GetUserRequest_Id req) "") as [Hn|Hn].
  { by apply wp_ret. }
  wp_pure. eapply wp_mono; [by eapply UserRepository_Get_spec|]. cbn beta. intros o w1 (Hc & Hu & Ho).
  destruct o as [[[u|] [err|]]|]; cbn beta iota in Ho |- *; try done.
  - destruct Ho as (row & -> & Hrow). apply wp_ret. split; [done|]. split; [done|]. cbn. eauto.
  - apply users_wp_log. intros w' [Hu' Hc']. apply wp_ret. rewrite Hu', Hc'. done.
Qed.

Lemma DeleteUser_spec c req w p :
  cell w = Some p →
  wp H (UserServiceServer.DeleteUser c req) (λ o w',
    cell w' = cell w ∧ delete_user_post user_key (users w) req o (users w')) w.
Proof.
  intros Hcell. unfold UserServiceServer.DeleteUser, delete_user_post.
  destruct (str_eqb_spec (DeleteUserRequest_Id req) "") as [Hn|Hn].
  { by apply wp_ret. }
  wp_pure. eapply wp_mono; [by eapply UserRepository_Delete_spec|]. cbn beta. intros o w1 [Hc Ho].
  destruct o as [[found [err|]]|]; cbn beta iota in Ho |- *; try done.
  - apply users_wp_log. intros w' [Hu' Hc']. apply wp_ret. rewrite Hu', Hc'. done.
  - destruct Ho as [Hu ->]. case_bool_decide as Hs; cbn [negb].
    + apply users_wp_log. intros w' [Hu' Hc']. apply wp_ret. rewrite Hu', Hc'. done.
    + apply wp_ret. split; [done|]. apply eq_None_not_Some in Hs.
      split_and!; [done..|]. by rewrite Hu, delete_id.
Qed.

Lemma mask_valid_spec req paths :
  UpdateUserRequest_UpdateMask req = Some (mkFieldMask paths) → paths ≠ [] →
  mask_valid req ↔ Forall (mask_path_ok (UpdateUserRequest_User req)) paths.
Proof.
  intros Hm Hp. unfold mask_valid. rewrite Hm. split.
  - by intros (paths' & [= <-] & _ & Hok).
  - eauto.
Qed.

(** The mask of a valid request sets at least one field. *)
Lemma mask_sets user paths :
  paths ≠ [] → Forall (mask_path_ok user) paths →
  bool_decide ("name" ∈ paths) || bool_decide ("email" ∈ paths) = true.
Proof.
  intros Hp Hok. destruct paths as [|path paths]; [done|].
  apply Forall_cons in Hok as [[[-> _]|[-> _]] _].
  - by rewrite bool_decide_true by set_solver.
  - by rewrite (bool_decide_true ("email" ∈ _)), orb_true_r by set_solver.
Qed.

Lemma UpdateUser_spec c req w p :
  cell w = Some p →
  wp H (UserServiceServer.UpdateUser c req) (λ o w',
    cell w' = cell w ∧ update_user_post user_key (users w) req o (users w')) w.
Proof.
  intros Hcell. unfold UserServiceServer.UpdateUser.
  destruct (str_eqb_spec (UpdateUserRequest_Id req) "") as [Hn|Hn].
  { apply wp_ret. cbn. eauto. }
  destruct (UpdateUserRequest_UpdateMask req) as [[[|path paths']]|] eqn:Hm.
  1, 3: apply wp_ret; split; [done|]; split; [right|done]; unfold mask_valid;
    rewrite Hm; by intros (paths & [= <-] & ? & _).
  set (paths := path :: paths') in *.
  assert (paths ≠ []) as Hne by done.
  pose proof (mask_valid_spec req paths Hm Hne) as Hmv.
  destruct (decide (Forall (mask_path_ok (UpdateUserRequest_User req)) paths)) as [Hok|Hok].
  2: { destruct (mask_loop_fail _ paths "" "" false false Hok) as [m ->].
       apply wp_ret. cbn. rewrite Hmv. auto. }
  rewrite (mask_loop_ok _ _ _ _ _ _ Hok), !orb_false_l.
  pose proof (mask_sets _ _ Hne Hok) as Hset.
  assert (in_mask "name" req = bool_decide ("name" ∈ paths)) as Hin_n.
  { unfold in_mask. by rewrite Hm. }
  assert (in_mask "email" req = bool_decide ("email" ∈ paths)) as Hin_e.
  { unfold in_mask. by rewrite Hm. }
  wp_pure. eapply wp_mono; [by eapply UserRepository_Update_spec|]. cbn beta. intros o w1 [Hc Ho].
  unfold update_user_post, masked_row. rewrite Hin_n, Hin_e.
  apply Hmv in Hok.
  assert (∀ (b1 b2 : bool) (x1 x2 : string) (row : user_row) now,
    set_row row (if b1 then x1 else "") (if b2 then x2 else "") b1 b2 now =
    set_row row x1 x2 b1 b2 now) as Hrow.
  { by intros [|] [|]. }
  assert (∀ (b : bool) (x : string), email_ok (user_key (UpdateUserRequest_Id req))
    (if b then x else "") b (users w) ↔ email_ok (user_key (UpdateUserRequest_Id req)) x b (users w))
    as Hem.
  { by intros [|]. }
  destruct o as [[[u|] [err|]]|]; cbn beta iota in Ho |- *; try done.
  - destruct Ho as (Hok' & row & now & Hl & Hu & ->). rewrite Hrow in Hu |- *.
    apply users_wp_log. intros w' [Hu' Hc']. apply wp_ret. rewrite Hu', Hc'.
    rewrite Hem in Hok'. split; [done|]. cbn beta iota.
    split_and!; [done..|]. by exists row, now.
  - destruct err as [| | |m e]; try done. destruct Ho as (-> & Hdup & Hany).
    setoid_rewrite Hem in Hdup. setoid_rewrite Hem in Hany. setoid_rewrite Hrow in Hany.
    destruct (UserServiceServer.is_duplicate _) eqn:Ed.
    + apply is_duplicate_wrap in Ed; [|by right]. apply Hdup in Ed as [? ?]. by apply wp_ret.
    + apply users_wp_log. intros w' [Hu' Hc']. apply wp_ret. rewrite Hu', Hc'.
      split; [done|]. cbn. auto.
  - destruct Ho as [Hu Hl]. by apply wp_ret.
Qed.
End Service.

(** ** The directory invariant *)

Definition row_ok (u : user_row) : Prop :=
  valid_name (ur_name u) ∧ trimmed (ur_name u) ∧
  valid_email (ur_email u) ∧ trimmed (ur_email u).

(** Every stored name and email is trimmed and valid, and no two users share
    an email. *)
Definition directory_ok (U : users_map) : Prop :=
  map_Forall (λ _ u, row_ok u) U ∧
  ∀ i j u v, U !! i = Some u → U !! j = Some v → ur_email u = ur_email v → i = j.

Lemma directory_ok_add U U' id u :
  directory_ok U → row_ok u → user_added U U' id u → directory_ok U'.
Proof.
  intros [Hrows Huniq] Hu (Hid & Hfree & ->). split.
  - by apply map_Forall_insert_2.
  - intros i j v1 v2 Hi Hj He. rewrite lookup_insert_Some in Hi, Hj.
    destruct Hi as [[<- <-]|[Hi H1]], Hj as [[<- <-]|[Hj H2]]; [done|..|by eapply Huniq].
    + by destruct (Hfree _ _ H2).
    + by destruct (Hfree _ _ H1).
Qed.

Lemma directory_ok_update U id u u' :
  directory_ok U → U !! id = Some u → row_ok u' →
  ur_email u' = ur_email u ∨ email_free (ur_email u') (delete id U) →
  directory_ok (<[id := u']> U).
Proof.
  intros [Hrows Huniq] Hid Hu' Hem. split.
  - by apply map_Forall_insert_2.
  - assert (∀ j v, j ≠ id → U !! j = Some v → ur_email u' ≠ ur_email v) as Hne.
    { intros j v Hj Hv He. destruct Hem as [Hsame|Hfree].
      - apply Hj. symmetry. eapply (Huniq id j u v); congruence.
      - apply (Hfree j v); [|done]. by rewrite lookup_delete_ne. }
    intros i j v1 v2 Hi Hj He. rewrite lookup_insert_Some in Hi, Hj.
    destruct Hi as [[<- <-]|[Hi H1]], Hj as [[<- <-]|[Hj H2]]; [done|..|by eapply Huniq].
    + by destruct (Hne j v2).
    + by destruct (Hne i v1).
Qed.

Lemma directory_ok_delete U id : directory_ok U → directory_ok (delete id U).
Proof.
  intros [Hrows Huniq]. split; [by apply map_Forall_delete|].
  intros i j u v Hi Hj. rewrite lookup_delete_Some in Hi, Hj. destruct Hi, Hj. eauto.
Qed.

Lemma masked_row_ok req u now :
  mask_valid req → row_ok u → row_ok (masked_row req u now).
Proof.
  intros (paths & Hm & _ & Hok) (H1 & H2 & H3 & H4).
  rewrite Forall_forall in Hok. unfold row_ok, masked_row, in_mask, set_row. rewrite Hm. cbn.
  repeat case_bool_decide; cbn; split_and!; auto using TrimSpace_trimmed.
  all: first [by edestruct (Hok "name") as [[_ ?]|[? _]]
             |by edestruct (Hok "email") as [[? _]|[_ ?]]].
Qed.

Lemma directory_ok_masked U req id u now :
  directory_ok U → U !! id = Some u → mask_valid req →
  email_ok id (TrimSpace (User_GetEmail (UpdateUserRequest_User req))) (in_mask "email" req) U →
  directory_ok (<[id := masked_row req u now]> U).
Proof.
  intros HU Hid Hmv Hem. eapply directory_ok_update; [done..| |].
  - apply masked_row_ok; [done|]. by eapply (map_Forall_lookup_1 _ _ _ _ (proj1 HU)).
  - unfold masked_row, set_row. cbn. destruct (in_mask "email" req); [right|left]; auto.
Qed.

(** ** Serving requests *)

Inductive user_request : Type :=
| ReqCreateUser (r : CreateUserRequest)
| ReqGetUser (r : GetUserRequest)
| ReqUpdateUser (r : UpdateUserRequest)
| ReqDeleteUser (r : DeleteUserRequest).

(** A request as the gRPC server runs it: the generated handler, under the two
    interceptors. *)
Definition serve_user (c : ctx) (r : user_request) : go iret :=
  let srv := UserServiceServer.server in
  match r with
  | ReqCreateUser r => userv1_grpc.UserService_CreateUser_Handler srv c
      (decoded MCreateUserRequest r) (Some server_interceptor)
  | ReqGetUser r => userv1_grpc.UserService_GetUser_Handler srv c
      (decoded MGetUserRequest r) (Some server_interceptor)
  | ReqUpdateUser r => userv1_grpc.UserService_UpdateUser_Handler srv c
      (decoded MUpdateUserRequest r) (Some server_interceptor)
  | ReqDeleteUser r => userv1_grpc.UserService_DeleteUser_Handler srv c
      (decoded MDeleteUserRequest r) (Some server_interceptor)
  end.

Fixpoint serve_users (c : ctx) (rs : list user_request) : go unit :=
  match rs with
  | [] => mret tt
  | r :: rs => serve_user c r ≫= λ _, serve_users c rs
  end.

Section Invariant.
Context {W : Type} (H : env W) `{!RepoCell H} `{!UserDB H}.

(** What holds between requests. *)
Definition directory_in (p : pool) (w : W) : Prop :=
  cell w = Some p ∧ directory_ok (users w).

(** One RPC, from the specification of its method. *)
Lemma serve_rpc {S} (fm : string) (ki ko : mkind)
    (method : S → ctx → msg ki → go (goret (msg ko))) srv c req p w :
  directory_in p w →
  (∀ w1, directory_in p w1 → wp H (method srv c req) (λ o w', directory_in p w') w1) →
  wp H (unary_stub fm ki ko method srv c (decoded ki req) (Some server_interceptor))
    (λ o w', (∃ r, o = Returned r) ∧ directory_in p w') w.
Proof.
  intros Hw Hm. assert (∀ w1 w2, directory_in p w1 → users_quiet H w1 w2 → directory_in p w2) as Hq.
  { intros w1 w2 [Hc Hd] [Hu Hc']. split; [congruence|by rewrite Hu]. }
  eapply wp_mono; [eapply (wp_rpc H (users_quiet H)) with (Q := λ _, directory_in p)|].
  - intros c' w' Hc. destruct (H c' w') as [r' w2] eqn:E.
    eapply users_quiet_call; [done|..]; by destruct c'.
  - eauto.
  - eauto.
  - cbn beta. intros o w' (o0 & -> & Hw'). eauto.
Qed.

Lemma CreateUser_directory c r p w :
  directory_in p w → wp H (UserServiceServer.CreateUser c r) (λ _ w', directory_in p w') w.
Proof.
  intros [Hcell HU]. eapply wp_mono; [by eapply CreateUser_spec|]. cbn beta. intros o w' [Hc Ho].
  assert (∀ id u, ur_name u = TrimSpace (CreateUserRequest_Name r) →
    ur_email u = TrimSpace (CreateUserRequest_Email r) →
    valid_name (ur_name u) → valid_email (ur_email u) →
    user_added (users w) (users w') id u → directory_ok (users w')) as Hadd.
  { intros id u Hn He ???. eapply directory_ok_add; [done| |done].
    unfold row_ok. rewrite Hn, He in *. auto using TrimSpace_trimmed. }
  split; [congruence|]. destruct o as [[[resp|] [[| |[] m|]|]]|]; try done; cbn in Ho.
  - destruct Ho as (? & ? & id & u & _ & _ & _ & Hn & He & ?). rewrite <-Hn, <-He in *. eauto.
  - by destruct Ho as [-> _].
  - by destruct Ho as (_ & -> & _).
  - destruct Ho as (_ & ? & ? & [->|(id & u & Hn & He & ?)]); [done|].
    rewrite <-Hn, <-He in *. eauto.
Qed.

Lemma GetUser_directory c r p w :
  directory_in p w → wp H (UserServiceServer.GetUser c r) (λ _ w', directory_in p w') w.
Proof.
  intros [Hcell HU]. eapply wp_mono; [by eapply GetUser_spec|]. cbn beta.
  intros o w' [Hc [Hu Ho]]. split; [congruence|]. by rewrite Hu.
Qed.

Lemma UpdateUser_directory c r p w :
  directory_in p w → wp H (UserServiceServer.UpdateUser c r) (λ _ w', directory_in p w') w.
Proof.
  intros [Hcell HU]. eapply wp_mono; [by eapply UpdateUser_spec|]. cbn beta. intros o w' [Hc Ho].
  split; [congruence|]. destruct o as [[[resp|] [[| |[] m|]|]]|]; try done; cbn in Ho.
  - destruct Ho as (_ & ? & ? & u & now & ? & -> & _). by apply directory_ok_masked.
  - by destruct Ho as [_ ->].
  - by destruct Ho as (_ & _ & _ & _ & ->).
  - by destruct Ho as (_ & _ & _ & -> & _).
  - destruct Ho as (_ & _ & ? & [->|(u & now & ? & ? & ->)]); [done|]. by apply directory_ok_masked.
Qed.

Lemma DeleteUser_directory c r p w :
  directory_in p w → wp H (UserServiceServer.DeleteUser c r) (λ _ w', directory_in p w') w.
Proof.
  intros [Hcell HU]. eapply wp_mono; [by eapply DeleteUser_spec|]. cbn beta. intros o w' [Hc Ho].
  split; [congruence|]. destruct o as [[[resp|] [[| |[] m|]|]]|]; try done; cbn in Ho.
  - destruct Ho as (_ & _ & -> & _). by apply directory_ok_delete.
  - by destruct Ho as (_ & _ & ->).
  - by destruct Ho as (_ & _ & _ & ->).
  - destruct Ho as (_ & _ & [->| ->]); [done|]. by apply directory_ok_delete.
Qed.

Lemma serve_users_ok c rs w p :
  directory_in p w → wp H (serve_users c rs) (λ o w', o = Returned tt ∧ directory_in p w') w.
Proof.
  revert w. induction rs as [|r rs IH]; intros w Hw; cbn [serve_users]; [by apply wp_ret|].
  wp_pure. eapply (wp_mono _ _ (λ o w', (∃ r, o = Returned r) ∧ directory_in p w')).
  - destruct r; apply serve_rpc; try done; intros; [by apply CreateUser_directory|
      by apply GetUser_directory|by apply UpdateUser_directory|by apply DeleteUser_directory].
  - cbn beta. intros o w' [[x ->] Hw']. by apply IH.
Qed.
End Invariant.

(** ** When a handler answers Internal

    Only when the database failed its statement, with an error the handler has
    no other answer for. *)

(** A statement that failed with such an error. *)
Definition fails_with (P : go_error → Prop) (e : gevent) : Prop :=
  let '(Ev c r) := e in
  match c return extres c → Prop with
  | PoolQueryRow _ _ _ _ _ | PoolExec _ _ _ _ => λ r, ∃ e, r = Fail e ∧ P e
  | _ => λ _, False
  end r.

Lemma GetUser_blames c req : blames (fails_with (λ e, ¬ no_rows e)) (UserServiceServer.GetUser c req).
Proof.
  unfold UserServiceServer.GetUser, UserRepository.Get. destruct (str_eqb _ ""); [by intros [m [=]]|].
  change UserRepository.getPool with read_pool. apply handler_blames. intros p [(n & em & ca & ua & [])|e]; cbn; [by intros [m [=]]|].
  destruct (str_eqb_spec (Error e) "no rows in result set"); [by intros [m [=]]|].
  intros [] _. left. right. by exists e.
Qed.

Lemma DeleteUser_blames c req : blames (fails_with (λ _, True)) (UserServiceServer.DeleteUser c req).
Proof.
  unfold UserServiceServer.DeleteUser, UserRepository.Delete. destruct (str_eqb _ ""); [by intros [m [=]]|].
  change UserRepository.getPool with read_pool. apply handler_blames. intros p [n|e]; cbn; [|intros [] _; left; right; by exists e].
  destruct (0 <? n)%Z; cbn; [intros []|]; by intros [m [=]].
Qed.

Lemma CreateUser_blames c req :
  blames (fails_with (λ e, ¬ says_duplicate e)) (UserServiceServer.CreateUser c req).
Proof.
  unfold UserServiceServer.CreateUser, UserRepository.Create.
  destruct (str_eqb _ ""); [by intros [m [=]]|].
  destruct (UserServiceServer.invalid_email _); [by intros [m [=]]|].
  change UserRepository.getPool with read_pool. apply handler_blames. intros p [(id & ca & ua & [])|e]; cbn; [intros []; by intros [m [=]]|].
  destruct (UserServiceServer.is_duplicate _) eqn:Hd; [by intros [m [=]]|]. intros [] _. left. right.
  exists e. split; [done|]. rewrite <-(is_duplicate_wrap "create user") by auto. congruence.
Qed.

Lemma UpdateUser_blames c req :
  blames (fails_with (λ e, ¬ no_rows e ∧ ¬ says_duplicate e)) (UserServiceServer.UpdateUser c req).
Proof.
  unfold UserServiceServer.UpdateUser. destruct (str_eqb _ ""); [by intros [m [=]]|].
  destruct (UpdateUserRequest_UpdateMask req) as [[[|path paths]]|]; [by intros [m [=]]| |by intros [m [=]]].
  destruct (decide (Forall (mask_path_ok (UpdateUserRequest_User req)) (path :: paths))) as [Hok|Hok].
  2: { destruct (mask_loop_fail _ _ "" "" false false Hok) as [m Hm]. rewrite Hm. by intros [? [=]]. }
  rewrite (mask_loop_ok _ _ _ _ _ _ Hok), !orb_false_l.
  pose proof (mask_sets (UpdateUserRequest_User req) (path :: paths) ltac:(discriminate) Hok) as Hset. unfold UserRepository.Update.
  lazymatch goal with |- context [UserRepository.update_clauses ?n ?e ?ns ?es] =>
    pose proof (update_clauses_spec (UpdateUserRequest_Id req) n e ns es Hset) as Hs;
    destruct (UserRepository.update_clauses n e ns es) as [[cl args] idx] end.
  destruct Hs as (-> & _ & _).
  change UserRepository.getPool with read_pool. apply handler_blames. intros p [(id & n & em & ca & ua & [])|e]; cbn; [intros []; by intros [m [=]]|].
  destruct (str_eqb_spec (Error e) "no rows in result set"); [by intros [m [=]]|]. cbn.
  destruct (UserServiceServer.is_duplicate _) eqn:Hd; [by intros [m [=]]|]. intros [] _. left. right.
  exists e. split_and!; [done..|]. rewrite <-(is_duplicate_wrap "update user") by auto. congruence.
Qed.
