(* ===== verification/OrderService.v ===== *)
(** * order-service: cache, user client, repository and gRPC handlers

    [Module OrderCache] is [services/order-service/cache.go], [UserClient] is
    [client.go], [OrderRepository] is [repository.go] and [OrderServiceServer]
    is [server.go], function by function. *)
From S2P Require Import Prelude.
From S2P Require Import GoStrings.
From S2P Require Import GoFloat.
From S2P Require Import Proto.
From S2P Require Import GoRuntime.
From S2P Require Import External.
From S2P Require Import Grpc.
From S2P Require Import GrpcStubs.
Import orderv1.

Module OrderCache.

Definition orderCacheTTL : Z := 5 * Minute.
Definition orderCachePrefix : string := "order:".

Definition key (id : string) : string := orderCachePrefix +:+ id.

Definition Get (c : ctx) (id : string) : go (goret Order) :=
  r ← gocall (RedisGet c (key id));
  match r with
  | Fail err =>
      if bool_decide (err = ErrRedisNil)
      then mret (None, None)
      else mret (None, Some (ErrWrap "cache get" err))
  | Ok data =>
      u ← gocall (PjUnmarshal data);
      match u with
      | Fail err => mret (None, Some (ErrWrap "cache unmarshal" err))
      | Ok order => mret (Some order, None)
      end
  end.

Definition Set_ (c : ctx) (order : Order) : go (option go_error) :=
  m ← gocall (PjMarshal order);
  match m with
  | Fail err => mret (Some (ErrWrap "cache marshal" err))
  | Ok data => gocall (RedisSet c (key (Order_Id order)) data orderCacheTTL)
  end.

Definition Invalidate (c : ctx) (id : string) : go unit :=
  e ← gocall (RedisDel c (key id));
  match e with
  | Some err => zap_log Warn_ "failed to invalidate cache" [ZString "id" id; ZError err]
  | None => mret tt
  end.

End OrderCache.

Module UserClient.

Definition GetUser (c : ctx) (id : string) : go (goret userv1.User) :=
  '(resp, err) ← userv1_grpc.userServiceClient_GetUser c (userv1.mkGetUserRequest id);
  match err with
  | Some err =>
      match status_FromError err with
      | Some st =>
          if str_eqb (code_String st) "NotFound"
          then mret (None, None)
          else mret (None, Some (ErrWrap "get user" err))
      | None => mret (None, Some (ErrWrap "get user" err))
      end
  | None =>
      resp ← deref resp;
      mret (userv1.GetUserResponse_User resp, None)
  end.

End UserClient.

Module OrderRepository.

Definition dbQueryTimeout : Z := 10 * Second.

Definition getPool : go (option pool) :=
  gocall MuRLock ≫= λ _,
  with_defer (gocall MuRUnlock) (gocall LoadPool).

Definition SetPool (new : option pool) : go unit :=
  gocall MuLock ≫= λ _,
  with_defer (gocall MuUnlock)
    (old ← gocall LoadPool;
     gocall (StorePool new) ≫= λ _,
     match old with
     | Some p => gocall (PoolClose p)
     | None => mret tt
     end).

Definition queryTimeout (c : ctx) : ctx := CtxWithTimeout c dbQueryTimeout.

(** [total += float64(item.Quantity) * item.UnitPrice] over the items; using a
    nil item panics. *)
Fixpoint sum_total (items : list (option OrderItem)) (total : float64) : go float64 :=
  match items with
  | [] => mret total
  | item :: items' =>
      item ← deref item;
      sum_total items'
        (f64_add total
           (f64_mul (f64_of_int (OrderItem_Quantity item)) (OrderItem_UnitPrice item)))
  end.

Definition sql_insert_order : string :=
"INSERT INTO orders (id, user_id, total) VALUES ($1, $2, $3)
		 RETURNING created_at".

Definition sql_insert_item : string :=
"INSERT INTO order_items (id, order_id, product_id, product_name, quantity, unit_price)
			 VALUES ($1, $2, $3, $4, $5, $6)".

(** One iteration of the loop that inserts the items. *)
Definition insert_item (qCtx : ctx) (tx : txn) (orderID : string)
    (_ : nat) (item : option OrderItem) : go (option (goret Order)) :=
  itemID ← gocall UuidNew;
  item ← deref item;
  e ← gocall (TxExec tx qCtx sql_insert_item
        [AString itemID; AString orderID; AString (OrderItem_ProductId item);
         AString (OrderItem_ProductName item); AInt32 (OrderItem_Quantity item);
         AFloat64 (OrderItem_UnitPrice item)]);
  match e with
  | Some err => mret (Some (None, Some (ErrWrap "insert order_item" err)))
  | None => mret None
  end.

Definition Create (c : ctx) (userID : string) (items : list (option OrderItem)) :
    go (goret Order) :=
  let qCtx := queryTimeout c in
  with_defer (ctx_cancel qCtx)
    (p ← getPool ≫= deref;
     b ← gocall (PoolBegin p qCtx);
     match b with
     | Fail err => mret (None, Some (ErrWrap "begin tx" err))
     | Ok tx =>
         with_defer (gocall (TxRollback tx c) ≫= λ _, mret tt)
           (orderID ← gocall UuidNew;
            total ← sum_total items f64_zero;
            r ← gocall (TxQueryRow tx qCtx sql_insert_order
                  [AString orderID; AString userID; AFloat64 total] [KTime]);
            match r with
            | Fail err => mret (None, Some (ErrWrap "insert order" err))
            | Ok (createdAt, _) =>
                o ← for_range 0 items (insert_item qCtx tx orderID);
                match o with
                | Some early => mret early
                | None =>
                    e ← gocall (TxCommit tx qCtx);
                    match e with
                    | Some err => mret (None, Some (ErrWrap "commit tx" err))
                    | None =>
                        mret (Some (mkOrder orderID userID items total
                                      OrderStatus_ORDER_STATUS_PENDING
                                      (Some (timestamppb_New createdAt))), None)
                    end
                end
            end)
     end).

Definition parseOrderStatus (s : string) : OrderStatus :=
  if str_eqb s "PENDING" then OrderStatus_ORDER_STATUS_PENDING
  else if str_eqb s "CONFIRMED" then OrderStatus_ORDER_STATUS_CONFIRMED
  else if str_eqb s "SHIPPED" then OrderStatus_ORDER_STATUS_SHIPPED
  else if str_eqb s "DELIVERED" then OrderStatus_ORDER_STATUS_DELIVERED
  else if str_eqb s "CANCELLED" then OrderStatus_ORDER_STATUS_CANCELLED
  else OrderStatus_ORDER_STATUS_UNSPECIFIED.

Definition sql_select_items : string :=
"SELECT product_id, product_name, quantity, unit_price
		 FROM order_items WHERE order_id = $1".

(** The loop [for rows.Next() { rows.Scan(...) ... }] of [getItems]. *)
Fixpoint scan_items
    (scans : list (gresult (scan_row [KString; KString; KInt32; KFloat64])))
    (items : list (option OrderItem)) : list (option OrderItem) * option go_error :=
  match scans with
  | [] => (items, None)
  | Fail err :: _ => ([], Some (ErrWrap "scan item" err))
  | Ok (pid, (pname, (q, (price, _)))) :: scans' =>
      scan_items scans' (items ++ [Some (mkOrderItem pid pname q price)])
  end.

Definition getItems (c : ctx) (orderID : string) :
    go (list (option OrderItem) * option go_error) :=
  let qCtx := queryTimeout c in
  with_defer (ctx_cancel qCtx)
    (p ← getPool ≫= deref;
     r ← gocall (PoolQuery p qCtx sql_select_items [AString orderID]
                   [KString; KString; KInt32; KFloat64]);
     match r with
     | Fail err => mret ([], Some (ErrWrap "get items" err))
     | Ok rs =>
         with_defer (gocall (RowsClose (rows_id rs)))
           (mret (scan_items (rows_scans rs) []))
     end).

Definition sql_select_order : string :=
"SELECT user_id, status, total, created_at FROM orders WHERE id = $1".

Definition getFromDB (c : ctx) (id : string) : go (goret Order) :=
  let qCtx := queryTimeout c in
  with_defer (ctx_cancel qCtx)
    (p ← getPool ≫= deref;
     r ← gocall (PoolQueryRow p qCtx sql_select_order [AString id]
                   [KString; KString; KFloat64; KTime]);
     match r with
     | Fail err =>
         if str_eqb (Error err) "no rows in result set"
         then mret (None, None)
         else mret (None, Some (ErrWrap "get order" err))
     | Ok (userID, (status, (total, (createdAt, _)))) =>
         '(items, err) ← getItems c id;
         match err with
         | Some err => mret (None, Some err)
         | None =>
             mret (Some (mkOrder id userID items total (parseOrderStatus status)
                           (Some (timestamppb_New createdAt))), None)
         end
     end).

Definition sql_cancel_order : string :=
"UPDATE orders SET status = 'CANCELLED' WHERE id = $1
		 RETURNING status".

(** The fields of the repository that never change.  [rdb] may be nil; the
    cache holds the same client. *)
Record OrderRepository := mkOrderRepository { has_rdb : bool }.

Definition NewOrderRepository (p : option pool) (rdb : bool) : go OrderRepository :=
  gocall (StorePool p) ≫= λ _, mret (mkOrderRepository rdb).

Definition Get (r : OrderRepository) (c : ctx) (id : string) : go (goret Order) :=
  hit ← (if has_rdb r then
           '(cached, err) ← OrderCache.Get c id;
           match err, cached with
           | None, Some o =>
               zap_log Debug_ "cache hit for order" [ZString "id" id] ≫= λ _, mret (Some o)
           | _, _ => mret None
           end
         else mret None);
  match hit with
  | Some o => mret (Some o, None)
  | None =>
      '(order, err) ← getFromDB c id;
      match err, order with
      | Some err, _ => mret (None, Some err)
      | None, None => mret (None, None)
      | None, Some o =>
          (if has_rdb r then
             e ← OrderCache.Set_ c o;
             match e with
             | Some err => zap_log Warn_ "failed to cache order" [ZString "id" id; ZError err]
             | None => mret tt
             end
           else mret tt) ≫= λ _,
          mret (Some o, None)
      end
  end.

(** [LIMIT] and [OFFSET] of [List], on [int32]. *)
Definition list_window (page pageSize : Z) : Z * Z :=
  let pageSize := if ((pageSize <=? 0) || (100 <? pageSize))%Z then 20%Z else pageSize in
  let page := if (page <? 1)%Z then 1%Z else page in
  (pageSize, mul32 (sub32 page 1) pageSize).

Definition count_query (userID : string) : string * list sqlarg :=
  let '(countQuery, countArgs) := ("SELECT COUNT(*) FROM orders", []) in
  if negb (str_eqb userID "")
  then (countQuery +:+ " WHERE user_id = $1", countArgs ++ [AString userID])
  else (countQuery, countArgs).

Definition list_query (userID : string) (pageSize offset : Z) : string * list sqlarg :=
  let listQuery := "SELECT id, user_id, status, total, created_at FROM orders" in
  let '(listQuery, listArgs, argIdx) :=
    if negb (str_eqb userID "")
    then (listQuery +:+ " WHERE user_id = $" +:+ fmt_d 1, [AString userID], 2%Z)
    else (listQuery, [], 1%Z) in
  (listQuery +:+ " ORDER BY created_at DESC LIMIT $" +:+ fmt_d argIdx
     +:+ " OFFSET $" +:+ fmt_d (argIdx + 1),
   listArgs ++ [AInt32 pageSize; AInt32 offset]).

Fixpoint scan_orders
    (scans : list (gresult (scan_row [KString; KString; KString; KFloat64; KTime])))
    (orders : list (option Order)) : gresult (list (option Order)) :=
  match scans with
  | [] => Ok orders
  | Fail err :: _ => Fail (ErrWrap "scan order" err)
  | Ok (id, (uid, (status, (total, (createdAt, _))))) :: scans' =>
      scan_orders scans'
        (orders ++ [Some (mkOrder id uid [] total (parseOrderStatus status)
                            (Some (timestamppb_New createdAt)))])
  end.

Definition List_ (c : ctx) (userID : string) (page pageSize : Z) :
    go (list (option Order) * Z * option go_error) :=
  let '(pageSize, offset) := list_window page pageSize in
  let qCtx := queryTimeout c in
  with_defer (ctx_cancel qCtx)
    (let '(countQuery, countArgs) := count_query userID in
     p ← getPool ≫= deref;
     r ← gocall (PoolQueryRow p qCtx countQuery countArgs [KInt32]);
     match r with
     | Fail err => mret ([], 0%Z, Some (ErrWrap "count orders" err))
     | Ok (total, _) =>
         let '(listQuery, listArgs) := list_query userID pageSize offset in
         p ← getPool ≫= deref;
         r ← gocall (PoolQuery p qCtx listQuery listArgs
                       [KString; KString; KString; KFloat64; KTime]);
         match r with
         | Fail err => mret ([], 0%Z, Some (ErrWrap "list orders" err))
         | Ok rs =>
             with_defer (gocall (RowsClose (rows_id rs)))
               (match scan_orders (rows_scans rs) [] with
                | Fail err => mret ([], 0%Z, Some err)
                | Ok orders => mret (orders, total, None)
                end)
         end
     end).

Definition Cancel (r : OrderRepository) (c : ctx) (id : string) : go (goret Order) :=
  let qCtx := queryTimeout c in
  with_defer (ctx_cancel qCtx)
    (p ← getPool ≫= deref;
     u ← gocall (PoolQueryRow p qCtx sql_cancel_order [AString id] [KString]);
     match u with
     | Fail err =>
         if str_eqb (Error err) "no rows in result set"
         then mret (None, None)
         else mret (None, Some (ErrWrap "cancel order" err))
     | Ok _ =>
         (if has_rdb r then OrderCache.Invalidate c id else mret tt) ≫= λ _,
         getFromDB c id
     end).

End OrderRepository.

Module OrderServiceServer.

(** The checks of one item in [CreateOrder]'s loop; a nil item panics. *)
Definition check_item (i : nat) (item : option OrderItem) :
    go (option (goret CreateOrderResponse)) :=
  item ← deref item;
  if str_eqb (OrderItem_ProductId item) ""
  then mret (Some (status_fail InvalidArgument
         ("items[" +:+ fmt_d (Z.of_nat i) +:+ "].product_id is required"))) else
  if (OrderItem_Quantity item <=? 0)%Z
  then mret (Some (status_fail InvalidArgument
         ("items[" +:+ fmt_d (Z.of_nat i) +:+ "].quantity must be positive"))) else
  if f64_ltb (OrderItem_UnitPrice item) f64_zero
  then mret (Some (status_fail InvalidArgument
         ("items[" +:+ fmt_d (Z.of_nat i) +:+ "].unit_price must be non-negative")))
  else mret None.

Definition CreateOrder (c : ctx) (req : CreateOrderRequest) : go (goret CreateOrderResponse) :=
  let req := mkCreateOrderRequest (TrimSpace (CreateOrderRequest_UserId req))
                                  (CreateOrderRequest_Items req) in
  if str_eqb (CreateOrderRequest_UserId req) ""
  then mret (status_fail InvalidArgument "user_id is required") else
  match CreateOrderRequest_Items req with
  | [] => mret (status_fail InvalidArgument "at least one item is required")
  | items =>
      bad ← for_range 0 items check_item;
      match bad with
      | Some early => mret early
      | None =>
          '(user, err) ← UserClient.GetUser c (CreateOrderRequest_UserId req);
          match err, user with
          | Some err, _ =>
              zap_log Error_ "failed to verify user"
                [ZString "user_id" (CreateOrderRequest_UserId req); ZError err] ≫= λ _,
              mret (status_fail Internal "failed to verify user")
          | None, None => mret (status_fail NotFound "user not found")
          | None, Some _ =>
              '(order, err) ← OrderRepository.Create c (CreateOrderRequest_UserId req) items;
              match err with
              | Some err =>
                  zap_log Error_ "failed to create order" [ZError err] ≫= λ _,
                  mret (status_fail Internal "failed to create order")
              | None =>
                  o ← deref order;
                  zap_log Info_ "order created"
                    [ZString "id" (Order_Id o); ZString "user_id" (Order_UserId o)] ≫= λ _,
                  mret (Some (mkCreateOrderResponse order), None)
              end
          end
      end
  end.

Definition GetOrder (r : OrderRepository.OrderRepository) (c : ctx) (req : GetOrderRequest) :
    go (goret GetOrderResponse) :=
  if str_eqb (GetOrderRequest_Id req) ""
  then mret (status_fail InvalidArgument "id is required") else
  '(order, err) ← OrderRepository.Get r c (GetOrderRequest_Id req);
  match err, order with
  | Some err, _ =>
      zap_log Error_ "failed to get order"
        [ZString "id" (GetOrderRequest_Id req); ZError err] ≫= λ _,
      mret (status_fail Internal "failed to get order")
  | None, None => mret (status_fail NotFound "order not found")
  | None, Some _ => mret (Some (mkGetOrderResponse order), None)
  end.

(** The page and page size [ListOrders] hands to the repository. *)
Definition request_page (req : ListOrdersRequest) : Z * Z :=
  let '(page, pageSize) := (1%Z, 20%Z) in
  match ListOrdersRequest_Pagination req with
  | None => (page, pageSize)
  | Some p =>
      ((if 0 <? commonv1.Pagination_Page p then commonv1.Pagination_Page p else page)%Z,
       (if 0 <? commonv1.Pagination_PageSize p
        then commonv1.Pagination_PageSize p else pageSize)%Z)
  end.

Definition ListOrders (c : ctx) (req : ListOrdersRequest) : go (goret ListOrdersResponse) :=
  let '(page, pageSize) := request_page req in
  '(orders, total, err) ← OrderRepository.List_ c (ListOrdersRequest_UserId req) page pageSize;
  match err with
  | Some err =>
      zap_log Error_ "failed to list orders" [ZError err] ≫= λ _,
      mret (status_fail Internal "failed to list orders")
  | None =>
      let hasMore := (mul32 page pageSize <? total)%Z in
      mret (Some (mkListOrdersResponse orders
                    (Some (commonv1.mkPaginationResponse total hasMore))), None)
  end.

Definition CancelOrder (r : OrderRepository.OrderRepository) (c : ctx) (req : CancelOrderRequest) :
    go (goret CancelOrderResponse) :=
  if str_eqb (CancelOrderRequest_Id req) ""
  then mret (status_fail InvalidArgument "id is required") else
  '(order, err) ← OrderRepository.Cancel r c (CancelOrderRequest_Id req);
  match err, order with
  | Some err, _ =>
      zap_log Error_ "failed to cancel order"
        [ZString "id" (CancelOrderRequest_Id req); ZError err] ≫= λ _,
      mret (status_fail Internal "failed to cancel order")
  | None, None => mret (status_fail NotFound "order not found")
  | None, Some o =>
      zap_log Info_ "order cancelled" [ZString "id" (Order_Id o)] ≫= λ _,
      mret (Some (mkCancelOrderResponse order), None)
  end.

(** The implementation of the generated interface. *)
Definition server (r : OrderRepository.OrderRepository) : orderv1_grpc.OrderServiceServer :=
  orderv1_grpc.mkOrderServiceServer CreateOrder (GetOrder r) ListOrders (CancelOrder r).

End OrderServiceServer.
