(* ===== verification/OrderCacheProofs.v ===== *)
(** * The Redis cache of order-service stays coherent with the orders table

    The cache-aside protocol of [OrderRepository.Get] and [Cancel], against the
    [OrderKV] interface: every cached order is the stored one, so a hit answers
    what the database would, whatever the spelling of the id; keys may expire at
    any time.  A cancellation keeps it so when only canonical ids are cached. *)
From S2P Require Import Prelude.
From S2P Require Import GoStrings.
From S2P Require Import GoFloat.
From S2P Require Import Proto.
From S2P Require Import GoRuntime.
From S2P Require Import External.
From S2P Require Import Stores.
From S2P Require Import OrderService.
From S2P Require Import OrderProofs.
Import orderv1.

Lemma cache_key_inj id id' : OrderCache.key id = OrderCache.key id' → id = id'.
Proof.
  unfold OrderCache.key, OrderCache.orderCachePrefix. intros Hk.
  apply (f_equal bytes) in Hk. rewrite !bytes_app in Hk. apply app_inv_head in Hk.
  by apply (inj bytes).
Qed.

(** The calls that do not write the cache. *)
Definition not_redis_set (c : extcall) : Prop := ∀ cx k d t, c ≠ RedisSet cx k d t.

Lemma getFromDB_no_set c id : calls_only not_redis_set (OrderRepository.getFromDB c id).
Proof.
  unfold OrderRepository.getFromDB, OrderRepository.getItems, OrderRepository.getPool, ctx_cancel.
  repeat calls_only_step; done.
Qed.

Lemma Create_no_set c user items :
  calls_only not_redis_set (OrderRepository.Create c user items).
Proof.
  unfold OrderRepository.Create, OrderRepository.getPool, OrderRepository.insert_item, ctx_cancel.
  repeat calls_only_step; try done.
  generalize f64_zero. induction items as [|[it|] items IH]; intros t; cbn; [done|apply IH|done].
Qed.

Section Cache.
Context {W : Type} (H : env W) `{!RepoCell H} `{!OrderDB H} `{!OrderKV H}.

(** Every key of the cache is that of an order id, of the spellings [spelt], and
    its value is the stored order as a read under that spelling reports it. *)
Definition cache_for (spelt : string → Prop) (w : W) : Prop :=
  ∀ k d, kv w !! k = Some d →
  ∃ id o row, k = OrderCache.key id ∧ spelt id ∧ decodes d o ∧
    orders w !! order_key id = Some row ∧ order_read (complete_reads H) id row o.

(** Only the canonical spelling of an id is cached; or any. *)
Definition canonical_id (id : string) : Prop := order_key id = id.
Definition cache_ok : W → Prop := cache_for canonical_id.
Definition cache_agrees : W → Prop := cache_for (λ _, True).

Lemma cache_ok_agrees w : cache_ok w → cache_agrees w.
Proof. intros Hok k d Hk. destruct (Hok k d Hk) as (id & o & row & ? & _ & ?). by exists id, o, row. Qed.

Section Spelt.
Context (spelt : string → Prop).

Lemma kv_call c w r w' : H c w = (r, w') → not_redis_set c → kv w' ⊆ kv w.
Proof. intros Hc Hn. change w' with (r, w').2. rewrite <-Hc. by apply kv_frame. Qed.

Lemma wp_no_set {A} (p : go A) w :
  calls_only not_redis_set p → wp H p (λ _ w', kv w' ⊆ kv w) w.
Proof.
  intros Hp.
  assert (PreOrder (λ w w' : W, kv w' ⊆ kv w)) as Hpre.
  { split; [by intros ?|]. intros ??? H1 H2. by etrans. }
  apply (wp_calls_only H not_redis_set (λ w w', kv w' ⊆ kv w)); [done|].
  intros c' w' Hc. by apply kv_frame.
Qed.

(** Expiry keeps the cache coherent, and so does a new order. *)
Lemma cache_ok_shrink w w' :
  cache_for spelt w → kv w' ⊆ kv w →
  (∀ id row, orders w !! id = Some row → orders w' !! id = Some row) → cache_for spelt w'.
Proof.
  intros Hok Hkv Ho k d Hk. eapply lookup_weaken in Hk; [|done].
  destruct (Hok _ _ Hk) as (id & o & row & ? & ? & ? & ? & ?). eauto 10.
Qed.

Lemma cache_ok_stable w w' :
  cache_for spelt w → kv w' ⊆ kv w → stable H w w' → cache_for spelt w'.
Proof. intros Hok Hkv [Ho _]. eapply cache_ok_shrink; [done..|]. by rewrite Ho. Qed.

Lemma stable_call c w r w' :
  H c w = (r, w') → sql_call c = false → (∀ p, c ≠ StorePool p) → stable H w w'.
Proof. intros. by eapply quiet_stable, quiet_call. Qed.

(** A lookup in the cache answers the stored order or nothing. *)
Lemma cache_Get_spec c id w :
  cache_for spelt w →
  wp H (OrderCache.Get c id) (λ o w', stable H w w' ∧ cache_for spelt w' ∧
    match o with
    | Returned (Some ord, None) =>
        ∃ row, orders w !! order_key id = Some row ∧ order_read (complete_reads H) id row ord
    | Returned (None, _) => True
    | _ => False
    end) w.
Proof.
  intros Hok. unfold OrderCache.Get. wp_call_intro r w1 H1.
  pose proof (stable_call _ _ _ _ H1 eq_refl ltac:(done)) as Hs1.
  pose proof (kv_call _ _ _ _ H1 ltac:(done)) as Hk1.
  pose proof (cache_ok_stable _ _ Hok Hk1 Hs1) as Hok1.
  destruct r as [d|e]; [|by case_bool_decide; wp_pure].
  pose proof (kv_get c (OrderCache.key id) w) as Hd. rewrite H1 in Hd.
  destruct (Hok _ _ Hd) as (id' & o & row & Hkey & _ & Hdec & Hrow & Hread).
  apply cache_key_inj in Hkey as <-.
  wp_call_intro u w2 H2.
  pose proof (stable_call _ _ _ _ H2 eq_refl ltac:(done)) as Hs2.
  pose proof (kv_call _ _ _ _ H2 ltac:(done)) as Hk2.
  pose proof (pj_unmarshal d w1 o) as Hu. rewrite H2 in Hu.
  destruct u as [o'|e]; wp_pure; (split; [by eapply stable_trans|]);
    (split; [by eapply cache_ok_stable|]); [|done].
  rewrite (Hu _ Hdec eq_refl). by exists row.
Qed.

(** Storing an order that was read from the database. *)
Lemma cache_Set_spec c id o row w :
  cache_for spelt w → spelt id → orders w !! order_key id = Some row →
  order_read (complete_reads H) id row o →
  wp H (OrderCache.Set_ c o) (λ r w', stable H w w' ∧ cache_for spelt w' ∧ ∃ e, r = Returned e) w.
Proof.
  intros Hok Hcan Hrow Hread. unfold OrderCache.Set_. wp_call_intro m w1 H1.
  pose proof (stable_call _ _ _ _ H1 eq_refl ltac:(done)) as Hs1.
  pose proof (kv_call _ _ _ _ H1 ltac:(done)) as Hk1.
  pose proof (cache_ok_stable _ _ Hok Hk1 Hs1) as Hok1.
  destruct m as [d|e]; [|wp_pure; eauto].
  pose proof (pj_marshal o w d) as Hd. rewrite H1 in Hd.
  specialize (Hd (order_read_items _ _ _ _ Hread) eq_refl).
  wp_call_intro e w2 H2.
  pose proof (stable_call _ _ _ _ H2 eq_refl ltac:(done)) as Hs2.
  split; [by eapply stable_trans|]. split; [|by eexists].
  pose proof (kv_set c (OrderCache.key (Order_Id o)) d OrderCache.orderCacheTTL w1) as Hset.
  rewrite H2 in Hset. destruct Hset as [Hset|[_ Hk2]]; [|by eapply cache_ok_stable].
  destruct (Hread) as (Hid & _). rewrite Hid in Hset.
  intros k d' Hk. eapply lookup_weaken in Hk; [|done].
  apply lookup_insert_Some in Hk as [[<- <-]|[_ Hk]].
  - exists id, o, row. split_and!; [done..| |done].
    destruct Hs1 as [Ho1 _], Hs2 as [Ho2 _]. by rewrite Ho2, Ho1.
  - destruct (Hok1 _ _ Hk) as (id' & o' & row' & ? & ? & ? & ? & ?).
    exists id', o', row'. split_and!; [done..| |done]. by destruct Hs2 as [-> _].
Qed.

(** A read through the cache answers what the table holds, whatever the spelling. *)
Lemma OrderRepository_Get_spec r c id w p :
  cell w = Some p → cache_for spelt w → spelt id →
  wp H (OrderRepository.Get r c id) (λ o w', stable H w w' ∧ cache_for spelt w' ∧
    match o with
    | Returned (Some ord, None) =>
        ∃ row, orders w !! order_key id = Some row ∧ order_read (complete_reads H) id row ord
    | Returned (None, None) => orders w !! order_key id = None
    | Returned (None, Some _) => True
    | _ => False
    end) w.
Proof.
  intros Hcell Hok Hcan. unfold OrderRepository.Get. apply wp_bind.
  eapply (wp_mono _ _ (λ o w', stable H w w' ∧ cache_for spelt w' ∧ ∃ hit, o = Returned hit ∧
    ∀ ord, hit = Some ord → ∃ row, orders w !! order_key id = Some row ∧
      order_read (complete_reads H) id row ord)).
  { destruct (OrderRepository.has_rdb r); [|by wp_pure; split_and!; [..|exists None]].
    apply wp_bind. eapply wp_mono; [by eapply cache_Get_spec|]. cbn beta.
    intros o w1 (Hs1 & Hok1 & Ho). destruct o as [[[ord|] [e|]]|]; try done; cbn beta iota.
    2, 3: by wp_pure; split_and!; [..|exists None].
    destruct Ho as (row & Hrow & Hread). go_call x w2 H2. wp_pure.
    pose proof (stable_call _ _ _ _ H2 eq_refl ltac:(done)) as Hs2.
    pose proof (kv_call _ _ _ _ H2 ltac:(done)) as Hk2.
    split; [by eapply stable_trans|]. split; [by eapply cache_ok_stable|].
    eexists; split; [done|]. intros ? [= <-]. eauto. }
  cbn beta. intros o w1 (Hs1 & Hok1 & hit & -> & Hhit). cbn beta iota.
  destruct hit as [ord|]; wp_pure; [by eauto 10|].
  eapply wp_mono; [apply wp_and; [apply (getFromDB_spec _ _ _ _ p); destruct Hs1; congruence|
    apply wp_no_set, getFromDB_no_set]|].
  cbn beta. intros o w2 [[Hs2 Ho] Hk2]. pose proof (proj1 Hs1) as Ho1.
  pose proof (cache_ok_stable _ _ Hok1 Hk2 Hs2) as Hok2.
  rewrite Ho1 in Ho.
  destruct o as [[[ord|] [e|]]|]; try done; cbn beta iota.
  2, 3: wp_pure; split; [by eapply stable_trans|done].
  destruct Ho as (row & Hrow & Hread). apply wp_bind.
  eapply (wp_mono _ _ (λ o w', stable H w w' ∧ cache_for spelt w' ∧ o = Returned tt)).
  2: { cbn beta. intros ? w3 (? & ? & ->). wp_pure. eauto 10. }
  assert (stable H w w2) as Hs by by eapply stable_trans.
  destruct (OrderRepository.has_rdb r); [|by wp_pure].
  apply wp_bind. eapply wp_mono.
  { eapply (cache_Set_spec _ id); [done..| |done]. by rewrite (proj1 Hs). }
  cbn beta. intros ? w3 (Hs3 & Hok3 & e & ->). cbn beta iota.
  destruct e as [e|].
  - go_call x w4 H4.
    pose proof (stable_call _ _ _ _ H4 eq_refl ltac:(done)) as Hs4.
    pose proof (kv_call _ _ _ _ H4 ltac:(done)) as Hk4.
    split_and!; [|by eapply cache_ok_stable|by destruct x].
    eapply stable_trans; [done|]. by eapply stable_trans.
  - wp_pure. split; [by eapply stable_trans|done].
Qed.
End Spelt.

(** Deleting a key that Redis answers for; a cancelling UPDATE that reports an
    error was not applied. *)
Definition deletes_succeed : Prop := ∀ cx k w, (H (RedisDel cx k) w).1 = None.
Definition failed_cancel_undone : Prop := ∀ p cx id w e w',
  H (PoolQueryRow p cx OrderRepository.sql_cancel_order [AString id] [KString]) w = (Fail e, w') →
  orders w' = orders w.

Lemma Cancel_cache_spec r c id w p :
  cell w = Some p → cache_ok w → order_key id = id →
  OrderRepository.has_rdb r = true → deletes_succeed → failed_cancel_undone →
  wp H (OrderRepository.Cancel r c id) (λ _ w', cache_ok w') w.
Proof.
  intros Hcell Hok Hcan Hrdb Hdel Hund. unfold OrderRepository.Cancel. rewrite Hrdb.
  change OrderRepository.getPool with read_pool.
  assert (PreOrder (λ w w' : W, stable H w w' ∧ kv w' ⊆ kv w)) as Hpre.
  { split; [by intros ?|]. intros ??? [? ?] [? ?]. split; [by eapply stable_trans|by etrans]. }
  apply (wp_with_pool H (λ w w', stable H w w' ∧ kv w' ⊆ kv w)) with (p := p); [|done|].
  { intros c' w' Hc. destruct (H c' w') as [r' w2] eqn:E.
    split; [eapply stable_call|eapply kv_call]; try done; by destruct c'. }
  intros w1 [Hs1 Hk1] _. wp_call_intro u w2 H2.
  pose proof (kv_call _ _ _ _ H2 ltac:(done)) as Hk2.
  pose proof (cell_call H _ _ _ _ H2 ltac:(done)) as Hc2.
  pose proof (cache_ok_stable _ _ _ Hok Hk1 Hs1) as Hok1.
  destruct u as [[st []]|e].
  2: { assert (cache_ok w2) as Hok2.
       { eapply cache_ok_shrink; [done..|]. by rewrite (Hund _ _ _ _ _ _ H2). }
       destruct (str_eqb_spec (Error e) "no rows in result set"); wp_pure;
         intros w3 [Hs3 Hk3] _; by eapply cache_ok_stable. }
  pose proof (orders_cancel p (OrderRepository.queryTimeout c) id w1) as Hl.
  fold OrderRepository.sql_cancel_order in Hl. rewrite H2 in Hl.
  destruct Hl as (_ & row & _ & Ho2). rewrite Hcan in Ho2.
  wp_pure. unfold OrderCache.Invalidate. wp_pure. wp_call_intro e w3 H3.
  pose proof (kv_del c (OrderCache.key id) w2) as Hl. rewrite H3 in Hl.
  pose proof (Hdel c (OrderCache.key id) w2) as He. rewrite H3 in He. cbn in He. subst e.
  specialize (Hl eq_refl). cbn in Hl.
  pose proof (stable_call _ _ _ _ H3 eq_refl ltac:(done)) as [Ho3 Hc3].
  wp_pure.
  assert (cache_ok w3) as Hok3.
  { intros k d Hk. eapply lookup_weaken in Hk; [|done].
    apply lookup_delete_Some in Hk as [Hne Hk]. eapply lookup_weaken in Hk; [|done].
    destruct (Hok1 _ _ Hk) as (id' & o & row' & -> & ? & ? & ? & ?).
    exists id', o, row'. split_and!; [done..| |done].
    rewrite Ho3, Ho2, lookup_insert_ne; [done|]. unfold canonical_id in *. congruence. }
  eapply wp_mono; [apply wp_and; [apply (getFromDB_spec _ _ _ _ p); destruct Hs1; congruence|
    apply wp_no_set, getFromDB_no_set]|].
  cbn beta. intros o w4 [[Hs4 _] Hk4] w5 [Hs5 Hk5] _.
  eapply cache_ok_stable; [| |done]; [by eapply cache_ok_stable|done].
Qed.
End Cache.
