(* ===== verification/OrderServiceProofs.v ===== *)
(** * The gRPC handlers of order-service

    Each handler refines the abstract order store on every branch; the cache
    stays coherent over any sequence of requests; and the calls a handler makes
    are constrained for every behaviour of the environment. *)
From S2P Require Import Prelude.
From S2P Require Import GoStrings.
From S2P Require Import GoFloat.
From S2P Require Import Proto.
From S2P Require Import GoRuntime.
From S2P Require Import External.
From S2P Require Import Typestate.
From S2P Require Import Grpc.
From S2P Require Import GrpcStubs.
From S2P Require Import Stores.
From S2P Require Import OrderService.
From S2P Require Import OrderProofs.
From S2P Require Import OrderCacheProofs.
Import orderv1.

(** ** Abstract specification of the handlers *)

Definition create_request_valid (req : CreateOrderRequest) : Prop :=
  TrimSpace (CreateOrderRequest_UserId req) ≠ "" ∧ CreateOrderRequest_Items req ≠ [] ∧
  Forall item_valid (CreateOrderRequest_Items req).

#[export] Instance create_request_valid_dec req : Decision (create_request_valid req).
Proof. unfold create_request_valid. apply _. Defined.

Section Posts.
Context (key : string → string) (col : columns) (complete : Prop).

Definition create_order_post (O : orders_map) (req : CreateOrderRequest)
    (o : outcome (goret CreateOrderResponse)) (O' : orders_map) : Prop :=
  let user := TrimSpace (CreateOrderRequest_UserId req) in
  let items := CreateOrderRequest_Items req in
  match o with
  | Returned (Some resp, None) =>
      create_request_valid req ∧
      ∃ its id ca, items = map Some its ∧ order_added key col O O' id user its ca ∧
        CreateOrderResponse_Order resp =
          Some (mkOrder id user items (order_total its) OrderStatus_ORDER_STATUS_PENDING
                  (Some (timestamppb_New ca)))
  | Returned (None, Some (ErrStatus InvalidArgument _)) => ¬ create_request_valid req ∧ O' = O
  | Returned (None, Some (ErrStatus NotFound m)) =>
      create_request_valid req ∧ m = "user not found" ∧ O' = O
  | Returned (None, Some (ErrStatus Internal m)) =>
      create_request_valid req ∧
      (m = "failed to verify user" ∧ O' = O ∨
       m = "failed to create order" ∧
         (O' = O ∨ ∃ its id ca, items = map Some its ∧ order_added key col O O' id user its ca))
  | Panicked _ => None ∈ items ∧ O' = O
  | _ => False
  end.

Definition get_order_post (O : orders_map) (req : GetOrderRequest)
    (o : outcome (goret GetOrderResponse)) (O' : orders_map) : Prop :=
  let id := GetOrderRequest_Id req in
  O' = O ∧
  match o with
  | Returned (Some resp, None) => id ≠ "" ∧
      ∃ row ord, O !! key id = Some row ∧ GetOrderResponse_Order resp = Some ord ∧
        order_read complete id row ord
  | Returned (None, Some (ErrStatus InvalidArgument m)) => id = "" ∧ m = "id is required"
  | Returned (None, Some (ErrStatus NotFound m)) =>
      id ≠ "" ∧ O !! key id = None ∧ m = "order not found"
  | Returned (None, Some (ErrStatus Internal m)) => id ≠ "" ∧ m = "failed to get order"
  | _ => False
  end.

Definition cancel_order_post (O : orders_map) (req : CancelOrderRequest)
    (o : outcome (goret CancelOrderResponse)) (O' : orders_map) : Prop :=
  let id := CancelOrderRequest_Id req in
  let cancelled := ∃ row, O !! key id = Some row ∧
    O' = <[key id := set_status "CANCELLED" row]> O in
  match o with
  | Returned (Some resp, None) => id ≠ "" ∧ cancelled ∧
      ∃ row ord, O' !! key id = Some row ∧ CancelOrderResponse_Order resp = Some ord ∧
        order_read complete id row ord ∧ Order_Status ord = OrderStatus_ORDER_STATUS_CANCELLED
  | Returned (None, Some (ErrStatus InvalidArgument m)) =>
      id = "" ∧ m = "id is required" ∧ O' = O
  | Returned (None, Some (ErrStatus NotFound m)) =>
      id ≠ "" ∧ O !! key id = None ∧ m = "order not found" ∧ O' = O
  | Returned (None, Some (ErrStatus Internal m)) =>
      id ≠ "" ∧ m = "failed to cancel order" ∧ (O' = O ∨ cancelled)
  | _ => False
  end.
End Posts.

(** ** The item checks

    The loop makes no calls: it accepts, rejects at the first bad item, or
    panics at the first nil one. *)
Lemma check_items_spec i items :
  (Forall item_valid items ∧
    for_range i items OrderServiceServer.check_item = Ret None) ∨
  (¬ Forall item_valid items ∧
    ((∃ m, for_range i items OrderServiceServer.check_item =
             Ret (Some (status_fail InvalidArgument m))) ∨
     None ∈ items ∧ ∃ s, for_range i items OrderServiceServer.check_item = Panic s)).
Proof.
  revert i. induction items as [|item items IH]; intros i; [by left|].
  cbn [for_range]. destruct item as [it|]; cbn.
  2: { right. split; [by intros [? _]%Forall_cons|]. right. split; [constructor|by eexists]. }
  assert (item_valid (Some it) ↔ OrderItem_ProductId it ≠ "" ∧ (0 < OrderItem_Quantity it)%Z ∧
      f64_ltb (OrderItem_UnitPrice it) f64_zero = false) as Hv by done.
  destruct (str_eqb_spec (OrderItem_ProductId it) "") as [Hp|Hp].
  { right. split; [intros [Hi _]%Forall_cons; by apply Hv in Hi as [? _]|]. left. by eexists. }
  destruct (Z.leb_spec (OrderItem_Quantity it) 0) as [Hq|Hq].
  { right. split; [intros [Hi _]%Forall_cons; apply Hv in Hi as (_ & ? & _); lia|].
    left. by eexists. }
  destruct (f64_ltb (OrderItem_UnitPrice it) f64_zero) eqn:Hf.
  { right. split; [intros [Hi _]%Forall_cons; by apply Hv in Hi as (_ & _ & ?)|].
    left. by eexists. }
  change (match @mret (prog extres) _ _ None with _ => _ end)
    with (for_range (S i) items OrderServiceServer.check_item) || idtac.
  destruct (IH (S i)) as [[Hok Hr]|[Hbad Hr]].
  - left. split; [by constructor|]. exact Hr.
  - right. split; [by intros [_ ?]%Forall_cons|].
    destruct Hr as [[m Hr]|[Hn [s Hr]]]; [left|right; split; [by constructor|]]; eauto.
Qed.

(** ** The handlers against the store *)

Section Handlers.
Context {W : Type} (H : env W) `{!RepoCell H} `{!OrderDB H}.

(** Asking user-service changes nothing here, whatever it answers. *)
Lemma UserClient_GetUser_quiet c id w :
  wp H (UserClient.GetUser c id) (λ o w', quiet H w w' ∧ ∃ r, o = Returned r) w.
Proof.
  unfold UserClient.GetUser, userv1_grpc.userServiceClient_GetUser, invoke_stub.
  wp_pure. wp_call_intro r w1 H1.
  assert (quiet H w w1) as Hq by by eapply quiet_call.
  destruct r as [out|e]; wp_pure; cbn [deref].
  - repeat wp_pure. split; [done|]. eauto.
  - destruct (status_FromError e); [case_match|]; wp_pure; (split; [done|]); eauto.
Qed.

Lemma CreateOrder_spec c req w p :
  cell w = Some p →
  wp H (OrderServiceServer.CreateOrder c req) (λ o w',
    cell w' = cell w ∧ create_order_post order_key column (orders w) req o (orders w')) w.
Proof.
  intros Hcell. unfold OrderServiceServer.CreateOrder, create_order_post.
  cbn [CreateOrderRequest_UserId CreateOrderRequest_Items].
  unfold create_request_valid. set (user := TrimSpace (CreateOrderRequest_UserId req)).
  destruct (str_eqb_spec user "") as [Hu|Hu].
  { apply wp_ret. split; [done|]. split; [|done]. by intros [? _]. }
  destruct (CreateOrderRequest_Items req) as [|item0 items0] eqn:Hi.
  { apply wp_ret. split; [done|]. split; [|done]. by intros (_ & ? & _). }
  set (items := item0 :: items0).
  destruct (check_items_spec 0 items) as [[Hok ->]|[Hbad Hr]].
  2: { destruct Hr as [[m ->]|[Hn [s ->]]].
       - wp_pure. wp_pure. split; [done|]. split; [|done]. by intros (_ & _ & ?).
       - wp_pure. by apply wp_panic. }
  wp_pure. wp_pure. wp_pure.
  eapply wp_mono; [apply UserClient_GetUser_quiet|]. cbn beta.
  intros ? w1 [(Ho1 & _ & Hc1) [[usr err] ->]]. cbn beta iota.
  destruct err as [err|].
  { apply (wp_log H). intros w2 (Ho2 & _ & Hc2). apply wp_ret.
    split; [congruence|]. split; [done|]. left. split; [done|congruence]. }
  destruct usr as [usr|].
  2: { apply wp_ret. split; [congruence|]. split_and!; [done..|congruence]. }
  wp_pure. eapply wp_mono; [apply (OrderRepository_Create_spec H _ _ _ _ p); congruence|]. cbn beta.
  intros o w2 [Hc2 Ho]. rewrite Ho1 in Ho.
  destruct o as [[[ord|] [err|]]|]; cbn beta iota in Ho |- *; try done.
  - destruct Ho as (its & id & ca & Hits & -> & Hadd). cbn [deref]. wp_pure. wp_pure.
    apply (wp_log H). intros w3 (Ho3 & _ & Hc3). apply wp_ret.
    rewrite Ho3. split; [congruence|]. split; [done|]. by exists its, id, ca.
  - apply (wp_log H). intros w3 (Ho3 & _ & Hc3). apply wp_ret.
    rewrite Ho3. split; [congruence|]. split; [done|]. right. split; [done|]. exact Ho.
  - destruct Ho as [Hn ->]. split; [congruence|done].
Qed.

Lemma CancelOrder_spec r c req w p :
  cell w = Some p →
  wp H (OrderServiceServer.CancelOrder r c req) (λ o w',
    cell w' = cell w ∧
    cancel_order_post order_key (complete_reads H) (orders w) req o (orders w')) w.
Proof.
  intros Hcell. unfold OrderServiceServer.CancelOrder, cancel_order_post.
  set (id := CancelOrderRequest_Id req).
  destruct (str_eqb_spec id "") as [Hn|Hn]; [by apply wp_ret|].
  wp_pure. eapply wp_mono; [by eapply (Cancel_db_spec H)|]. cbn beta. intros o w1 [Hc1 Ho].
  destruct o as [[[ord|] [err|]]|]; cbn beta iota in Ho |- *; try done.
  - apply (wp_log H). intros w2 (Ho2 & _ & Hc2). apply wp_ret. rewrite Ho2.
    split; [congruence|]. destruct Ho as (row & Hrow & -> & Hread).
    split; [done|]. split; [by exists row|].
    exists (set_status "CANCELLED" row), ord. rewrite lookup_insert_eq.
    split_and!; [done..|]. by destruct Hread as (_ & _ & _ & -> & _).
  - apply (wp_log H). intros w2 (Ho2 & _ & Hc2). apply wp_ret. rewrite Ho2.
    split; [congruence|]. done.
  - destruct Ho as [Ho Hl]. apply wp_ret. done.
Qed.

Context `{!OrderKV H}.

Lemma GetOrder_spec spelt r c req w p :
  cell w = Some p → cache_for H spelt w → spelt (GetOrderRequest_Id req) →
  wp H (OrderServiceServer.GetOrder r c req) (λ o w',
    cell w' = cell w ∧ cache_for H spelt w' ∧
    get_order_post order_key (complete_reads H) (orders w) req o (orders w')) w.
Proof.
  intros Hcell Hok Hcan. unfold OrderServiceServer.GetOrder, get_order_post.
  set (id := GetOrderRequest_Id req) in *.
  destruct (str_eqb_spec id "") as [Hn|Hn]; [by apply wp_ret|].
  wp_pure. eapply wp_mono; [by eapply (OrderRepository_Get_spec H)|]. cbn beta.
  intros o w1 ([Ho1 Hc1] & Hok1 & Ho).
  destruct o as [[[ord|] [err|]]|]; cbn beta iota in Ho |- *; try done.
  - apply wp_ret. split_and!; [done..|]. destruct Ho as (row & Hrow & Hread).
    by exists row, ord.
  - go_call x w2 H2.
    pose proof (stable_call H _ _ _ _ H2 eq_refl ltac:(done)) as Hs2.
    pose proof (kv_call H _ _ _ _ H2 ltac:(done)) as Hk2.
    wp_pure. destruct (Hs2) as [Ho2 Hc2].
    split; [congruence|]. split; [by eapply cache_ok_stable|]. split; [congruence|done].
Qed.

End Handlers.

(** *** When GetOrder answers Internal *)

(** A query that failed, or delivered a row that does not scan; a select of one
    row may also fail for want of it. *)
Definition read_fails (e : gevent) : Prop :=
  let '(Ev c r) := e in
  match c return extres c → Prop with
  | PoolQueryRow _ _ _ _ _ => λ r, ∃ e, r = Fail e ∧ ¬ no_rows e
  | PoolQuery _ _ _ _ _ => λ r,
      match r with Fail _ => True | Ok rs => ∃ e, Fail e ∈ rows_scans rs end
  | _ => λ _, False
  end r.

(** The error of a method of the repository is to be blamed. *)
Definition error_blamed {A} (o : outcome (A * option go_error)) (s : Prop) : Prop :=
  ∀ a e, o = Returned (a, Some e) → s.

Lemma error_blamed_mono {A} : seen_mono (A := A * option go_error) error_blamed.
Proof. intros o s s' Hs Ho a e Heq. eapply Hs, Ho, Heq. Qed.

Lemma scan_items_fail scans acc its e :
  OrderRepository.scan_items scans acc = (its, Some e) → ∃ e', Fail e' ∈ scans.
Proof.
  revert acc. induction scans as [|[(pid & pn & q & pr & [])|e'] scans IH]; intros acc; cbn; [done| |].
  - intros Hs. destruct (IH _ Hs) as [e' ?]. exists e'. by right.
  - intros _. exists e'. by left.
Qed.

Lemma getItems_blames c id s :
  obeys (seen read_fails) s (OrderRepository.getItems c id) error_blamed.
Proof.
  unfold OrderRepository.getItems. change OrderRepository.getPool with read_pool.
  apply repository_blames; [apply error_blamed_mono|done|].
  intros p [rs|e]; [|intros a e' _; by right].
  apply obeys_defer. intros [] its e [= Hs]. left. right. by eapply scan_items_fail.
Qed.

Lemma getFromDB_blames c id s :
  obeys (seen read_fails) s (OrderRepository.getFromDB c id) error_blamed.
Proof.
  unfold OrderRepository.getFromDB. change OrderRepository.getPool with read_pool.
  apply repository_blames; [apply error_blamed_mono|done|].
  intros p [(user & st & total & ca & [])|e]; cbn -[OrderRepository.getItems].
  - apply obeys_bind. eapply obeys_mono; [apply getItems_blames|]. cbn beta.
    intros [[its [e|]]|m] s' Hs; [|done..]. intros a e' _. by eapply Hs.
  - destruct (str_eqb_spec (Error e) "no rows in result set"); [done|].
    intros a e' _. right. by exists e.
Qed.

Lemma Get_blames r c id s :
  obeys (seen read_fails) s (OrderRepository.Get r c id) error_blamed.
Proof.
  unfold OrderRepository.Get. apply obeys_bind.
  apply (obeys_mono _ _ _ (λ _ s', s → s')).
  { destruct (OrderRepository.has_rdb r); [|by cbn].
    intros [d|e]; cbn; [|by case_bool_decide; cbn; auto]. intros [o|e]; cbn; auto 6. }
  intros [[o|]|m] s' Hs; [done| |done]. apply obeys_bind.
  eapply obeys_mono; [apply getFromDB_blames|]. cbn beta.
  intros [[[o|] [e|]]|m] s2 Ho; try done; try (intros a e' _; by eapply Ho).
  apply obeys_bind. apply (obeys_mono _ _ _ (λ _ _, True)); [|by intros []].
  destruct (OrderRepository.has_rdb r); [|by cbn]. by intros [d|e]; cbn; [intros [e|]|].
Qed.

Lemma GetOrder_blames r c req : blames read_fails (OrderServiceServer.GetOrder r c req).
Proof.
  unfold OrderServiceServer.GetOrder. destruct (str_eqb _ ""); [by intros [m [=]]|].
  apply obeys_bind. eapply obeys_mono; [apply Get_blames|]. cbn beta.
  intros [[[o|] [e|]]|m] s Ho; try (by intros [? [=]]);
    intros [] _; left; by eapply Ho.
Qed.

(** ** Listing *)

(** An order in a listing: its items are not loaded. *)
Definition listed (io : string * order_row) : Order :=
  mkOrder io.1 (or_user io.2) [] (or_total io.2)
    (OrderRepository.parseOrderStatus (or_status io.2))
    (Some (timestamppb_New (or_created io.2))).

(** The filter of a request: all orders when the user is empty. *)
Definition list_filter (key : string → string) (user : string) : option string :=
  if str_eqb user "" then None else Some (key user).

(** A window of [limit] entries of a listing from [offset] on. *)
Definition window {A} (limit offset : Z) (l : list A) : list A :=
  take (Z.to_nat limit) (drop (Z.to_nat offset) l).

Lemma window_bounds page size :
  let '(limit, offset) := OrderRepository.list_window page size in
  (1 ≤ limit ≤ 100)%Z ∧ is_int32 offset.
Proof.
  unfold OrderRepository.list_window. split; [|apply to_int32_range].
  destruct (Z.leb_spec size 0), (Z.ltb_spec 100 size); cbn; lia.
Qed.

Lemma scan_orders_spec scans seen acc :
  Forall2 (λ s x, s = Ok (order_scan x) ∨ ∃ e, s = Fail e) scans seen →
  OrderRepository.scan_orders scans acc = Ok (acc ++ map (Some ∘ listed) seen) ∨
  ∃ e, OrderRepository.scan_orders scans acc = Fail e.
Proof.
  intros Hs. revert acc.
  induction Hs as [|s x scans seen [->|[e ->]] Hs IH]; intros acc; cbn [OrderRepository.scan_orders].
  - left. by rewrite app_nil_r.
  - unfold order_scan. cbn beta iota.
    change (mkOrder _ _ _ _ _ _) with (listed x).
    destruct (IH (acc ++ [Some (listed x)])) as [-> | He]; [left|by right].
    by rewrite <-app_assoc.
  - eauto.
Qed.

Section Listing.
Context {W : Type} (H : env W) `{!RepoCell H} `{!OrderDB H}.

(** What [List] answers for a window: the rows of the window of one listing of
    the stored orders, all of them if no read breaks off, and their number. *)
Definition list_result (user : string) (limit offset : Z) (O : orders_map)
    (orders : list (option Order)) (total : Z) : Prop :=
  (0 ≤ offset)%Z ∧ is_int32 total ∧
  ∃ l seen rest, lists_orders (list_filter order_key user) O l ∧
    total = Z.of_nat (length l) ∧ window limit offset l = seen ++ rest ∧
    orders = map (Some ∘ listed) seen ∧ (complete_reads H → rest = []).

(** Uses in [Hl] the answer [Hc] of a call whose text is built by the code. *)
Ltac rewrite_call Hc Hl :=
  match type of Hl with
  | context [?h ?c ?w] =>
      lazymatch type of Hc with
      | _ = (?r, ?w') => change (h c w = (r, w')) in Hc; rewrite Hc in Hl; try done
      end
  end.

Lemma count_query_call p cx user w r w' :
  H (PoolQueryRow p cx (OrderRepository.count_query user).1
       (OrderRepository.count_query user).2 [KInt32]) w = (r, w') →
  orders w' = orders w ∧
  match r with
  | Ok (n, _) => is_int32 n ∧
      ∀ l, lists_orders (list_filter order_key user) (orders w) l → n = Z.of_nat (length l)
  | Fail _ => True
  end.
Proof.
  intros Hc.
  pose proof (orders_count p cx (if str_eqb user "" then None else Some user) w) as Hl.
  unfold list_filter, OrderRepository.count_query in *.
  destruct (str_eqb user ""); cbn in Hl; rewrite_call Hc Hl.
Qed.

Lemma list_query_call p cx user limit offset w r w' :
  H (PoolQuery p cx (OrderRepository.list_query user limit offset).1
       (OrderRepository.list_query user limit offset).2
       [KString; KString; KString; KFloat64; KTime]) w = (r, w') →
  orders w' = orders w ∧
  match r with
  | Ok rs => (0 ≤ offset)%Z ∧
      ∃ l, lists_orders (list_filter order_key user) (orders w) l ∧
        delivers order_scan (window limit offset l) rs
  | Fail _ => True
  end.
Proof.
  intros Hc.
  pose proof (orders_list p cx (if str_eqb user "" then None else Some user) limit offset w) as Hl.
  unfold list_filter, OrderRepository.list_query in *.
  destruct (str_eqb user ""); cbn in Hl;
    rewrite_call Hc Hl; (destruct r as [rs|]; [|done]);
    destruct Hl as (Ho & _ & ? & ?); done.
Qed.

Lemma OrderRepository_List_spec c user page size w p :
  cell w = Some p →
  wp H (OrderRepository.List_ c user page size) (λ o w', stable H w w' ∧
    let '(limit, offset) := OrderRepository.list_window page size in
    match o with
    | Returned (ords, total, None) => list_result user limit offset (orders w) ords total
    | Returned (_, _, Some _) => True
    | Panicked _ => False
    end) w.
Proof.
  intros Hcell. unfold OrderRepository.List_.
  destruct (OrderRepository.list_window page size) as [limit offset].
  destruct (OrderRepository.count_query user) as [cq ca] eqn:Hcq.
  destruct (OrderRepository.list_query user limit offset) as [lq la] eqn:Hlq.
  apply (wp_pooled H p); [done|]. intros w1 (Ho1 & _ & Hc1).
  wp_call_intro r w2 H2. pose proof (cell_call H _ _ _ _ H2 ltac:(done)) as Hc2.
  pose proof (count_query_call p (OrderRepository.queryTimeout c) user w1) as Hcount.
  rewrite Hcq in Hcount. destruct (Hcount _ _ H2) as [Ho2 Hn].
  destruct r as [[n []]|e]; wp_pure.
  2: { intros w3 (Ho3 & _ & Hc3). split; [split; congruence|done]. }
  eapply (wp_read_pool H (quiet H) (quiet_housekeeping H) p); [congruence|].
  intros w3 (Ho3 & _ & Hc3) _. cbn beta iota. wp_call_intro r w4 H4.
  pose proof (cell_call H _ _ _ _ H4 ltac:(done)) as Hc4.
  pose proof (list_query_call p (OrderRepository.queryTimeout c) user limit offset w3) as Hlist.
  rewrite Hlq in Hlist. destruct (Hlist _ _ H4) as [Ho4 Hl].
  destruct r as [rs|e]; wp_pure.
  2: { intros w5 (Ho5 & _ & Hc5). split; [split; congruence|done]. }
  destruct Hl as (Hoff & l & Hls & seen & rest & Hwin & Hcomp & Hs).
  destruct Hn as [Hi32 Hn].
  assert (orders w3 = orders w) as Ho by congruence. rewrite Ho in Hls.
  rewrite Ho1 in Hn. specialize (Hn l Hls).
  destruct (scan_orders_spec _ _ [] Hs) as [-> |[e ->]]; wp_pure; wp_call_intro u w5 H5;
    assert (quiet H w4 w5) as (Ho5 & _ & Hc5) by (by eapply quiet_call);
    intros w6 (Ho6 & _ & Hc6); (split; [split; congruence|]); [|done].
  split; [done|]. split; [done|]. exists l, seen, rest. split_and!; [done..|].
  intros Hreads. eapply Hcomp, Hreads, H4.
Qed.

Definition list_orders_post (O : orders_map) (req : ListOrdersRequest)
    (o : outcome (goret ListOrdersResponse)) (O' : orders_map) : Prop :=
  let '(page, size) := OrderServiceServer.request_page req in
  let '(limit, offset) := OrderRepository.list_window page size in
  O' = O ∧
  match o with
  | Returned (Some resp, None) => ∃ ords total,
      list_result (ListOrdersRequest_UserId req) limit offset O ords total ∧
      resp = mkListOrdersResponse ords
        (Some (commonv1.mkPaginationResponse total (mul32 page size <? total)%Z))
  | Returned (None, Some e) => e = ErrStatus Internal "failed to list orders"
  | _ => False
  end.

Lemma ListOrders_spec c req w p :
  cell w = Some p →
  wp H (OrderServiceServer.ListOrders c req) (λ o w',
    cell w' = cell w ∧ list_orders_post (orders w) req o (orders w')) w.
Proof.
  intros Hcell. unfold OrderServiceServer.ListOrders, list_orders_post.
  destruct (OrderServiceServer.request_page req) as [page size].
  pose proof (OrderRepository_List_spec c (ListOrdersRequest_UserId req) page size w p Hcell) as Hl.
  destruct (OrderRepository.list_window page size) as [limit offset].
  wp_pure. eapply wp_mono; [exact Hl|]. cbn beta.
  intros o w1 ([Ho1 Hc1] & Ho). destruct o as [[[ords total] [e|]]|]; [..|done]; cbn beta iota.
  - apply (wp_log H). intros w2 (Ho2 & _ & Hc2). apply wp_ret.
    split; [congruence|]. split; [congruence|done].
  - apply wp_ret. split_and!; [done..|]. by exists ords, total.
Qed.
End Listing.

(** *** Pages *)

(** Page [n] (from 1) of a list cut in pages of [size] entries. *)
Definition page_of {A} (n size : Z) (l : list A) : list A :=
  window size ((n - 1) * size) l.

Lemma request_page_pos req :
  let '(page, size) := OrderServiceServer.request_page req in (1 ≤ page)%Z ∧ (1 ≤ size)%Z.
Proof.
  unfold OrderServiceServer.request_page.
  destruct (ListOrdersRequest_Pagination req) as [q|]; [|lia].
  destruct (Z.ltb_spec 0 (commonv1.Pagination_Page q)), (Z.ltb_spec 0 (commonv1.Pagination_PageSize q));
    lia.
Qed.

(** Page and size of a request are honoured: the size is within the bound and
    the end of the page is an [int32]. *)
Definition page_honoured (page size : Z) : Prop :=
  (1 ≤ page)%Z ∧ (1 ≤ size ≤ 100)%Z ∧ (page * size ≤ 2147483647)%Z.

Lemma list_window_honoured page size :
  page_honoured page size → OrderRepository.list_window page size = (size, ((page - 1) * size)%Z).
Proof.
  intros (? & ? & ?). unfold OrderRepository.list_window, mul32, sub32.
  destruct (Z.leb_spec size 0), (Z.ltb_spec 100 size), (Z.ltb_spec page 1); cbn; try lia.
  rewrite (to_int32_id (page - 1)) by (unfold is_int32; nia).
  by rewrite to_int32_id by (unfold is_int32; nia).
Qed.

Lemma mul32_honoured page size : page_honoured page size → mul32 page size = (page * size)%Z.
Proof. intros (? & ? & ?). unfold mul32. rewrite to_int32_id; [done|]. unfold is_int32. nia. Qed.

Lemma has_more_spec {A} (n : Z) (l : list A) :
  (0 ≤ n)%Z → (n <? Z.of_nat (length l))%Z = bool_decide (drop (Z.to_nat n) l ≠ []).
Proof.
  intros Hn. assert (drop (Z.to_nat n) l = [] ↔ length l ≤ Z.to_nat n)%nat as Hd.
  { rewrite <-length_zero_iff_nil, length_drop. lia. }
  case_bool_decide as Hb; [apply Z.ltb_lt|apply Z.ltb_ge]; rewrite Hd in Hb; lia.
Qed.

Lemma pages_prefix {A} (k : nat) (size : Z) (l : list A) :
  (0 ≤ size)%Z →
  concat (map (λ i, page_of (Z.of_nat i) size l) (seq 1 k)) = take (k * Z.to_nat size) l.
Proof.
  intros Hs. induction k as [|k IH]; [done|].
  rewrite seq_S, map_app, concat_app, IH. cbn [map concat]. rewrite app_nil_r.
  unfold page_of, window.
  replace (Z.to_nat ((Z.of_nat (1 + k) - 1) * size)) with (k * Z.to_nat size)%nat by nia.
  rewrite <-(take_drop (k * Z.to_nat size) (take (S k * Z.to_nat size) l)).
  rewrite take_take, skipn_firstn_comm. f_equal; f_equal; nia.
Qed.

(** ** Invariants over sequences of requests *)

(** A stored order is a valid creation of which at most the status changed. *)
Definition order_row_ok (key : string → string) (col : columns) (row : order_row) : Prop :=
  ∃ user items ca s, user ≠ "" ∧ trimmed user ∧ items ≠ [] ∧
    Forall item_valid (map Some items) ∧ s ∈ ["PENDING"; "CANCELLED"] ∧
    row = set_status s (stored_order key col user items ca).

Definition orders_ok (key : string → string) (col : columns) (O : orders_map) : Prop :=
  map_Forall (λ _ row, order_row_ok key col row) O.

Lemma orders_ok_added key col O O' id req its ca :
  orders_ok key col O → create_request_valid req →
  CreateOrderRequest_Items req = map Some its →
  order_added key col O O' id (TrimSpace (CreateOrderRequest_UserId req)) its ca →
  orders_ok key col O'.
Proof.
  intros HO (Hu & Hne & Hv) Hi [_ ->]. apply map_Forall_insert_2; [|done].
  exists (TrimSpace (CreateOrderRequest_UserId req)), its, ca, "PENDING".
  rewrite Hi in Hne, Hv. split_and!; [done|apply TrimSpace_trimmed| |done|set_solver|done].
  by intros ->.
Qed.

Lemma orders_ok_cancelled key col O id row :
  orders_ok key col O → O !! id = Some row →
  orders_ok key col (<[id := set_status "CANCELLED" row]> O).
Proof.
  intros HO Hrow. apply map_Forall_insert_2; [|done].
  destruct (HO _ _ Hrow) as (user & items & ca & s & ? & ? & ? & ? & _ & ->).
  exists user, items, ca, "CANCELLED". split_and!; [done..|set_solver|done].
Qed.

Inductive order_request : Type :=
| ReqCreateOrder (r : CreateOrderRequest)
| ReqGetOrder (r : GetOrderRequest)
| ReqListOrders (r : ListOrdersRequest)
| ReqCancelOrder (r : CancelOrderRequest).

(** A request as the gRPC server runs it: the generated handler, under the two
    interceptors. *)
Definition serve_order (r : OrderRepository.OrderRepository) (c : ctx) (q : order_request) : go iret :=
  let srv := OrderServiceServer.server r in
  match q with
  | ReqCreateOrder q => orderv1_grpc.OrderService_CreateOrder_Handler srv c
      (decoded MCreateOrderRequest q) (Some server_interceptor)
  | ReqGetOrder q => orderv1_grpc.OrderService_GetOrder_Handler srv c
      (decoded MGetOrderRequest q) (Some server_interceptor)
  | ReqListOrders q => orderv1_grpc.OrderService_ListOrders_Handler srv c
      (decoded MListOrdersRequest q) (Some server_interceptor)
  | ReqCancelOrder q => orderv1_grpc.OrderService_CancelOrder_Handler srv c
      (decoded MCancelOrderRequest q) (Some server_interceptor)
  end.

Fixpoint serve_orders (r : OrderRepository.OrderRepository) (c : ctx) (qs : list order_request) :
    go unit :=
  match qs with
  | [] => mret tt
  | q :: qs => serve_order r c q ≫= λ _, serve_orders r c qs
  end.

(** The ids of a request are written the way the database prints them. *)
Definition canonical (key : string → string) (q : order_request) : Prop :=
  match q with
  | ReqGetOrder q => key (GetOrderRequest_Id q) = GetOrderRequest_Id q
  | ReqCancelOrder q => key (CancelOrderRequest_Id q) = CancelOrderRequest_Id q
  | _ => True
  end.

Section Invariant.
Context {W : Type} (H : env W) `{!RepoCell H} `{!OrderDB H} `{!OrderKV H}.

(** What holds between requests. *)
Definition service_ok (p : pool) (w : W) : Prop :=
  cell w = Some p ∧ cache_ok H w ∧ orders_ok order_key column (orders w).

Lemma service_ok_quiet p c w r w' :
  service_ok p w → H c w = (r, w') → sql_call c = false → (∀ p, c ≠ StorePool p) →
  not_redis_set c → service_ok p w'.
Proof.
  intros (Hc & Hk & Ho) E Hs Hp Hn.
  pose proof (stable_call H _ _ _ _ E Hs Hp) as Hst. pose proof (kv_call H _ _ _ _ E Hn) as Hkv.
  destruct (Hst) as [Ho' Hc']. split; [congruence|]. split; [by eapply cache_ok_stable|].
  by rewrite Ho'.
Qed.

Lemma CreateOrder_no_set c req : calls_only not_redis_set (OrderServiceServer.CreateOrder c req).
Proof.
  unfold OrderServiceServer.CreateOrder, OrderServiceServer.check_item, UserClient.GetUser,
    userv1_grpc.userServiceClient_GetUser, invoke_stub, zap_log.
  repeat calls_only_step; try done; apply Create_no_set.
Qed.

Lemma ListOrders_no_set c req : calls_only not_redis_set (OrderServiceServer.ListOrders c req).
Proof.
  unfold OrderServiceServer.ListOrders, OrderRepository.List_, OrderRepository.getPool, zap_log, ctx_cancel.
  repeat calls_only_step; done.
Qed.

Lemma CreateOrder_service c req p w :
  service_ok p w → wp H (OrderServiceServer.CreateOrder c req) (λ _ w', service_ok p w') w.
Proof.
  intros (Hc & Hk & Ho). eapply wp_mono; [apply wp_and; [by eapply CreateOrder_spec|
    apply (wp_no_set H), CreateOrder_no_set]|]. cbn beta. intros o w' [[Hc' Hpost] Hkv].
  assert (orders w' = orders w ∨ create_request_valid req ∧ ∃ its id ca,
    CreateOrderRequest_Items req = map Some its ∧
    order_added order_key column (orders w) (orders w') id
      (TrimSpace (CreateOrderRequest_UserId req)) its ca) as Hcase.
  { destruct o as [[[resp|] [[| |[] m|]|]]|]; try done; cbn in Hpost.
    - destruct Hpost as (? & its & id & ca & ? & ? & _). right. eauto 10.
    - left. apply Hpost.
    - left. apply Hpost.
    - destruct Hpost as (? & [[_ ?]|[_ [?|(its & id & ca & ? & ?)]]]); [by left|by left|].
      right. eauto 10.
    - left. apply Hpost. }
  split; [congruence|]. destruct Hcase as [Heq|(Hv & its & id & ca & Hi & Hadd)].
  - split; [|by rewrite Heq]. eapply cache_ok_shrink; [done..|]. by rewrite Heq.
  - split; [|by eapply orders_ok_added]. eapply cache_ok_shrink; [done..|].
    destruct Hadd as [Hfresh ->]. intros i row Hi'. rewrite lookup_insert_ne; [done|].
    intros <-. congruence.
Qed.

Lemma GetOrder_service r c req p w :
  service_ok p w → canonical order_key (ReqGetOrder req) →
  wp H (OrderServiceServer.GetOrder r c req) (λ _ w', service_ok p w') w.
Proof.
  intros (Hc & Hk & Ho) Hcan. eapply wp_mono; [by eapply GetOrder_spec|].
  cbn beta. intros o w' (Hc' & Hk' & Heq & _). split; [congruence|]. split; [done|]. by rewrite Heq.
Qed.

Lemma ListOrders_service c req p w :
  service_ok p w → wp H (OrderServiceServer.ListOrders c req) (λ _ w', service_ok p w') w.
Proof.
  intros (Hc & Hk & Ho). eapply wp_mono; [apply wp_and; [by eapply ListOrders_spec|
    apply (wp_no_set H), ListOrders_no_set]|]. cbn beta. intros o w' [[Hc' Hpost] Hkv].
  assert (orders w' = orders w) as Heq.
  { unfold list_orders_post in Hpost. destruct (OrderServiceServer.request_page req) as [n s].
    destruct (OrderRepository.list_window n s). apply Hpost. }
  split; [congruence|]. split; [|by rewrite Heq].
  eapply cache_ok_shrink; [done..|]. by rewrite Heq.
Qed.

Lemma CancelOrder_service r c req p w :
  service_ok p w → canonical order_key (ReqCancelOrder req) →
  OrderRepository.has_rdb r = true → deletes_succeed H → failed_cancel_undone H →
  wp H (OrderServiceServer.CancelOrder r c req) (λ _ w', service_ok p w') w.
Proof.
  intros (Hc & Hk & Ho) Hcan Hrdb Hdel Hund.
  assert (wp H (OrderServiceServer.CancelOrder r c req) (λ _ w', cache_ok H w') w) as Hcache.
  { unfold OrderServiceServer.CancelOrder. case_match; [by apply wp_ret|]. wp_pure.
    eapply wp_mono; [by eapply Cancel_cache_spec|]. cbn beta. intros o w1 Hk1.
    assert (∀ c w2 r w3, H c w2 = (r, w3) → (∃ l m fs, c = ZapLog l m fs) →
      cache_ok H w2 → cache_ok H w3) as Hlog.
    { intros c' w2 x w3 E (l & m & fs & ->) Hk2.
      eapply cache_ok_stable; [done|by eapply kv_call|by eapply stable_call]. }
    destruct o as [[[ord|] [err|]]|]; cbn beta iota;
      first [done|go_call x w2 E; wp_pure; eapply Hlog; [done|eauto|done]|by apply wp_ret]. }
  eapply wp_mono; [apply wp_and; [exact Hcache|by eapply CancelOrder_spec]|].
  cbn beta. intros o w' [Hk' [Hc' Hpost]]. split; [congruence|]. split; [done|].
  assert (orders w' = orders w ∨ ∃ row, orders w !! order_key (CancelOrderRequest_Id req) = Some row ∧
    orders w' = <[order_key (CancelOrderRequest_Id req) := set_status "CANCELLED" row]> (orders w))
    as [->|(row & Hrow & ->)]; [|done|by apply orders_ok_cancelled].
  destruct o as [[[resp|] [[| |[] m|]|]]|]; try done; cbn in Hpost.
  - right. apply Hpost.
  - left. apply Hpost.
  - left. apply Hpost.
  - apply Hpost.
Qed.

Lemma serve_order_ok r c q p w :
  service_ok p w → canonical order_key q →
  OrderRepository.has_rdb r = true → deletes_succeed H → failed_cancel_undone H →
  wp H (serve_order r c q) (λ o w', (∃ x, o = Returned x) ∧ service_ok p w') w.
Proof.
  intros Hw Hcan Hrdb Hdel Hund.
  assert (∀ (w1 w2 : W), service_ok p w1 → quiet H w1 w2 ∧ kv w2 ⊆ kv w1 → service_ok p w2) as Hq.
  { intros w1 w2 (Hc & Hk & Ho) [Hst%quiet_stable Hkv]. destruct (Hst) as [Ho' Hc'].
    split; [congruence|]. split; [by eapply cache_ok_stable|]. by rewrite Ho'. }
  assert (∀ S (fm : string) ki ko (method : S → ctx → msg ki → go (goret (msg ko))) srv req,
    (∀ w1, service_ok p w1 → wp H (method srv c req) (λ _ w', service_ok p w') w1) →
    wp H (unary_stub fm ki ko method srv c (decoded ki req) (Some server_interceptor))
      (λ o w', (∃ r, o = Returned r) ∧ service_ok p w') w) as Hrpc.
  { intros S fm ki ko method srv req Hm. eapply wp_mono;
      [eapply (wp_rpc H (λ w1 w2, quiet H w1 w2 ∧ kv w2 ⊆ kv w1)) with (Q := λ _, service_ok p)|].
    - intros c' w' Hc. destruct (H c' w') as [r' w2] eqn:E.
      split; [eapply quiet_call|eapply kv_call]; try done; by destruct c'.
    - eauto.
    - eauto.
    - cbn beta. intros o w' (o0 & -> & Hw'). eauto. }
  destruct q; apply Hrpc; cbn; intros w1 Hw1.
  - by apply CreateOrder_service.
  - by apply GetOrder_service.
  - by apply ListOrders_service.
  - by apply CancelOrder_service.
Qed.

Lemma serve_orders_ok r c qs p w :
  service_ok p w → Forall (canonical order_key) qs →
  OrderRepository.has_rdb r = true → deletes_succeed H → failed_cancel_undone H →
  wp H (serve_orders r c qs) (λ o w', o = Returned tt ∧ service_ok p w') w.
Proof.
  intros Hw Hcan Hrdb Hdel Hund. revert w Hw.
  induction Hcan as [|q qs Hq Hqs IH]; intros w Hw; cbn [serve_orders]; [by apply wp_ret|].
  wp_pure. eapply wp_mono; [by apply serve_order_ok|]. cbn beta.
  intros o w' [[x ->] Hw']. by apply IH.
Qed.
End Invariant.
