(* ===== verification/MemWorld.v ===== *)
(** * An in-memory environment

    A concrete world with both tables, open transactions, a cache, a pool
    pointer and a clock, and an environment that answers every call from it.
    It discharges the interfaces of the file Stores, so the theorems proved
    against them apply to it and can be evaluated on concrete requests.  Ids
    are compared in lower case, as UUID columns compare by value; protojson is
    a finite table of texts; a flag says whether Redis answers. *)
From S2P Require Import Prelude.
From S2P Require Import GoStrings.
From S2P Require Import GoFloat.
From S2P Require Import Proto.
From S2P Require Import GoRuntime.
From S2P Require Import External.
From S2P Require Import Stores.
From S2P Require Import UserService.
From S2P Require Import OrderService.
From stdpp Require Import sorting.
From Stdlib Require Import Ascii.

#[export] Instance OrderItem_eq_dec : EqDecision orderv1.OrderItem.
Proof. solve_decision. Defined.
#[export] Instance Order_eq_dec : EqDecision orderv1.Order.
Proof. solve_decision. Defined.

(** ** The world *)

Record mem := mkMem {
  m_pool : option pool;
  m_users : gmap string user_row;
  m_orders : orders_map;
  m_txs : gmap nat orders_map;
  m_kv : gmap string string;
  m_clock : Z;
  m_next : nat
}.

Definition with_users (U : gmap string user_row) (w : mem) : mem :=
  mkMem (m_pool w) U (m_orders w) (m_txs w) (m_kv w) (m_clock w) (m_next w).
Definition with_orders (O : orders_map) (w : mem) : mem :=
  mkMem (m_pool w) (m_users w) O (m_txs w) (m_kv w) (m_clock w) (m_next w).
Definition with_txs (T : gmap nat orders_map) (w : mem) : mem :=
  mkMem (m_pool w) (m_users w) (m_orders w) T (m_kv w) (m_clock w) (m_next w).
Definition with_kv (K : gmap string string) (w : mem) : mem :=
  mkMem (m_pool w) (m_users w) (m_orders w) (m_txs w) K (m_clock w) (m_next w).
Definition with_pool (p : option pool) (w : mem) : mem :=
  mkMem p (m_users w) (m_orders w) (m_txs w) (m_kv w) (m_clock w) (m_next w).
(** One tick: the clock and the id counter advance. *)
Definition tick (w : mem) : mem :=
  mkMem (m_pool w) (m_users w) (m_orders w) (m_txs w) (m_kv w)
    (m_clock w + 1) (S (m_next w)).

Definition lower_ascii (a : ascii) : ascii :=
  let n := Ascii.nat_of_ascii a in
  if (65 <=? n)%nat && (n <=? 90)%nat then Ascii.ascii_of_nat (n + 32) else a.
Fixpoint lower (s : string) : string :=
  match s with
  | EmptyString => EmptyString
  | String a s => String (lower_ascii a) (lower s)
  end.

Definition fresh_id (w : mem) : string := "id-" +:+ pretty (m_next w).

Definition free_email (email : string) (U : gmap string user_row) : bool :=
  bool_decide (email_free email U).

#[export] Instance email_free_dec email U : Decision (email_free email U).
Proof. unfold email_free. apply _. Defined.

(** ** Statements on users *)

Definition err_dup : go_error := ErrText "duplicate key value violates unique constraint".
(** Columns that keep every value as it is. *)
Definition exact_columns : columns := mkColumns (λ x, x) (λ _ s, s).

Definition err_no_rows : go_error := ErrText "no rows in result set".
Definition err_sql : go_error := ErrText "syntax error".

Definition q_insert_user (args : list sqlarg) (w : mem) :
    gresult (scan_row [KString; KTime; KTime]) * mem :=
  match args with
  | [AString name; AString email] =>
      let id := fresh_id w in
      if negb (free_email email (m_users w)) then (Fail err_dup, w) else
      if bool_decide (lower id = id ∧ m_users w !! id = None) then
        (Ok (id, (m_clock w, (m_clock w, tt))),
         tick (with_users (<[id := mkUserRow name email (m_clock w) (m_clock w)]> (m_users w)) w))
      else (Fail err_sql, w)
  | _ => (Fail err_sql, w)
  end.

Definition q_select_user (args : list sqlarg) (w : mem) :
    gresult (scan_row [KString; KString; KTime; KTime]) * mem :=
  match args with
  | [AString id] =>
      match m_users w !! lower id with
      | Some u => (Ok (ur_name u, (ur_email u, (ur_created u, (ur_updated u, tt)))), w)
      | None => (Fail err_no_rows, w)
      end
  | _ => (Fail err_sql, w)
  end.

(** The UPDATE of the row [id]; a field is set if its argument is given. *)
Definition q_update_user (id : string) (name email : option string) (w : mem) :
    gresult (scan_row [KString; KString; KString; KTime; KTime]) * mem :=
  let id := lower id in
  match m_users w !! id with
  | None => (Fail err_no_rows, w)
  | Some u =>
      if match email with Some e => free_email e (delete id (m_users w)) | None => true end then
        let u' := mkUserRow (default (ur_name u) name) (default (ur_email u) email)
                    (ur_created u) (m_clock w) in
        (Ok (id, (ur_name u', (ur_email u', (ur_created u', (ur_updated u', tt))))),
         tick (with_users (<[id := u']> (m_users w)) w))
      else (Fail err_dup, w)
  end.

Definition q_delete_user (id : string) (w : mem) : gresult Z * mem :=
  match m_users w !! lower id with
  | Some _ => (Ok 1%Z, with_users (delete (lower id) (m_users w)) w)
  | None => (Ok 0%Z, w)
  end.

(** ** Statements on orders *)

Definition newer (x y : string * order_row) : Prop :=
  (or_created y.2 ≤ or_created x.2)%Z.
#[export] Instance newer_dec : RelDecision newer.
Proof. intros x y. unfold newer. apply _. Defined.
#[export] Instance newer_total : Total newer.
Proof. intros x y. unfold newer. lia. Qed.
#[export] Instance newer_trans : Transitive newer.
Proof. intros x y z. unfold newer. lia. Qed.

Definition of_user (user : option string) (x : string * order_row) : Prop :=
  match user with Some u => or_user x.2 = u | None => True end.
#[export] Instance of_user_dec user x : Decision (of_user user x).
Proof. destruct user; cbn; apply _. Defined.

(** The orders of a user, newest first. *)
Definition listing (user : option string) (O : orders_map) : list (string * order_row) :=
  merge_sort newer (filter (of_user user) (map_to_list O)).

Definition q_select_order (args : list sqlarg) (w : mem) :
    gresult (scan_row [KString; KString; KFloat64; KTime]) * mem :=
  match args with
  | [AString id] =>
      match m_orders w !! lower id with
      | Some o => (Ok (or_user o, (or_status o, (or_total o, (or_created o, tt)))), w)
      | None => (Fail err_no_rows, w)
      end
  | _ => (Fail err_sql, w)
  end.

Definition q_cancel_order (args : list sqlarg) (w : mem) : gresult (scan_row [KString]) * mem :=
  match args with
  | [AString id] =>
      match m_orders w !! lower id with
      | Some o => (Ok ("CANCELLED", tt),
                   with_orders (<[lower id := set_status "CANCELLED" o]> (m_orders w)) w)
      | None => (Fail err_no_rows, w)
      end
  | _ => (Fail err_sql, w)
  end.

Definition q_count (user : option string) (w : mem) : gresult (scan_row [KInt32]) * mem :=
  let n := Z.of_nat (length (listing (lower <$> user) (m_orders w))) in
  if (n <=? 2147483647)%Z then (Ok (n, tt), w) else (Fail (ErrText "out of range"), w).

Definition q_items (args : list sqlarg) (w : mem) :
    gresult (rows [KString; KString; KInt32; KFloat64]) * mem :=
  match args with
  | [AString id] =>
      let items := match m_orders w !! lower id with Some o => or_items o | None => [] end in
      (Ok (mkRows 0 (map (Ok ∘ item_scan) items) None), w)
  | _ => (Fail err_sql, w)
  end.

Definition q_list (user : option string) (limit offset : Z) (w : mem) :
    gresult (rows [KString; KString; KString; KFloat64; KTime]) * mem :=
  if (0 <=? limit)%Z && (0 <=? offset)%Z then
    (Ok (mkRows 0 (map (Ok ∘ order_scan)
       (take (Z.to_nat limit) (drop (Z.to_nat offset) (listing (lower <$> user) (m_orders w)))))
       None), w)
  else (Fail (ErrText "must not be negative"), w).

Definition t_insert_order (t : nat) (args : list sqlarg) (w : mem) :
    gresult (scan_row [KTime]) * mem :=
  match args, m_txs w !! t with
  | [AString id; AString user; AFloat64 total], Some d =>
      if bool_decide (d !! lower id = None ∧ m_orders w !! lower id = None) then
        (Ok (m_clock w, tt),
         tick (with_txs (<[t := <[lower id :=
           mkOrderRow (lower user) "PENDING" total (m_clock w) []]> d]> (m_txs w)) w))
      else (Fail err_dup, w)
  | _, _ => (Fail err_sql, w)
  end.

Definition t_insert_item (t : nat) (args : list sqlarg) (w : mem) : option go_error * mem :=
  match args, m_txs w !! t with
  | [_; AString id; AString pid; AString pname; AInt32 q; AFloat64 price], Some d =>
      match d !! lower id with
      | Some o =>
          (None, with_txs (<[t := <[lower id := add_item (mkItemRow pid pname q price) o]> d]>
                             (m_txs w)) w)
      | None => (Some err_sql, w)
      end
  | _, _ => (Some err_sql, w)
  end.

(** ** The environment *)

Definition pool_query_row (sql : string) (args : list sqlarg) (ks : list scan_kind) (w : mem) :
    gresult (scan_row ks) * mem :=
  match ks return gresult (scan_row ks) * mem with
  | [KString; KTime; KTime] =>
      if str_eqb sql UserRepository.sql_insert_user then q_insert_user args w
      else (Fail err_sql, w)
  | [KString; KString; KTime; KTime] =>
      if str_eqb sql UserRepository.sql_select_user then q_select_user args w
      else (Fail err_sql, w)
  | [KString; KString; KString; KTime; KTime] =>
      match args with
      | [AString name; AString email; AString id] =>
          if str_eqb sql (sql_update_user true true)
          then q_update_user id (Some name) (Some email) w else (Fail err_sql, w)
      | [AString x; AString id] =>
          if str_eqb sql (sql_update_user true false) then q_update_user id (Some x) None w
          else if str_eqb sql (sql_update_user false true) then q_update_user id None (Some x) w
          else (Fail err_sql, w)
      | _ => (Fail err_sql, w)
      end
  | [KString; KString; KFloat64; KTime] =>
      if str_eqb sql OrderRepository.sql_select_order then q_select_order args w
      else (Fail err_sql, w)
  | [KString] =>
      if str_eqb sql OrderRepository.sql_cancel_order then q_cancel_order args w
      else (Fail err_sql, w)
  | [KInt32] =>
      match args with
      | [] => if str_eqb sql "SELECT COUNT(*) FROM orders" then q_count None w
              else (Fail err_sql, w)
      | [AString u] =>
          if str_eqb sql "SELECT COUNT(*) FROM orders WHERE user_id = $1" then q_count (Some u) w
          else (Fail err_sql, w)
      | _ => (Fail err_sql, w)
      end
  | _ => (Fail err_sql, w)
  end.

Definition pool_query (sql : string) (args : list sqlarg) (ks : list scan_kind) (w : mem) :
    gresult (rows ks) * mem :=
  match ks return gresult (rows ks) * mem with
  | [KString; KString; KInt32; KFloat64] =>
      if str_eqb sql OrderRepository.sql_select_items then q_items args w else (Fail err_sql, w)
  | [KString; KString; KString; KFloat64; KTime] =>
      match args with
      | [AInt32 limit; AInt32 offset] => q_list None limit offset w
      | [AString u; AInt32 limit; AInt32 offset] => q_list (Some u) limit offset w
      | _ => (Fail err_sql, w)
      end
  | _ => (Fail err_sql, w)
  end.

Definition tx_query_row (t : nat) (sql : string) (args : list sqlarg) (ks : list scan_kind)
    (w : mem) : gresult (scan_row ks) * mem :=
  match ks return gresult (scan_row ks) * mem with
  | [KTime] =>
      if str_eqb sql OrderRepository.sql_insert_order then t_insert_order t args w
      else (Fail err_sql, w)
  | _ => (Fail err_sql, w)
  end.

(** user-service, seen by its client. *)
Definition invoke (method : string) (ki ko : mkind) (i : msg ki) (w : mem) : gresult (msg ko) :=
  match ki, ko return msg ki → gresult (msg ko) with
  | MGetUserRequest, MGetUserResponse => λ i,
      let id := userv1.GetUserRequest_Id i in
      match m_users w !! lower id with
      | Some u => Ok (userv1.mkGetUserResponse (Some (userv1.mkUser id (ur_name u) (ur_email u)
          (Some (timestamppb_New (ur_created u))) (Some (timestamppb_New (ur_updated u))))))
      | None => Fail (ErrStatus NotFound "user not found")
      end
  | _, _ => λ _, Fail (ErrStatus Unimplemented "unknown method")
  end i.

Definition redis_down : go_error := ErrText "connection refused".

Section Env.
(** The texts protojson gives some orders. *)
Context (codec : list (string * orderv1.Order)).

Fixpoint text_of (o : orderv1.Order) (l : list (string * orderv1.Order)) : option string :=
  match l with
  | [] => None
  | (d, o') :: l => if bool_decide (o = o') then Some d else text_of o l
  end.
Fixpoint order_of (d : string) (l : list (string * orderv1.Order)) : option orderv1.Order :=
  match l with
  | [] => None
  | (d', o) :: l => if str_eqb d d' then Some o else order_of d l
  end.

(** Whether Redis answers. *)
Context (redis_up : bool).

Definition mem_env : env mem := λ c w,
  match c return extres c * mem with
  | MuRLock | MuRUnlock | MuLock | MuUnlock => (tt, w)
  | LoadPool => (m_pool w, w)
  | StorePool p => (tt, with_pool p w)
  | CtxCancel _ | RowsClose _ | PoolClose _ | ZapLog _ _ _ | SetServingStatus _ _
  | GrpcNewServer _ | GrpcRegister _ | GrpcGracefulStop | VaultSetToken _ | ZapSync
  | OtelSetTracerProvider | OtelSetTextMapPropagator | OtelSetMeterProvider | PromHandlerFor | StdLog _ | GoSpawn _
  | BodyClose | FmtPrintf _ _ | ChanMake _ | ChanSend _ _ _ | ChanClose | WgAdd | WgDone | WgWait | GoLoad _ => (tt, w)
  | ChanRecv => (None, w)
  | HttpGet u => (default_answer (HttpGet u), w)
  | FlagInt _ v | FlagDuration _ v => (v, w)
  | FlagString _ v => (v, w)
  | FlagFloat64 _ v => (v, w)
  | RandIntn _ => (0%Z, w)
  | RandFloat64 => (f64_zero, w)
  | LoadStats i a => (default_answer (LoadStats i a), w)
  | ConnClose _ | PgxParseConfig _ | RedisParseURL _ | RedisPing _ | RedisClose | ZapBuild _
  | OtelResourceNew _ | OtelTraceExporterNew _ | OtelPromExporterNew
  | TracerShutdown _ | MeterShutdown _ | NetListen _ | HttpShutdown _
  | HttpListenAndServe _ | GrpcServe => (None, w)
  | VaultNewClient _ => (Ok 0, w)
  | PgxNewWithConfig _ _ => (Ok (Pool (m_next w)), w)
  | ZapLevelUnmarshal _ => (Ok Info_, w)
  | TimeParseDuration _ => (Fail (ErrText "invalid duration"), w)
  | WaitSignalOrDone _ => (Some "terminated", w)
  | PoolBegin _ _ => (Ok (Txn (m_next w)), tick (with_txs (<[m_next w := ∅]> (m_txs w)) w))
  | PoolQueryRow _ _ sql args ks => pool_query_row sql args ks w
  | PoolQuery _ _ sql args ks => pool_query sql args ks w
  | PoolExec _ _ sql args =>
      match args with
      | [AString id] => if str_eqb sql UserRepository.sql_delete_user then q_delete_user id w
                        else (Fail err_sql, w)
      | _ => (Fail err_sql, w)
      end
  | PoolPing _ _ => (None, w)
  | TxQueryRow (Txn t) _ sql args ks => tx_query_row t sql args ks w
  | TxExec (Txn t) _ sql args =>
      if str_eqb sql OrderRepository.sql_insert_item then t_insert_item t args w
      else (Some err_sql, w)
  | TxCommit (Txn t) _ =>
      match m_txs w !! t with
      | Some d =>
          if bool_decide (map_Forall (λ id _, m_orders w !! id = None) d)
          then (None, with_txs (delete t (m_txs w)) (with_orders (d ∪ m_orders w) w))
          else (Some err_dup, with_txs (delete t (m_txs w)) w)
      | None => (Some (ErrText "tx is closed"), w)
      end
  | TxRollback (Txn t) _ =>
      match m_txs w !! t with
      | Some _ => (None, with_txs (delete t (m_txs w)) w)
      | None => (Some (ErrText "tx is closed"), w)
      end
  | RedisGet _ k =>
      if redis_up then
        match m_kv w !! k with Some d => (Ok d, w) | None => (Fail ErrRedisNil, w) end
      else (Fail redis_down, w)
  | RedisSet _ k d _ =>
      if redis_up then (None, with_kv (<[k := d]> (m_kv w)) w) else (Some redis_down, w)
  | RedisDel _ k =>
      if redis_up then (None, with_kv (delete k (m_kv w)) w) else (Some redis_down, w)
  | PjMarshal o =>
      match text_of o codec with
      | Some d => (if bool_decide (order_of d codec = Some o) then Ok d else Fail err_sql, w)
      | None => (Fail (ErrText "cannot marshal"), w)
      end
  | PjUnmarshal d =>
      match order_of d codec with Some o => (Ok o, w) | None => (Fail (ErrText "invalid"), w) end
  | LisAddr => ("127.0.0.1:50051", w)
  | UuidNew => (fresh_id w, tick w)
  | GrpcInvoke _ m ki ko i => (invoke m ki ko i w, w)
  | GrpcDial _ _ => (Ok 0, w)
  | TimeNow => (m_clock w, w)
  | SelectDoneOrAfter _ _ | SelectDoneOrTick _ _ => (true, w)
  | VaultRead _ _ => (Ok None, w)
  | VaultRenew _ _ _ => (Some (ErrText "permission denied"), w)
  | OsGetenv _ => ("", w)
  | OsReadFile _ => (Fail (ErrText "no such file or directory"), w)
  | LoadX509KeyPair _ _ => (Fail (ErrText "no such file or directory"), w)
  | AppendCertsFromPEM _ => (false, w)
  end.
End Env.

(** ** The interfaces hold *)

(** Splits every case distinction a call makes. *)
Ltac mem_cases :=
  repeat (cbn; try case_match; simplify_eq; try done).

Lemma lists_listing user O : lists_orders user O (listing user O).
Proof.
  unfold listing. split_and!.
  - rewrite merge_sort_Permutation.
    eapply sublist_NoDup; [apply (NoDup_fst_map_to_list O)|].
    apply fmap_sublist, sublist_filter.
  - intros id o. rewrite merge_sort_Permutation, list_elem_of_filter, elem_of_map_to_list.
    destruct user as [u|]; cbn.
    + split; [intros [<- ?]; split; [done|]; by intros ? [= <-]|]. intros [? Hu]. auto.
    + split; [by intros [_ ?]|]. by intros [? _].
  - apply StronglySorted_merge_sort; apply _.
Qed.

Lemma lists_orders_length user O l l' :
  lists_orders user O l → lists_orders user O l' → length l = length l'.
Proof.
  intros (Hd & Hin & _) (Hd' & Hin' & _). apply Permutation_length, NoDup_Permutation.
  - by eapply NoDup_fmap_1.
  - by eapply NoDup_fmap_1.
  - intros [id o]. by rewrite Hin, Hin'.
Qed.

Lemma delivers_all {X ks} (f : X → scan_row ks) n xs :
  delivers f xs (mkRows n (map (Ok ∘ f) xs) None).
Proof.
  exists xs, []. split_and!; [by rewrite app_nil_r|done|]. cbn.
  induction xs; constructor; auto.
Qed.

Section Instances.
Context (codec : list (string * orderv1.Order)) (redis_up : bool).
Abbreviation H := (mem_env codec redis_up).

(** Only three kinds of call write each part of the world. *)
Lemma mem_pool_frame c w : (∀ p, c ≠ StorePool p) → m_pool (H c w).2 = m_pool w.
Proof.
  intros Hc. destruct c; cbn; try done; try by (repeat case_match).
  - by edestruct Hc.
  - unfold pool_query_row, q_insert_user, q_select_user, q_update_user, q_select_order,
      q_cancel_order, q_count. mem_cases.
  - unfold pool_query, q_items, q_list. mem_cases.
  - unfold q_delete_user. mem_cases.
  - unfold tx_query_row, t_insert_order. mem_cases.
  - unfold t_insert_item. mem_cases.
Qed.
#[export] Instance mem_cell : RepoCell H.
Proof. refine {| cell := m_pool |}; [done..|]. apply mem_pool_frame. Defined.

Lemma mem_frame c w : sql_call c = false →
  m_users (H c w).2 = m_users w ∧ m_orders (H c w).2 = m_orders w ∧ m_txs (H c w).2 = m_txs w.
Proof. intros Hc. destruct c; try done; cbn; by repeat case_match. Qed.

Lemma mem_kv_frame c w : (∀ cx k d t, c ≠ RedisSet cx k d t) → m_kv (H c w).2 ⊆ m_kv w.
Proof.
  intros Hc. destruct c; cbn; try done; try by (repeat case_match).
  - unfold pool_query_row, q_insert_user, q_select_user, q_update_user, q_select_order,
      q_cancel_order, q_count. mem_cases.
  - unfold pool_query, q_items, q_list. mem_cases.
  - unfold q_delete_user. mem_cases.
  - unfold tx_query_row, t_insert_order. mem_cases.
  - unfold t_insert_item. mem_cases.
  - by edestruct Hc.
  - case_match; [|done]. cbn. apply delete_subseteq.
Qed.

#[export] Program Instance mem_users_db : UserDB H := {| users := m_users; user_key := lower |}.
Next Obligation. intros c w Hc. by apply mem_frame. Qed.
Next Obligation. done. Qed.
Next Obligation.
  intros p cx name email w. cbn. unfold q_insert_user, free_email.
  case_bool_decide as Hf; cbn; [case_bool_decide as Hi; cbn|].
  - by destruct Hi.
  - split; [done|]. by left.
  - split; [done|]. by left.
Qed.
Next Obligation.
  intros p cx id w. cbn. destruct (m_users w !! lower id) as [[]|] eqn:E; cbn;
    by split.
Qed.
Next Obligation.
  intros p cx id name email ns es w Hset.
  assert (H (PoolQueryRow p cx (sql_update_user ns es)
      ((if ns then [AString name] else []) ++ (if es then [AString email] else []) ++ [AString id])
      [KString; KString; KString; KTime; KTime]) w =
    q_update_user id (if ns then Some name else None) (if es then Some email else None) w) as ->.
  { by destruct ns, es. }
  unfold q_update_user. destruct (m_users w !! lower id) as [u|] eqn:E.
  2: { split_and!; [done| |by left]. done. }
  assert (match (if es then Some email else None) with
          | Some e => free_email e (delete (lower id) (m_users w)) | None => true end = true
      ↔ email_ok (lower id) email es (m_users w)) as Hok.
  { unfold email_ok, free_email. destruct es; [|by split].
    rewrite bool_decide_eq_true. split; [by intros ??|]. intros Hf. by apply Hf. }
  destruct (match (if es then Some email else None) with
          | Some e => free_email e (delete (lower id) (m_users w)) | None => true end).
  - split; [done|]. split; [by apply Hok|]. exists u. split; [done|]. split; [|done].
    by destruct ns, es.
  - split; [done|]. split; [|by left]. split; [done|]. intros ?%Hok. done.
Qed.
Next Obligation.
  intros p cx id w. cbn. unfold q_delete_user.
  destruct (m_users w !! lower id) eqn:E; cbn; [done|].
  by rewrite delete_id.
Qed.

Definition mem_tx (w : mem) (t : txn) : option orders_map :=
  match t with Txn n => m_txs w !! n end.
Definition mem_view (w : mem) (t : txn) : option orders_map := (.∪ m_orders w) <$> mem_tx w t.

Lemma mem_view_Some w n v : mem_view w (Txn n) = Some v →
  ∃ d, m_txs w !! n = Some d ∧ v = d ∪ m_orders w.
Proof. unfold mem_view. cbn. intros (d & Hd & ->)%fmap_Some. by exists d. Qed.

#[export] Program Instance mem_orders_db : OrderDB H := {|
  orders := m_orders; tx_view := mem_view;
  order_key := lower; column := exact_columns |}.
Next Obligation. done. Qed.
Next Obligation.
  intros c w Hc. destruct (mem_frame c w Hc) as (_ & Ho & Ht). split; [done|].
  unfold mem_view, mem_tx. by rewrite Ho, Ht.
Qed.
Next Obligation. done. Qed.
Next Obligation.
  intros p cx w. cbn. split; [done|]. unfold mem_view, mem_tx. cbn.
  by rewrite lookup_insert_eq; cbn; rewrite (left_id_L ∅ (∪)).
Qed.
Next Obligation.
  intros [t] cx id user total w v Hv. apply mem_view_Some in Hv as (d & Hd & ->).
  cbn. unfold t_insert_order. rewrite Hd. case_bool_decide as Hf; cbn; [|done]. destruct Hf as [Hf1 Hf2].
  split; [done|]. split; [by apply lookup_union_None|].
  unfold mem_view. cbn. rewrite lookup_insert_eq. cbn. by rewrite insert_union_l.
Qed.
Next Obligation.
  intros [t] cx iid id pid pname q price w v Hv. apply mem_view_Some in Hv as (d & Hd & ->).
  cbn. unfold t_insert_item. rewrite Hd. destruct (d !! lower id) as [o|] eqn:Ho; cbn; [|done].
  split; [done|]. exists o. split; [by apply lookup_union_Some_l|].
  unfold mem_view. cbn. rewrite lookup_insert_eq. cbn. by rewrite insert_union_l.
Qed.
Next Obligation.
  intros [t] cx w v Hv. apply mem_view_Some in Hv as (d & Hd & ->). cbn. rewrite Hd.
  case_bool_decide; cbn; [done|by left].
Qed.
Next Obligation. intros [t] cx w. cbn. by destruct (m_txs w !! t). Qed.
Next Obligation.
  intros p cx id w. cbn. destruct (m_orders w !! lower id) as [o|] eqn:E; cbn.
  - split; [done|]. eauto.
  - split; [done|]. by left.
Qed.
Next Obligation.
  intros p cx id w. cbn. destruct (m_orders w !! lower id) as [[]|] eqn:E; cbn;
    (split; [done|]); [by eexists|done].
Qed.
Next Obligation.
  intros p cx id w. cbn. split; [done|]. eexists. split; [exact (delivers_all (ks := [KString; KString; KInt32; KFloat64]) item_scan 0 _)|done].
Qed.
Next Obligation.
  intros p cx user w.
  assert (match user with
    | Some u => H (PoolQueryRow p cx "SELECT COUNT(*) FROM orders WHERE user_id = $1"
                     [AString u] [KInt32]) w
    | None => H (PoolQueryRow p cx "SELECT COUNT(*) FROM orders" [] [KInt32]) w
    end = q_count user w) as -> by by destruct user.
  unfold q_count. destruct (Z.leb_spec
    (Z.of_nat (length (listing (lower <$> user) (m_orders w)))) 2147483647); [|done].
  split; [done|]. split; [unfold is_int32; lia|]. intros l Hl. f_equal.
  eapply lists_orders_length; [apply lists_listing|done].
Qed.
Next Obligation.
  intros p cx user limit offset w.
  match goal with |- let '(_, _) := ?x in _ =>
    assert (x = q_list user limit offset w) as -> by by destruct user end.
  unfold q_list.
  destruct (Z.leb_spec 0 limit), (Z.leb_spec 0 offset); cbn [andb]; try done.
  split; [done|]. split_and!; [done..|]. eexists. split; [apply lists_listing|].
  exact (delivers_all (ks := [KString; KString; KString; KFloat64; KTime]) order_scan 0 _).
Qed.

(** Every call moves the counter of handles forward. *)
Lemma mem_next_mono c w : m_next w ≤ m_next (H c w).2.
Proof.
  destruct c; cbn; try done; try by (repeat case_match); try (cbn; lia).
  - unfold pool_query_row, q_insert_user, q_select_user, q_update_user, q_select_order,
      q_cancel_order, q_count. mem_cases; lia.
  - unfold pool_query, q_items, q_list. mem_cases.
  - unfold q_delete_user. mem_cases.
  - unfold tx_query_row, t_insert_order. mem_cases; lia.
  - unfold t_insert_item. mem_cases.
Qed.

Lemma mem_txs_frame c w : tx_call c = false → m_txs (H c w).2 = m_txs w.
Proof.
  intros Hc. destruct c; try done; cbn; try by (repeat case_match).
  - unfold pool_query_row, q_insert_user, q_select_user, q_update_user, q_select_order,
      q_cancel_order, q_count. mem_cases.
  - unfold pool_query, q_items, q_list. mem_cases.
  - unfold q_delete_user. mem_cases.
Qed.

#[export] Program Instance mem_orders_tx : OrderTx H := {|
  tx_new := mem_tx; tx_allocated w t := match t with Txn n => n < m_next w end |}.
Next Obligation. intros c w Hc. unfold mem_tx. by rewrite mem_txs_frame. Qed.
Next Obligation. intros c w [n] Hn. cbn in *. pose proof (mem_next_mono c w). lia. Qed.
Next Obligation.
  intros c t [n'] w Ht Hne. destruct c; try done; cbn in Ht; injection Ht as ->;
    destruct t as [n]; assert (n ≠ n') as Hn by congruence; cbn.
  - unfold tx_query_row, t_insert_order. mem_cases. by rewrite lookup_insert_ne.
  - unfold t_insert_item. mem_cases. by rewrite lookup_insert_ne.
  - mem_cases; by rewrite lookup_delete_ne.
  - mem_cases; by rewrite lookup_delete_ne.
Qed.
Next Obligation.
  intros p cx w. cbn. split; [lia|]. split; [lia|].
  split; [by rewrite lookup_insert_eq|].
  intros [n'] Hne. unfold mem_tx. cbn. rewrite lookup_insert_ne; [done|]. congruence.
Qed.
Next Obligation.
  intros [t] cx id user total w d Hd. cbn in *. unfold t_insert_order. rewrite Hd.
  case_bool_decide as Hf; cbn; [|done]. destruct Hf. split_and!; [done..|].
  unfold mem_tx. cbn. by rewrite lookup_insert_eq.
Qed.
Next Obligation.
  intros [t] cx iid id pid pname q price w d Hd. cbn in *. unfold t_insert_item. rewrite Hd.
  destruct (d !! lower id) as [o|]; cbn; [|done]. split; [done|]. intros ? [= <-].
  unfold mem_tx. cbn. by rewrite lookup_insert_eq.
Qed.
Next Obligation.
  intros [t] cx w d Hd. cbn in *. rewrite Hd. case_bool_decide as Hf; cbn; [|by left].
  split; [|done]. apply map_disjoint_spec. intros id x y Hx Hy.
  pose proof (map_Forall_lookup_1 _ _ _ _ Hf Hx). congruence.
Qed.

#[export] Program Instance mem_order_kv : OrderKV H := {|
  kv := m_kv; decodes d o := order_of d codec = Some o |}.
Next Obligation. cbn. intros. congruence. Qed.
Next Obligation. intros c w Hc. by apply mem_kv_frame. Qed.
Next Obligation.
  intros cx k w. cbn. destruct redis_up; [|done]. by destruct (m_kv w !! k) eqn:E.
Qed.
Next Obligation.
  intros cx k d t w. cbn. destruct redis_up; cbn; [by left|by right].
Qed.
Next Obligation. intros cx k w. cbn. by destruct redis_up. Qed.
Next Obligation.
  intros o w d _. cbn. destruct (text_of o codec); [|done]. by case_bool_decide; intros [= <-].
Qed.
Next Obligation.
  intros d w o o' Hd. cbn. rewrite Hd. by intros [= <-].
Qed.

(** With Redis up, the conditions of the invariant of order-service hold. *)
Lemma mem_failed_cancel p cx id w e w' :
  H (PoolQueryRow p cx OrderRepository.sql_cancel_order [AString id] [KString]) w = (Fail e, w') →
  m_orders w' = m_orders w.
Proof. cbn. destruct (m_orders w !! lower id); intros [=]; by subst. Qed.
End Instances.

(** An empty world with a pool. *)
Definition mem0 : mem := mkMem (Some (Pool 0)) ∅ ∅ ∅ ∅ 100 0.
