(* ===== verification/UserTheorems.v ===== *)
(** * Properties of user-service

    The claims about the handlers of user-service, each with a run on the
    in-memory environment that meets its hypotheses. *)
From S2P Require Import Prelude.
From S2P Require Import GoStrings.
From S2P Require Import Proto.
From S2P Require Import GoRuntime.
From S2P Require Import External.
From S2P Require Import Typestate.
From S2P Require Import Stores.
From S2P Require Import UserService.
From S2P Require Import UserProofs.
From S2P Require Import MemWorld.
Import userv1.

Section Claims.
Context {W : Type} (H : env W) `{!RepoCell H} `{!UserDB H}.

(** C1: CreateUser implements "add a user" on the users table, on every branch: a success
    means the trimmed name and email are valid, exactly one row was added under a fresh
    id with an email no other row had, and the response is that row; InvalidArgument is
    returned exactly for an invalid name or email and changes nothing; AlreadyExists
    changes nothing and some row has the email; on Internal, which is answered only if
    the database failed the statement with an error that does not report a duplicate,
    the table is unchanged or has the row; no panic. *)
Theorem CreateUser_refines c req w p o w' :
  cell w = Some p → run H (UserServiceServer.CreateUser c req) w = (o, w') →
  cell w' = Some p ∧ create_user_post user_key (users w) req o (users w') ∧
  (internal o → Exists (fails_with (λ e, ¬ says_duplicate e)) (trace H (UserServiceServer.CreateUser c req) w)).
Proof.
  intros Hcell Hr. pose proof (wp_run H _ _ _ _ _ (CreateUser_spec H c req w p Hcell) Hr) as [Hc Hp].
  split_and!; [by rewrite Hc|exact Hp|]. by eapply run_blames; [apply CreateUser_blames|].
Qed.

(** C24: GetUser never writes; it returns the row of the requested id, NotFound only when no
    row has it, InvalidArgument exactly for an empty id, and Internal only if the
    database failed the SELECT with an error other than the one for no rows, so a SELECT
    that reports no rows is answered NotFound. *)
Theorem GetUser_refines c req w p o w' :
  cell w = Some p → run H (UserServiceServer.GetUser c req) w = (o, w') →
  cell w' = Some p ∧ get_user_post user_key (users w) req o (users w') ∧
  (internal o → Exists (fails_with (λ e, ¬ no_rows e)) (trace H (UserServiceServer.GetUser c req) w)).
Proof.
  intros Hcell Hr. pose proof (wp_run H _ _ _ _ _ (GetUser_spec H c req w p Hcell) Hr) as [Hc Hp].
  split_and!; [by rewrite Hc|exact Hp|]. by eapply run_blames; [apply GetUser_blames|].
Qed.


(** C25: DeleteUser removes exactly the row of the requested id and says so, answers
    NotFound without a change when the DELETE found none, InvalidArgument for an empty
    id, and Internal only if the database failed the DELETE, with the row removed or
    not. *)
Theorem DeleteUser_refines c req w p o w' :
  cell w = Some p → run H (UserServiceServer.DeleteUser c req) w = (o, w') →
  cell w' = Some p ∧ delete_user_post user_key (users w) req o (users w') ∧
  (internal o → Exists (fails_with (λ _, True)) (trace H (UserServiceServer.DeleteUser c req) w)).
Proof.
  intros Hcell Hr. pose proof (wp_run H _ _ _ _ _ (DeleteUser_spec H c req w p Hcell) Hr) as [Hc Hp].
  split_and!; [by rewrite Hc|exact Hp|]. by eapply run_blames; [apply DeleteUser_blames|].
Qed.

(** C16: Serving any list of user-service requests one after the other, through the
    generated handlers and both interceptors, terminates normally and preserves the
    directory invariant (trimmed valid names and emails, unique emails) and the pool. *)
Theorem directory_invariant c rs w p o w' :
  cell w = Some p → directory_ok (users w) → run H (serve_users c rs) w = (o, w') →
  o = Returned tt ∧ cell w' = Some p ∧ directory_ok (users w').
Proof.
  intros Hcell Hd Hr. exact (wp_run H _ _ _ _ _ (serve_users_ok H c rs w p (conj Hcell Hd)) Hr).
Qed.

(** After a successful CreateUser, GetUser of the returned id returns exactly the user
    CreateUser returned, or Internal if the database fails, and changes nothing. *)
Theorem create_get_roundtrip c req w p w1 resp user :
  cell w = Some p →
  run H (UserServiceServer.CreateUser c req) w = (Returned (Some resp, None), w1) →
  CreateUserResponse_User resp = Some user →
  ∃ g w2, run H (UserServiceServer.GetUser c (mkGetUserRequest (User_Id user))) w1 =
      (Returned g, w2) ∧ users w2 = users w1 ∧
    (g = (Some (mkGetUserResponse (Some user)), None) ∨
     g = status_fail Internal "failed to get user").
Proof.
  intros Hcell Hc Hu.
  pose proof (wp_run H _ _ _ _ _ (CreateUser_spec H c req w p Hcell) Hc) as [Hc1 Hpost].
  destruct Hpost as (_ & _ & id & row & Hr & Hne & Hkey & _ & _ & _ & _ & Hu1).
  rewrite Hu in Hr. injection Hr as ->.
  destruct (run H (UserServiceServer.GetUser c (mkGetUserRequest id)) w1) as [o w2] eqn:Hg.
  rewrite Hcell in Hc1.
  pose proof (wp_run H _ _ _ _ _ (GetUser_spec H c _ w1 p Hc1) Hg) as [_ [Hu2 Hpost]].
  cbn in Hpost |- *. rewrite Hg.
  destruct o as [g|]; [|done]. exists g, w2. split; [done|]. split; [done|].
  destruct g as [[gr|] [[| |[] m|]|]]; try done.
  - destruct Hpost as (_ & u & Hl & Hgu). destruct gr; cbn in Hgu. subst. rewrite Hkey, Hu1, lookup_insert_eq in Hl.
    injection Hl as <-. by left.
  - by destruct Hpost as [? _].
  - destruct Hpost as (_ & Hl & _). by rewrite Hkey, Hu1, lookup_insert_eq in Hl.
  - destruct Hpost as [_ ->]. auto.
Qed.
End Claims.

(** ** Runs *)

Definition alice : CreateUserRequest := mkCreateUserRequest " Alice " "alice@example.com".
Definition alice_row : user_row := mkUserRow "Alice" "alice@example.com" 100 100.
Definition mem_alice : mem := Eval vm_compute in
  (run (mem_env [] true) (UserServiceServer.CreateUser CtxRequest alice) mem0).2.
Definition rename_alice : UpdateUserRequest :=
  mkUpdateUserRequest "ID-0" (Some (mkUser "" "Alicia" "" None None)) (Some (mkFieldMask ["name"])).

Lemma CreateUser_refines_witness :
  run (mem_env [] true) (UserServiceServer.CreateUser CtxRequest alice) mem0 =
    (Returned (Some (mkCreateUserResponse (Some (user_of_row "id-0" alice_row))), None), mem_alice) ∧
  create_user_post lower (m_users mem0) alice
    (Returned (Some (mkCreateUserResponse (Some (user_of_row "id-0" alice_row))), None))
    (m_users mem_alice).
Proof.
  assert (Hr : run (mem_env [] true) (UserServiceServer.CreateUser CtxRequest alice) mem0 =
    (Returned (Some (mkCreateUserResponse (Some (user_of_row "id-0" alice_row))), None), mem_alice))
    by (vm_compute; reflexivity).
  split; [exact Hr|].
  exact (proj1 (proj2 (CreateUser_refines (mem_env [] true) CtxRequest alice mem0 (Pool 0) _ _ eq_refl Hr))).
Defined.

Lemma GetUser_refines_witness :
  get_user_post lower (m_users mem_alice) (mkGetUserRequest "ID-0")
    (Returned (Some (mkGetUserResponse (Some (user_of_row "ID-0" alice_row))), None))
    (m_users mem_alice).
Proof.
  assert (Hr : run (mem_env [] true) (UserServiceServer.GetUser CtxRequest (mkGetUserRequest "ID-0"))
    mem_alice = (Returned (Some (mkGetUserResponse (Some (user_of_row "ID-0" alice_row))), None),
      mem_alice)) by (vm_compute; reflexivity).
  exact (proj1 (proj2 (GetUser_refines (mem_env [] true) CtxRequest (mkGetUserRequest "ID-0")
    mem_alice (Pool 0) _ _ eq_refl Hr))).
Defined.

Definition mem_alicia : mem := Eval vm_compute in
  (run (mem_env [] true) (UserServiceServer.UpdateUser CtxRequest rename_alice) mem_alice).2.
Definition alicia_row : user_row := mkUserRow "Alicia" "alice@example.com" 100 101.
Definition alicia_renamed : outcome (goret UpdateUserResponse) :=
  Returned (Some (mkUpdateUserResponse (Some (user_of_row "id-0" alicia_row))), None).


Definition user_deleted : outcome (goret DeleteUserResponse) :=
  Returned (Some (mkDeleteUserResponse "user deleted"), None).
Definition mem_deleted : mem := Eval vm_compute in
  (run (mem_env [] true) (UserServiceServer.DeleteUser CtxRequest (mkDeleteUserRequest "id-0"))
     mem_alice).2.

Lemma DeleteUser_refines_witness :
  delete_user_post lower (m_users mem_alice) (mkDeleteUserRequest "id-0") user_deleted
    (m_users mem_deleted).
Proof.
  assert (Hr : run (mem_env [] true) (UserServiceServer.DeleteUser CtxRequest
      (mkDeleteUserRequest "id-0")) mem_alice = (user_deleted, mem_deleted))
    by (vm_compute; reflexivity).
  exact (proj1 (proj2 (DeleteUser_refines (mem_env [] true) CtxRequest (mkDeleteUserRequest "id-0")
    mem_alice (Pool 0) _ _ eq_refl Hr))).
Defined.

(** A second user with the same email is refused, the rename is applied. *)
Definition alice_requests : list user_request :=
  [ReqCreateUser alice; ReqCreateUser alice; ReqUpdateUser rename_alice].

Lemma directory_invariant_witness :
  directory_ok (m_users mem_alicia) ∧ m_users mem_alicia !! "id-0" = Some alicia_row.
Proof.
  assert (Hr : run (mem_env [] true) (serve_users CtxRequest alice_requests) mem0 =
    (Returned tt, mem_alicia)) by (vm_compute; reflexivity).
  split; [|vm_compute; reflexivity].
  refine (proj2 (proj2 (directory_invariant (mem_env [] true) CtxRequest alice_requests mem0 (Pool 0)
    _ _ eq_refl _ Hr))).
  split; [apply map_Forall_empty|]. intros i j u v Hi.
  exfalso. exact (lookup_empty_Some i u Hi).
Defined.

Lemma create_get_roundtrip_witness :
  ∃ g w2, run (mem_env [] true) (UserServiceServer.GetUser CtxRequest (mkGetUserRequest "id-0"))
      mem_alice = (Returned g, w2) ∧
    g = (Some (mkGetUserResponse (Some (user_of_row "id-0" alice_row))), None).
Proof.
  destruct (create_get_roundtrip (mem_env [] true) CtxRequest alice mem0 (Pool 0) mem_alice
    (mkCreateUserResponse (Some (user_of_row "id-0" alice_row))) (user_of_row "id-0" alice_row))
    as (g & w2 & Hr & _ & Hg); [reflexivity|vm_compute; reflexivity|reflexivity|].
  exists g, w2. split; [exact Hr|].
  destruct Hg as [Hg|Hg]; [exact Hg|]. exfalso. revert Hr. rewrite Hg. vm_compute. discriminate.
Defined.
