(* ===== verification/OrderTheorems.v ===== *)
(** * Properties of order-service

    The claims about the handlers of order-service, each with a run on the
    in-memory environment that meets its hypotheses. *)
From S2P Require Import Prelude.
From S2P Require Import GoStrings.
From S2P Require Import GoFloat.
From S2P Require Import Proto.
From S2P Require Import GoRuntime.
From S2P Require Import External.
From S2P Require Import Typestate.
From S2P Require Import Grpc.
From S2P Require Import GrpcStubs.
From S2P Require Import Stores.
From S2P Require Import UserService.
From S2P Require Import OrderService.
From S2P Require Import OrderProofs.
From S2P Require Import OrderCacheProofs.
From S2P Require Import OrderServiceProofs.
From S2P Require Import MemWorld.
Import orderv1.

(** ** Lemmas *)

(** A call that reaches the database. *)
Definition store_event (e : gevent) : Prop := let '(Ev c _) := e in sql_call c = true.

Lemma UserClient_GetUser_exec c id tr o :
  exec (UserClient.GetUser c id) tr o →
  ∃ r, tr = [Ev (GrpcInvoke c userv1_grpc.UserService_GetUser_FullMethodName
                   MGetUserRequest MGetUserResponse (userv1.mkGetUserRequest id)) r] ∧
    match o with
    | Returned (Some user, None) => ∃ resp, r = Ok resp ∧
        userv1.GetUserResponse_User resp = Some user
    | Returned (None, _) => True
    | _ => False
    end.
Proof.
  unfold UserClient.GetUser, userv1_grpc.userServiceClient_GetUser, invoke_stub. cbn.
  intros (r & tr' & -> & He). exists r.
  destruct r as [resp|e]; cbn in He.
  - destruct He as [-> ->]. split; [done|].
    destruct (userv1.GetUserResponse_User resp) eqn:E; [by exists resp|done].
  - destruct (status_FromError e); [case_match|]; destruct He as [-> ->]; done.
Qed.

Lemma log_exec l m fs {A} (k : go A) tr o :
  exec (zap_log l m fs ≫= λ _, k) tr o →
  ∃ r tr', tr = Ev (ZapLog l m fs) r :: tr' ∧ exec k tr' o.
Proof. done. Qed.

Lemma f64_add_nan_l y : f64_is_nan (f64_add f64_nan y) = true.
Proof. done. Qed.

Lemma f64_add_nan x y : f64_nonneg x = true → f64_is_nan y = true → f64_is_nan (f64_add x y) = true.
Proof. by destruct x, y. Qed.

Lemma f64_nonneg_not_nan x : f64_nonneg x = true → f64_is_nan x = false.
Proof. by destruct x. Qed.

Lemma line_total_sign it :
  item_valid (Some it) → is_int32 (OrderItem_Quantity it) →
  f64_is_nan (line_total it) = f64_is_nan (OrderItem_UnitPrice it) ∧
  (f64_is_nan (OrderItem_UnitPrice it) = false → f64_nonneg (line_total it) = true).
Proof.
  intros (_ & Hq & Hp) Hi. unfold is_int32 in Hi.
  assert (f64_pos_fin (f64_of_int (OrderItem_Quantity it)) = true) as Hf
    by (apply f64_of_int_pos_fin; lia).
  unfold line_total. split; [by apply f64_mul_nan|]. intros Hn. apply f64_mul_nonneg; [done|].
  rewrite f64_ltb_zero, Hn, orb_false_r in Hp. by apply negb_false_iff in Hp.
Qed.

Lemma running_total_nan items :
  fold_left (λ t it, f64_add t (line_total it)) items f64_nan = f64_nan.
Proof. by induction items. Qed.

Lemma running_total_sign items t :
  f64_nonneg t = true →
  Forall item_valid (map Some items) → Forall (λ it, is_int32 (OrderItem_Quantity it)) items →
  let t' := fold_left (λ t it, f64_add t (line_total it)) items t in
  f64_is_nan t' = existsb (λ it, f64_is_nan (OrderItem_UnitPrice it)) items ∧
  (f64_is_nan t' = false → f64_nonneg t' = true).
Proof.
  revert t. induction items as [|it items IH]; intros t Ht Hv Hi; cbn.
  { split; [by apply f64_nonneg_not_nan|done]. }
  apply Forall_cons in Hv as [Hv Hvs]. apply Forall_cons in Hi as [Hi His].
  destruct (line_total_sign it Hv Hi) as [Hn Hpos].
  destruct (f64_is_nan (OrderItem_UnitPrice it)) eqn:E; cbn.
  - rewrite <-Hn in E. assert (f64_add t (line_total it) = f64_nan) as ->.
    { pose proof (f64_add_nan t (line_total it) Ht) as Ha. rewrite Hn in Ha. specialize (Ha eq_refl).
      by destruct (f64_add t (line_total it)). }
    by rewrite running_total_nan.
  - apply IH; [|done..]. apply f64_add_nonneg; auto.
Qed.

(** ** Claims for every behaviour of the environment *)

(** C23: If an execution of CreateOrder reaches the database at all, the request had passed
    all validation and the first call of the execution was user-service GetUser for the
    trimmed user id, answered with a user. *)
Theorem CreateOrder_verifies_first c req tr o :
  exec (OrderServiceServer.CreateOrder c req) tr o → Exists store_event tr →
  create_request_valid req ∧
  ∃ resp user rest,
    tr = Ev (GrpcInvoke c userv1_grpc.UserService_GetUser_FullMethodName MGetUserRequest
               MGetUserResponse (userv1.mkGetUserRequest (TrimSpace (CreateOrderRequest_UserId req))))
           (Ok resp) :: rest ∧
    userv1.GetUserResponse_User resp = Some user.
Proof.
  intros He Hst. unfold OrderServiceServer.CreateOrder in He.
  cbn [CreateOrderRequest_UserId CreateOrderRequest_Items] in He.
  unfold create_request_valid. set (user := TrimSpace (CreateOrderRequest_UserId req)) in *.
  destruct (str_eqb_spec user "") as [Hu|Hu].
  { destruct He as [-> _]. by apply Exists_nil in Hst. }
  destruct (CreateOrderRequest_Items req) as [|item0 items0].
  { destruct He as [-> _]. by apply Exists_nil in Hst. }
  destruct (check_items_spec 0 (item0 :: items0)) as [[Hok Hr]|[_ [[m Hr]|[_ [s Hr]]]]];
    rewrite Hr in He.
  2, 3: destruct He as [-> _]; by apply Exists_nil in Hst.
  split; [done|].
  apply exec_bind in He as [(tr0 & bad & tr1 & -> & [-> [= ->]] & He)|(s & [_ ?] & _)]; [|done].
  cbn [app] in *. cbn beta iota in He. apply exec_bind in He as
    [(tr2 & [usr err] & tr3 & -> & Hg & He)|(s & Hg & ->)];
    apply UserClient_GetUser_exec in Hg as (r & -> & Hg); [|done].
  assert (∀ l m fs (r : goret CreateOrderResponse) tr' o',
    exec (zap_log l m fs ≫= λ _, mret r) tr' o' → Exists store_event tr' → False) as Hlog.
  { intros l m fs r' tr' o' (x & tr'' & -> & -> & _) Hx. apply Exists_cons in Hx as [Hx|Hx]; [done|].
    by apply Exists_nil in Hx. }
  apply Exists_cons in Hst as [?|Hst]; [done|].
  destruct err as [err|]; [by destruct usr; eapply Hlog in He|].
  destruct usr as [usr|]; [|destruct He as [-> _]; by apply Exists_nil in Hst].
  destruct Hg as (resp & -> & Hg). by exists resp, usr, tr3.
Qed.

(** C36: The total of valid items with int32 quantities is computed in binary64 without a
    panic, is NaN exactly when some unit price is NaN, and is otherwise not negative
    (possibly infinite). *)
Theorem order_total_sign items :
  Forall item_valid (map Some items) → Forall (λ it, is_int32 (OrderItem_Quantity it)) items →
  ∃ total, OrderRepository.sum_total (map Some items) f64_zero = Ret total ∧
    f64_is_nan total = existsb (λ it, f64_is_nan (OrderItem_UnitPrice it)) items ∧
    (f64_is_nan total = false → f64_nonneg total = true ∧ f64_ltb total f64_zero = false).
Proof.
  intros Hv Hi. exists (order_total items). split; [apply sum_total_spec|].
  destruct (running_total_sign items f64_zero eq_refl Hv Hi) as [Hn Hp].
  split; [done|]. intros Ht. specialize (Hp Ht). split; [done|].
  unfold order_total. by rewrite f64_ltb_zero, Hp.
Qed.

(** The LIMIT/OFFSET windows of pages 1 to k of a size of 1 to 100 are, concatenated,
    exactly the first k*size elements of the listing: no element is skipped or repeated,
    as long as k*size is an int32. *)
Theorem list_windows_cover {A} (size : Z) (k : nat) (l : list A) :
  (1 ≤ size ≤ 100)%Z → (Z.of_nat k * size ≤ 2147483647)%Z →
  concat (map (λ n, let '(limit, offset) := OrderRepository.list_window (Z.of_nat n) size in
                    window limit offset l) (seq 1 k)) = take (k * Z.to_nat size) l.
Proof.
  intros Hs Hk. rewrite <-pages_prefix by lia. f_equal. apply map_ext_in. intros n Hn%in_seq.
  rewrite list_window_honoured; [done|]. unfold page_honoured. nia.
Qed.

(** parseOrderStatus maps each of the five status texts of the database to the enum
    value the generated name and value tables give ORDER_STATUS_<text>, and every other
    text to UNSPECIFIED. *)
Theorem parseOrderStatus_inverse s z :
  OrderRepository.parseOrderStatus s = z →
  (s ∈ ["PENDING"; "CONFIRMED"; "SHIPPED"; "DELIVERED"; "CANCELLED"] →
     (z, "ORDER_STATUS_" +:+ s) ∈ OrderStatus_name ∧ ("ORDER_STATUS_" +:+ s, z) ∈ OrderStatus_value) ∧
  (s ∉ ["PENDING"; "CONFIRMED"; "SHIPPED"; "DELIVERED"; "CANCELLED"] →
     z = OrderStatus_ORDER_STATUS_UNSPECIFIED).
Proof.
  intros <-. split.
  - rewrite !elem_of_cons, elem_of_nil. intros [->|[->|[->|[->|[->|[]]]]]];
      split; repeat first [by left|right].
  - rewrite !not_elem_of_cons. intros (? & ? & ? & ? & ? & _).
    unfold OrderRepository.parseOrderStatus. by do 5 (case_match; [by str_cases|]).
Qed.

(** ** Claims against the stores *)

Section Claims.
Context {W : Type} (H : env W) `{!RepoCell H} `{!OrderDB H}.

(** C2: CreateOrder implements "add an order" on the orders tables: a success means the
    request is valid and exactly one PENDING order with all its items was committed
    under a fresh id, the response being that order with its computed total; any failed
    step (validation, unknown user, begin, insert, commit) leaves the tables as they
    were, or, when the answer to the commit was lost, with the whole order; a panic
    happens only for a nil item and changes nothing. *)
Theorem CreateOrder_refines c req w p o w' :
  cell w = Some p → run H (OrderServiceServer.CreateOrder c req) w = (o, w') →
  cell w' = Some p ∧ create_order_post order_key column (orders w) req o (orders w').
Proof.
  intros Hcell Hr. rewrite <-Hcell.
  exact (wp_run H _ _ _ _ _ (CreateOrder_spec H c req w p Hcell) Hr).
Qed.

(** C4: CancelOrder sets the status of exactly the named order to CANCELLED and nothing
    else, whatever its status was, and a success returns that order, read back with its
    items, as CANCELLED; NotFound means there is no such order and nothing changed;
    InvalidArgument is the empty id; on Internal the update was made or not. *)
Theorem CancelOrder_refines r c req w p o w' :
  cell w = Some p → run H (OrderServiceServer.CancelOrder r c req) w = (o, w') →
  cell w' = Some p ∧
  cancel_order_post order_key (complete_reads H) (orders w) req o (orders w').
Proof.
  intros Hcell Hr. rewrite <-Hcell.
  exact (wp_run H _ _ _ _ _ (CancelOrder_spec H r c req w p Hcell) Hr).
Qed.

(** Cancelling an order that was just cancelled changes no table. *)
Theorem CancelOrder_idempotent r c req w p resp w1 :
  cell w = Some p →
  run H (OrderServiceServer.CancelOrder r c req) w = (Returned (Some resp, None), w1) →
  ∃ g w2, run H (OrderServiceServer.CancelOrder r c req) w1 = (Returned g, w2) ∧
    orders w2 = orders w1 ∧
    (g = status_fail Internal "failed to cancel order" ∨
     ∃ resp' ord, g = (Some resp', None) ∧ CancelOrderResponse_Order resp' = Some ord ∧
       Order_Status ord = OrderStatus_ORDER_STATUS_CANCELLED).
Proof.
  intros Hcell Hr1.
  destruct (wp_run H _ _ _ _ _ (CancelOrder_spec H r c req w p Hcell) Hr1) as [Hc1 Hp1].
  destruct (run H (OrderServiceServer.CancelOrder r c req) w1) as [o w2] eqn:Hr2.
  rewrite Hcell in Hc1.
  destruct (wp_run H _ _ _ _ _ (CancelOrder_spec H r c req w1 p Hc1) Hr2) as [_ Hp2].
  destruct Hp1 as (Hid & (row & Hrow & Ho1) & _).
  set (id := CancelOrderRequest_Id req) in *.
  assert (orders w1 !! order_key id = Some (set_status "CANCELLED" row)) as Hl
    by by rewrite Ho1, lookup_insert_eq.
  assert (∀ O' : orders_map, (∃ row', orders w1 !! order_key id = Some row' ∧
    O' = <[order_key id := set_status "CANCELLED" row']> (orders w1)) → O' = orders w1) as Hsame.
  { intros O' (row' & Hrow' & ->). rewrite Hl in Hrow'. injection Hrow' as <-. by apply insert_id. }
  destruct o as [[[r2|] [[| |[] m|]|]]|]; try done; cbn in Hp2; fold id in Hp2;
    eexists _, w2; (split; [done|]).
  - destruct Hp2 as (_ & Hc & row' & ord & _ & Hord & _ & Hst).
    split; [by apply Hsame|]. right. by exists r2, ord.
  - by destruct Hp2 as [? _].
  - destruct Hp2 as (_ & Hn & _). congruence.
  - destruct Hp2 as (_ & -> & Hc). split; [|by left]. destruct Hc as [?|?]; [done|by apply Hsame].
Qed.

(** C15: For a page the int32 arithmetic can represent and a page size of 1 to 100,
    ListOrders returns exactly that page of the (optionally user-filtered) orders,
    newest first, up to a row at which the driver stopped early, with the total count
    and with hasMore true exactly when orders remain after the page; it writes nothing,
    and any failure is Internal. *)
Theorem ListOrders_pages c req w p page size o w' :
  cell w = Some p → OrderServiceServer.request_page req = (page, size) → page_honoured page size →
  run H (OrderServiceServer.ListOrders c req) w = (o, w') →
  orders w' = orders w ∧
  match o with
  | Returned (Some resp, None) =>
      ∃ l seen rest, lists_orders (list_filter order_key (ListOrdersRequest_UserId req)) (orders w) l ∧
        page_of page size l = seen ++ rest ∧ (complete_reads H → rest = []) ∧
        ListOrdersResponse_Orders resp = map (Some ∘ listed) seen ∧
        ListOrdersResponse_Pagination resp =
          Some (commonv1.mkPaginationResponse (Z.of_nat (length l))
                  (bool_decide (drop (Z.to_nat (page * size)) l ≠ [])))
  | Returned (None, Some e) => e = ErrStatus Internal "failed to list orders"
  | _ => False
  end.
Proof.
  intros Hcell Hreq Hh Hr.
  destruct (wp_run H _ _ _ _ _ (ListOrders_spec H c req w p Hcell) Hr) as [_ Hpost].
  unfold list_orders_post in Hpost. rewrite Hreq, list_window_honoured in Hpost by done.
  destruct Hpost as [Ho Hpost]. split; [done|].
  destruct o as [[[resp|] [e|]]|]; try done.
  destruct Hpost as (ords & total & (_ & _ & l & seen & rest & Hl & -> & Hwin & -> & Hcomp) & ->).
  exists l, seen, rest. split_and!; [done..|]. cbn. do 2 f_equal.
  rewrite mul32_honoured by done. apply has_more_spec. unfold page_honoured in Hh. nia.
Qed.

(** C35: A first page of more than 100 is answered with at most 20 orders, but hasMore is
    still computed from the requested size: with 21 to pageSize orders stored it is
    false although the page does not hold them all. *)
Theorem ListOrders_oversized_page c req w p size resp w' :
  cell w = Some p → OrderServiceServer.request_page req = (1%Z, size) →
  (100 < size ≤ 2147483647)%Z →
  run H (OrderServiceServer.ListOrders c req) w = (Returned (Some resp, None), w') →
  ∃ l, lists_orders (list_filter order_key (ListOrdersRequest_UserId req)) (orders w) l ∧
    length (ListOrdersResponse_Orders resp) ≤ 20 ∧
    commonv1.PaginationResponse_GetTotalCount (ListOrdersResponse_Pagination resp) =
      Z.of_nat (length l) ∧
    (20 < Z.of_nat (length l) ≤ size →
     commonv1.PaginationResponse_GetHasMore (ListOrdersResponse_Pagination resp) = false)%Z.
Proof.
  intros Hcell Hreq Hs Hr.
  destruct (wp_run H _ _ _ _ _ (ListOrders_spec H c req w p Hcell) Hr) as [_ Hpost].
  unfold list_orders_post in Hpost. rewrite Hreq in Hpost.
  assert (OrderRepository.list_window 1 size = (20, 0)%Z) as Hw.
  { unfold OrderRepository.list_window. destruct (Z.leb_spec size 0), (Z.ltb_spec 100 size); try lia.
    done. }
  rewrite Hw in Hpost. destruct Hpost as [_ Hpost].
  destruct Hpost as (ords & total & (_ & _ & l & seen & rest & Hl & -> & Hwin & -> & _) & ->).
  exists l. split; [done|]. cbn. split.
  - rewrite length_map. apply (f_equal length) in Hwin. unfold window in Hwin.
    rewrite length_app, length_take in Hwin. lia.
  - split; [done|]. intros Hlen. apply Z.ltb_ge. unfold mul32. rewrite to_int32_id by (unfold is_int32; lia). lia.
Qed.

Context `{!OrderKV H}.

(** C13: With a cache that agrees with the database, GetOrder of any spelling of an id
    returns the stored order, under that spelling, whether it is served from Redis or
    from PostgreSQL, NotFound only if there is no such order, and Internal only if a
    query failed, other than for want of rows, or a row did not scan; it changes no
    table and leaves a cache that still agrees with the database, also when Redis or the
    encoding fails. If moreover only canonical spellings of ids are cached and the
    requested id is canonical, only canonical ones are cached afterwards, which the
    invalidation by CancelOrder relies on. *)
Theorem GetOrder_refines r c req w p o w' :
  cell w = Some p → cache_agrees H w →
  run H (OrderServiceServer.GetOrder r c req) w = (o, w') →
  cell w' = Some p ∧ cache_agrees H w' ∧
  (cache_ok H w → canonical_id H (GetOrderRequest_Id req) → cache_ok H w') ∧
  get_order_post order_key (complete_reads H) (orders w) req o (orders w') ∧
  (internal o → Exists read_fails (trace H (OrderServiceServer.GetOrder r c req) w)).
Proof.
  intros Hcell Hag Hr. rewrite <-Hcell.
  pose proof (λ spelt Hok Hid, wp_run H _ _ _ _ _ (GetOrder_spec H spelt r c req w p Hcell Hok Hid) Hr) as Hspec.
  destruct (Hspec _ Hag I) as (Hc & Hag' & Hpost). split_and!; [done..| |done|].
  - intros Hok Hid. by destruct (Hspec _ Hok Hid) as (_ & ? & _).
  - by eapply run_blames; [apply GetOrder_blames|].
Qed.

(** C5: Any sequence of requests served one after the other through the generated method
    handlers and both interceptors (panics included) keeps the service state well
    formed: every stored order has a non-empty trimmed user, at least one item, only
    valid items and the status PENDING or CANCELLED, and every cache entry is what a
    database read of that order reports; each call returns. Requires that ids are given
    in canonical form, cache deletions succeed and a failed UPDATE changed nothing. *)
Theorem order_service_invariant r c qs w p o w' :
  service_ok H p w → Forall (canonical order_key) qs →
  OrderRepository.has_rdb r = true → deletes_succeed H → failed_cancel_undone H →
  run H (serve_orders r c qs) w = (o, w') →
  o = Returned tt ∧ service_ok H p w'.
Proof.
  intros Hw Hcan Hrdb Hdel Hund Hr.
  exact (wp_run H _ _ _ _ _ (serve_orders_ok H r c qs p w Hw Hcan Hrdb Hdel Hund) Hr).
Qed.

(** C26: After a successful CreateOrder in a well-formed state, GetOrder of the returned id
    returns an order with the same id, status and creation time, the canonical user id,
    the stored total and, when the result set is read to its end, the same items up to
    order, with texts and prices as their columns keep them (a text that fits its
    VARCHAR is unchanged); or Internal. *)
Theorem create_get_order r c req w p resp ord w1 :
  service_ok H p w →
  run H (OrderServiceServer.CreateOrder c req) w = (Returned (Some resp, None), w1) →
  CreateOrderResponse_Order resp = Some ord →
  order_key (Order_Id ord) = Order_Id ord → Order_Id ord ≠ "" →
  ∃ g w2, run H (OrderServiceServer.GetOrder r c (mkGetOrderRequest (Order_Id ord))) w1 =
      (Returned g, w2) ∧
    (g = status_fail Internal "failed to get order" ∨
     ∃ resp' ord', g = (Some resp', None) ∧ GetOrderResponse_Order resp' = Some ord' ∧
       Order_Id ord' = Order_Id ord ∧ Order_UserId ord' = order_key (Order_UserId ord) ∧
       Order_Total ord' = c_numeric column (Order_Total ord) ∧ Order_Status ord' = Order_Status ord ∧
       Order_CreatedAt ord' = Order_CreatedAt ord ∧
       (complete_reads H → Order_Items ord' ≡ₚ
          map (option_map (λ it, mkOrderItem (c_varchar column 100 (OrderItem_ProductId it))
                 (c_varchar column 255 (OrderItem_ProductName it)) (OrderItem_Quantity it)
                 (c_numeric column (OrderItem_UnitPrice it)))) (Order_Items ord))).
Proof.
  intros Hw Hc Hord Hcan Hne. pose proof (proj1 Hw) as Hcell.
  destruct (wp_run H _ _ _ _ _ (CreateOrder_spec H c req w p Hcell) Hc) as [_ Hp1].
  destruct (wp_run H _ _ _ _ _ (CreateOrder_service H c req p w Hw) Hc) as (Hc1 & Hk1 & _).
  destruct Hp1 as (_ & its & id & ca & Hits & (_ & Ho1) & Hr). rewrite Hord in Hr.
  injection Hr as ->. cbn in Hcan, Hne |- *.
  destruct (run H (OrderServiceServer.GetOrder r c (mkGetOrderRequest id)) w1) as [o w2] eqn:Hr2.
  destruct (wp_run H _ _ _ _ _ (GetOrder_spec H (canonical_id H) r c (mkGetOrderRequest id) w1 p Hc1 Hk1 Hcan) Hr2) as (_ & _ & _ & Hp2).
  cbn in Hp2. rewrite Hcan in Ho1, Hp2.
  destruct o as [[[r2|] [[| |[] m|]|]]|]; try done; eexists _, w2; (split; [done|]).
  - right. destruct Hp2 as (_ & row & ord' & Hrow & Ho & Hid & Hu & Ht & Hs & Hca & Hi).
    rewrite Ho1, lookup_insert_eq in Hrow. injection Hrow as <-.
    exists r2, ord'. split_and!; try done. intros Hcomp.
    destruct Hi as (l & rest & -> & Hperm & Hrest). rewrite (Hrest Hcomp), app_nil_r in Hperm.
    rewrite Hits, map_map. cbn in Hperm. rewrite Hperm, map_map. done.
  - by destruct Hp2 as [? _].
  - destruct Hp2 as (_ & Hl & _). by rewrite Ho1, lookup_insert_eq in Hl.
  - left. by destruct Hp2 as [_ ->].
Qed.
End Claims.

(** ** Runs *)

Definition price : float64 := Eval vm_compute in f64_of_int 10.
Definition total : float64 := Eval vm_compute in f64_of_int 20.
Definition item : OrderItem := mkOrderItem "sku-1" "Widget" 2 price.
Definition mem_user : mem :=
  with_users (<["u-1" := mkUserRow "Alice" "alice@example.com" 1 1]> ∅) mem0.
Definition repo : OrderRepository.OrderRepository := OrderRepository.mkOrderRepository true.

(** The order created first, and the text protojson gives it. *)
Definition first_order (st : OrderStatus) : Order :=
  mkOrder "id-1" "u-1" [Some item] total st (Some (timestamppb_New 102)).
Definition texts : list (string * Order) :=
  [("{pending}", first_order OrderStatus_ORDER_STATUS_PENDING);
   ("{cancelled}", first_order OrderStatus_ORDER_STATUS_CANCELLED)].
Abbreviation E := (mem_env texts true).

Definition create_req : CreateOrderRequest := mkCreateOrderRequest " U-1 " [Some item].
Definition created : outcome (goret CreateOrderResponse) :=
  Returned (Some (mkCreateOrderResponse (Some
    (mkOrder "id-1" "U-1" [Some item] total OrderStatus_ORDER_STATUS_PENDING
       (Some (timestamppb_New 102))))), None).
Definition mem_created : mem := Eval vm_compute in
  (run E (OrderServiceServer.CreateOrder CtxRequest create_req) mem_user).2.
Definition mem_got : mem := Eval vm_compute in
  (run E (OrderServiceServer.GetOrder repo CtxRequest (mkGetOrderRequest "id-1")) mem_created).2.
Definition cancelled : outcome (goret CancelOrderResponse) :=
  Returned (Some (mkCancelOrderResponse (Some (first_order OrderStatus_ORDER_STATUS_CANCELLED))),
    None).
Definition mem_cancelled : mem := Eval vm_compute in
  (run E (OrderServiceServer.CancelOrder repo CtxRequest (mkCancelOrderRequest "id-1")) mem_got).2.

Lemma CreateOrder_refines_witness :
  create_order_post lower exact_columns (m_orders mem_user) create_req created (m_orders mem_created).
Proof.
  assert (Hr : run E (OrderServiceServer.CreateOrder CtxRequest create_req) mem_user =
    (created, mem_created)) by (vm_compute; reflexivity).
  exact (proj2 (CreateOrder_refines E CtxRequest create_req mem_user (Pool 0) _ _ eq_refl Hr)).
Defined.

(** The order was read and cached before it is cancelled. *)
Lemma CancelOrder_refines_witness :
  m_kv mem_got !! "order:id-1" = Some "{pending}" ∧ m_kv mem_cancelled !! "order:id-1" = None ∧
  cancel_order_post lower (complete_reads E) (m_orders mem_got) (mkCancelOrderRequest "id-1")
    cancelled (m_orders mem_cancelled).
Proof.
  assert (Hr : run E (OrderServiceServer.CancelOrder repo CtxRequest (mkCancelOrderRequest "id-1"))
    mem_got = (cancelled, mem_cancelled)) by (vm_compute; reflexivity).
  split; [vm_compute; reflexivity|]. split; [vm_compute; reflexivity|].
  assert (Hc : cell (H := E) mem_got = Some (Pool 0)) by reflexivity.
  exact (proj2 (CancelOrder_refines E repo CtxRequest (mkCancelOrderRequest "id-1") mem_got
    (Pool 0) _ _ Hc Hr)).
Defined.

Lemma CancelOrder_idempotent_witness :
  ∃ g w2, run E (OrderServiceServer.CancelOrder repo CtxRequest (mkCancelOrderRequest "id-1"))
      mem_cancelled = (Returned g, w2) ∧ m_orders w2 = m_orders mem_cancelled.
Proof.
  assert (Hr : run E (OrderServiceServer.CancelOrder repo CtxRequest (mkCancelOrderRequest "id-1"))
    mem_got = (cancelled, mem_cancelled)) by (vm_compute; reflexivity).
  assert (Hc : cell (H := E) mem_got = Some (Pool 0)) by reflexivity.
  destruct (CancelOrder_idempotent E repo CtxRequest (mkCancelOrderRequest "id-1") mem_got (Pool 0)
    _ _ Hc Hr) as (g & w2 & Hr2 & Ho & _).
  exists g, w2. split; [exact Hr2|exact Ho].
Defined.

(** A second page of one order when three are stored. *)
Definition mem_three : mem := Eval vm_compute in
  (run E (_ ← OrderServiceServer.CreateOrder CtxRequest create_req;
          _ ← OrderServiceServer.CreateOrder CtxRequest create_req;
          OrderServiceServer.CreateOrder CtxRequest create_req) mem_user).2.
Definition list_req (page size : Z) : ListOrdersRequest :=
  mkListOrdersRequest "" (Some (commonv1.mkPagination page size)).
Definition list_response (page size : Z) : outcome (goret ListOrdersResponse) :=
  (run E (OrderServiceServer.ListOrders CtxRequest (list_req page size)) mem_three).1.
Definition page_two : outcome (goret ListOrdersResponse) := Eval vm_compute in list_response 2 1.

Lemma ListOrders_pages_witness :
  match page_two with
  | Returned (Some resp, None) =>
      ∃ l seen rest, lists_orders None (m_orders mem_three) l ∧
        page_of 2 1 l = seen ++ rest ∧
        ListOrdersResponse_Orders resp = map (Some ∘ listed) seen ∧
        ListOrdersResponse_Pagination resp = Some (commonv1.mkPaginationResponse 3 true)
  | _ => False
  end.
Proof.
  assert (Hr : run E (OrderServiceServer.ListOrders CtxRequest (list_req 2 1)) mem_three =
    (page_two, mem_three)) by (vm_compute; reflexivity).
  assert (Hp : page_honoured 2 1) by (unfold page_honoured; lia).
  assert (Hc : cell (H := E) mem_three = Some (Pool 0)) by reflexivity.
  destruct (ListOrders_pages E CtxRequest (list_req 2 1) mem_three (Pool 0) 2 1 _ _ Hc eq_refl
    Hp Hr) as [_ Hpost].
  destruct Hpost as (l & seen & rest & Hl & Hpage & _ & Ho & _).
  exists l, seen, rest. split; [exact Hl|]. split; [exact Hpage|]. split; [exact Ho|reflexivity].
Defined.

Lemma order_total_sign_witness :
  ∃ t, OrderRepository.sum_total [Some item; Some item] f64_zero = Ret t ∧ f64_nonneg t = true.
Proof.
  destruct (order_total_sign [item; item]) as (t & Ht & Hn & Hp).
  - refine (bool_decide_unpack _ _). vm_compute. exact I.
  - repeat constructor; cbn; lia.
  - exists t. split; [exact Ht|]. apply Hp. rewrite Hn. vm_compute. reflexivity.
Defined.

Lemma list_windows_cover_witness :
  concat (map (λ n, let '(limit, offset) := OrderRepository.list_window (Z.of_nat n) 2 in
    window limit offset [1; 2; 3; 4; 5]) (seq 1 3)) = [1; 2; 3; 4; 5].
Proof.
  assert (Hs : (1 ≤ 2 ≤ 100)%Z) by lia. assert (Hk : (Z.of_nat 3 * 2 ≤ 2147483647)%Z) by lia.
  exact (list_windows_cover 2 3 [1; 2; 3; 4; 5] Hs Hk).
Defined.

Lemma parseOrderStatus_inverse_witness :
  (OrderStatus_ORDER_STATUS_SHIPPED, "ORDER_STATUS_SHIPPED") ∈ OrderStatus_name.
Proof.
  refine (proj1 (proj1 (parseOrderStatus_inverse "SHIPPED" _ eq_refl) _)).
  refine (bool_decide_unpack _ _). vm_compute. exact I.
Defined.

Lemma CreateOrder_verifies_first_witness :
  let tr := trace E (OrderServiceServer.CreateOrder CtxRequest create_req) mem_user in
  length tr = 13 ∧ create_request_valid create_req.
Proof.
  split; [vm_compute; reflexivity|].
  refine (proj1 (CreateOrder_verifies_first CtxRequest create_req _ _ (run_exec E _ mem_user) _)).
  do 4 apply Exists_cons_tl. apply Exists_cons_hd. reflexivity.
Defined.

(** The worlds of these runs are reachable from a world with no orders. *)
Lemma mem_user_ok : service_ok E (Pool 0) mem_user.
Proof.
  split; [reflexivity|]. split; [|apply map_Forall_empty].
  intros k d Hk. exfalso. exact (lookup_empty_Some k d Hk).
Qed.

Lemma mem_created_ok : service_ok E (Pool 0) mem_created.
Proof.
  assert (Hr : run E (OrderServiceServer.CreateOrder CtxRequest create_req) mem_user =
    (created, mem_created)) by (vm_compute; reflexivity).
  exact (wp_run E _ _ _ _ _ (CreateOrder_service E CtxRequest create_req _ mem_user mem_user_ok) Hr).
Qed.

Definition got : outcome (goret GetOrderResponse) :=
  Returned (Some (mkGetOrderResponse (Some (first_order OrderStatus_ORDER_STATUS_PENDING))), None).

(** The second read is answered by the cache. *)
Lemma GetOrder_refines_witness :
  m_kv mem_got !! "order:id-1" = Some "{pending}" ∧ cache_agrees E mem_got ∧
  get_order_post lower (complete_reads E) (m_orders mem_created) (mkGetOrderRequest "id-1") got
    (m_orders mem_got).
Proof.
  assert (Hr : run E (OrderServiceServer.GetOrder repo CtxRequest (mkGetOrderRequest "id-1"))
    mem_created = (got, mem_got)) by (vm_compute; reflexivity).
  split; [vm_compute; reflexivity|].
  assert (Hc : cell (H := E) mem_created = Some (Pool 0)) by reflexivity.
  destruct (GetOrder_refines E repo CtxRequest (mkGetOrderRequest "id-1") mem_created (Pool 0)
    _ _ Hc (cache_ok_agrees E _ (proj1 (proj2 mem_created_ok))) Hr) as (_ & ? & _ & ? & _).
  by split.
Defined.

(** Why the state must hold canonical ids only for [cache_ok]: an order read under
    another spelling of its id is cached under a key that the cancellation does
    not delete, and the next read of that spelling still answers PENDING. *)
Definition upper_order : Order :=
  mkOrder "ID-1" "u-1" [Some item] total OrderStatus_ORDER_STATUS_PENDING
    (Order_CreatedAt (first_order OrderStatus_ORDER_STATUS_PENDING)).
Lemma other_spelling_stale :
  let H := mem_env (("{upper}", upper_order) :: texts) true in
  let get := OrderServiceServer.GetOrder repo CtxRequest (mkGetOrderRequest "ID-1") in
  let w1 := (run H get mem_created).2 in
  let w2 := (run H (OrderServiceServer.CancelOrder repo CtxRequest (mkCancelOrderRequest "id-1")) w1).2 in
  option_map or_status (m_orders w2 !! "id-1") = Some "CANCELLED" ∧
  (run H get w2).1 = Returned (Some (mkGetOrderResponse (Some upper_order)), None).
Proof. vm_compute. by split. Qed.

Definition order_requests : list order_request :=
  [ReqCreateOrder create_req; ReqGetOrder (mkGetOrderRequest "id-1");
   ReqGetOrder (mkGetOrderRequest "id-1"); ReqCancelOrder (mkCancelOrderRequest "id-1");
   ReqListOrders (list_req 1 10); ReqCreateOrder (mkCreateOrderRequest "u-1" [None])].

Lemma order_service_invariant_witness :
  service_ok E (Pool 0) mem_cancelled ∧
  option_map or_status (m_orders mem_cancelled !! "id-1") = Some "CANCELLED".
Proof.
  assert (Hr : run E (serve_orders repo CtxRequest order_requests) mem_user =
    (Returned tt, mem_cancelled)) by (vm_compute; reflexivity).
  assert (Hcan : Forall (canonical (order_key (H := E))) order_requests) by (repeat constructor).
  assert (Hdel : deletes_succeed E) by (intros cx k w; reflexivity).
  assert (Hund : failed_cancel_undone E)
    by (intros p cx id w e w' Hc; exact (mem_failed_cancel texts true p cx id w e w' Hc)).
  split; [|vm_compute; reflexivity].
  exact (proj2 (order_service_invariant E repo CtxRequest order_requests mem_user (Pool 0) _ _
    mem_user_ok Hcan eq_refl Hdel Hund Hr)).
Defined.

Lemma create_get_order_witness :
  ∃ g w2, run E (OrderServiceServer.GetOrder repo CtxRequest (mkGetOrderRequest "id-1"))
      mem_created = (Returned g, w2) ∧
    g ≠ status_fail Internal "failed to get order".
Proof.
  assert (Hr : run E (OrderServiceServer.CreateOrder CtxRequest create_req) mem_user =
    (created, mem_created)) by (vm_compute; reflexivity).
  assert (Hne : "id-1" ≠ "") by discriminate.
  destruct (create_get_order E repo CtxRequest create_req mem_user (Pool 0) _ _ mem_created
    mem_user_ok Hr eq_refl eq_refl Hne) as (g & w2 & Hg & _).
  exists g, w2. split; [exact Hg|]. intros ->. revert Hg. vm_compute. discriminate.
Defined.

(** Twenty-five orders, and a page of 500 asked for. *)
Definition mem_many : mem := Eval vm_compute in
  with_orders (list_to_map (map (λ i, ("id-" +:+ pretty i,
    mkOrderRow "u-1" "PENDING" total (Z.of_nat i) [])) (seq 0 25))) mem0.
Definition oversized : outcome (goret ListOrdersResponse) := Eval vm_compute in
  (run E (OrderServiceServer.ListOrders CtxRequest (list_req 1 500)) mem_many).1.

Lemma ListOrders_oversized_page_witness :
  match oversized with
  | Returned (Some resp, None) => length (ListOrdersResponse_Orders resp) = 20 ∧
      commonv1.PaginationResponse_GetTotalCount (ListOrdersResponse_Pagination resp) = 25%Z ∧
      commonv1.PaginationResponse_GetHasMore (ListOrdersResponse_Pagination resp) = false
  | _ => False
  end.
Proof.
  assert (Hc : cell (H := E) mem_many = Some (Pool 0)) by reflexivity.
  assert (Hs : (100 < 500 ≤ 2147483647)%Z) by lia.
  assert (Hr : run E (OrderServiceServer.ListOrders CtxRequest (list_req 1 500)) mem_many =
    (oversized, mem_many)) by (vm_compute; reflexivity).
  destruct (ListOrders_oversized_page E CtxRequest (list_req 1 500) mem_many (Pool 0) 500 _ _ Hc
    eq_refl Hs Hr) as (l & _ & _ & Ht & Hm).
  split; [reflexivity|]. split; [reflexivity|]. apply Hm. rewrite <-Ht.
  split; [reflexivity|discriminate].
Defined.
