(* ===== verification/Transport.v ===== *)
(** * Transport security and connections

    [internal/tls/tls.go] and the connection part of
    [services/order-service/client.go]. *)
From S2P Require Import Prelude.
From S2P Require Import GoStrings.
From S2P Require Import Proto.
From S2P Require Import GoRuntime.
From S2P Require Import External.
From S2P Require Import Grpc.
From S2P Require Import GrpcStubs.

Module tls.

(** [tls.Config] of the server: the certificate, and the CA clients are
    verified against. *)
Definition server_config (cert : certificate) (ca : string) : tls_config :=
  mkTlsConfig [cert] (Some ca) None RequireAndVerifyClientCert VersionTLS13.

(** The zero [ClientAuth] is [NoClientCert]. *)
Definition client_config (cert : certificate) (ca : string) : tls_config :=
  mkTlsConfig [cert] None (Some ca) NoClientCert VersionTLS13.

Definition LoadServerConfig (certFile keyFile caFile : string) : go (goret transport_creds) :=
  k ← gocall (LoadX509KeyPair certFile keyFile);
  match k with
  | Fail err => mret (None, Some err)
  | Ok serverCert =>
      f ← gocall (OsReadFile caFile);
      match f with
      | Fail err => mret (None, Some err)
      | Ok caCert =>
          ok ← gocall (AppendCertsFromPEM caCert);
          (* [return nil, err], where [err] is the nil error of [ReadFile] *)
          if negb ok then mret (None, None)
          else mret (Some (CredsTLS (server_config serverCert caCert)), None)
      end
  end.

Definition LoadClientConfig (caFile certFile keyFile : string) : go (goret transport_creds) :=
  k ← gocall (LoadX509KeyPair certFile keyFile);
  match k with
  | Fail err => mret (None, Some err)
  | Ok clientCert =>
      f ← gocall (OsReadFile caFile);
      match f with
      | Fail err => mret (None, Some err)
      | Ok caCert =>
          ok ← gocall (AppendCertsFromPEM caCert);
          if negb ok then mret (None, None)
          else mret (Some (CredsTLS (client_config clientCert caCert)), None)
      end
  end.

End tls.

Module UserClientConn.

(** [NewUserClient]: the client holds the connection [grpc.Dial] gives. *)
Definition NewUserClient (addr caFile certFile keyFile : string) : go (goret nat) :=
  let dial opts :=
    r ← gocall (GrpcDial addr opts);
    match r with
    | Fail err => mret (None, Some (ErrWrap "dial user service" err))
    | Ok conn => mret (Some conn, None)
    end in
  if negb (str_eqb certFile "") && negb (str_eqb keyFile "") && negb (str_eqb caFile "") then
    '(creds, err) ← tls.LoadClientConfig caFile certFile keyFile;
    match err with
    | Some err => mret (None, Some (ErrWrap "load client TLS" err))
    | None => dial [creds]
    end
  else dial [Some CredsInsecure].

Definition Close (conn : nat) : go (option go_error) := gocall (ConnClose conn).

End UserClientConn.

(** ** What the loaders promise *)

(** Mutual TLS 1.3: exactly the given certificate is presented, and the peer is
    verified against exactly the given CA. *)
Definition server_mtls (cfg : tls_config) (cert : certificate) (ca : string) : Prop :=
  tls_Certificates cfg = [cert] ∧ tls_ClientCAs cfg = Some ca ∧
  tls_ClientAuth cfg = RequireAndVerifyClientCert ∧ tls_MinVersion cfg = VersionTLS13.
Definition client_mtls (cfg : tls_config) (cert : certificate) (ca : string) : Prop :=
  tls_Certificates cfg = [cert] ∧ tls_RootCAs cfg = Some ca ∧ tls_MinVersion cfg = VersionTLS13.

(** The files were read: the key pair, and a CA file in which certificates were
    found or not. *)
Definition files_read (certFile keyFile caFile : string) (cert : certificate) (ca : string)
    (found : bool) (tr : list gevent) : Prop :=
  Ev (LoadX509KeyPair certFile keyFile) (Ok cert) ∈ tr ∧
  Ev (OsReadFile caFile) (Ok ca) ∈ tr ∧ Ev (AppendCertsFromPEM ca) found ∈ tr.

Lemma files_read_app certFile keyFile caFile cert ca found tr1 tr2 :
  files_read certFile keyFile caFile cert ca found tr1 ∨ files_read certFile keyFile caFile cert ca found tr2 →
  files_read certFile keyFile caFile cert ca found (tr1 ++ tr2).
Proof. unfold files_read. rewrite !elem_of_app. tauto. Qed.

(** What a loader does and answers: it stops at the first of the two files that
    cannot be read, with the error of reading it; a CA file without certificates
    gives neither credentials nor an error; and credentials are those of the
    files. *)
Inductive loads (certFile keyFile caFile : string) (mtls : tls_config → certificate → string → Prop) :
    list gevent → outcome (goret transport_creds) → Prop :=
| loads_no_keys e :
    loads certFile keyFile caFile mtls [Ev (LoadX509KeyPair certFile keyFile) (Fail e)]
      (Returned (None, Some e))
| loads_no_ca cert e :
    loads certFile keyFile caFile mtls
      [Ev (LoadX509KeyPair certFile keyFile) (Ok cert); Ev (OsReadFile caFile) (Fail e)]
      (Returned (None, Some e))
| loads_bad_ca cert ca :
    loads certFile keyFile caFile mtls
      [Ev (LoadX509KeyPair certFile keyFile) (Ok cert); Ev (OsReadFile caFile) (Ok ca);
       Ev (AppendCertsFromPEM ca) false]
      (Returned (None, None))
| loads_all cert ca cfg :
    mtls cfg cert ca →
    loads certFile keyFile caFile mtls
      [Ev (LoadX509KeyPair certFile keyFile) (Ok cert); Ev (OsReadFile caFile) (Ok ca);
       Ev (AppendCertsFromPEM ca) true]
      (Returned (Some (CredsTLS cfg), None)).

Lemma loader_exec certFile keyFile caFile (mtls : tls_config → certificate → string → Prop) config tr o :
  (∀ cert ca, mtls (config cert ca) cert ca) →
  exec (k ← gocall (LoadX509KeyPair certFile keyFile);
        match k with
        | Fail err => mret (None, Some err)
        | Ok cert =>
            f ← gocall (OsReadFile caFile);
            match f with
            | Fail err => mret (None, Some err)
            | Ok ca =>
                ok ← gocall (AppendCertsFromPEM ca);
                if negb ok then mret (None, None) else mret (Some (CredsTLS (config cert ca)), None)
            end
        end) tr o → loads certFile keyFile caFile mtls tr o.
Proof.
  intros Hm. cbn. intros ([cert|e] & tr1 & -> & He); [|destruct He as [-> ->]; constructor].
  destruct He as ([ca|e] & tr2 & -> & He); [|destruct He as [-> ->]; constructor].
  by destruct He as ([|] & tr3 & -> & [-> ->]); constructor.
Qed.

Lemma LoadServerConfig_exec certFile keyFile caFile tr o :
  exec (tls.LoadServerConfig certFile keyFile caFile) tr o → loads certFile keyFile caFile server_mtls tr o.
Proof. by apply (loader_exec certFile keyFile caFile server_mtls tls.server_config). Qed.

Lemma LoadClientConfig_exec caFile certFile keyFile tr o :
  exec (tls.LoadClientConfig caFile certFile keyFile) tr o → loads certFile keyFile caFile client_mtls tr o.
Proof. by apply (loader_exec certFile keyFile caFile client_mtls tls.client_config). Qed.

(** What an answer without an error stands for. *)
Lemma loads_creds certFile keyFile caFile mtls tr creds :
  loads certFile keyFile caFile mtls tr (Returned (creds, None)) →
  ∃ cert ca,
    (∃ cfg, creds = Some (CredsTLS cfg) ∧ mtls cfg cert ca ∧
       files_read certFile keyFile caFile cert ca true tr) ∨
    (creds = None ∧ files_read certFile keyFile caFile cert ca false tr).
Proof.
  intros Hl. inversion Hl as [| |cert ca|cert ca cfg Hm]; subst; exists cert, ca;
    [right; split|left; exists cfg; split_and!]; try done; split_and!; in_trace.
Qed.

(** A dial of the address with the given transport credentials. *)
Definition ev_dials (addr : string) (opts : list (option transport_creds)) (e : gevent) : Prop :=
  let '(Ev c _) := e in c = GrpcDial addr opts.

Lemma loads_no_dial certFile keyFile caFile mtls tr o addr opts :
  loads certFile keyFile caFile mtls tr o → ¬ Exists (ev_dials addr opts) tr.
Proof. intros [] Hx; exists_trace Hx. Qed.

(** ** Claims *)

(** C29: LoadServerConfig reads the key pair, then the CA file, then looks for certificates
    in its content, and stops at the first failure: a key pair or CA file that cannot be
    read gives exactly the error of reading it and no credentials; a CA file without
    certificates gives neither credentials nor an error; otherwise it gives credentials
    with exactly the loaded certificate, RequireAndVerifyClientCert, TLS 1.3 and the
    content of the CA file as the client CA. *)
Theorem LoadServerConfig_mtls certFile keyFile caFile tr o :
  exec (tls.LoadServerConfig certFile keyFile caFile) tr o → loads certFile keyFile caFile server_mtls tr o.
Proof. apply LoadServerConfig_exec. Qed.

(** C30: NewUserClient dials only the given address, with insecure credentials only if one
    of the three TLS file names is empty; otherwise it dials with TLS 1.3, exactly the
    certificate loaded from the given certificate and key files and the content of the
    given CA file as root, or with nil credentials when that content held no
    certificate; it does not dial when one of the files cannot be read. *)
Theorem NewUserClient_dials addr caFile certFile keyFile tr o addr' opts :
  exec (UserClientConn.NewUserClient addr caFile certFile keyFile) tr o →
  Exists (ev_dials addr' opts) tr →
  addr' = addr ∧
  ((opts = [Some CredsInsecure] ∧ (certFile = "" ∨ keyFile = "" ∨ caFile = "")) ∨
   certFile ≠ "" ∧ keyFile ≠ "" ∧ caFile ≠ "" ∧ ∃ cert ca,
     (∃ cfg, opts = [Some (CredsTLS cfg)] ∧ client_mtls cfg cert ca ∧
        files_read certFile keyFile caFile cert ca true tr) ∨
     (opts = [None] ∧ files_read certFile keyFile caFile cert ca false tr)).
Proof.
  unfold UserClientConn.NewUserClient.
  assert (∀ opts' tr' o', exec (r ← gocall (GrpcDial addr opts');
    match r with
    | Fail err => mret (None, Some (ErrWrap "dial user service" err))
    | Ok conn => mret (Some conn, None)
    end) tr' o' → Exists (ev_dials addr' opts) tr' → addr' = addr ∧ opts' = opts) as Hdial.
  { intros opts' tr' o' (r' & tr'' & -> & He) Hx. apply Exists_cons in Hx as [[= -> ->]|Hx]; [done|].
    destruct r'; destruct He as [-> _]; by apply Exists_nil in Hx. }
  destruct (negb (str_eqb certFile "") && negb (str_eqb keyFile "") && negb (str_eqb caFile "")) eqn:Hf.
  - intros He Hin. apply exec_bind in He as
      [(tr1 & [creds err] & tr2 & -> & Hl & He)|(s & Hl & ->)];
      apply LoadClientConfig_exec in Hl; [|by inversion Hl].
    apply Exists_app in Hin as [Hin|Hin]; [by eapply loads_no_dial in Hl|].
    destruct err as [e|]; cbn in He; [destruct He as [-> _]; by apply Exists_nil in Hin|].
    destruct (Hdial _ _ _ He Hin) as [-> <-]. split; [done|right].
    rewrite !andb_true_iff, !negb_true_iff, !str_eqb_false in Hf. destruct Hf as [[? ?] ?].
    do 3 (split; [done|]). apply loads_creds in Hl as (cert & ca & Hl). exists cert, ca.
    destruct Hl as [(cfg & -> & Hm & Hr)|[-> Hr]]; [left; exists cfg|right];
      split_and!; try done; apply files_read_app; by left.
  - intros He Hin. destruct (Hdial _ _ _ He Hin) as [-> <-]. split; [done|left]. split; [done|].
    rewrite !andb_false_iff, !negb_false_iff, !str_eqb_true in Hf. tauto.
Qed.

(** ** Witnesses *)

(** A machine with a key pair and a CA file; [pem_ok] is whether the file
    holds a certificate. *)
Definition tls_env (pem_ok : bool) : env unit := λ c w,
  match c return extres c * unit with
  | LoadX509KeyPair cert _ => (Ok (Cert cert), w)
  | OsReadFile f => (Ok ("-----BEGIN " +:+ f), w)
  | AppendCertsFromPEM _ => (pem_ok, w)
  | GrpcDial _ _ => (Ok 7, w)
  | c => (default_answer c, w)
  end.

Lemma LoadServerConfig_mtls_witness :
  ∃ cfg, fst (run (tls_env true) (tls.LoadServerConfig "cert.pem" "key.pem" "ca.pem") tt) =
      Returned (Some (CredsTLS cfg), None) ∧
    server_mtls cfg (Cert "cert.pem") "-----BEGIN ca.pem".
Proof.
  pose proof (LoadServerConfig_mtls "cert.pem" "key.pem" "ca.pem" _ _
    (run_exec (tls_env true) (tls.LoadServerConfig "cert.pem" "key.pem" "ca.pem") tt)) as Hl.
  cbn in Hl. eexists. split; [reflexivity|]. by inversion Hl; subst.
Defined.

Lemma NewUserClient_dials_witness :
  let tr ok := trace (tls_env ok)
    (UserClientConn.NewUserClient "user-service:50051" "ca.pem" "cert.pem" "key.pem") tt in
  ∃ cert ca, files_read "cert.pem" "key.pem" "ca.pem" cert ca false (tr false).
Proof.
  intros tr. destruct (NewUserClient_dials "user-service:50051" "ca.pem" "cert.pem" "key.pem" _ _
    "user-service:50051" [None]
    (run_exec (tls_env false)
      (UserClientConn.NewUserClient "user-service:50051" "ca.pem" "cert.pem" "key.pem") tt))
    as (_ & [[? _]|(_ & _ & _ & cert & ca & [(? & ? & _)|[_ H]])]); [|done..|by exists cert, ca].
  vm_compute. do 3 apply Exists_cons_tl. by apply Exists_cons_hd.
Defined.
