(* ===== verification/Vault.v ===== *)
(** * Dynamic database credentials

    [internal/vault/client.go].  A Go map is an association list; the goroutine
    of [StartCredentialRefresher] is the iteration of [refresh_once], which
    answers whether the loop goes on. *)
From S2P Require Import Prelude.
From S2P Require Import GoStrings.
From S2P Require Import Proto.
From S2P Require Import GoRuntime.
From S2P Require Import External.

Module vault.

Record DBCreds := mkDBCreds {
  Username : string;
  Password : string;
  LeaseID : string;
  LeaseDuration : Z
}.

(** [m[k]] on a map, and the assertion of its value to a string. *)
Fixpoint map_get (k : string) (m : list (string * any)) : option any :=
  match m with
  | [] => None
  | (k', v) :: m => if str_eqb k k' then Some v else map_get k m
  end.
Definition get_string (k : string) (m : list (string * any)) : string :=
  match map_get k m with Some (AnyString s) => s | _ => "" end.

Definition New (address token : string) : go (goret nat) :=
  r ← gocall (VaultNewClient address);
  match r with
  | Fail err => mret (None, Some (ErrWrap "create vault client" err))
  | Ok client => gocall (VaultSetToken token) ≫= λ _, mret (Some client, None)
  end.

Definition GetDBCreds (c : ctx) (role : string) : go (goret DBCreds) :=
  r ← gocall (VaultRead c ("database/creds/" +:+ role));
  match r with
  | Fail err => mret (None, Some (ErrWrap ("read db creds for role " +:+ role) err))
  | Ok None => mret (None, Some (ErrText ("empty response for role " +:+ role)))
  | Ok (Some secret) =>
      match Secret_Data secret with
      | None => mret (None, Some (ErrText ("empty response for role " +:+ role)))
      | Some secret_data =>
          let data := match map_get "data" secret_data with
                      | Some (AnyMap m) => m
                      | _ => secret_data
                      end in
          let username := get_string "username" data in
          let password := get_string "password" data in
          if str_eqb username "" || str_eqb password ""
          then mret (None, Some (ErrText "missing username or password in vault response"))
          else
            let leaseDuration := mul64 (Secret_LeaseDuration secret) Second in
            mret (Some (mkDBCreds username password (Secret_LeaseID secret) leaseDuration), None)
      end
  end.

(** The map itself may be nil only with an error. *)
Definition GetSecret (c : ctx) (path : string) : go (goret (list (string * any))) :=
  r ← gocall (VaultRead c path);
  match r with
  | Fail err => mret (None, Some (ErrWrap ("read secret " +:+ path) err))
  | Ok None => mret (None, Some (ErrText ("secret " +:+ path +:+ " not found")))
  | Ok (Some secret) =>
      match Secret_Data secret with
      | None => mret (None, Some (ErrText ("secret " +:+ path +:+ " not found")))
      | Some data => mret (Some data, None)
      end
  end.

Definition RenewLease (c : ctx) (leaseID : string) (increment : Z) : go (option go_error) :=
  e ← gocall (VaultRenew c leaseID increment);
  match e with
  | Some err => mret (Some (ErrWrap ("renew lease " +:+ leaseID) err))
  | None => mret None
  end.

(** How long the refresher waits after fetching credentials. *)
Definition refresh_interval (leaseDuration : Z) : Z :=
  let interval := Z.quot leaseDuration 2 in
  if (interval <? 30 * Second)%Z then (30 * Second)%Z else interval.

(** One turn of the loop; [true] asks for another. *)
Definition refresh_once (c : ctx) (role : string) (refreshFn : option (DBCreds → go unit))
    (logFn : option (string → go_error → go unit)) : go bool :=
  '(creds, err) ← GetDBCreds c role;
  match err with
  | Some err =>
      (match logFn with
       | Some logFn => logFn "vault credential refresh failed" err
       | None => mret tt
       end) ≫= λ _,
      done ← gocall (SelectDoneOrAfter c (30 * Second));
      mret (negb done)
  | None =>
      (match refreshFn with
       | Some refreshFn => creds ← deref creds; refreshFn creds
       | None => mret tt
       end) ≫= λ _,
      creds ← deref creds;
      done ← gocall (SelectDoneOrAfter c (refresh_interval (LeaseDuration creds)));
      mret (negb done)
  end.

(** At most [n] turns of the goroutine; [true] when it would still run. *)
Fixpoint refresher (n : nat) (c : ctx) (role : string) (refreshFn : option (DBCreds → go unit))
    (logFn : option (string → go_error → go unit)) : go bool :=
  match n with
  | O => mret true
  | S n =>
      refresh_once c role refreshFn logFn ≫= λ again : bool,
      if again then refresher n c role refreshFn logFn else mret false
  end.

Definition StartCredentialRefresher (role : string) : go unit :=
  gocall (GoSpawn (GoCredentialRefresher role)).

End vault.

(** ** Specification *)

Import vault.

(** The credentials a response holds: of the inner map of a KV-v2 answer when
    there is one. *)
Definition creds_in (s : Secret) (cr : DBCreds) : Prop :=
  ∃ d data, Secret_Data s = Some d ∧
    data = match map_get "data" d with Some (AnyMap m) => m | _ => d end ∧
    map_get "username" data = Some (AnyString (Username cr)) ∧
    map_get "password" data = Some (AnyString (Password cr)) ∧
    Username cr ≠ "" ∧ Password cr ≠ "" ∧
    LeaseID cr = Secret_LeaseID s ∧ LeaseDuration cr = mul64 (Secret_LeaseDuration s) Second.

Lemma get_string_spec k m s : s ≠ "" → get_string k m = s ↔ map_get k m = Some (AnyString s).
Proof.
  unfold get_string. intros Hs. destruct (map_get k m) as [[]|]; naive_solver.
Qed.

Lemma GetDBCreds_exec c role tr o :
  exec (GetDBCreds c role) tr o →
  ∃ r, tr = [Ev (VaultRead c ("database/creds/" +:+ role)) r] ∧
  match o with
  | Returned (Some cr, None) => ∃ s, r = Ok (Some s) ∧ creds_in s cr
  | Returned (None, Some _) => ∀ s cr, r = Ok (Some s) → ¬ creds_in s cr
  | _ => False
  end.
Proof.
  unfold GetDBCreds. cbn. intros (r & tr' & -> & He). exists r.
  destruct r as [[s|]|e]; [|by destruct He as [-> ->]..].
  destruct (Secret_Data s) as [d|] eqn:Ed.
  2: { destruct He as [-> ->]. split; [done|]. intros s' cr [= <-] (d & data & ? & _). congruence. }
  set (data := match map_get "data" d with Some (AnyMap m) => m | _ => d end) in *.
  destruct (str_eqb_spec (get_string "username" data) "") as [Hu|Hu]; cbn in He.
  { destruct He as [-> ->]. split; [done|]. intros s' cr [= <-] (d' & data' & Hd & -> & Hu' & Hp' & Hne & _).
    rewrite Ed in Hd. injection Hd as <-. fold data in Hu'.
    unfold get_string in Hu. by rewrite Hu' in Hu. }
  destruct (str_eqb_spec (get_string "password" data) "") as [Hp|Hp]; cbn in He;
    destruct He as [-> ->]; (split; [done|]).
  { intros s' cr [= <-] (d' & data' & Hd & -> & Hu' & Hp' & _ & Hne & _).
    rewrite Ed in Hd. injection Hd as <-. fold data in Hp'.
    unfold get_string in Hp. by rewrite Hp' in Hp. }
  exists s. split; [done|]. exists d, data. split_and!; try done; by apply get_string_spec.
Qed.

Lemma refresh_interval_bounds d :
  (30 * Second ≤ refresh_interval d)%Z ∧
  ((60 * Second ≤ d)%Z → refresh_interval d = (d / 2)%Z) ∧
  ((d < 60 * Second)%Z → refresh_interval d = (30 * Second)%Z).
Proof.
  unfold refresh_interval, Second. split_and!.
  - destruct (Z.ltb_spec (Z.quot d 2) (30 * 1000000000)); lia.
  - intros Hd. rewrite Z.quot_div_nonneg by lia.
    assert (30 * 1000000000 ≤ d / 2)%Z as Hm by (apply Z.div_le_lower_bound; lia).
    by rewrite (proj2 (Z.ltb_ge _ _) Hm).
  - intros Hd. assert (Z.quot d 2 < 30 * 1000000000)%Z as Hm.
    { destruct (Z.le_gt_cases 0 d).
      - rewrite Z.quot_div_nonneg by lia. apply Z.div_lt_upper_bound; lia.
      - assert (Z.quot d 2 ≤ 0)%Z; [|lia].
        apply Z.opp_nonneg_nonpos. rewrite <-Z.quot_opp_l by lia. apply Z.quot_pos; lia. }
    by rewrite (proj2 (Z.ltb_lt _ _) Hm).
Qed.

(** The pause a turn ends with. *)
Definition ev_pause (d : Z) (done : bool) (e : gevent) : Prop :=
  let '(Ev c r) := e in
  match c return extres c → Prop with
  | SelectDoneOrAfter _ d' => λ r, d' = d ∧ r = done
  | _ => λ _, False
  end r.

Section Refresher.
(** The two callbacks always return. *)
Context (c : ctx) (role : string) (refreshFn : DBCreds → go unit)
        (logFn : string → go_error → go unit).
Hypothesis refreshFn_returns : ∀ cr tr o, exec (refreshFn cr) tr o → o = Returned tt.
Hypothesis logFn_returns : ∀ m e tr o, exec (logFn m e) tr o → o = Returned tt.

(** One turn: a fetch, one callback, a pause. *)
Definition turn (tr : list gevent) (again : bool) : Prop :=
  ∃ r tr1 d pause, tr = Ev (VaultRead c ("database/creds/" +:+ role)) r :: tr1 ++ [pause] ∧
    ev_pause d (negb again) pause ∧
    ((∃ s cr, r = Ok (Some s) ∧ creds_in s cr ∧ exec (refreshFn cr) tr1 (Returned tt) ∧
        (30 * Second ≤ d)%Z ∧
        ((60 * Second ≤ LeaseDuration cr)%Z → d = (LeaseDuration cr / 2)%Z) ∧
        ((LeaseDuration cr < 60 * Second)%Z → d = (30 * Second)%Z)) ∨
     ((∀ s cr, r = Ok (Some s) → ¬ creds_in s cr) ∧ d = (30 * Second)%Z ∧
      ∃ e, exec (logFn "vault credential refresh failed" e) tr1 (Returned tt))).

Lemma refresh_once_exec tr o :
  exec (refresh_once c role (Some refreshFn) (Some logFn)) tr o →
  ∃ again, o = Returned again ∧ turn tr again.
Proof.
  unfold refresh_once. intros He.
  apply exec_bind in He as [(tr1 & [creds err] & tr2 & -> & Hg & He)|(s & Hg & ->)];
    apply GetDBCreds_exec in Hg as (r & -> & Hg); [|done].
  destruct creds as [cr|], err as [err|]; try done; cbn [deref] in He.
  - apply exec_bind in He as [(tr3 & [] & tr4 & -> & Hf & He)|(s' & Hf & ->)].
    2: { apply exec_bind in Hf as [(t1 & cr' & t2 & -> & [-> [= ->]] & Hf)|(s'' & [_ ?] & _)]; [|done].
         by apply refreshFn_returns in Hf. }
    apply exec_bind in Hf as [(t1 & cr' & t2 & -> & [-> [= ->]] & Hf)|(s'' & [_ ?] & _)]; [|done].
    apply exec_bind in He as [(t3 & cr' & t4 & -> & [-> [= ->]] & He)|(s'' & [_ ?] & _)]; [|done].
    destruct He as (d & t5 & -> & -> & ->). exists (negb d). split; [done|].
    eexists r, t2, _, _. split; [done|]. cbn. split; [by rewrite negb_involutive|].
    left. destruct Hg as (s & -> & Hc). exists s, cr.
    do 3 (split; [done|]). apply refresh_interval_bounds.
  - apply exec_bind in He as [(tr3 & [] & tr4 & -> & Hf & He)|(s' & Hf & ->)];
      [|by apply logFn_returns in Hf].
    destruct He as (d & t5 & -> & -> & ->). exists (negb d). split; [done|].
    eexists r, tr3, _, _. split; [done|]. cbn. split; [by rewrite negb_involutive|].
    right. split; [exact Hg|]. split; [done|]. by exists err.
Qed.

(** The whole goroutine: turns that ask for another, and a last one that does
    not unless it would still run. *)
Inductive turns : nat → list gevent → bool → Prop :=
| turns_running : turns 0 [] true
| turns_stop tr : turn tr false → turns 1 tr false
| turns_again n tr tr' b : turn tr true → turns n tr' b → turns (S n) (tr ++ tr') b.

Lemma refresher_exec n tr o :
  exec (refresher n c role (Some refreshFn) (Some logFn)) tr o →
  ∃ b k, o = Returned b ∧ k ≤ n ∧ (b = true → k = n) ∧ turns k tr b.
Proof.
  revert tr. induction n as [|n IH]; intros tr He; cbn [refresher] in He.
  { destruct He as [-> ->]. exists true, 0. split_and!; [done..|constructor]. }
  apply exec_bind in He as [(tr1 & again & tr2 & -> & Ht & He)|(s & Ht & ->)];
    apply refresh_once_exec in Ht as (again' & Ho & Ht); [|done]. injection Ho as <-.
  destruct again.
  - apply IH in He as (b & k & -> & Hk & Hb & Hts). exists b, (S k).
    split_and!; [done|lia| |by constructor]. intros Hbt. f_equal. auto.
  - destruct He as [-> ->]. rewrite app_nil_r. exists false, 1.
    split_and!; [done|lia|done|by constructor].
Qed.

(** C31: Every turn of the credential refresher is one read of the role followed by one
    callback and one pause: refreshFn with the credentials the answer holds and then
    half the lease, but at least 30 seconds, or logFn and then 30 seconds; it makes the
    next turn exactly when the pause ended by the timer rather than by cancellation.
    Assumes the callbacks return. *)
Theorem refresher_schedule n tr o :
  exec (refresher n c role (Some refreshFn) (Some logFn)) tr o →
  ∃ b k, o = Returned b ∧ k ≤ n ∧ (b = true → k = n) ∧ turns k tr b.
Proof. apply refresher_exec. Qed.
End Refresher.

(** GetDBCreds makes one read and returns the credentials the answer holds, if any. *)
Theorem GetDBCreds_correct c role tr o :
  exec (GetDBCreds c role) tr o →
  ∃ r, tr = [Ev (VaultRead c ("database/creds/" +:+ role)) r] ∧
  match o with
  | Returned (Some cr, None) => ∃ s, r = Ok (Some s) ∧ creds_in s cr
  | Returned (None, Some _) => ∀ s cr, r = Ok (Some s) → ¬ creds_in s cr
  | _ => False
  end.
Proof. apply GetDBCreds_exec. Qed.

(** ** Runs *)

(** An answer of the KV-v2 form, with a lease of one hour. *)
Definition secret : Secret := mkSecret
  (Some [("data", AnyMap [("username", AnyString "v-user"); ("password", AnyString "pw")])])
  "lease-1" 3600.
Definition creds : DBCreds := mkDBCreds "v-user" "pw" "lease-1" (3600 * Second).
Definition read_event : gevent := Ev (VaultRead CtxBackground "database/creds/app") (Ok (Some secret)).

(** The answer of a read. *)
Definition ev_read (e : gevent) : option (gresult (option Secret)) :=
  let '(Ev c r) := e in
  match c return extres c → option (gresult (option Secret)) with
  | VaultRead _ _ => Some
  | _ => λ _, None
  end r.

Lemma GetDBCreds_correct_witness :
  exec (GetDBCreds CtxBackground "app") [read_event] (Returned (Some creds, None)) ∧
  creds_in secret creds.
Proof.
  assert (He : exec (GetDBCreds CtxBackground "app") [read_event] (Returned (Some creds, None)))
    by (eexists _, _; split; [reflexivity|]; split; reflexivity).
  split; [exact He|].
  destruct (GetDBCreds_correct _ _ _ _ He) as (r & Hr & s & Hs & Hc).
  apply (f_equal (λ l, match l with e :: _ => ev_read e | [] => None end)) in Hr. cbn in Hr.
  rewrite Hs in Hr. injection Hr as <-. exact Hc.
Defined.

(** Fetch, rotate, pause for half an hour, stop. *)
Definition pause_event (b : bool) : gevent :=
  Ev (SelectDoneOrAfter CtxBackground (1800 * Second)) b.
Definition rotate (cr : DBCreds) : go unit := gocall (StorePool None).

Lemma refresher_schedule_witness :
  ∃ k, k ≤ 5 ∧ turns CtxBackground "app" rotate (λ m e, zap_log Warn_ m [ZError e]) k
    ([read_event; Ev (StorePool None) tt; pause_event false] ++
     [read_event; Ev (StorePool None) tt; pause_event true]) false.
Proof.
  assert (He : exec (refresher 5 CtxBackground "app" (Some rotate)
      (Some (λ m e, zap_log Warn_ m [ZError e])))
    ([read_event; Ev (StorePool None) tt; pause_event false] ++
     [read_event; Ev (StorePool None) tt; pause_event true]) (Returned false)).
  { do 3 (eexists _, _; split; [reflexivity|]). do 3 (eexists _, _; split; [reflexivity|]).
    split; reflexivity. }
  destruct (refresher_schedule CtxBackground "app" rotate (λ m e, zap_log Warn_ m [ZError e])
    ltac:(intros cr tr o ([] & tr' & _ & _ & ->); reflexivity)
    ltac:(intros m e tr o ([] & tr' & _ & _ & ->); reflexivity) 5 _ _ He)
    as (b & k & Hb & Hk & _ & Ht). injection Hb as <-.
  exists k. split; [exact Hk|exact Ht].
Defined.
