(* ===== verification/Migrations.v ===== *)
(** * Schema migrations

    [db/migrations/embed.go], with the files it embeds.  The function [Up] is
    proved to apply exactly the pending migrations, in order, each in its own
    transaction, against an interface that states what PostgreSQL promises
    about transactions. *)
From S2P Require Import Prelude.
From S2P Require Import GoStrings.
From S2P Require Import Proto.
From S2P Require Import GoRuntime.
From S2P Require Import External.

Module migrations.

(** [//go:embed *.sql]: names and contents, in the order of the directory. *)
Definition migrationsFS : list (string * string) :=
  [
   ("000001_create_users.down.sql",
"DROP TABLE IF EXISTS users;
");
   ("000001_create_users.up.sql",
"CREATE TABLE IF NOT EXISTS users (
    id UUID PRIMARY KEY DEFAULT gen_random_uuid(),
    name VARCHAR(100) NOT NULL,
    email VARCHAR(255) NOT NULL UNIQUE,
    created_at TIMESTAMPTZ NOT NULL DEFAULT NOW(),
    updated_at TIMESTAMPTZ NOT NULL DEFAULT NOW()
);

CREATE INDEX idx_users_email ON users(email);
");
   ("000002_create_orders.down.sql",
"DROP TABLE IF EXISTS orders;
");
   ("000002_create_orders.up.sql",
"CREATE TABLE IF NOT EXISTS orders (
    id UUID PRIMARY KEY DEFAULT gen_random_uuid(),
    user_id UUID NOT NULL,
    status VARCHAR(20) NOT NULL DEFAULT 'PENDING',
    total NUMERIC(10,2) NOT NULL,
    created_at TIMESTAMPTZ NOT NULL DEFAULT NOW()
);

CREATE INDEX idx_orders_user_id ON orders(user_id);
");
   ("000003_create_order_items.down.sql",
"DROP TABLE IF EXISTS order_items;
");
   ("000003_create_order_items.up.sql",
"CREATE TABLE IF NOT EXISTS order_items (
    id UUID PRIMARY KEY DEFAULT gen_random_uuid(),
    order_id UUID NOT NULL REFERENCES orders(id) ON DELETE CASCADE,
    product_id VARCHAR(100) NOT NULL,
    product_name VARCHAR(255) NOT NULL,
    quantity INT NOT NULL CHECK (quantity > 0),
    unit_price NUMERIC(10,2) NOT NULL CHECK (unit_price >= 0)
);

CREATE INDEX idx_order_items_order_id ON order_items(order_id);
");
   ("000004_drop_order_user_fk.down.sql",
"ALTER TABLE orders ADD CONSTRAINT orders_user_id_fkey FOREIGN KEY (user_id) REFERENCES users(id);
");
   ("000004_drop_order_user_fk.up.sql",
"ALTER TABLE orders DROP CONSTRAINT IF EXISTS orders_user_id_fkey;
")].

Fixpoint ReadFile (fs : list (string * string)) (name : string) : gresult string :=
  match fs with
  | [] => Fail (ErrText ("open " +:+ name +:+ ": file does not exist"))
  | (n, d) :: fs => if str_eqb name n then Ok d else ReadFile fs name
  end.

(** [fs.Glob(migrationsFS, "*.up.sql")], sorted. *)
Definition up_files (fs : list (string * string)) : list string :=
  sort_Strings (filter (λ n, glob_star ".up.sql" n = true) (map fst fs)).

Definition sql_create_table : string :=
"
		CREATE TABLE IF NOT EXISTS schema_migrations (
			filename VARCHAR(255) PRIMARY KEY,
			applied_at TIMESTAMPTZ NOT NULL DEFAULT NOW()
		)
	".

Definition sql_count : string := "SELECT COUNT(*) FROM schema_migrations WHERE filename = $1".
Definition sql_record : string := "INSERT INTO schema_migrations (filename) VALUES ($1)".

(** One iteration of the loop; [Some e] returns [e] from [Up]. *)
Definition up_entry (fs : list (string * string)) (c : ctx) (p : pool) (_ : nat) (entry : string) :
    go (option go_error) :=
  r ← gocall (PoolQueryRow p c sql_count [AString entry] [KInt]);
  match r with
  | Fail err => mret (Some (ErrWrap ("check migration " +:+ entry) err))
  | Ok (count, _) =>
      if (0 <? count)%Z then mret None else
      match ReadFile fs entry with
      | Fail err => mret (Some (ErrWrap ("read migration " +:+ entry) err))
      | Ok sql =>
          b ← gocall (PoolBegin p c);
          match b with
          | Fail err => mret (Some (ErrWrap ("begin tx for " +:+ entry) err))
          | Ok tx =>
              e ← gocall (TxExec tx c sql []);
              match e with
              | Some err =>
                  gocall (TxRollback tx c) ≫= λ _,
                  mret (Some (ErrWrap ("apply migration " +:+ entry) err))
              | None =>
                  e ← gocall (TxExec tx c sql_record [AString entry]);
                  match e with
                  | Some err =>
                      gocall (TxRollback tx c) ≫= λ _,
                      mret (Some (ErrWrap ("record migration " +:+ entry) err))
                  | None =>
                      e ← gocall (TxCommit tx c);
                      match e with
                      | Some err => mret (Some (ErrWrap ("commit migration " +:+ entry) err))
                      | None => mret None
                      end
                  end
              end
          end
      end
  end.

Definition Up_fs (fs : list (string * string)) (c : ctx) (p : pool) : go (option go_error) :=
  r ← gocall (PoolExec p c sql_create_table []);
  match r with
  | Fail err => mret (Some (ErrWrap "create schema_migrations table" err))
  | Ok _ => for_range 0 (up_files fs) (up_entry fs c p)
  end.

Definition Up (c : ctx) (p : pool) : go (option go_error) := Up_fs migrationsFS c p.

Definition DownFS : list (string * string) := migrationsFS.

Definition MigrationFile (name : string) : string := TrimSuffix name (filepath_Ext name).

End migrations.

(** ** What PostgreSQL promises about migrations *)

Import migrations.

(** The committed state: the recorded names, and the migration texts executed,
    in order; a transaction holds the state it would commit. *)
Class MigrationDB {W} (H : env W) := {
  schema : W → gset string * list string;
  schema_view : W → txn → option (gset string * list string);
  schema_create : ∀ p c w, schema (H (PoolExec p c sql_create_table []) w).2 = schema w;
  schema_count : ∀ p c f w,
    let '(r, w') := H (PoolQueryRow p c sql_count [AString f] [KInt]) w in
    schema w' = schema w ∧
    match r with
    | Ok (n, _) => n = if decide (f ∈ (schema w).1) then 1%Z else 0%Z
    | Fail _ => True
    end;
  schema_begin : ∀ p c w,
    let '(r, w') := H (PoolBegin p c) w in
    schema w' = schema w ∧
    match r with Ok t => schema_view w' t = Some (schema w) | Fail _ => True end;
  schema_apply : ∀ t c sql w a l,
    schema_view w t = Some (a, l) →
    let '(r, w') := H (TxExec t c sql []) w in
    schema w' = schema w ∧ (r = None → schema_view w' t = Some (a, l ++ [sql]));
  schema_record : ∀ t c f w a l,
    schema_view w t = Some (a, l) →
    let '(r, w') := H (TxExec t c sql_record [AString f]) w in
    schema w' = schema w ∧ (r = None → schema_view w' t = Some ({[f]} ∪ a, l));
  schema_commit : ∀ t c w v,
    schema_view w t = Some v →
    let '(r, w') := H (TxCommit t c) w in
    match r with None => schema w' = v | Some _ => schema w' = schema w ∨ schema w' = v end;
  schema_rollback : ∀ t c w, schema (H (TxRollback t c) w).2 = schema w
}.

(** ** Specification *)

(** The names of a list that are not recorded. *)
Definition pending (a : gset string) (names : list string) : list string :=
  filter (λ n, n ∉ a) names.

(** [names] were applied to [s], in order. *)
Definition applied (fs : list (string * string)) (names : list string)
    (s : gset string * list string) : gset string * list string :=
  (list_to_set names ∪ s.1,
   s.2 ++ map (λ n, match ReadFile fs n with Ok d => d | Fail _ => "" end) names).

Lemma ReadFile_ok fs n : n ∈ map fst fs → ∃ d, ReadFile fs n = Ok d.
Proof.
  induction fs as [|[m d] fs IH]; cbn; [by intros ?%elem_of_nil|].
  destruct (str_eqb_spec n m); [by eauto|]. rewrite elem_of_cons. intros [?|?]; [done|auto].
Qed.

Lemma up_files_in fs n : n ∈ up_files fs → n ∈ map fst fs.
Proof.
  unfold up_files. rewrite sort_Strings_perm, list_elem_of_filter. by intros [_ ?].
Qed.

Lemma applied_nil fs s : applied fs [] s = s.
Proof. destruct s as [a l]. unfold applied. cbn. f_equal; [apply (left_id_L ∅ (∪))|by rewrite app_nil_r]. Qed.

Lemma applied_app fs n names s :
  applied fs names (applied fs [n] s) = applied fs (n :: names) s.
Proof.
  destruct s as [a l]. unfold applied. cbn. f_equal; [|by rewrite <-app_assoc].
  by rewrite (right_id_L ∅ (∪)), (assoc_L (∪)), (comm_L (∪) _ {[n]}).
Qed.

Lemma pending_cons a n names :
  pending a (n :: names) = if decide (n ∈ a) then pending a names else n :: pending a names.
Proof.
  unfold pending. rewrite filter_cons.
  destruct (decide (n ∈ a)), (decide (n ∉ a)); try done; by exfalso.
Qed.

Lemma pending_fresh a n names : n ∉ names → pending ({[n]} ∪ a) names = pending a names.
Proof.
  intros Hn. induction names as [|m names IH]; [done|].
  apply not_elem_of_cons in Hn as [Hm Hn]. rewrite !pending_cons, (IH Hn).
  destruct (decide (m ∈ a)), (decide (m ∈ {[n]} ∪ a)) as [Hd|Hd]; try done.
  - exfalso. apply Hd. by apply elem_of_union_r.
  - apply elem_of_union in Hd as [Hd|Hd]; [|done]. by apply elem_of_singleton in Hd.
Qed.

Lemma pending_done fs names s : pending (applied fs (pending s.1 names) s).1 names = [].
Proof.
  unfold pending. apply elem_of_nil_inv. intros x. rewrite list_elem_of_filter. cbn.
  rewrite not_elem_of_union, elem_of_list_to_set, list_elem_of_filter.
  intros [[Hx Hs] Hin]. by apply Hx.
Qed.

Section Up.
Context {W : Type} (H : env W) `{!MigrationDB H} (fs : list (string * string)) (c : ctx) (p : pool).

(** One file: skipped when it is recorded, else executed and recorded in one
    transaction; an error leaves nothing, or all of it when the commit itself
    failed. *)
Lemma up_entry_spec i n w :
  n ∈ map fst fs →
  wp H (up_entry fs c p i n) (λ o w',
    match o with
    | Returned None => schema w' = applied fs (pending (schema w).1 [n]) (schema w)
    | Returned (Some _) => schema w' = schema w ∨
        schema w' = applied fs (pending (schema w).1 [n]) (schema w)
    | Panicked _ => False
    end) w.
Proof.
  intros Hn. rewrite pending_cons. unfold up_entry. wp_call_intro r w1 H1.
  pose proof (schema_count p c n w) as Hl. rewrite H1 in Hl. destruct Hl as [Hs1 Hl].
  destruct r as [[k []]|e]; [|wp_pure; by left].
  destruct (decide (n ∈ (schema w).1)) as [Hin|Hout]; subst k; cbn [Z.ltb Z.compare].
  { wp_pure. change (pending (schema w).1 []) with (@nil string). by rewrite Hs1, applied_nil. }
  destruct (ReadFile_ok fs n Hn) as [d Hd]. rewrite Hd.
  assert (applied fs [n] (schema w) = ({[n]} ∪ (schema w).1, (schema w).2 ++ [d])) as Hap.
  { unfold applied. cbn. by rewrite Hd, (right_id_L ∅ (∪)). }
  change (pending (schema w).1 []) with (@nil string). rewrite Hap. clear Hap.
  wp_call_intro b w2 H2. pose proof (schema_begin p c w1) as Hb. rewrite H2 in Hb.
  destruct Hb as [Hs2 Hb]. destruct b as [t|e]; [|wp_pure; left; congruence].
  cbn beta iota. rewrite Hs1 in Hb. destruct (schema w) as [a l] eqn:Hs.
  wp_call_intro r w3 H3. pose proof (schema_apply t c d w2 _ _ Hb) as Ha. rewrite H3 in Ha.
  destruct Ha as [Hs3 Ha]. destruct r as [e|].
  { wp_call_intro r w4 H4. wp_pure. pose proof (schema_rollback t c w3) as Hr. rewrite H4 in Hr.
    left. cbn in Hr. congruence. }
  specialize (Ha eq_refl).
  wp_call_intro r w4 H4. pose proof (schema_record t c n w3 _ _ Ha) as Hrec. rewrite H4 in Hrec.
  destruct Hrec as [Hs4 Hrec]. destruct r as [e|].
  { wp_call_intro r w5 H5. wp_pure. pose proof (schema_rollback t c w4) as Hr. rewrite H5 in Hr.
    left. cbn in Hr. congruence. }
  specialize (Hrec eq_refl).
  wp_call_intro r w5 H5. pose proof (schema_commit t c w4 _ Hrec) as Hc. rewrite H5 in Hc.
  destruct r as [e|]; wp_pure; [|done]. destruct Hc as [Hc|Hc]; [left; congruence|by right].
Qed.

Lemma up_entries_spec i names w :
  NoDup names → (∀ n, n ∈ names → n ∈ map fst fs) →
  wp H (for_range i names (up_entry fs c p)) (λ o w',
    match o with
    | Returned None => schema w' = applied fs (pending (schema w).1 names) (schema w)
    | Returned (Some _) =>
        ∃ k, schema w' = applied fs (take k (pending (schema w).1 names)) (schema w)
    | Panicked _ => False
    end) w.
Proof.
  revert i w. induction names as [|n names IH]; intros i w Hnd Hin; cbn [for_range].
  { wp_pure. by rewrite applied_nil. }
  apply NoDup_cons in Hnd as [Hn Hnd].
  wp_pure. eapply wp_mono; [apply up_entry_spec, Hin; constructor|]. cbn beta.
  rewrite !pending_cons. intros o w1 Ho. destruct o as [[e|]|]; cbn beta iota; [..|done].
  - wp_pure. destruct Ho as [->| ->]; [exists 0; by rewrite take_0, applied_nil|].
    destruct (decide (n ∈ (schema w).1)).
    + exists 0. done.
    + exists 1. done.
  - eapply wp_mono; [apply IH; [done|]; intros m Hm; apply Hin; by constructor|]. cbn beta.
    rewrite Ho. destruct (decide (n ∈ (schema w).1)).
    + rewrite applied_nil. done.
    + change (applied fs (n :: pending (schema w).1 []) (schema w))
        with (applied fs [n] (schema w)).
      assert (pending (applied fs [n] (schema w)).1 names = pending (schema w).1 names) as ->.
      { unfold applied. cbn [fst list_to_set foldr fmap]. rewrite (right_id_L ∅ (∪)).
        by apply pending_fresh. }
      intros o w2 Hw2. destruct o as [[e|]|]; [..|done].
      * destruct Hw2 as [k ->]. exists (S k). rewrite firstn_cons. apply applied_app.
      * by rewrite Hw2, applied_app.
Qed.

Lemma Up_fs_spec w :
  NoDup (map fst fs) →
  wp H (Up_fs fs c p) (λ o w',
    let todo := pending (schema w).1 (up_files fs) in
    match o with
    | Returned None => schema w' = applied fs todo (schema w)
    | Returned (Some _) => ∃ k, schema w' = applied fs (take k todo) (schema w)
    | Panicked _ => False
    end) w.
Proof.
  intros Hnd. unfold Up_fs. wp_call_intro r w1 H1.
  pose proof (schema_create p c w) as Hs. rewrite H1 in Hs. cbn in Hs.
  destruct r as [n|e]; [|wp_pure; exists 0; by rewrite take_0, applied_nil].
  rewrite <-Hs. apply up_entries_spec; [|apply up_files_in].
  unfold up_files. rewrite sort_Strings_perm. eapply sublist_NoDup; [exact Hnd|apply sublist_filter].
Qed.
End Up.

(** ** Claims *)

Section Claims.
Context {W : Type} (H : env W) `{!MigrationDB H}.

(** C27: migrations.Up executes exactly the embedded up-migrations that are not recorded, in
    name order, each together with its record in one transaction; if it fails, a prefix
    of them has been applied and recorded, and it never panics. *)
Theorem Up_applies_pending c p w o w' :
  run H (Up c p) w = (o, w') →
  let todo := pending (schema w).1 (up_files migrationsFS) in
  match o with
  | Returned None => schema w' = applied migrationsFS todo (schema w)
  | Returned (Some _) => ∃ k, schema w' = applied migrationsFS (take k todo) (schema w)
  | Panicked _ => False
  end.
Proof.
  intros Hr. refine (wp_run H _ _ _ _ _ (Up_fs_spec H migrationsFS c p w _) Hr).
  apply (bool_decide_unpack _). vm_compute. exact I.
Qed.

(** After Up succeeded, running it again executes no migration and changes no record. *)
Theorem Up_twice c p w w1 o w2 :
  run H (Up c p) w = (Returned None, w1) → run H (Up c p) w1 = (o, w2) →
  schema w2 = schema w1.
Proof.
  intros H1 H2. assert (NoDup (map fst migrationsFS)) as Hnd
    by (apply (bool_decide_unpack _); vm_compute; exact I).
  pose proof (wp_run H _ _ _ _ _ (Up_fs_spec H migrationsFS c p w Hnd) H1) as Hs1. cbn beta zeta iota in Hs1.
  pose proof (wp_run H _ _ _ _ _ (Up_fs_spec H migrationsFS c p w1 Hnd) H2) as Hs2. cbn beta zeta in Hs2.
  rewrite Hs1, pending_done, <-Hs1 in Hs2. destruct o as [[e|]|]; [..|done].
  - destruct Hs2 as [k ->]. by rewrite take_nil, applied_nil.
  - by rewrite Hs2, applied_nil.
Qed.
End Claims.

(** MigrationFile of a name base.up.sql is base.up: only the last extension is removed. *)
Theorem MigrationFile_keeps_up base :
  MigrationFile (base +:+ ".up.sql") = base +:+ ".up".
Proof.
  unfold MigrationFile. assert (filepath_Ext (base +:+ ".up.sql") = ".sql") as ->.
  { unfold filepath_Ext. rewrite bytes_app, reverse_app. done. }
  assert (base +:+ ".up.sql" = (base +:+ ".up") +:+ ".sql") as ->.
  { apply (inj bytes). by rewrite !bytes_app, <-app_assoc. }
  apply TrimSuffix_app.
Qed.

(** ** A run *)

(** A database that runs every migration: the committed state and the open
    transactions. *)
Record mig := mkMig {
  mig_state : gset string * list string;
  mig_txs : gmap nat (gset string * list string);
  mig_next : nat
}.

Definition mig_env : env mig := λ c w,
  match c return extres c * mig with
  | PoolExec _ _ _ _ => (Ok 0%Z, w)
  | PoolQueryRow _ _ _ args ks =>
      match ks return gresult (scan_row ks) * mig with
      | [KInt] =>
          match args with
          | [AString f] => (Ok (if decide (f ∈ (mig_state w).1) then 1%Z else 0%Z, tt), w)
          | _ => (Fail (ErrText ""), w)
          end
      | _ => (Fail (ErrText ""), w)
      end
  | PoolBegin _ _ =>
      (Ok (Txn (mig_next w)),
       mkMig (mig_state w) (<[mig_next w := mig_state w]> (mig_txs w)) (S (mig_next w)))
  | TxExec (Txn t) _ sql args =>
      match mig_txs w !! t with
      | Some (a, l) =>
          let v := match args with [AString f] => ({[f]} ∪ a, l) | _ => (a, l ++ [sql]) end in
          (None, mkMig (mig_state w) (<[t := v]> (mig_txs w)) (mig_next w))
      | None => (Some (ErrText "tx is closed"), w)
      end
  | TxCommit (Txn t) _ =>
      match mig_txs w !! t with
      | Some v => (None, mkMig v (delete t (mig_txs w)) (mig_next w))
      | None => (Some (ErrText "tx is closed"), w)
      end
  | c => (default_answer c, w)
  end.

Definition mig_view (w : mig) (t : txn) : option (gset string * list string) :=
  match t with Txn n => mig_txs w !! n end.

#[export] Program Instance mig_db : MigrationDB mig_env :=
  {| schema := mig_state; schema_view := mig_view |}.
Next Obligation. done. Qed.
Next Obligation. done. Qed.
Next Obligation. intros p c w. cbn. split; [done|]. by rewrite lookup_insert_eq. Qed.
Next Obligation.
  intros [t] c sql w a l Hv. cbn in *. rewrite Hv. split; [done|]. intros _.
  cbn. by rewrite lookup_insert_eq.
Qed.
Next Obligation.
  intros [t] c f w a l Hv. cbn in *. rewrite Hv. split; [done|]. intros _.
  cbn. by rewrite lookup_insert_eq.
Qed.
Next Obligation. intros [t] c w v Hv. cbn in *. by rewrite Hv. Qed.
Next Obligation. done. Qed.

(** The first migration is already recorded. *)
Definition mig0 : mig := mkMig ({["000001_create_users.up.sql"]}, []) ∅ 0.
Definition mig1 : mig := Eval vm_compute in (run mig_env (Up CtxBackground (Pool 0)) mig0).2.

Lemma Up_applies_pending_witness :
  run mig_env (Up CtxBackground (Pool 0)) mig0 = (Returned None, mig1) ∧
  length (mig_state mig1).2 = 3 ∧
  mig_state mig1 = applied migrationsFS
    (pending (mig_state mig0).1 (up_files migrationsFS)) (mig_state mig0).
Proof.
  assert (Hr : run mig_env (Up CtxBackground (Pool 0)) mig0 = (Returned None, mig1))
    by (vm_compute; reflexivity).
  split; [exact Hr|]. split; [vm_compute; reflexivity|].
  exact (Up_applies_pending mig_env CtxBackground (Pool 0) mig0 _ _ Hr).
Defined.

Lemma Up_twice_witness :
  mig_state (run mig_env (Up CtxBackground (Pool 0)) mig1).2 = mig_state mig1.
Proof.
  assert (Hr : run mig_env (Up CtxBackground (Pool 0)) mig0 = (Returned None, mig1))
    by (vm_compute; reflexivity).
  exact (Up_twice mig_env CtxBackground (Pool 0) mig0 mig1 _ _ Hr (surjective_pairing _)).
Defined.
