(* ===== verification/Lifecycle.v ===== *)
(** * Process life cycle

    Loggers ([internal/log]), OpenTelemetry ([internal/otel]), graceful
    shutdown ([internal/shutdown]), the database pool and its rotation and
    health monitor ([services/*/main.go]), and the two [main] functions.  A
    background loop is the iteration of its body. *)
From S2P Require Import Prelude.
From S2P Require Import GoStrings.
From S2P Require Import Proto.
From S2P Require Import GoRuntime.
From S2P Require Import External.
From S2P Require Import Grpc.
From S2P Require Import GrpcStubs.
From S2P Require Import Stores.
From S2P Require Import UserService.
From S2P Require Import OrderService.
From S2P Require Import Transport.
From S2P Require Import Vault.
From S2P Require Import Config.
From S2P Require Import Migrations.

Module log.

(** [log.New]; an unknown level is [info]. *)
Definition New (level : string) : go (option go_error) :=
  l ← gocall (ZapLevelUnmarshal level);
  let lvl := match l with Ok l => l | Fail _ => Info_ end in
  gocall (ZapBuild lvl).

End log.

Module otel.

Definition New (serviceName otlpEndpoint : string) : go (option go_error) :=
  e ← gocall (OtelResourceNew serviceName);
  match e with
  | Some err => mret (Some err)
  | None =>
      e ← gocall (OtelTraceExporterNew otlpEndpoint);
      match e with
      | Some err => mret (Some err)
      | None =>
          gocall OtelSetTracerProvider ≫= λ _,
          gocall OtelSetTextMapPropagator ≫= λ _,
          e ← gocall OtelPromExporterNew;
          match e with
          | Some err => mret (Some err)
          | None => gocall OtelSetMeterProvider ≫= λ _, mret None
          end
      end
  end.

(** The handler [promhttp.HandlerFor] makes; the metrics server gets it. *)
Definition MetricsHandler : go unit := gocall PromHandlerFor.

Definition Shutdown (c : ctx) : go (option go_error) :=
  e ← gocall (TracerShutdown c);
  match e with
  | Some err => mret (Some err)
  | None =>
      e ← gocall (MeterShutdown c);
      match e with
      | Some err => mret (Some err)
      | None => mret None
      end
  end.

End otel.

Module shutdown.

Record Callback := mkCallback {
  Name : string;
  Func : ctx → go (option go_error)
}.

(** The loop over the callbacks. *)
Fixpoint run_callbacks (timeout : Z) (cbs : list Callback) : go unit :=
  match cbs with
  | [] => mret tt
  | cb :: cbs =>
      let shutdownCtx := CtxWithTimeout CtxBackground timeout in
      gocall (StdLog ("shutdown: " +:+ Name cb)) ≫= λ _,
      e ← Func cb shutdownCtx;
      (match e with
       | Some err => gocall (StdLog ("shutdown " +:+ Name cb +:+ ": " +:+ Error err))
       | None => mret tt
       end) ≫= λ _,
      ctx_cancel shutdownCtx ≫= λ _,
      run_callbacks timeout cbs
  end.

Definition Graceful (c : ctx) (timeout : Z) (callbacks : list Callback) : go unit :=
  sig ← gocall (WaitSignalOrDone c);
  (match sig with
   | Some sig => gocall (StdLog ("received signal " +:+ sig +:+ ", starting graceful shutdown"))
   | None => mret tt
   end) ≫= λ _,
  run_callbacks timeout callbacks.

End shutdown.

(** The part of [main.go] that is the same text in both services. *)
Module Common.

Definition newPool (c : ctx) (databaseURL : string) (cfg : PoolSettings) : go (goret pool) :=
  e ← gocall (PgxParseConfig databaseURL);
  match e with
  | Some err => mret (None, Some (ErrWrap "parse pool config" err))
  | None =>
      let poolCfg := mkPoolConfig databaseURL (DBPoolMaxConns cfg) (DBPoolMinConns cfg)
        (DBPoolMaxConnLifetime cfg) (DBPoolMaxConnIdleTime cfg) (DBPoolHealthCheckPeriod cfg) in
      zap_log Info_ "database pool configured"
        [ZInt32 "max_conns" (DBPoolMaxConns cfg); ZInt32 "min_conns" (DBPoolMinConns cfg);
         ZDuration "max_lifetime" (DBPoolMaxConnLifetime cfg);
         ZDuration "health_check" (DBPoolHealthCheckPeriod cfg)] ≫= λ _,
      r ← gocall (PgxNewWithConfig c poolCfg);
      match r with
      | Fail err => mret (None, Some (ErrWrap "create pool" err))
      | Ok p => mret (Some p, None)
      end
  end.

(** One turn of the loop of [monitorDBHealth]; [true] asks for another. *)
Definition monitor_once (c : ctx) (p : pool) (service : string) (interval : Z) : go bool :=
  gocall (SelectDoneOrTick c interval) ≫= λ done : bool,
  if done then mret false
  else
    let pingCtx := CtxWithTimeout c (5 * Second) in
    err ← gocall (PoolPing p pingCtx);
    ctx_cancel pingCtx ≫= λ _,
    (match err with
     | Some err =>
         zap_log Warn_ "database health check failed" [ZError err] ≫= λ _,
         gocall (SetServingStatus service false)
     | None => gocall (SetServingStatus service true)
     end) ≫= λ _,
    mret true.

(** At most [n] turns. *)
Fixpoint monitorDBHealth (n : nat) (c : ctx) (p : pool) (service : string) (interval : Z) :
    go bool :=
  match n with
  | O => mret true
  | S n =>
      monitor_once c p service interval ≫= λ again : bool,
      if again then monitorDBHealth n c p service interval else mret false
  end.

(** How [main] ends: it returns, or [logger.Fatal] exits the process. *)
Inductive exit_status : Type := MainReturned | FatalExit.

Definition fatal (m : string) (err : go_error) : go exit_status :=
  zap_log Fatal_ m [ZError err] ≫= λ _, mret FatalExit.

(** [if err != nil { logger.Fatal(m, ...) }] and the code after it. *)
Definition or_fatal {A} (m : string) (r : option A * option go_error) (k : option A → go exit_status) :
    go exit_status :=
  match r with
  | (_, Some err) => fatal m err
  | (a, None) => k a
  end.

(** Dynamic credentials when Vault is configured: the client and the URL. *)
Definition vault_setup (c : ctx) (useVault : bool) (addr token role url : string)
    (build : vault.DBCreds → string) (k : option nat → string → go exit_status) : go exit_status :=
  if useVault then
    zap_log Info_ "fetching database credentials from Vault"
      [ZString "addr" addr; ZString "role" role] ≫= λ _,
    v ← vault.New addr token;
    or_fatal "failed to create vault client" v (λ vc,
    r ← vault.GetDBCreds c role;
    or_fatal "failed to get db creds from vault" r (λ creds,
    creds ← deref creds;
    zap_log Info_ "dynamic db credentials obtained"
      [ZString "username" (vault.Username creds);
       ZDuration "lease_duration" (vault.LeaseDuration creds)] ≫= λ _,
    k vc (build creds)))
  else k None url.

(** The callback that rotates the pool. *)
Definition rotate_pool (c : ctx) (cfg : PoolSettings) (build : vault.DBCreds → string)
    (setPool : option pool → go unit) (creds : vault.DBCreds) : go unit :=
  let newURL := build creds in
  zap_log Info_ "vault credentials refreshed, rotating pool"
    [ZString "username" (vault.Username creds)] ≫= λ _,
  '(p, err) ← newPool c newURL cfg;
  match err with
  | Some err => zap_log Error_ "failed to create new pool after credential refresh" [ZError err]
  | None => setPool p
  end.

(** [http.ErrServerClosed]. *)
Definition ErrServerClosed : go_error := ErrText "http: Server closed".

(** The goroutines [main] starts, each for at most [n] turns of its loop;
    [true] when it would still run.  [logger.Sugar().Warnw] is the refresher's
    log function. *)
Definition goroutine (refreshFn : vault.DBCreds → go unit) (n : nat) (c : ctx) (t : thread) :
    go bool :=
  match t with
  | GoCredentialRefresher role =>
      vault.refresher n c role (Some refreshFn)
        (Some (λ m err, zap_log Warn_ m [ZError err]))
  | GoMonitorDBHealth p service interval => monitorDBHealth n c p service interval
  | GoServeMetrics port =>
      zap_log Info_ "serving metrics" [ZString "port" port] ≫= λ _,
      e ← gocall (HttpListenAndServe (":" +:+ port));
      match e with
      | Some err =>
          if bool_decide (err = ErrServerClosed) then mret false
          else zap_log Warn_ "metrics server error" [ZError err] ≫= λ _, mret false
      | None => mret false
      end
  | GoServeGRPC =>
      addr ← gocall LisAddr;
      zap_log Info_ "serving gRPC" [ZString "address" addr] ≫= λ _,
      e ← gocall GrpcServe;
      match e with
      | Some err => fatal "failed to serve" err ≫= λ _, mret false
      | None => mret false
      end
  end.

End Common.

Module UserMain.
Import Common.

Definition recoveryInterceptor : UnaryServerInterceptor := Grpc.recoveryInterceptor.
Definition loggingInterceptor : UnaryServerInterceptor := Grpc.loggingInterceptor.
Definition newPool : ctx → string → PoolSettings → go (goret pool) := Common.newPool.

Definition buildDatabaseURL (creds : vault.DBCreds) : string :=
  "postgres://" +:+ vault.Username creds +:+ ":" +:+ vault.Password creds +:+
  "@user-db:5432/users?sslmode=disable".

Definition monitorDBHealth (n : nat) (c : ctx) (p : pool) (interval : Z) : go bool :=
  Common.monitorDBHealth n c p "user.v1.UserService" interval.

(** The callback of the credential refresher. *)
Definition refreshFn (c : ctx) (cfg : UserConfig.Config) : vault.DBCreds → go unit :=
  rotate_pool c (UserConfig.Pool_ cfg) buildDatabaseURL UserRepository.SetPool.

Definition goroutine (n : nat) (c : ctx) (cfg : UserConfig.Config) : thread → go bool :=
  Common.goroutine (refreshFn c cfg) n c.

Definition callbacks (p : pool) : list shutdown.Callback :=
  [shutdown.mkCallback "gRPC server" (λ c, gocall GrpcGracefulStop ≫= λ _, mret None);
   shutdown.mkCallback "OpenTelemetry" otel.Shutdown;
   shutdown.mkCallback "metrics server" (λ c, gocall (HttpShutdown c));
   shutdown.mkCallback "database pool" (λ c, gocall (PoolClose p) ≫= λ _, mret None)].

(** From the listening socket on. *)
Definition serve (c : ctx) (cfg : UserConfig.Config) (p : pool) : go exit_status :=
  otel.MetricsHandler ≫= λ _,
  gocall (GoSpawn (GoServeMetrics (UserConfig.MetricsPort cfg))) ≫= λ _,
  e ← gocall (NetListen (":" +:+ UserConfig.Port cfg));
  match e with
  | Some err => fatal "failed to listen" err
  | None =>
      gocall (GoSpawn GoServeGRPC) ≫= λ _,
      shutdown.Graceful c (30 * Second) (callbacks p) ≫= λ _,
      (* the deferred calls of main *)
      gocall (PoolClose p) ≫= λ _,
      gocall ZapSync ≫= λ _,
      mret MainReturned
  end.

(** With a pool: migrations, the server and its helpers. *)
Definition start (c : ctx) (cfg : UserConfig.Config) (vc : option nat) (p : pool) : go exit_status :=
  e ← migrations.Up c p;
  match e with
  | Some err => fatal "failed to run migrations" err
  | None =>
      zap_log Info_ "database migrations applied" [] ≫= λ _,
      UserRepository.NewUserRepository (Some p) ≫= λ _,
      (match vc with
       | Some _ => vault.StartCredentialRefresher (UserConfig.VaultDBRole cfg)
       | None => mret tt
       end) ≫= λ _,
      creds ← tls.LoadServerConfig (UserConfig.CertFile cfg) (UserConfig.KeyFile cfg)
                (UserConfig.CAFile cfg);
      or_fatal "failed to load TLS config" creds (λ creds,
      gocall (GrpcNewServer creds) ≫= λ _,
      gocall (GrpcRegister (ServiceName userv1_grpc.UserService_ServiceDesc)) ≫= λ _,
      gocall (GrpcRegister "grpc.health.v1.Health") ≫= λ _,
      gocall (SetServingStatus "user.v1.UserService" true) ≫= λ _,
      gocall (GoSpawn (GoMonitorDBHealth p "user.v1.UserService" (15 * Second))) ≫= λ _,
      gocall (GrpcRegister "grpc.reflection.v1.ServerReflection") ≫= λ _,
      serve c cfg p)
  end.

Definition main : go exit_status :=
  cfg ← UserConfig.LoadConfig;
  e ← log.New (UserConfig.LogLevel cfg);
  match e with
  | Some err => Panic "invalid memory address or nil pointer dereference" (* a nil logger's Fatal *)
  | None =>
      zap_log Info_ "starting user-service" [ZString "port" (UserConfig.Port cfg)] ≫= λ _,
      let c := CtxBackground in
      e ← otel.New "user-service" (UserConfig.OTLPEndpoint cfg);
      match e with
      | Some err => fatal "failed to init OpenTelemetry" err
      | None =>
          vault_setup c (UserConfig.UseVault cfg) (UserConfig.VaultAddr cfg)
            (UserConfig.VaultToken cfg) (UserConfig.VaultDBRole cfg) (UserConfig.DatabaseURL cfg)
            buildDatabaseURL (λ vc url,
          p ← newPool c url (UserConfig.Pool_ cfg);
          or_fatal "failed to connect to database" p (λ p,
          p ← deref p;
          start c cfg vc p))
      end
  end.

End UserMain.

Module OrderMain.
Import Common.

Definition recoveryInterceptor : UnaryServerInterceptor := Grpc.recoveryInterceptor.
Definition loggingInterceptor : UnaryServerInterceptor := Grpc.loggingInterceptor.
Definition newPool : ctx → string → PoolSettings → go (goret pool) := Common.newPool.

Definition buildDatabaseURL (creds : vault.DBCreds) : string :=
  "postgres://" +:+ vault.Username creds +:+ ":" +:+ vault.Password creds +:+
  "@order-db:5432/orders?sslmode=disable".

Definition monitorDBHealth (n : nat) (c : ctx) (p : pool) (interval : Z) : go bool :=
  Common.monitorDBHealth n c p "order.v1.OrderService" interval.

Definition refreshFn (c : ctx) (cfg : OrderConfig.Config) : vault.DBCreds → go unit :=
  rotate_pool c (OrderConfig.Pool_ cfg) buildDatabaseURL OrderRepository.SetPool.

Definition goroutine (n : nat) (c : ctx) (cfg : OrderConfig.Config) : thread → go bool :=
  Common.goroutine (refreshFn c cfg) n c.

Definition callbacks (p : pool) : list shutdown.Callback :=
  [shutdown.mkCallback "gRPC server" (λ c, gocall GrpcGracefulStop ≫= λ _, mret None);
   shutdown.mkCallback "OpenTelemetry" otel.Shutdown;
   shutdown.mkCallback "metrics server" (λ c, gocall (HttpShutdown c));
   shutdown.mkCallback "database pool" (λ c, gocall (PoolClose p) ≫= λ _, mret None);
   shutdown.mkCallback "redis client" (λ c, gocall RedisClose)].

Definition serve (c : ctx) (cfg : OrderConfig.Config) (p : pool) (conn : nat) : go exit_status :=
  otel.MetricsHandler ≫= λ _,
  gocall (GoSpawn (GoServeMetrics (OrderConfig.MetricsPort cfg))) ≫= λ _,
  e ← gocall (NetListen (":" +:+ OrderConfig.Port cfg));
  match e with
  | Some err => fatal "failed to listen" err
  | None =>
      gocall (GoSpawn GoServeGRPC) ≫= λ _,
      shutdown.Graceful c (30 * Second) (callbacks p) ≫= λ _,
      UserClientConn.Close conn ≫= λ _,
      gocall (PoolClose p) ≫= λ _,
      gocall ZapSync ≫= λ _,
      mret MainReturned
  end.

(** With a pool and the migrations applied: Redis, the user client, the server. *)
Definition start (c : ctx) (cfg : OrderConfig.Config) (vc : option nat) (p : pool) : go exit_status :=
  e ← gocall (RedisParseURL (OrderConfig.RedisURL cfg));
  match e with
  | Some err => fatal "failed to parse redis URL" err
  | None =>
      e ← gocall (RedisPing c);
      (match e with
       | Some err => zap_log Warn_ "redis not available, continuing without cache" [ZError err]
       | None => mret tt
       end) ≫= λ _,
      u ← UserClientConn.NewUserClient (OrderConfig.UserServiceAddr cfg) (OrderConfig.CAFile cfg)
            (OrderConfig.CertFile cfg) (OrderConfig.KeyFile cfg);
      or_fatal "failed to create user client" u (λ conn,
      conn ← deref conn;
      OrderRepository.NewOrderRepository (Some p) true ≫= λ repo,
      (match vc with
       | Some _ => vault.StartCredentialRefresher (OrderConfig.VaultDBRole cfg)
       | None => mret tt
       end) ≫= λ _,
      creds ← tls.LoadServerConfig (OrderConfig.CertFile cfg) (OrderConfig.KeyFile cfg)
                (OrderConfig.CAFile cfg);
      or_fatal "failed to load TLS config" creds (λ creds,
      gocall (GrpcNewServer creds) ≫= λ _,
      gocall (GrpcRegister (ServiceName orderv1_grpc.OrderService_ServiceDesc)) ≫= λ _,
      gocall (GrpcRegister "grpc.health.v1.Health") ≫= λ _,
      gocall (SetServingStatus "order.v1.OrderService" true) ≫= λ _,
      gocall (GoSpawn (GoMonitorDBHealth p "order.v1.OrderService" (15 * Second))) ≫= λ _,
      gocall (GrpcRegister "grpc.reflection.v1.ServerReflection") ≫= λ _,
      serve c cfg p conn))
  end.

Definition main : go exit_status :=
  cfg ← OrderConfig.LoadConfig;
  e ← log.New (OrderConfig.LogLevel cfg);
  match e with
  | Some err => Panic "invalid memory address or nil pointer dereference"
  | None =>
      zap_log Info_ "starting order-service"
        [ZString "port" (OrderConfig.Port cfg);
         ZString "user_service_addr" (OrderConfig.UserServiceAddr cfg)] ≫= λ _,
      let c := CtxBackground in
      e ← otel.New "order-service" (OrderConfig.OTLPEndpoint cfg);
      match e with
      | Some err => fatal "failed to init OpenTelemetry" err
      | None =>
          vault_setup c (OrderConfig.UseVault cfg) (OrderConfig.VaultAddr cfg)
            (OrderConfig.VaultToken cfg) (OrderConfig.VaultDBRole cfg) (OrderConfig.DatabaseURL cfg)
            buildDatabaseURL (λ vc url,
          p ← newPool c url (OrderConfig.Pool_ cfg);
          or_fatal "failed to connect to database" p (λ p,
          p ← deref p;
          e ← migrations.Up c p;
          match e with
          | Some err => fatal "failed to run migrations" err
          | None =>
              zap_log Info_ "database migrations applied" [] ≫= λ _,
              start c cfg vc p
          end))
      end
  end.

End OrderMain.
