(* ===== verification/LifecycleProofs.v ===== *)
(** * Properties of the process life cycle

    Shutdown runs every callback, the health monitor reports what the last
    ping said, a rotation swaps the pool under the lock and closes the old
    one, and a server that serves was built with the credentials of the
    configured files. *)
From S2P Require Import Prelude.
From S2P Require Import GoStrings.
From S2P Require Import Proto.
From S2P Require Import GoRuntime.
From S2P Require Import External.
From S2P Require Import Grpc.
From S2P Require Import GrpcStubs.
From S2P Require Import Stores.
From S2P Require Import UserService.
From S2P Require Import OrderService.
From S2P Require Import OrderProofs.
From S2P Require Import Transport.
From S2P Require Import Vault.
From S2P Require Import Config.
From S2P Require Import Migrations.
From S2P Require Import Lifecycle.

(** Takes the call [He] starts with off its trace. *)
Ltac exec_step He r tr :=
  lazymatch type of He with
  | exec (mbind ?f (@GoRuntime.call _ _ ?c)) ?t ?o =>
      let H := fresh in
      assert (∃ (x : extres c) l, t = Ev c x :: l ∧ exec (f x) l o) as H by exact He;
      clear He; destruct H as (r & tr & -> & He); cbv beta in He
  end.

(** ** Shutdown *)

(** The part of a trace one callback accounts for. *)
Definition callback_ran (timeout : Z) (cb : shutdown.Callback) (tr : list gevent) : Prop :=
  ∃ e tr1 log, let c := CtxWithTimeout CtxBackground timeout in
    exec (shutdown.Func cb c) tr1 (Returned e) ∧
    tr = Ev (StdLog ("shutdown: " +:+ shutdown.Name cb)) tt :: tr1 ++ log ++ [Ev (CtxCancel c) tt] ∧
    match e with
    | Some err => log = [Ev (StdLog ("shutdown " +:+ shutdown.Name cb +:+ ": " +:+ Error err)) tt]
    | None => log = []
    end.

Definition returns {A} (p : go A) : Prop := ∀ tr o, exec p tr o → ∃ a, o = Returned a.

Lemma run_callbacks_exec timeout cbs tr o :
  Forall (λ cb, ∀ c, returns (shutdown.Func cb c)) cbs →
  exec (shutdown.run_callbacks timeout cbs) tr o →
  o = Returned tt ∧ ∃ segs, tr = concat segs ∧ Forall2 (callback_ran timeout) cbs segs.
Proof.
  intros Hcb. revert tr. induction Hcb as [|cb cbs Hf Hcb IH]; intros tr He;
    cbn [shutdown.run_callbacks] in He; unfold ctx_cancel in He.
  { destruct He as [-> ->]. split; [done|]. by exists []. }
  exec_step He u tr1. destruct u.
  apply exec_bind in He as [(t1 & e & t2 & -> & Hrun & He)|(s & Hrun & ->)].
  2: { by apply Hf in Hrun as [? ?]. }
  apply exec_bind in He as [(t3 & [] & t4 & -> & Hlog & He)|(s & Hlog & ->)].
  2: { destruct e; [by apply go_exec_call in Hlog as (? & _ & ?)|by destruct Hlog]. }
  exec_step He u t5. destruct u. apply IH in He as (-> & segs & -> & Hsegs).
  split; [done|]. eexists (_ :: segs). split.
  2: { constructor; [|done]. exists e, t1, t3. cbn. split; [done|]. split; [done|].
       destruct e as [err|]; [|by destruct Hlog as [-> _]].
       by apply go_exec_call in Hlog as ([] & -> & _). }
  cbn. f_equal. by rewrite <-!app_assoc.
Qed.

(** C34: If its callbacks return, Graceful returns after one wait for a signal or
    cancellation, having run every callback exactly once, in order, each with a fresh
    context with the given timeout that is released afterwards, and logged every error. *)
Theorem Graceful_runs_all c timeout cbs tr o :
  Forall (λ cb, ∀ c, returns (shutdown.Func cb c)) cbs →
  exec (shutdown.Graceful c timeout cbs) tr o →
  o = Returned tt ∧
  ∃ sig log segs, tr = Ev (WaitSignalOrDone c) sig :: log ++ concat segs ∧
    length log ≤ 1 ∧ Forall2 (callback_ran timeout) cbs segs.
Proof.
  intros Hcb He. unfold shutdown.Graceful in He. exec_step He sg tr1.
  apply exec_bind in He as [(t1 & [] & t2 & -> & Hlog & He)|(s & Hlog & ->)].
  2: { destruct sg; [by apply go_exec_call in Hlog as (? & _ & ?)|by destruct Hlog]. }
  apply run_callbacks_exec in He as (-> & segs & -> & Hsegs); [|done]. split; [done|].
  exists sg, t1, segs. split; [done|]. split; [|done].
  destruct sg; [apply go_exec_call in Hlog as (? & -> & _)|destruct Hlog as [-> _]]; cbn; lia.
Qed.

(** otel.Shutdown shuts the tracer provider down first, and the meter provider only if
    that succeeded; it returns the first error. *)
Theorem otel_Shutdown_order c tr o :
  exec (otel.Shutdown c) tr o →
  (∃ e, tr = [Ev (TracerShutdown c) (Some e)] ∧ o = Returned (Some e)) ∨
  (∃ r, tr = [Ev (TracerShutdown c) None; Ev (MeterShutdown c) r] ∧ o = Returned r).
Proof.
  intros ([e|] & tr1 & -> & He).
  - destruct He as [-> ->]. left. by exists e.
  - destruct He as ([e|] & tr2 & -> & He); destruct He as [-> ->]; right; by eexists.
Qed.

(** ** The health monitor *)

(** One turn that did not stop: a ping, and the status it justifies. *)
Definition health_turn (c : ctx) (p : pool) (service : string) (interval : Z) (tr : list gevent) : Prop :=
  ∃ err log, tr = [Ev (SelectDoneOrTick c interval) false;
                   Ev (PoolPing p (CtxWithTimeout c (5 * Second))) err;
                   Ev (CtxCancel (CtxWithTimeout c (5 * Second))) tt] ++ log ++
                  [Ev (SetServingStatus service (bool_decide (err = None))) tt] ∧
    log = match err with
          | Some e => [Ev (ZapLog Warn_ "database health check failed" [ZError e]) tt]
          | None => []
          end.

Lemma monitor_once_exec c p service interval tr o :
  exec (Common.monitor_once c p service interval) tr o →
  (o = Returned false ∧ tr = [Ev (SelectDoneOrTick c interval) true]) ∨
  (o = Returned true ∧ health_turn c p service interval tr).
Proof.
  intros ([|] & tr1 & -> & He).
  - destruct He as [-> ->]. by left.
  - destruct He as (err & tr2 & -> & [] & tr3 & -> & He). right.
    destruct err as [e|].
    + destruct He as ([] & tr4 & -> & [] & tr5 & -> & -> & ->).
      split; [done|]. by exists (Some e), [Ev (ZapLog Warn_ "database health check failed" [ZError e]) tt].
    + destruct He as ([] & tr4 & -> & -> & ->). split; [done|]. by exists None, [].
Qed.

(** Each turn of the health monitor pings the pool once and reports the result; it stops
    exactly when the context is done. *)
Theorem monitorDBHealth_reports n c p service interval tr o :
  exec (Common.monitorDBHealth n c p service interval) tr o →
  ∃ segs, Forall (health_turn c p service interval) segs ∧
    ((o = Returned true ∧ length segs = n ∧ tr = concat segs) ∨
     (o = Returned false ∧ length segs < n ∧
      tr = concat segs ++ [Ev (SelectDoneOrTick c interval) true])).
Proof.
  revert tr. induction n as [|n IH]; intros tr He; cbn [Common.monitorDBHealth] in He.
  { destruct He as [-> ->]. exists []. split; [constructor|]. by left. }
  apply exec_bind in He as [(t1 & b & t2 & -> & Ho & He)|(s & Ho & ->)];
    apply monitor_once_exec in Ho as [[Ho Ht]|[Ho Ht]]; try done; injection Ho as ->.
  - destruct He as [-> ->]. exists []. split; [constructor|]. right. subst t1. cbn.
    split_and!; [done|lia|done].
  - apply IH in He as (segs & Hs & Hr). exists (t1 :: segs). split; [by constructor|].
    destruct Hr as [(-> & <- & ->)|(-> & Hlt & ->)]; [left|right]; cbn.
    + done.
    + split_and!; [done|lia|by rewrite app_assoc].
Qed.

(** ** Rotation *)

Lemma SetPool_exec new tr o :
  exec (UserRepository.SetPool new) tr o →
  o = Returned tt ∧ ∃ old, tr = [Ev MuLock tt; Ev LoadPool old; Ev (StorePool new) tt] ++
    match old with Some p => [Ev (PoolClose p) tt] | None => [] end ++ [Ev MuUnlock tt].
Proof.
  intros ([] & t1 & -> & old & t2 & -> & [] & t3 & -> & He). fold (@with_defer extcall extres) in He.
  destruct old as [p|].
  - destruct He as ([] & t4 & -> & [] & t5 & -> & -> & ->). split; [done|]. by exists (Some p).
  - destruct He as ([] & t4 & -> & -> & ->). split; [done|]. by exists None.
Qed.

(** SetPool returns, and under the write lock replaces the pool and then closes the
    pool that was there, and no other. *)
Theorem SetPool_rotates new tr o :
  exec (UserRepository.SetPool new) tr o ∨ exec (OrderRepository.SetPool new) tr o →
  o = Returned tt ∧ ∃ old, tr = [Ev MuLock tt; Ev LoadPool old; Ev (StorePool new) tt] ++
    match old with Some p => [Ev (PoolClose p) tt] | None => [] end ++ [Ev MuUnlock tt].
Proof. change OrderRepository.SetPool with UserRepository.SetPool. intros [He|He]; by apply SetPool_exec. Qed.

(** ** Credential rotation *)

(** The pool configuration [newPool] makes of a URL and the settings. *)
Definition configured (url : string) (s : PoolSettings) : pool_config :=
  mkPoolConfig url (DBPoolMaxConns s) (DBPoolMinConns s) (DBPoolMaxConnLifetime s)
    (DBPoolMaxConnIdleTime s) (DBPoolHealthCheckPeriod s).

Definition ev_call (e : gevent) : extcall := let '(Ev c _) := e in c.

(** Calls that neither replace nor close a pool. *)
Definition not_rotating (c : extcall) : Prop :=
  match c with StorePool _ | PoolClose _ => False | _ => True end.

Lemma calls_only_in {A} P (p : go A) tr o c r :
  calls_only P p → exec p tr o → Ev c r ∈ tr → P c.
Proof.
  intros Hp He Hin. pose proof (calls_only_exec _ _ _ _ Hp He) as Hall.
  rewrite Forall_forall in Hall. exact (Hall _ Hin).
Qed.

Lemma newPool_exec c url cfg tr o :
  exec (Common.newPool c url cfg) tr o →
  ∃ p err, o = Returned (p, err) ∧
    match err with
    | None => ∃ q, p = Some q ∧ Ev (PgxNewWithConfig c (configured url cfg)) (Ok q) ∈ tr
    | Some _ => True
    end.
Proof.
  unfold Common.newPool, zap_log. intros ([e|] & t1 & -> & He).
  { destruct He as [-> ->]. by eexists _, _. }
  cbn in He. destruct He as ([] & t2 & -> & [q|e] & t3 & -> & -> & ->); eexists _, _;
    (split; [done|]); [|done].
  exists q. split; [done|]. in_trace.
Qed.

Lemma newPool_not_rotating c url cfg : calls_only not_rotating (Common.newPool c url cfg).
Proof. unfold Common.newPool, zap_log. repeat calls_only_step; done. Qed.

(** Looks an event up in the explicit part of a trace. *)
Ltac in_explicit H :=
  repeat (apply elem_of_cons in H as [H|H]; [apply (f_equal ev_call) in H; cbn in H; simplify_eq|]);
  try (by apply elem_of_nil in H).

Lemma rotate_pool_exec c cfg build cr tr o :
  exec (Common.rotate_pool c cfg build UserRepository.SetPool cr) tr o →
  o = Returned tt ∧
  (∀ q, Ev (StorePool q) tt ∈ tr →
     ∃ p, q = Some p ∧ Ev (PgxNewWithConfig c (configured (build cr) cfg)) (Ok p) ∈ tr) ∧
  (∀ p, Ev (PoolClose p) tt ∈ tr → Ev LoadPool (Some p) ∈ tr).
Proof.
  unfold Common.rotate_pool, zap_log. intros He. exec_step He u t1. destruct u.
  apply exec_bind in He as [(t2 & [p err] & t3 & -> & Hn & He)|(s & Hn & ->)].
  2: { by apply newPool_exec in Hn as (? & ? & [=] & _). }
  pose proof (λ c' r, calls_only_in _ _ _ _ c' r (newPool_not_rotating _ _ _) Hn) as Hno.
  apply newPool_exec in Hn as (p' & err' & Ho & Hn). injection Ho as <- <-.
  destruct err as [e|].
  { apply go_exec_call in He as ([] & -> & ->). split; [done|].
    split; (intros q Hin; in_explicit Hin; apply elem_of_app in Hin as [Hin|Hin];
      [by apply Hno in Hin|in_explicit Hin]). }
  destruct Hn as (q & -> & Hq). apply SetPool_exec in He as (-> & old & ->).
  split; [done|]. split; intros q' Hin; in_explicit Hin; apply elem_of_app in Hin as [Hin|Hin];
    try by apply Hno in Hin.
  - exists q. split; [|right; apply elem_of_app; by left].
    destruct old; cbn in Hin; in_explicit Hin; done.
  - destruct old as [p'|]; cbn in Hin; in_explicit Hin.
    right. apply elem_of_app. right. in_trace.
Qed.

(** The pool is only ever replaced by one made for credentials just read for
    [role], and only the pool it replaces is closed. *)
Definition rotates (c : ctx) (role : string) (cfg : PoolSettings) (build : vault.DBCreds → string)
    (tr : list gevent) : Prop :=
  (∀ q, Ev (StorePool q) tt ∈ tr → ∃ p s cr, q = Some p ∧
     Ev (VaultRead c ("database/creds/" +:+ role)) (Ok (Some s)) ∈ tr ∧ creds_in s cr ∧
     Ev (PgxNewWithConfig c (configured (build cr) cfg)) (Ok p) ∈ tr) ∧
  (∀ p, Ev (PoolClose p) tt ∈ tr → Ev LoadPool (Some p) ∈ tr).

Lemma rotates_nil c role cfg build : rotates c role cfg build [].
Proof. split; intros ? Hin; by apply elem_of_nil in Hin. Qed.

Lemma rotates_app c role cfg build tr tr' :
  rotates c role cfg build tr → rotates c role cfg build tr' → rotates c role cfg build (tr ++ tr').
Proof.
  intros [H1 H2] [H3 H4]. split.
  - intros q [Hin|Hin]%elem_of_app; [apply H1 in Hin|apply H3 in Hin];
      destruct Hin as (p & s & cr & ? & ? & ? & ?); exists p, s, cr; rewrite !elem_of_app; auto.
  - intros p [Hin|Hin]%elem_of_app; rewrite elem_of_app; auto.
Qed.

(** The callbacks [main] gives the refresher. *)
Definition refresh_callbacks (c : ctx) (cfg : PoolSettings) (build : vault.DBCreds → string) :
    (vault.DBCreds → go unit) * (string → go_error → go unit) :=
  (Common.rotate_pool c cfg build UserRepository.SetPool, λ m err, zap_log Warn_ m [ZError err]).

Lemma turn_rotates c role cfg build tr again :
  turn c role (refresh_callbacks c cfg build).1 (refresh_callbacks c cfg build).2 tr again →
  rotates c role cfg build tr.
Proof.
  intros (r & tr1 & d & pause & -> & Hpause & Hturn).
  assert (not_rotating (ev_call pause)) as Hp.
  { destruct pause as [[] ?]; cbn in Hpause |- *; done. }
  assert (∀ c' x, Ev c' x ∈ Ev (VaultRead c ("database/creds/" +:+ role)) r :: tr1 ++ [pause] →
    ¬ not_rotating c' → Ev c' x ∈ tr1) as Hin.
  { intros c' x Hx Hnot. apply elem_of_cons in Hx as [Hx|Hx].
    - apply (f_equal ev_call) in Hx. cbn in Hx. subst c'. by destruct Hnot.
    - apply elem_of_app in Hx as [Hx|Hx]; [done|]. apply list_elem_of_singleton in Hx.
      by subst pause. }
  destruct Hturn as [(s & cr & -> & Hcr & He & _)|(_ & _ & e & He)].
  - apply rotate_pool_exec in He as (_ & Hst & Hcl). split.
    + intros q Hq. apply Hin in Hq; [|by intros []]. apply Hst in Hq as (p & -> & Hp').
      exists p, s, cr. split; [done|]. split; [by left|]. split; [done|].
      right. apply elem_of_app. by left.
    + intros p Hq. apply Hin in Hq; [|by intros []]. right. apply elem_of_app. left. by apply Hcl.
  - apply go_exec_call in He as ([] & -> & _).
    split; intros q Hq; apply Hin in Hq; [|by intros []| |by intros []]; in_explicit Hq.
Qed.

Lemma refresher_rotates c role cfg build n tr o :
  exec (vault.refresher n c role (Some (refresh_callbacks c cfg build).1)
          (Some (refresh_callbacks c cfg build).2)) tr o →
  (∃ b, o = Returned b) ∧ rotates c role cfg build tr.
Proof.
  intros He. apply refresher_exec in He as (b & k & -> & _ & _ & Ht).
  - split; [by eexists|]. clear n. induction Ht as [|tr Ht|k tr tr' b Ht _ IH].
    + apply rotates_nil.
    + by eapply turn_rotates.
    + apply rotates_app; [by eapply turn_rotates|done].
  - intros cr tr' o' Hr. by apply rotate_pool_exec in Hr as [-> _].
  - intros m e tr' o' Hr. by apply go_exec_call in Hr as ([] & _ & ->).
Qed.

(** C32: However long the credential refresher of either service runs with the callbacks
    main gives it, and whatever the calls answer, it does not panic; the pool is
    replaced only by a pool that was just created, with the configured sizes, for the
    URL of credentials Vault returned for the role, and only a pool that was the current
    one is closed. *)
Theorem credential_rotation n c role tr o :
  (∀ cfg, exec (UserMain.goroutine n c cfg (GoCredentialRefresher role)) tr o →
     (∃ b, o = Returned b) ∧
     rotates c role (UserConfig.Pool_ cfg) UserMain.buildDatabaseURL tr) ∧
  (∀ cfg, exec (OrderMain.goroutine n c cfg (GoCredentialRefresher role)) tr o →
     (∃ b, o = Returned b) ∧
     rotates c role (OrderConfig.Pool_ cfg) OrderMain.buildDatabaseURL tr).
Proof. split; intros cfg He; by eapply refresher_rotates. Qed.

(** ** Start-up order *)

Definition ev_serves (e : gevent) : Prop := let '(Ev c _) := e in c = GoSpawn GoServeGRPC.
Definition not_serve (c : extcall) : Prop :=
  c ≠ GoSpawn GoServeGRPC ∧ ∀ creds, c ≠ GrpcNewServer creds.

Definition ev_new_server (creds : option transport_creds) (e : gevent) : Prop :=
  let '(Ev c _) := e in c = GrpcNewServer creds.

(** The only server was built with these credentials. *)
Definition built_with (creds : option transport_creds) (tr : list gevent) : Prop :=
  Exists (ev_new_server creds) tr ∧ ∀ creds', Exists (ev_new_server creds') tr → creds' = creds.

(** The server was built with mutual TLS from the given files, unless the CA file
    held no certificate. *)
Definition server_secured (certFile keyFile caFile : string) (tr : list gevent) : Prop :=
  ∃ creds cert ca, built_with creds tr ∧
    ((∃ cfg, creds = Some (CredsTLS cfg) ∧ server_mtls cfg cert ca ∧
        files_read certFile keyFile caFile cert ca true tr) ∨
     (creds = None ∧ files_read certFile keyFile caFile cert ca false tr)).

(** A setting is the value of its variable in the environment, or its default. *)
Definition from_environment (tr : list gevent) (k d v : string) : Prop :=
  ∃ x, Ev (OsGetenv k) x ∈ tr ∧ v = if str_eqb x "" then d else x.

(** The server of a process: its files are those the environment names. *)
Definition secured_by_environment (certDefault keyDefault caDefault : string) (tr : list gevent) : Prop :=
  ∃ certFile keyFile caFile,
    from_environment tr "TLS_CERT_FILE" certDefault certFile ∧
    from_environment tr "TLS_KEY_FILE" keyDefault keyFile ∧
    from_environment tr "TLS_CA_FILE" caDefault caFile ∧
    server_secured certFile keyFile caFile tr.

(** A part of an execution that builds and starts no server. *)
Lemma no_server {A} (p : go A) tr o : calls_only not_serve p → exec p tr o →
  ¬ Exists ev_serves tr ∧ ∀ creds, ¬ Exists (ev_new_server creds) tr.
Proof.
  intros Hp He. pose proof (calls_only_exec _ _ _ _ Hp He) as Hall. rewrite Forall_forall in Hall.
  split; [|intros creds]; intros Hx; apply Exists_exists in Hx as ([c r] & Hin & Hc);
    destruct (Hall _ Hin) as [H1 H2]; [done|by eapply H2].
Qed.

Lemma built_with_app creds tr1 tr2 :
  (∀ creds', ¬ Exists (ev_new_server creds') tr1) → built_with creds tr2 → built_with creds (tr1 ++ tr2).
Proof.
  intros Hno [Hb Hu]. split; [apply Exists_app; by right|].
  intros creds' [Hx|Hx]%Exists_app; [by apply Hno in Hx|by apply Hu].
Qed.

Lemma server_secured_app cf kf caf tr1 tr2 :
  (∀ creds', ¬ Exists (ev_new_server creds') tr1) →
  server_secured cf kf caf tr2 → server_secured cf kf caf (tr1 ++ tr2).
Proof.
  intros Hno (creds & cert & ca & Hb & Hc). exists creds, cert, ca. split; [by apply built_with_app|].
  destruct Hc as [(cfg & ? & ? & ?)|[? ?]]; [left; exists cfg|right];
    split_and!; try done; apply files_read_app; by right.
Qed.

(** Skips a part that does not build or start the server. *)
Lemma skip_setup {A B} cf kf caf (p : go A) (f : A → go B) tr o :
  calls_only not_serve p → exec (p ≫= f) tr o → Exists ev_serves tr →
  (∀ a tr2, exec (f a) tr2 o → Exists ev_serves tr2 → server_secured cf kf caf tr2) →
  server_secured cf kf caf tr.
Proof.
  intros Hp He Hs Hk. apply exec_bind in He as [(tr1 & a & tr2 & -> & H1 & H2)|(s & H1 & ->)];
    destruct (no_server _ _ _ Hp H1) as [Hno Hnn]; [|done].
  apply server_secured_app; [done|]. eapply Hk; [exact H2|]. by apply Exists_app in Hs as [?|?].
Qed.

Lemma or_fatal_serves {A} m (r : option A * option go_error) k tr o :
  exec (Common.or_fatal m r k) tr o → Exists ev_serves tr →
  ∃ a, r = (a, None) ∧ exec (k a) tr o.
Proof.
  destruct r as [a [e|]]; [|by eauto].
  intros (u & tr' & -> & -> & _) Hs. apply Exists_cons in Hs as [?|Hs]; [done|].
  by apply Exists_nil in Hs.
Qed.

Lemma tls_then_server cert key ca (k : option transport_creds → go Common.exit_status) tr o :
  (∀ creds, calls_only (λ c, ∀ creds, c ≠ GrpcNewServer creds) (k creds)) →
  exec (creds ← tls.LoadServerConfig cert key ca;
        Common.or_fatal "failed to load TLS config" creds (λ creds,
        gocall (GrpcNewServer creds) ≫= λ _, k creds)) tr o →
  Exists ev_serves tr → server_secured cert key ca tr.
Proof.
  intros Hk He Hs. apply exec_bind in He as [(tr1 & r & tr2 & -> & Hl & He)|(s & Hl & ->)];
    pose proof Hl as Hx; apply LoadServerConfig_exec in Hx; [|by inversion Hx].
  assert (calls_only not_serve (tls.LoadServerConfig cert key ca)) as Hc
    by (unfold tls.LoadServerConfig; repeat calls_only_step; done).
  destruct (no_server _ _ _ Hc Hl) as [Hno Hnn]. apply Exists_app in Hs as [Hs|Hs]; [done|].
  apply or_fatal_serves in He as (creds & -> & He); [|done].
  destruct He as (u & tr3 & -> & He). apply loads_creds in Hx as (crt & cac & Hx).
  exists creds, crt, cac. split.
  - apply built_with_app; [done|]. split; [by apply Exists_cons_hd|].
    intros creds' [[= <-]|Hx']%Exists_cons; [done|].
    pose proof (calls_only_exec _ _ _ _ (Hk creds) He) as Hall. rewrite Forall_forall in Hall.
    apply Exists_exists in Hx' as ([c r'] & Hin & Hev). by destruct (Hall _ Hin creds').
  - destruct Hx as [(cfg & -> & Hm & Hr)|[-> Hr]]; [left; exists cfg|right];
      split_and!; try done; apply files_read_app; by left.
Qed.

(** The parts of start-up that start no server. *)
Ltac setup_calls :=
  unfold UserConfig.LoadConfig, OrderConfig.LoadConfig, OrderConfig.load_pool_settings,
    OrderConfig.getEnv, OrderConfig.getEnvInt, OrderConfig.getEnvDuration,
    OrderConfig.loadVaultToken, load_pool_settings, getEnv, getEnvInt,
    getEnvDuration, loadVaultToken, log.New, otel.New, zap_log, UserMain.newPool, OrderMain.newPool,
    Common.newPool, vault.New, vault.GetDBCreds, vault.StartCredentialRefresher, migrations.Up,
    migrations.Up_fs, migrations.up_entry, UserClientConn.NewUserClient, tls.LoadClientConfig;
  repeat calls_only_step; done.

Lemma vault_setup_serves cf kf caf c use addr token role url build k tr o :
  exec (Common.vault_setup c use addr token role url build k) tr o → Exists ev_serves tr →
  (∀ vc url tr2, exec (k vc url) tr2 o → Exists ev_serves tr2 → server_secured cf kf caf tr2) →
  server_secured cf kf caf tr.
Proof.
  unfold Common.vault_setup. intros He Hs Hk. destruct use; [|by eauto].
  eapply skip_setup; [|exact He|done|]; [setup_calls|]. intros ? tr1 He1 Hs1.
  eapply skip_setup; [|exact He1|done|]; [setup_calls|]. intros v tr2 He2 Hs2.
  apply or_fatal_serves in He2 as (vc & -> & He2); [|done].
  eapply skip_setup; [|exact He2|done|]; [setup_calls|]. intros r tr3 He3 Hs3.
  apply or_fatal_serves in He3 as (creds & -> & He3); [|done].
  eapply skip_setup; [|exact He3|done|]; [setup_calls|]. intros cr tr4 He4 Hs4.
  eapply skip_setup; [|exact He4|done|]; [setup_calls|]. eauto.
Qed.

Lemma fatal_serves m e tr o : exec (Common.fatal m e) tr o → ¬ Exists ev_serves tr.
Proof.
  intros (u & tr' & -> & -> & _) Hs. apply Exists_cons in Hs as [?|Hs]; [done|].
  by apply Exists_nil in Hs.
Qed.

(** What follows the server's construction builds no other. *)
Ltac no_other_server :=
  intros; unfold UserMain.serve, OrderMain.serve, otel.MetricsHandler, Common.fatal, zap_log,
    shutdown.Graceful, UserMain.callbacks, OrderMain.callbacks, UserClientConn.Close, otel.Shutdown, ctx_cancel;
  cbn [shutdown.run_callbacks shutdown.Func]; repeat calls_only_step; done.

Lemma user_start_secured c cfg vc p tr o :
  exec (UserMain.start c cfg vc p) tr o → Exists ev_serves tr →
  server_secured (UserConfig.CertFile cfg) (UserConfig.KeyFile cfg) (UserConfig.CAFile cfg) tr.
Proof.
  unfold UserMain.start. intros He Hs.
  eapply skip_setup; [|exact He|done|]; [setup_calls|]. intros e tr1 He1 Hs1.
  destruct e as [e|]; [by eapply fatal_serves in He1|].
  eapply skip_setup; [|exact He1|done|]; [setup_calls|]. intros ? tr2 He2 Hs2.
  eapply skip_setup; [|exact He2|done|]; [setup_calls|]. intros ? tr3 He3 Hs3.
  eapply skip_setup; [|exact He3|done|]; [setup_calls|]. intros ? tr4 He4 Hs4.
  cbv beta in He4. eapply tls_then_server; [|exact He4|done]. no_other_server.
Qed.

Lemma order_start_secured c cfg vc p tr o :
  exec (OrderMain.start c cfg vc p) tr o → Exists ev_serves tr →
  server_secured (OrderConfig.CertFile cfg) (OrderConfig.KeyFile cfg) (OrderConfig.CAFile cfg) tr.
Proof.
  unfold OrderMain.start. intros He Hs.
  eapply skip_setup; [|exact He|done|]; [setup_calls|]. intros e tr1 He1 Hs1.
  destruct e as [e|]; [by eapply fatal_serves in He1|].
  eapply skip_setup; [|exact He1|done|]; [setup_calls|]. intros e tr2 He2 Hs2.
  eapply skip_setup; [|exact He2|done|]; [setup_calls|]. intros ? tr3 He3 Hs3.
  eapply skip_setup; [|exact He3|done|]; [setup_calls|]. intros u tr4 He4 Hs4.
  apply or_fatal_serves in He4 as (conn & -> & He4); [|done].
  eapply skip_setup; [|exact He4|done|]; [setup_calls|]. intros conn' tr5 He5 Hs5.
  eapply skip_setup; [|exact He5|done|]; [setup_calls|]. intros ? tr6 He6 Hs6.
  eapply skip_setup; [|exact He6|done|]; [setup_calls|]. intros ? tr7 He7 Hs7.
  cbv beta in He7. eapply tls_then_server; [|exact He7|done]. no_other_server.
Qed.

(** *** The files are those of the environment *)

Lemma getEnv_exec k d tr o : exec (getEnv k d) tr o → ∃ v, o = Returned v ∧ from_environment tr k d v.
Proof.
  intros (x & tr' & -> & He). cbn in He. destruct (negb (str_eqb x "")) eqn:E; destruct He as [_ ->];
    (eexists; split; [done|]); exists x; (split; [by left|]).
  - apply negb_true_iff in E. by rewrite E.
  - apply negb_false_iff in E. by rewrite E.
Qed.

Lemma from_environment_app tr1 tr2 k d v :
  from_environment tr1 k d v ∨ from_environment tr2 k d v → from_environment (tr1 ++ tr2) k d v.
Proof. intros [(x & Hx & ->)|(x & Hx & ->)]; exists x; rewrite elem_of_app; auto. Qed.

(** Reads one variable, or skips something else. *)
Lemma exec_setting {B} k d (f : string → go B) tr b :
  exec (getEnv k d ≫= f) tr (Returned b) →
  ∃ v tr1 tr2, tr = tr1 ++ tr2 ∧ from_environment tr1 k d v ∧ exec (f v) tr2 (Returned b).
Proof.
  intros He. apply exec_bind in He as [(tr1 & v & tr2 & -> & H1 & H2)|(s & _ & [=])].
  apply getEnv_exec in H1 as (v' & [= <-] & Hv). by exists v, tr1, tr2.
Qed.

Lemma exec_skip {A B} (p : go A) (f : A → go B) tr b :
  exec (p ≫= f) tr (Returned b) → ∃ a tr1 tr2, tr = tr1 ++ tr2 ∧ exec (f a) tr2 (Returned b).
Proof.
  intros He. apply exec_bind in He as [(tr1 & a & tr2 & -> & _ & H2)|(s & _ & [=])]. by exists a, tr1, tr2.
Qed.

Ltac read_settings H :=
  repeat first
    [ apply exec_setting in H as (? & ? & ? & -> & ? & H)
    | apply exec_skip in H as (? & ? & ? & -> & H) ];
  destruct H as [-> [= ->]].

Ltac find_setting :=
  first [assumption | apply from_environment_app; first [left; assumption | right; find_setting]].

(** The three file names that [LoadConfig] returns. *)
Definition files_configured (tr : list gevent) (certDefault keyDefault cf kf caf : string) : Prop :=
  from_environment tr "TLS_CERT_FILE" certDefault cf ∧
  from_environment tr "TLS_KEY_FILE" keyDefault kf ∧
  from_environment tr "TLS_CA_FILE" "certs/ca/ca.pem" caf.

Lemma user_files tr cfg : exec UserConfig.LoadConfig tr (Returned cfg) →
  files_configured tr "certs/user-service/cert.pem" "certs/user-service/key.pem"
    (UserConfig.CertFile cfg) (UserConfig.KeyFile cfg) (UserConfig.CAFile cfg).
Proof.
  unfold UserConfig.LoadConfig. intros He. read_settings He. cbn.
  split_and!; find_setting.
Qed.

Lemma order_files tr cfg : exec OrderConfig.LoadConfig tr (Returned cfg) →
  files_configured tr "certs/order-service/cert.pem" "certs/order-service/key.pem"
    (OrderConfig.CertFile cfg) (OrderConfig.KeyFile cfg) (OrderConfig.CAFile cfg).
Proof.
  unfold OrderConfig.LoadConfig, OrderConfig.getEnv. intros He. read_settings He. cbn.
  split_and!; find_setting.
Qed.

Lemma secured_after tr1 tr2 cd kd cf kf caf :
  (∀ creds', ¬ Exists (ev_new_server creds') tr1) →
  files_configured tr1 cd kd cf kf caf → server_secured cf kf caf tr2 →
  secured_by_environment cd kd "certs/ca/ca.pem" (tr1 ++ tr2).
Proof.
  intros Hno (H1 & H2 & H3) Hs. exists cf, kf, caf.
  split_and!; [apply from_environment_app; by left..|by apply server_secured_app].
Qed.

(** The server of user-service is secured. *)
Lemma user_main_secured tr o :
  exec UserMain.main tr o → Exists ev_serves tr →
  secured_by_environment "certs/user-service/cert.pem" "certs/user-service/key.pem" "certs/ca/ca.pem" tr.
Proof.
  unfold UserMain.main. intros He Hs.
  assert (calls_only not_serve UserConfig.LoadConfig) as Hc by setup_calls.
  apply exec_bind in He as [(tr0 & cfg & tr1 & -> & H0 & He1)|(s & H0 & ->)];
    destruct (no_server _ _ _ Hc H0) as [Hno Hnn]; [|done].
  apply Exists_app in Hs as [?|Hs1]; [done|].
  eapply secured_after; [done|by apply user_files|]. clear dependent tr0.
  eapply skip_setup; [|exact He1|done|]; [setup_calls|]. intros e tr2 He2 Hs2.
  destruct e as [e|]; [destruct He2 as [-> _]; by apply Exists_nil in Hs2|].
  eapply skip_setup; [|exact He2|done|]; [setup_calls|]. intros ? tr3 He3 Hs3.
  eapply skip_setup; [|exact He3|done|]; [setup_calls|]. intros e tr4 He4 Hs4.
  destruct e as [e|]; [by eapply fatal_serves in He4|].
  eapply vault_setup_serves; [exact He4|done|]. intros vc url tr5 He5 Hs5.
  eapply skip_setup; [|exact He5|done|]; [setup_calls|]. intros r tr6 He6 Hs6.
  apply or_fatal_serves in He6 as (p & -> & He6); [|done].
  eapply skip_setup; [|exact He6|done|]; [setup_calls|]. intros p' tr7 He7 Hs7.
  cbv beta in He7. eapply user_start_secured; [exact He7|done].
Qed.

(** The server of order-service is secured. *)
Lemma order_main_secured tr o :
  exec OrderMain.main tr o → Exists ev_serves tr →
  secured_by_environment "certs/order-service/cert.pem" "certs/order-service/key.pem" "certs/ca/ca.pem" tr.
Proof.
  unfold OrderMain.main. intros He Hs.
  assert (calls_only not_serve OrderConfig.LoadConfig) as Hc by setup_calls.
  apply exec_bind in He as [(tr0 & cfg & tr1 & -> & H0 & He1)|(s & H0 & ->)];
    destruct (no_server _ _ _ Hc H0) as [Hno Hnn]; [|done].
  apply Exists_app in Hs as [?|Hs1]; [done|].
  eapply secured_after; [done|by apply order_files|]. clear dependent tr0.
  eapply skip_setup; [|exact He1|done|]; [setup_calls|]. intros e tr2 He2 Hs2.
  destruct e as [e|]; [destruct He2 as [-> _]; by apply Exists_nil in Hs2|].
  eapply skip_setup; [|exact He2|done|]; [setup_calls|]. intros ? tr3 He3 Hs3.
  eapply skip_setup; [|exact He3|done|]; [setup_calls|]. intros e tr4 He4 Hs4.
  destruct e as [e|]; [by eapply fatal_serves in He4|].
  eapply vault_setup_serves; [exact He4|done|]. intros vc url tr5 He5 Hs5.
  eapply skip_setup; [|exact He5|done|]; [setup_calls|]. intros r tr6 He6 Hs6.
  apply or_fatal_serves in He6 as (p & -> & He6); [|done].
  eapply skip_setup; [|exact He6|done|]; [setup_calls|]. intros p' tr7 He7 Hs7.
  eapply skip_setup; [|exact He7|done|]; [setup_calls|]. intros e tr8 He8 Hs8.
  destruct e as [e|]; [by eapply fatal_serves in He8|].
  eapply skip_setup; [|exact He8|done|]; [setup_calls|]. intros ? tr9 He9 Hs9.
  cbv beta in He9. eapply order_start_secured; [exact He9|done].
Qed.

(** ** What the goroutines of [main] call *)

(** The calls outside the replacement of the pool pointer. *)
Definition background_call (c : extcall) : Prop :=
  match c with
  | VaultRead _ _ | SelectDoneOrAfter _ _ | PgxParseConfig _ | PgxNewWithConfig _ _
  | SelectDoneOrTick _ _ | PoolPing _ _ | CtxCancel _ | SetServingStatus _ _
  | HttpListenAndServe _ | LisAddr | GrpcServe | ZapLog _ _ _ => True
  | _ => False
  end.

Section Background.
Context (P : extcall → Prop) (HP : ∀ c, background_call c → P c).

Ltac background_step :=
  first [calls_only_step | by apply HP | progress unfold Common.fatal, ctx_cancel, zap_log | done].

Lemma rotate_pool_calls c cfg build setPool creds :
  (∀ p, calls_only P (setPool (Some p))) →
  calls_only P (Common.rotate_pool c cfg build setPool creds).
Proof.
  intros Hs. unfold Common.rotate_pool, Common.newPool, zap_log. cbn. split; [by apply HP|]. intros _.
  split; [by apply HP|]. intros [err|]; cbn; [by split; [apply HP|]|]. split; [by apply HP|]. intros _.
  split; [by apply HP|]. intros [p|err]; cbn; [apply Hs|by split; [apply HP|]].
Qed.

(** Whatever holds of those calls and of storing a new pool holds of all. *)
Lemma goroutine_calls c cfg build setPool n t :
  (∀ p, calls_only P (setPool (Some p))) →
  calls_only P (Common.goroutine (Common.rotate_pool c cfg build setPool) n c t).
Proof.
  intros Hs. destruct t as [role|p srv d|port|]; cbn [Common.goroutine].
  - induction n as [|n IH]; cbn [vault.refresher]; [done|].
    apply calls_only_bind; [|by intros []]. unfold vault.refresh_once, vault.GetDBCreds.
    repeat first [by apply rotate_pool_calls|background_step].
  - induction n as [|n IH]; cbn [Common.monitorDBHealth]; [done|].
    apply calls_only_bind; [|by intros []]. unfold Common.monitor_once. repeat background_step.
  - repeat background_step.
  - repeat background_step.
Qed.
End Background.

(** A goroutine whose result nobody reads. *)
Definition discard {A} (p : go A) : go unit := p ≫= λ _, mret tt.

(** ** Shutdown after a rotation *)

(** Only the pool [p] is closed. *)
Definition closes_only (p : pool) (c : extcall) : Prop := ∀ q, c = PoolClose q → q = p.

Ltac closes_step := first [calls_only_step | by intros ? [=] | by intros ? [= ->]].

Lemma run_callbacks_closes p timeout cbs :
  Forall (λ cb, ∀ c, calls_only (closes_only p) (shutdown.Func cb c)) cbs →
  calls_only (closes_only p) (shutdown.run_callbacks timeout cbs).
Proof.
  induction 1 as [|cb cbs Hcb _ IH]; cbn [shutdown.run_callbacks]; [done|]. unfold ctx_cancel.
  repeat first [apply Hcb|apply IH|closes_step].
Qed.

Lemma Shutdown_closes p c : calls_only (closes_only p) (otel.Shutdown c).
Proof. unfold otel.Shutdown. repeat closes_step. Qed.

Lemma serve_closes c p :
  (∀ cfg, calls_only (closes_only p) (UserMain.serve c cfg p)) ∧
  (∀ cfg conn, calls_only (closes_only p) (OrderMain.serve c cfg p conn)).
Proof.
  split; intros; unfold UserMain.serve, OrderMain.serve, otel.MetricsHandler, Common.fatal, shutdown.Graceful,
    UserClientConn.Close, zap_log;
    repeat first [lazymatch goal with
      | |- calls_only _ (shutdown.run_callbacks _ _) => apply run_callbacks_closes;
          repeat (apply Forall_cons; split; [intros ?|]); try apply Forall_nil_2; cbn [shutdown.Func]
      | |- calls_only _ (otel.Shutdown _) => apply Shutdown_closes
      end|closes_step].
Qed.

(** The pool that a rotation has put in place is never closed by the main of
    either service: its shutdown callback and its deferred call both close the
    pool main created. *)
Theorem rotated_pool_not_closed c p p' tr o :
  (∃ cfg, exec (UserMain.serve c cfg p) tr o) ∨ (∃ cfg conn, exec (OrderMain.serve c cfg p conn) tr o) →
  p' ≠ p → Ev (PoolClose p') tt ∉ tr.
Proof.
  destruct (serve_closes c p) as [Hu Ho]. intros Hx Hne Hin.
  apply Hne. destruct Hx as [(cfg & He)|(cfg & conn & He)];
    [apply (calls_only_in _ _ _ _ _ _ (Hu cfg) He Hin p' eq_refl)|
     apply (calls_only_in _ _ _ _ _ _ (Ho cfg conn) He Hin p' eq_refl)].
Qed.

(** ** Runs *)

(** A host where everything works: files are readable, the certificates parse,
    the database answers and every migration is recorded. *)
Definition boot_env : env unit := λ c w,
  match c return extres c * unit with
  | LoadX509KeyPair cert _ => (Ok (Cert cert), w)
  | OsReadFile f => (Ok ("PEM of " +:+ f), w)
  | AppendCertsFromPEM _ => (true, w)
  | PgxNewWithConfig _ _ => (Ok (Pool 0), w)
  | PoolExec _ _ _ _ => (Ok 0%Z, w)
  | PoolQueryRow _ _ _ _ ks =>
      (match ks return gresult (scan_row ks) with
       | [KInt] => Ok (1%Z, tt)
       | _ => Fail (ErrText "")
       end, w)
  | GrpcDial _ _ => (Ok 7, w)
  | c => (default_answer c, w)
  end.

Definition servesb (e : gevent) : bool :=
  let '(Ev c _) := e in match c with GoSpawn GoServeGRPC => true | _ => false end.

Lemma existsb_serves tr : existsb servesb tr = true → Exists ev_serves tr.
Proof.
  intros He. apply existsb_exists in He as ([c r] & Hin & Hc). apply Exists_exists.
  exists (Ev c r). split; [by apply list_elem_of_In|].
  destruct c; try done. cbn in Hc. by destruct t.
Qed.

(** C28: In every execution of the main of either service in which the gRPC server starts
    serving, exactly one set of credentials was used to build it: mutual TLS 1.3 that
    presents exactly the certificate loaded from the configured certificate and key
    files and requires and verifies client certificates against exactly the content of
    the configured CA file; or, if that file held no certificate, nil credentials. The
    files are those named by TLS_CERT_FILE, TLS_KEY_FILE and TLS_CA_FILE in the
    environment, or the defaults of the service. *)
Theorem mains_secured tr o :
  Exists ev_serves tr →
  (exec UserMain.main tr o → secured_by_environment "certs/user-service/cert.pem"
     "certs/user-service/key.pem" "certs/ca/ca.pem" tr) ∧
  (exec OrderMain.main tr o → secured_by_environment "certs/order-service/cert.pem"
     "certs/order-service/key.pem" "certs/ca/ca.pem" tr).
Proof. intros Hs. split; intros He; [by eapply user_main_secured|by eapply order_main_secured]. Qed.

Lemma mains_secured_witness :
  secured_by_environment "certs/user-service/cert.pem" "certs/user-service/key.pem" "certs/ca/ca.pem"
    (trace boot_env UserMain.main tt) ∧
  secured_by_environment "certs/order-service/cert.pem" "certs/order-service/key.pem" "certs/ca/ca.pem"
    (trace boot_env OrderMain.main tt).
Proof.
  split.
  - apply (mains_secured (trace boot_env UserMain.main tt) (run boot_env UserMain.main tt).1).
    + apply existsb_serves. vm_compute. reflexivity.
    + apply run_exec.
  - apply (mains_secured (trace boot_env OrderMain.main tt) (run boot_env OrderMain.main tt).1).
    + apply existsb_serves. vm_compute. reflexivity.
    + apply run_exec.
Defined.

(** The callbacks of the two services return whatever the calls answer. *)
Lemma callbacks_return p :
  Forall (λ cb, ∀ c, returns (shutdown.Func cb c)) (UserMain.callbacks p) ∧
  Forall (λ cb, ∀ c, returns (shutdown.Func cb c)) (OrderMain.callbacks p).
Proof.
  assert (∀ c, returns (otel.Shutdown c)) as Ho.
  { intros c tr o ([e|] & tr1 & _ & He); [destruct He as [_ ->]; eauto|].
    destruct He as ([e|] & tr2 & _ & He); destruct He as [_ ->]; eauto. }
  split; repeat constructor; try exact Ho; intros c tr o (r & tr1 & _ & _ & ->); eauto.
Qed.

Lemma Graceful_runs_all_witness :
  ∃ segs, length segs = 5 ∧
    Forall2 (callback_ran (30 * Second)) (OrderMain.callbacks (Pool 0)) segs.
Proof.
  destruct (Graceful_runs_all CtxBackground (30 * Second) (OrderMain.callbacks (Pool 0)) _ _
    (proj2 (callbacks_return (Pool 0)))
    (run_exec boot_env (shutdown.Graceful CtxBackground (30 * Second)
       (OrderMain.callbacks (Pool 0))) tt)) as [_ (sg & log & segs & _ & _ & Hs)].
  exists segs. split; [|exact Hs]. rewrite <-(Forall2_length _ _ _ Hs). reflexivity.
Defined.

Lemma otel_Shutdown_order_witness :
  ∃ r, trace boot_env (otel.Shutdown CtxBackground) tt =
    [Ev (TracerShutdown CtxBackground) None; Ev (MeterShutdown CtxBackground) r].
Proof.
  destruct (otel_Shutdown_order CtxBackground _ _ (run_exec boot_env (otel.Shutdown CtxBackground) tt))
    as [(e & He & _)|(r & Hr & _)].
  - exfalso. apply (f_equal (@length _)) in He. vm_compute in He. discriminate He.
  - exists r. exact Hr.
Defined.

(** Two healthy pings, then the context is done. *)
Definition ticking_env : env nat := λ c n,
  match c return extres c * nat with
  | SelectDoneOrTick _ _ => match n with O => (true, O) | S n => (false, n) end
  | c => (default_answer c, n)
  end.

Lemma monitorDBHealth_reports_witness :
  ∃ segs, length segs < 5 ∧
    Forall (health_turn CtxBackground (Pool 0) "user.v1.UserService" (15 * Second)) segs.
Proof.
  destruct (monitorDBHealth_reports 5 CtxBackground (Pool 0) "user.v1.UserService" (15 * Second) _ _
    (run_exec ticking_env (UserMain.monitorDBHealth 5 CtxBackground (Pool 0) (15 * Second)) 2))
    as (segs & Hs & [(Ho & _)|(_ & Hl & _)]).
  - vm_compute in Ho. discriminate Ho.
  - exists segs. split; [exact Hl|exact Hs].
Defined.

Lemma SetPool_rotates_witness :
  ∃ old, trace boot_env (UserRepository.SetPool (Some (Pool 1))) tt =
    [Ev MuLock tt; Ev LoadPool old; Ev (StorePool (Some (Pool 1))) tt] ++
    match old with Some p => [Ev (PoolClose p) tt] | None => [] end ++ [Ev MuUnlock tt].
Proof.
  exact (proj2 (SetPool_rotates (Some (Pool 1)) _ _
    (or_introl (run_exec boot_env (UserRepository.SetPool (Some (Pool 1))) tt)))).
Defined.

(** Vault answers, and the context is done after the first rotation. *)
Definition vault_env : env unit := λ c w,
  match c return extres c * unit with
  | VaultRead _ _ => (Ok (Some Vault.secret), w)
  | LoadPool => (Some (Pool 0), w)
  | PgxNewWithConfig _ _ => (Ok (Pool 1), w)
  | c => (default_answer c, w)
  end.

Definition some_config : UserConfig.Config := Eval vm_compute in
  match (run vault_env UserConfig.LoadConfig tt).1 with
  | Returned cfg => cfg
  | Panicked _ => UserConfig.mkConfig "" "" "" "" "" "" "" "" "" "" "" (mkPoolSettings 0 0 0 0 0 0)
  end.

Definition refresh_trace : list gevent :=
  trace vault_env (UserMain.goroutine 3 CtxBackground some_config (GoCredentialRefresher "app")) tt.

Lemma credential_rotation_witness :
  Ev (StorePool (Some (Pool 1))) tt ∈ refresh_trace ∧
  (∃ s cr, Ev (VaultRead CtxBackground "database/creds/app") (Ok (Some s)) ∈ refresh_trace ∧
     creds_in s cr) ∧
  Ev LoadPool (Some (Pool 0)) ∈ refresh_trace.
Proof.
  assert (Hs : Ev (StorePool (Some (Pool 1))) tt ∈ refresh_trace) by (vm_compute; in_trace).
  assert (Hc : Ev (PoolClose (Pool 0)) tt ∈ refresh_trace) by (vm_compute; in_trace).
  destruct (proj1 (credential_rotation 3 CtxBackground "app" _ _) some_config
    (run_exec vault_env (UserMain.goroutine 3 CtxBackground some_config
       (GoCredentialRefresher "app")) tt)) as [_ [Hst Hcl]].
  split; [exact Hs|]. split; [|exact (Hcl (Pool 0) Hc)].
  destruct (Hst (Some (Pool 1)) Hs) as (p & s & cr & _ & Hr & Hcr & _).
  exists s, cr. split; [exact Hr|exact Hcr].
Defined.
