(* ===== verification/ExtAuthz.v ===== *)
(** * The external authorization service of Envoy

    [envoy/ext_authz/main.go]: the settings, the two handlers and their
    composition by [http.ServeMux].  Which pattern a request matches is decided
    by [net/http]; it is a parameter, so the claims hold for every routing. *)
From S2P Require Import Prelude.
From S2P Require Import GoStrings.
From S2P Require Import Proto.
From S2P Require Import GoRuntime.
From S2P Require Import External.
From S2P Require Import Config.
From S2P Require Import Lifecycle.
Import Lifecycle.Common.

(** A request: the path, and the headers under their canonical names. *)
Record request := mkRequest {
  r_path : string;
  r_header : list (string * string)
}.

Record response := mkResponse {
  StatusCode : Z;
  Body : string
}.

Definition StatusOK : Z := 200.
Definition StatusMovedPermanently : Z := 301.
Definition StatusBadRequest : Z := 400.
Definition StatusUnauthorized : Z := 401.

(** The line feed [Fprintln] and [http.Error] end a body with. *)
Definition newline : string := of_bytes [Ascii.ascii_of_nat 10].
(** The JSON texts; a quote character cannot be written in a literal. *)
Definition q : string := of_bytes [Ascii.ascii_of_nat 34].
Definition json1 (k v : string) : string :=
  "{" +:+ q +:+ k +:+ q +:+ ":" +:+ q +:+ v +:+ q +:+ "}" +:+ newline.

(** [r.Header.Get(k)] for a canonical name [k]: the first value, or empty. *)
Fixpoint Header_Get (k : string) (h : list (string * string)) : string :=
  match h with
  | [] => ""
  | (k', v) :: h => if str_eqb k k' then v else Header_Get k h
  end.

(** The settings [main] starts with: the API key and the port. *)
Definition settings : go (string * string) :=
  apiKey ← gocall (OsGetenv "API_KEY");
  let apiKey := if str_eqb apiKey "" then "grpc-poc-api-key-2026" else apiKey in
  port ← gocall (OsGetenv "PORT");
  let port := if str_eqb port "" then "50053" else port in
  mret (apiKey, port).

Definition healthz_handler (r : request) : response :=
  mkResponse StatusOK (json1 "status" "ok").

Definition auth_handler (apiKey : string) (r : request) : response :=
  let key := Header_Get "X-Api-Key" (r_header r) in
  if str_eqb key "" then mkResponse StatusUnauthorized (json1 "error" "missing x-api-key header")
  else if negb (str_eqb key apiKey) then mkResponse StatusUnauthorized (json1 "error" "invalid API key")
  else mkResponse StatusOK (json1 "status" "authorized").

(** What the multiplexer does with a request: one of the two patterns, a
    redirection to a cleaned path, or a rejection. *)
Inductive target : Type := ToHealthz | ToRoot | ToRedirect (location : string) | ToBadRequest.

Definition serve_http (route : request → target) (apiKey : string) (r : request) : response :=
  match route r with
  | ToHealthz => healthz_handler r
  | ToRoot => auth_handler apiKey r
  | ToRedirect _ => mkResponse StatusMovedPermanently ""
  | ToBadRequest => mkResponse StatusBadRequest ""
  end.

(** The program: the listener answers every request by [serve_http]. *)
Definition main : go exit_status :=
  '(apiKey, port) ← settings;
  gocall (StdLog ("starting ext-authz on :" +:+ port)) ≫= λ _,
  err ← gocall (HttpListenAndServe (":" +:+ port));
  match err with
  | Some err => gocall (StdLog ("server failed: " +:+ Error err)) ≫= λ _, mret FatalExit
  | None => mret MainReturned
  end.

(** The program of the container's health check, [healthcheck.go]: its exit code. *)
Definition healthcheck : go Z :=
  resp ← gocall (HttpGet "http://localhost:50053/healthz");
  match resp with
  | Fail _ => mret 1%Z
  | Ok status =>
      gocall BodyClose ≫= λ _,
      if negb (status =? StatusOK)%Z then mret 1%Z else mret 0%Z
  end.

(** ** Claims *)

Lemma auth_handler_ok apiKey r :
  StatusCode (auth_handler apiKey r) = StatusOK ↔
    Header_Get "X-Api-Key" (r_header r) ≠ "" ∧ Header_Get "X-Api-Key" (r_header r) = apiKey.
Proof.
  unfold auth_handler. destruct (str_eqb_spec (Header_Get "X-Api-Key" (r_header r)) "") as [He|He].
  - split; [done|]. by intros [? _].
  - destruct (str_eqb_spec (Header_Get "X-Api-Key" (r_header r)) apiKey) as [Hk|Hk]; cbn.
    + done.
    + split; [done|]. by intros [_ ?].
Qed.

(** C37: For every routing of requests to its two patterns, the authorization service
    answers 200 exactly for the health path, without any key, and for other paths when
    the x-api-key header is non-empty and equals the configured key. *)
Theorem ext_authz_allows route apiKey r :
  StatusCode (serve_http route apiKey r) = StatusOK ↔
    route r = ToHealthz ∨
    route r = ToRoot ∧ apiKey ≠ "" ∧ Header_Get "X-Api-Key" (r_header r) = apiKey.
Proof.
  unfold serve_http. destruct (route r) eqn:E; cbn [healthz_handler StatusCode].
  - split; [by left|done].
  - rewrite auth_handler_ok. split.
    + intros [Hne <-]. by right.
    + intros [?|(_ & Hne & He)]; [done|]. by rewrite He.
  - split; [done|]. by intros [?|[? _]].
  - split; [done|]. by intros [?|[? _]].
Qed.

(** The key and the port are never empty. *)
Lemma ext_authz_key_never_empty tr o :
  exec settings tr o → ∃ apiKey port, o = Returned (apiKey, port) ∧ apiKey ≠ "" ∧ port ≠ "".
Proof.
  intros (k & t1 & -> & p & t2 & -> & -> & ->). eexists _, _. split; [done|].
  destruct (str_eqb_spec k ""), (str_eqb_spec p ""); done.
Qed.

(** ** The service and its health check *)

(** The host the service runs on: its variables, and the port and key of the
    listener, once there is one. *)
Record host := mkHost {
  h_env : string → string;
  h_listen : option (string * string)
}.

(** The address of a path of a server on the same host. *)
Definition local_url (port path : string) : string := "http://localhost:" +:+ port +:+ path.

Section Host.
Context (route : request → target).

Definition host_env : env host := λ c w,
  match c return extres c * host with
  | OsGetenv k => (h_env w k, w)
  | HttpGet url =>
      (match h_listen w with
       | Some (apiKey, port) =>
           if str_eqb url (local_url port "/healthz")
           then Ok (StatusCode (serve_http route apiKey (mkRequest "/healthz" [])))
           else Fail (ErrText "connection refused")
       | None => Fail (ErrText "connection refused")
       end, w)
  | c => (default_answer c, w)
  end.

(** The host once [main] listens with the settings it read. *)
Definition listening (getenv : string → string) : host :=
  let w := mkHost getenv None in
  match (run host_env settings w).1 with
  | Returned s => mkHost getenv (Some s)
  | Panicked _ => w
  end.
End Host.

Lemma app_inj_l (s t u : string) : s +:+ t = s +:+ u → t = u.
Proof. intros H. apply (inj bytes), (app_inv_head (bytes s)). by rewrite <-!bytes_app, H. Qed.

Lemma app_inj_r (s t u : string) : s +:+ u = t +:+ u → s = t.
Proof. intros H. apply (inj bytes), (app_inv_tail (bytes u)). by rewrite <-!bytes_app, H. Qed.

(** Run on the host of a listening authorization service, the health-check program
    exits with 0 exactly when PORT is unset or 50053, whatever the API key: the probed
    port is fixed while the service takes its port from PORT. *)
Theorem healthcheck_passes route getenv :
  route (mkRequest "/healthz" []) = ToHealthz →
  ((run (host_env route) healthcheck (listening route getenv)).1 = Returned 0%Z ↔
   getenv "PORT" = "" ∨ getenv "PORT" = "50053").
Proof.
  intros Hroute. unfold listening, settings. cbn.
  set (port := if str_eqb (getenv "PORT") "" then _ else _).
  assert (port = "50053" ↔ getenv "PORT" = "" ∨ getenv "PORT" = "50053") as Hport.
  { unfold port. destruct (str_eqb_spec (getenv "PORT") ""); [by split; [left|]|].
    split; [by right|]. by intros [?|?]. }
  rewrite <-Hport. clearbody port.
  destruct (str_eqb_spec "http://localhost:50053/healthz" (local_url port "/healthz")) as [E|E]; cbn.
  - unfold serve_http. rewrite Hroute. cbn. split; [|done]. intros _. symmetry.
    exact (app_inj_r _ _ _ (app_inj_l "http://localhost:" ("50053" +:+ "/healthz") _ E)).
  - split; [done|]. by intros ->.
Qed.

Lemma healthcheck_passes_witness :
  (run (host_env (λ _, ToHealthz)) healthcheck (listening (λ _, ToHealthz) (λ _, ""))).1 = Returned 0%Z ∧
  (run (host_env (λ _, ToHealthz)) healthcheck (listening (λ _, ToHealthz) (λ _, "8080"))).1 ≠ Returned 0%Z.
Proof.
  split.
  - apply (healthcheck_passes (λ _, ToHealthz) (λ _, "") eq_refl). by left.
  - intros H. apply (healthcheck_passes (λ _, ToHealthz) (λ _, "8080") eq_refl) in H as [H|H]; done.
Defined.
