(* ===== verification/LoadTest.v ===== *)
(** * The load test

    [scripts/loadtest/main.go]: virtual users call both services through the
    generated client stubs and send the outcome of every call over a channel;
    one goroutine adds them to the statistics, which [main] prints at the end.
    The five statistics objects are named by numbers; an access to one of their
    fields or of its lock is a call, since two goroutines make them.  A [log.Fatal] ends the
    process without the deferred calls. *)
From S2P Require Import Prelude.
From S2P Require Import GoStrings.
From S2P Require Import GoFloat.
From S2P Require Import Proto.
From S2P Require Import GoRuntime.
From S2P Require Import External.
From S2P Require Import Grpc.
From S2P Require Import GrpcStubs.
From S2P Require Import Transport.
From S2P Require Import ExtAuthz.
From S2P Require Import Lifecycle.
From stdpp Require Import sorting.
From Stdlib Require Import Floats.SpecFloat.

Module loadtest.
Import Lifecycle.Common.

(** A value of the channel. *)
Record result := mkResult {
  duration : Z;
  err : bool;
  op : string
}.

(** ** Statistics *)

Definition add (s : nat) (d : Z) (err : bool) : go unit :=
  gocall (LoadStats s AddCount) ≫= λ _,
  (if err then gocall (LoadStats s AddErrCount) else mret tt) ≫= λ _,
  gocall (LoadStats s StatsLock) ≫= λ _,
  gocall (LoadStats s (AppendDur d)) ≫= λ _,
  gocall (LoadStats s StatsUnlock).

(** [d.Seconds()]. *)
Definition Seconds (d : Z) : float64 :=
  f64_add (f64_of_int (Z.quot d Second))
    (f64_div (f64_of_int (Z.rem d Second)) (f64_of_int 1000000000)).

Definition fmtDuration (d : Z) : fmt_arg :=
  if (d <? Millisecond)%Z then FSprintf "%.0fµs" (FFloat (f64_of_int (Z.quot d Microsecond)))
  else if (d <? Second)%Z then FSprintf "%.0fms" (FFloat (f64_of_int (Z.quot d Millisecond)))
  else FSprintf "%.2fs" (FFloat (Seconds d)).

(** The constants 0.95 and 0.99. *)
Definition c095 : float64 := S754_finite false 8556839292003942 (-53).
Definition c099 : float64 := S754_finite false 8917127262193582 (-53).

(** [int(math.Ceil(float64(n)*c)) - 1]. *)
Definition percentile_index (n : Z) (c : float64) : Z :=
  (f64_int (f64_Ceil (f64_mul (f64_of_int n) c)) - 1)%Z.

(** [l[i]]. *)
Definition at_index {A} (l : list A) (i : Z) : go A :=
  match (if (0 <=? i)%Z then l !! Z.to_nat i else None) with
  | Some x => mret x
  | None => Panic "index out of range"
  end.

(** [x / y] on int64. *)
Definition div64 (x y : Z) : go Z :=
  if (y =? 0)%Z then Panic "integer divide by zero" else mret (to_int64 (Z.quot x y)).

Definition sum_durs (durs : list Z) : Z := fold_left (λ t d, to_int64 (t + d)) durs 0%Z.

Definition report_format : string :=
  "  %-14s | %6d req | %6.1f rps | avg %6s | p50 %6s | p95 %6s | p99 %6s | err %4.1f%%" +:+ newline.

Definition report (s : nat) (label : string) : go unit :=
  n ← gocall (LoadStats s GetCount);
  if (n =? 0)%Z then mret tt else
  gocall (LoadStats s StatsLock) ≫= λ _,
  durs ← gocall (LoadStats s GetDurs);
  gocall (LoadStats s StatsUnlock) ≫= λ _,
  let durs := merge_sort Z.le durs in
  let len := Z.of_nat (length durs) in
  let total := sum_durs durs in
  avg ← div64 total len;
  p50 ← at_index durs (Z.quot len 2);
  p95 ← at_index durs (percentile_index len c095);
  p99 ← at_index durs (percentile_index len c099);
  let rps := f64_div (f64_of_int n) (Seconds total) in
  e ← gocall (LoadStats s GetErrCount);
  let errRate := f64_mul (f64_div (f64_of_int e) (f64_of_int n)) (f64_of_int 100) in
  gocall (FmtPrintf report_format
    [FString label; FInt n; FFloat rps; fmtDuration avg; fmtDuration p50; fmtDuration p95;
     fmtDuration p99; FFloat errRate]).

(** The statistics objects of [main]. *)
Definition total : nat := 0.
Definition createUserStats : nat := 1.
Definition getUserStats : nat := 2.
Definition createOrderStats : nat := 3.
Definition getOrderStats : nat := 4.

(** The goroutine that receives the results, for at most [n] of them. *)
Fixpoint consumer (n : nat) : go unit :=
  match n with
  | O => mret tt
  | S n =>
      r ← gocall ChanRecv;
      match r with
      | None => mret tt
      | Some (d, err, op) =>
          add total d err ≫= λ _,
          (if str_eqb op "CreateUser" then add createUserStats d err
           else if str_eqb op "GetUser" then add getUserStats d err
           else if str_eqb op "CreateOrder" then add createOrderStats d err
           else if str_eqb op "GetOrder" then add getOrderStats d err
           else mret tt) ≫= λ _,
          consumer n
      end
  end.

(** ** Calls to the services *)

Definition randomOp (writeRatio : float64) : go string :=
  x ← gocall RandFloat64;
  if f64_ltb x writeRatio then
    y ← gocall RandFloat64;
    if f64_ltb y (S754_finite false 1 (-1)) then mret "CreateUser" else mret "CreateOrder"
  else
    y ← gocall RandFloat64;
    if f64_ltb y (S754_finite false 1 (-1)) then mret "GetUser" else mret "GetOrder".

(** The one item of every order. *)
Definition items (quantity : Z) : list (option orderv1.OrderItem) :=
  [Some (orderv1.mkOrderItem "loadtest-prod" "Load Test Product" quantity (f64_of_int 10))].

Definition failed {A} (r : goret A) : bool := match r.2 with Some _ => true | None => false end.

(** [ids[rng.Intn(len(ids))]]. *)
Definition pick (ids : list string) : go string :=
  i ← gocall (RandIntn (Z.of_nat (length ids))); at_index ids i.

(** The switch over the operation: whether it failed. *)
Definition call_op (c : ctx) (id : Z) (userIDs orderIDs : list string) (op : string) : go bool :=
  if str_eqb op "CreateUser" then
    now ← gocall TimeNow;
    r ← userv1_grpc.userServiceClient_CreateUser c (userv1.mkCreateUserRequest ("VU_" +:+ fmt_d id)
          ("vu_" +:+ fmt_d id +:+ "_" +:+ fmt_d now +:+ "@example.com"));
    mret (failed r)
  else if str_eqb op "GetUser" then
    uid ← pick userIDs;
    r ← userv1_grpc.userServiceClient_GetUser c (userv1.mkGetUserRequest uid);
    mret (failed r)
  else if str_eqb op "CreateOrder" then
    uid ← pick userIDs;
    q ← gocall (RandIntn 5);
    r ← orderv1_grpc.orderServiceClient_CreateOrder c
          (orderv1.mkCreateOrderRequest uid (items (to_int32 (q + 1))));
    mret (failed r)
  else if str_eqb op "GetOrder" then
    if (0 <? length orderIDs)%nat then
      oid ← pick orderIDs;
      r ← orderv1_grpc.orderServiceClient_GetOrder c (orderv1.mkGetOrderRequest oid);
      mret (failed r)
    else mret false
  else mret false.

(** One turn of a virtual user; [true] asks for another. *)
Definition worker_turn (c : ctx) (id start dur : Z) (writeRatio : float64)
    (userIDs orderIDs : list string) : go bool :=
  now ← gocall TimeNow;
  if (dur <=? now - start)%Z then mret false else
  op ← randomOp writeRatio;
  opStart ← gocall TimeNow;
  e ← call_op c id userIDs orderIDs op;
  now ← gocall TimeNow;
  gocall (ChanSend (now - opStart) e op) ≫= λ _,
  mret true.

(** A virtual user, for at most [n] turns. *)
Fixpoint worker_loop (n : nat) (c : ctx) (id start dur : Z) (writeRatio : float64)
    (userIDs orderIDs : list string) : go bool :=
  match n with
  | O => mret true
  | S n =>
      worker_turn c id start dur writeRatio userIDs orderIDs ≫= λ again : bool,
      if again then worker_loop n c id start dur writeRatio userIDs orderIDs else mret false
  end.

Definition worker (n : nat) (c : ctx) (id start dur : Z) (writeRatio : float64)
    (userIDs orderIDs : list string) : go bool :=
  with_defer (gocall WgDone)
    (gocall TimeNow ≫= λ _, worker_loop n c id start dur writeRatio userIDs orderIDs).

(** ** The program *)

(** [None] when [log.Fatalf] ended the process. *)
Definition dial (addr caFile certFile keyFile : string) : go (option nat) :=
  let dial_with opts :=
    r ← gocall (GrpcDial addr opts);
    match r with
    | Fail err => gocall (StdLog ("dial " +:+ addr +:+ ": " +:+ Error err)) ≫= λ _, mret None
    | Ok conn => mret (Some conn)
    end in
  if negb (str_eqb certFile "") && negb (str_eqb keyFile "") && negb (str_eqb caFile "") then
    '(creds, err) ← tls.LoadClientConfig caFile certFile keyFile;
    match err with
    | Some err => gocall (StdLog ("load TLS: " +:+ Error err)) ≫= λ _, mret None
    | None => dial_with [creds]
    end
  else dial_with [].

(** The calls [main] deferred run unless [log.Fatal] ended the process. *)
Fixpoint defer_main (d : go unit) (p : go exit_status) : go exit_status :=
  match p with
  | Ret MainReturned => d ≫= λ _, mret MainReturned
  | Ret FatalExit => mret FatalExit
  | Panic s => d ≫= λ _, Panic s
  | Call c k => Call c (λ r, defer_main d (k r))
  end.

(** The first loop, [n] turns from [i] on. *)
Fixpoint create_users (n : nat) (c : ctx) (i : Z) (userIDs : list string) : go (list string) :=
  match n with
  | O => mret userIDs
  | S n =>
      now ← gocall TimeNow;
      '(resp, err) ← userv1_grpc.userServiceClient_CreateUser c
        (userv1.mkCreateUserRequest ("LoadTestUser_" +:+ fmt_d i)
           ("loadtest_" +:+ fmt_d now +:+ "_" +:+ fmt_d i +:+ "@example.com"));
      match err with
      | Some _ => create_users n c (i + 1) userIDs
      | None =>
          resp ← deref resp;
          user ← deref (userv1.CreateUserResponse_User resp);
          create_users n c (i + 1) (userIDs ++ [userv1.User_Id user])
      end
  end.

Fixpoint create_orders (n : nat) (c : ctx) (i : Z) (userIDs orderIDs : list string) :
    go (list string) :=
  match n with
  | O => mret orderIDs
  | S n =>
      uid ← at_index userIDs (Z.rem i (Z.of_nat (length userIDs)));
      '(resp, err) ← orderv1_grpc.orderServiceClient_CreateOrder c
        (orderv1.mkCreateOrderRequest uid (items 1));
      match err with
      | Some _ => create_orders n c (i + 1) userIDs orderIDs
      | None =>
          resp ← deref resp;
          order ← deref (orderv1.CreateOrderResponse_Order resp);
          create_orders n c (i + 1) userIDs (orderIDs ++ [orderv1.Order_Id order])
      end
  end.

Fixpoint start_workers (n : nat) (i : Z) : go unit :=
  match n with
  | O => mret tt
  | S n =>
      gocall WgAdd ≫= λ _,
      gocall (GoLoad (LoadWorker i)) ≫= λ _,
      start_workers n (i + 1)
  end.

Definition println (s : string) : go unit := gocall (FmtPrintf (s +:+ newline) []).

(** [make(chan result, n)]. *)
Definition make_chan (n : Z) : go unit :=
  if (n <? 0)%Z then Panic "makechan: size out of range" else gocall (ChanMake n).

(** What [main] prints after the workers are done. *)
Definition summary (start vus : Z) (writeRatio : float64) : go unit :=
  now ← gocall TimeNow;
  println "=== Load Test Results ===" ≫= λ _,
  gocall (FmtPrintf ("Duration:      %v" +:+ newline) [FDuration (now - start)]) ≫= λ _,
  gocall (FmtPrintf ("Concurrency:   %d VUs" +:+ newline) [FInt vus]) ≫= λ _,
  gocall (FmtPrintf ("Write ratio:   %.0f%%" +:+ newline)
    [FFloat (f64_mul writeRatio (f64_of_int 100))]) ≫= λ _,
  println "" ≫= λ _,
  gocall (FmtPrintf ("  %-14s | %6s | %7s | %7s | %7s | %7s | %7s | %6s" +:+ newline)
    (map FString ["Operation"; "count"; "rps"; "avg"; "p50"; "p95"; "p99"; "err%"])) ≫= λ _,
  println ("  " +:+ String.concat "" (replicate 95 "-")) ≫= λ _,
  report total "TOTAL" ≫= λ _,
  report createUserStats "CreateUser" ≫= λ _,
  report getUserStats "GetUser" ≫= λ _,
  report createOrderStats "CreateOrder" ≫= λ _,
  report getOrderStats "GetOrder" ≫= λ _,
  cu ← gocall (LoadStats createUserStats GetCount);
  co ← gocall (LoadStats createOrderStats GetCount);
  gu ← gocall (LoadStats getUserStats GetCount);
  go_ ← gocall (LoadStats getOrderStats GetCount);
  n ← gocall (LoadStats total GetCount);
  let writeCount := to_int64 (cu + co) in
  let readCount := to_int64 (gu + go_) in
  let percent x := FFloat (f64_mul (f64_div (f64_of_int x) (f64_of_int n)) (f64_of_int 100)) in
  gocall (FmtPrintf (newline +:+ "  Writes: %d (%.0f%%) | Reads: %d (%.0f%%) | Total: %d" +:+ newline)
    [FInt writeCount; percent writeCount; FInt readCount; percent readCount; FInt n]).

(** From the two connections on. *)
Definition load (vus : Z) (writeRatio : float64) : go exit_status :=
  let c := CtxBackground in
  println "=== Pre-creating test users ===" ≫= λ _,
  userIDs ← create_users (Z.to_nat (mul64 vus 2)) c 0 [];
  gocall (FmtPrintf ("Created %d test users" +:+ newline) [FInt (Z.of_nat (length userIDs))]) ≫= λ _,
  if (length userIDs =? 0)%nat then
    gocall (StdLog "failed to create any test users") ≫= λ _, mret FatalExit
  else
    println "=== Pre-creating test orders ===" ≫= λ _,
    orderIDs ← create_orders (Z.to_nat vus) c 0 userIDs [];
    gocall (FmtPrintf ("Created %d test orders" +:+ newline +:+ newline)
      [FInt (Z.of_nat (length orderIDs))]) ≫= λ _,
    start ← gocall TimeNow;
    make_chan (mul64 vus 100) ≫= λ _,
    gocall (GoLoad LoadConsumer) ≫= λ _,
    start_workers (Z.to_nat vus) 0 ≫= λ _,
    gocall WgWait ≫= λ _,
    gocall ChanClose ≫= λ _,
    summary start vus writeRatio ≫= λ _,
    mret MainReturned.

Definition main : go exit_status :=
  vus ← gocall (FlagInt "vus" 10);
  dur ← gocall (FlagDuration "duration" (30 * Second));
  userAddr ← gocall (FlagString "user-addr" "localhost:50051");
  orderAddr ← gocall (FlagString "order-addr" "localhost:50052");
  certDir ← gocall (FlagString "cert-dir" "certs/api-gateway");
  caFile ← gocall (FlagString "ca-file" "certs/ca/ca.pem");
  writeRatio ← gocall (FlagFloat64 "write-ratio" (S754_finite false 5404319552844595 (-54)));
  let cert := certDir +:+ "/cert.pem" in
  let key := certDir +:+ "/key.pem" in
  u ← dial userAddr caFile cert key;
  match u with
  | None => mret FatalExit
  | Some userConn =>
      defer_main (gocall (ConnClose userConn) ≫= λ _, mret tt)
        (o ← dial orderAddr caFile cert key;
         match o with
         | None => mret FatalExit
         | Some orderConn =>
             defer_main (gocall (ConnClose orderConn) ≫= λ _, mret tt) (load vus writeRatio)
         end)
  end.

End loadtest.
