(* ===== verification/Resources.v ===== *)
(** * Locks, transactions and result sets are always given back

    A monitor over the calls of a handler: the pool pointer is read only under
    the lock, nothing is called over the network while the lock is held, a
    transaction is used between its begin and its rollback, whoever asks for
    the lock or a connection holds neither yet, and whatever a handler opens it
    closes, also when it fails or panics. *)
From S2P Require Import Prelude.
From S2P Require Import GoStrings.
From S2P Require Import GoFloat.
From S2P Require Import Proto.
From S2P Require Import GoRuntime.
From S2P Require Import External.
From S2P Require Import Typestate.
From S2P Require Import Grpc.
From S2P Require Import GrpcStubs.
From S2P Require Import Stores.
From S2P Require Import UserService.
From S2P Require Import UserProofs.
From S2P Require Import OrderService.
From S2P Require Import OrderProofs.
From S2P Require Import OrderCacheProofs.
From S2P Require Import OrderServiceProofs.

(** ** The monitor *)

Inductive lock_state : Type := Unlocked | RLocked | WLocked.

#[export] Instance lock_state_eq_dec : EqDecision lock_state.
Proof. solve_decision. Defined.

Record held := mkHeld {
  h_lock : lock_state;
  h_txs : list txn;
  h_rows : list nat
}.

#[export] Instance held_eq_dec : EqDecision held.
Proof. solve_decision. Defined.

Definition idle : held := mkHeld Unlocked [] [].

Definition need (b : bool) (s : held) : option held := if b then Some s else None.
Definition unlocked (s : held) : bool := bool_decide (h_lock s = Unlocked).

(** The next state, or nothing if the call is not allowed. *)
Definition monitor_step (s : held) (c : extcall) : extres c → option held :=
  match c return extres c → option held with
  | MuRLock => λ _, need (bool_decide (s = idle)) (mkHeld RLocked (h_txs s) (h_rows s))
  | MuLock => λ _, need (bool_decide (s = idle)) (mkHeld WLocked (h_txs s) (h_rows s))
  | MuRUnlock => λ _, need (bool_decide (h_lock s = RLocked)) (mkHeld Unlocked (h_txs s) (h_rows s))
  | MuUnlock => λ _, need (bool_decide (h_lock s = WLocked)) (mkHeld Unlocked (h_txs s) (h_rows s))
  | LoadPool => λ _, need (negb (unlocked s)) s
  | StorePool _ => λ _, need (bool_decide (h_lock s = WLocked)) s
  | PoolClose _ => λ _, need (bool_decide (h_lock s = WLocked)) s
  | PoolBegin _ _ => λ r, need (bool_decide (s = idle))
      match r with Ok t => mkHeld (h_lock s) (t :: h_txs s) (h_rows s) | Fail _ => s end
  | TxQueryRow t _ _ _ _ => λ _, need (unlocked s && bool_decide (t ∈ h_txs s)) s
  | TxExec t _ _ _ | TxCommit t _ => λ _, need (unlocked s && bool_decide (t ∈ h_txs s)) s
  | TxRollback t _ => λ _,
      match h_txs s with
      | t' :: ts => need (unlocked s && bool_decide (t = t')) (mkHeld (h_lock s) ts (h_rows s))
      | [] => None
      end
  | PoolQuery _ _ _ _ _ => λ r, need (bool_decide (s = idle))
      match r with
      | Ok rs => mkHeld (h_lock s) (h_txs s) (rows_id rs :: h_rows s)
      | Fail _ => s
      end
  | RowsClose i => λ _,
      match h_rows s with
      | i' :: ids => need (unlocked s && bool_decide (i = i')) (mkHeld (h_lock s) (h_txs s) ids)
      | [] => None
      end
  | PoolQueryRow _ _ _ _ _ | PoolExec _ _ _ _ | PoolPing _ _ => λ _, need (bool_decide (s = idle)) s
  | RedisGet _ _ | RedisSet _ _ _ _ | RedisDel _ _ | GrpcInvoke _ _ _ _ _ => λ _, need (unlocked s) s
  | _ => λ _, Some s
  end.

(** A whole trace. *)
Abbreviation monitor := (follows monitor_step).

(** Every execution is allowed and gives everything back. *)
Definition releases {A} (p : go A) : Prop :=
  ∀ tr o, exec p tr o → monitor idle tr = Some idle.

(** ** Programs the monitor accepts *)

Abbreviation safe s p Q := (obeys monitor_step s p (λ _ s', Q s')).

Lemma safe_bind {A B} s (p : go A) (f : A → go B) (R Q : held → Prop) :
  safe s p R → (∀ s' a, R s' → safe s' (f a) Q) → (∀ s', R s' → Q s') → safe s (p ≫= f) Q.
Proof. intros Hp Hf HQ. apply obeys_bind. eapply obeys_mono; [exact Hp|]. intros [] s' HR; auto. Qed.

Lemma safe_defer {A} s d (p : go A) (R Q : held → Prop) :
  safe s p R → (∀ s', R s' → safe s' d Q) → safe s (with_defer d p) Q.
Proof.
  intros Hp Hd. apply obeys_defer. eapply obeys_mono; [exact Hp|]. intros o s' HR.
  eapply obeys_mono; [by apply Hd|]. by intros [].
Qed.

(** A program that starts with [s] held and gives back what it takes. *)
Definition tidy {A} (s : held) (p : go A) : Prop := safe s p (eq s).
#[global] Arguments tidy : simpl never.

Lemma tidy_releases {A} (p : go A) : tidy idle p → releases p.
Proof. intros Hp tr o He. by destruct (obeys_exec _ _ _ _ _ _ Hp He) as (s & Hs & <-). Qed.

Lemma tidy_ret {A} s (a : A) : tidy s (mret a).
Proof. done. Qed.

Lemma tidy_panic {A} s m : tidy (A := A) s (Panic m).
Proof. done. Qed.

Lemma tidy_deref {A} s (x : option A) : tidy s (deref x).
Proof. by destruct x. Qed.

Lemma tidy_bind {A B} s (p : go A) (f : A → go B) :
  tidy s p → (∀ a, tidy s (f a)) → tidy s (p ≫= f).
Proof. intros Hp Hf. eapply safe_bind; [exact Hp| |done]. intros ? a <-. apply Hf. Qed.

Lemma tidy_defer {A} s d (p : go A) : tidy s d → tidy s p → tidy s (with_defer d p).
Proof. intros Hd Hp. eapply safe_defer; [exact Hp|]. by intros ? <-. Qed.

Lemma tidy_for_range {X R} s (body : nat → X → go (option R)) i xs :
  (∀ i x, tidy s (body i x)) → tidy s (for_range i xs body).
Proof.
  intros Hb. revert i. induction xs as [|x xs IH]; intros i; [apply tidy_ret|].
  apply tidy_bind; [done|]. intros [r|]; [apply tidy_ret|apply IH].
Qed.

(** Calls that take and give back nothing. *)
Definition plain_call (s : held) (c : extcall) : Prop := ∀ r, monitor_step s c r = Some s.

Lemma tidy_call s c : plain_call s c → tidy s (gocall c).
Proof. intros Hc r. by rewrite Hc. Qed.

Lemma tidy_getPool : tidy idle UserRepository.getPool ∧ tidy idle OrderRepository.getPool.
Proof. split; intros []; cbn; intros p; cbn; by intros []. Qed.

Lemma tidy_SetPool p : tidy idle (UserRepository.SetPool p) ∧ tidy idle (OrderRepository.SetPool p).
Proof. split; intros []; cbn; intros [q|]; cbn; intros []; cbn; intros []; cbn; done || by intros []. Qed.

(** A transaction whose rollback is deferred. *)
Lemma tidy_tx {A} p q c (body : txn → go A) (k : go_error → go A) :
  (∀ t, tidy (mkHeld Unlocked [t] []) (body t)) → (∀ e, tidy idle (k e)) →
  tidy idle (b ← gocall (PoolBegin p q);
           match b with
           | Fail e => k e
           | Ok t => with_defer (gocall (TxRollback t c) ≫= λ _, mret tt) (body t)
           end).
Proof.
  intros Hb Hk [t|e]; cbn; [|apply Hk]. eapply safe_defer; [apply Hb|].
  intros ? <- r. cbn. by rewrite bool_decide_true.
Qed.

(** A result set whose close is deferred. *)
Lemma tidy_query {A} p q sql args ks (body : rows ks → go A) (k : go_error → go A) :
  (∀ rs, tidy (mkHeld Unlocked [] [rows_id rs]) (body rs)) → (∀ e, tidy idle (k e)) →
  tidy idle (r ← gocall (PoolQuery p q sql args ks);
           match r with
           | Fail e => k e
           | Ok rs => with_defer (gocall (RowsClose (rows_id rs))) (body rs)
           end).
Proof.
  intros Hb Hk [rs|e]; cbn; [|apply Hk]. eapply safe_defer; [apply Hb|].
  intros ? <- r. cbn. by rewrite bool_decide_true.
Qed.

(** Proves [tidy], leaving [plain_call] for each call. *)
Ltac tidy_step :=
  lazymatch goal with
  | |- tidy _ (gocall (PoolBegin _ _) ≫= _) => apply tidy_tx; [intros ?|intros ?]
  | |- tidy _ (gocall (PoolQuery _ _ _ _ _) ≫= _) => apply tidy_query; [intros ?|intros ?]
  | |- tidy _ UserRepository.getPool => apply tidy_getPool
  | |- tidy _ OrderRepository.getPool => apply tidy_getPool
  | |- tidy _ (with_defer _ _) => apply tidy_defer
  | |- tidy _ (_ ≫= _) => apply tidy_bind; [|intros ?]
  | |- tidy _ (deref _) => apply tidy_deref
  | |- tidy _ (for_range _ _ _) => apply tidy_for_range; intros ? ?
  | |- tidy _ (mret _) => apply tidy_ret
  | |- tidy _ (Ret _) => apply tidy_ret
  | |- tidy _ (Panic _) => apply tidy_panic
  | |- tidy _ (gocall _) => apply tidy_call
  | |- tidy _ (match ?x with _ => _ end) => destruct x
  | |- tidy _ ((match ?x with _ => _ end) _) => destruct x
  | |- tidy _ (let '(_, _) := ?x in _) => destruct x
  | |- tidy _ _ => progress cbn beta iota zeta
  | |- plain_call _ _ =>
      intros ?; cbn; rewrite ?bool_decide_true by (done || by left); done
  end.

Lemma tidy_sum_total s items t : tidy s (OrderRepository.sum_total items t).
Proof. revert t. induction items as [|[it|] items IH]; intros t; [done|apply IH|done]. Qed.

Lemma tidy_getFromDB c id : tidy idle (OrderRepository.getFromDB c id).
Proof.
  unfold OrderRepository.getFromDB, OrderRepository.getItems, ctx_cancel. repeat tidy_step.
Qed.

Lemma tidy_Create c user items : tidy idle (OrderRepository.Create c user items).
Proof.
  unfold OrderRepository.Create, OrderRepository.insert_item, ctx_cancel.
  repeat first [apply tidy_sum_total|tidy_step].
Qed.

Lemma tidy_cache_Set c o : tidy idle (OrderCache.Set_ c o).
Proof. unfold OrderCache.Set_. repeat tidy_step. Qed.

Ltac tidy_known :=
  lazymatch goal with
  | |- tidy _ (OrderRepository.getFromDB _ _) => apply tidy_getFromDB
  | |- tidy _ (OrderCache.Set_ _ _) => apply tidy_cache_Set
  end.

Lemma tidy_order_Get r c id : tidy idle (OrderRepository.Get r c id).
Proof.
  unfold OrderRepository.Get, OrderCache.Get, zap_log.
  repeat (tidy_known || tidy_step).
Qed.

Lemma tidy_order_Cancel r c id : tidy idle (OrderRepository.Cancel r c id).
Proof.
  unfold OrderRepository.Cancel, OrderCache.Invalidate, ctx_cancel, zap_log.
  repeat (tidy_known || tidy_step).
Qed.

Lemma tidy_order_List c user page size : tidy idle (OrderRepository.List_ c user page size).
Proof.
  unfold OrderRepository.List_, ctx_cancel.
  destruct (OrderRepository.list_window page size), (OrderRepository.count_query user).
  repeat first [tidy_step|progress cbn beta iota zeta].
Qed.

(** The unary stub under both interceptors keeps a method tidy. *)
Lemma tidy_recover {A} s h (p : go A) :
  (∀ m, tidy s (h m)) → tidy s p → tidy s (with_recover h p).
Proof.
  intros Hh Hp. apply obeys_recover. eapply obeys_mono; [exact Hp|]. intros [|m] s' <-; [done|apply Hh].
Qed.

Lemma tidy_rpc {S} fm ki ko (method : S → ctx → msg ki → go (goret (msg ko))) srv c req :
  (∀ req, tidy idle (method srv c req)) →
  tidy idle (unary_stub fm ki ko method srv c (decoded ki req) (Some server_interceptor)).
Proof.
  intros Hm. unfold unary_stub. rewrite decoded_same. unfold server_interceptor, recoveryInterceptor.
  apply tidy_recover; [intros m; unfold zap_log; repeat tidy_step|].
  unfold loggingInterceptor. apply tidy_bind; [tidy_step; tidy_step|intros start].
  apply tidy_bind; [|intros [resp err]; unfold zap_log; repeat tidy_step].
  rewrite assert_msg_same. apply tidy_bind; [tidy_step|intros m].
  apply tidy_bind; [tidy_step|intros x].
  apply tidy_bind; [apply Hm|intros r; tidy_step].
Qed.

Lemma tidy_user_Update c id name email ns es :
  tidy idle (UserRepository.Update c id name email ns es).
Proof.
  unfold UserRepository.Update, UserRepository.Get, ctx_cancel.
  destruct (UserRepository.update_clauses name email ns es) as [[cl args] idx].
  repeat tidy_step.
Qed.

(** The operations of the repositories. *)
Ltac tidy_repo :=
  lazymatch goal with
  | |- tidy _ (UserRepository.Update _ _ _ _ _ _) => apply tidy_user_Update
  | |- tidy _ (OrderRepository.Create _ _ _) => apply tidy_Create
  | |- tidy _ (OrderRepository.Get _ _ _) => apply tidy_order_Get
  | |- tidy _ (OrderRepository.List_ _ _ _ _) => apply tidy_order_List
  | |- tidy _ (OrderRepository.Cancel _ _ _) => apply tidy_order_Cancel
  end.

Lemma tidy_serve_user c r : tidy idle (serve_user c r).
Proof.
  destruct r; apply tidy_rpc; intros req; cbn;
    [unfold UserServiceServer.CreateUser|unfold UserServiceServer.GetUser|
     unfold UserServiceServer.UpdateUser|unfold UserServiceServer.DeleteUser];
    unfold UserRepository.Create, UserRepository.Get, UserRepository.Delete, zap_log, ctx_cancel;
    repeat (tidy_repo || tidy_step).
Qed.

Lemma tidy_serve_order r c q : tidy idle (serve_order r c q).
Proof.
  destruct q; apply tidy_rpc; intros req; cbn;
    [unfold OrderServiceServer.CreateOrder, OrderServiceServer.check_item, UserClient.GetUser,
       userv1_grpc.userServiceClient_GetUser, invoke_stub|
     unfold OrderServiceServer.GetOrder|unfold OrderServiceServer.ListOrders|
     unfold OrderServiceServer.CancelOrder];
    unfold zap_log;
    repeat (tidy_repo || tidy_step).
Qed.

(** ** Claim *)

(** C21: In every execution of every handler of both services, and of the pool rotation,
    whatever the calls answer and also on error and panic paths: the pool pointer is
    read only under the lock, no database, cache or network call is made while the lock
    is held (a pool is closed only under the write lock), the lock or a connection is
    asked for only by a handler that holds neither, a transaction is used only between
    its begin and its rollback, and every lock, transaction and result set taken is
    given back, innermost first. *)
Theorem handlers_release_resources :
  (∀ c r, releases (serve_user c r)) ∧
  (∀ rp c q, releases (serve_order rp c q)) ∧
  (∀ p, releases (UserRepository.SetPool p)) ∧ (∀ p, releases (OrderRepository.SetPool p)).
Proof.
  split; [intros; apply tidy_releases, tidy_serve_user|].
  split; [intros; apply tidy_releases, tidy_serve_order|].
  split; intros p; apply tidy_releases, tidy_SetPool.
Qed.
