(* ===== verification/Deadlock.v ===== *)
(** * No deadlock around the pool lock

    Goroutines of one service with the blocking behaviour of the lock and of
    the connection pool: [SetPool] closes the old pool, which waits for its
    connections, while it holds the lock every request needs.  Nobody asks for
    the lock or for a connection while holding one, so somebody can always go
    on.  That requests also end beside the endless loops is in the file
    Fairness. *)
From S2P Require Import Prelude.
From S2P Require Import GoStrings.
From S2P Require Import GoFloat.
From S2P Require Import Proto.
From S2P Require Import GoRuntime.
From S2P Require Import External.
From S2P Require Import Typestate.
From S2P Require Import Grpc.
From S2P Require Import UserService.
From S2P Require Import UserProofs.
From S2P Require Import OrderService.
From S2P Require Import OrderServiceProofs.
From S2P Require Import OrderTheorems.
From S2P Require Import Config.
From S2P Require Import Vault.
From S2P Require Import Lifecycle.
From S2P Require Import Resources.
From stdpp Require Import relations.

(** ** Goroutines that wait *)

Section Blocking.
Context {A : Type}.

(** A goroutine and what it holds after the calls it made. *)
Record gthread := mkThread {
  t_prog : go A;
  t_held : held
}.

Definition fresh_thread (p : go A) : gthread := mkThread p idle.
Definition held_after (s : held) (c : extcall) (r : extres c) : held := default s (monitor_step s c r).

Definition next_call (t : gthread) : option extcall :=
  match t_prog t with Call c _ => Some c | _ => None end.
Definition wants_lock (t : gthread) : bool :=
  match next_call t with Some MuLock => true | _ => false end.
Definition lock_of (t : gthread) : lock_state := h_lock (t_held t).
(** A connection of the pool serves an open transaction or result set. *)
Definition connected (t : gthread) : Prop := h_txs (t_held t) ≠ [] ∨ h_rows (t_held t) ≠ [].

#[local] Instance connected_dec t : Decision (connected t).
Proof. unfold connected. apply _. Defined.

(** The exclusion of [sync.RWMutex]. *)
Definition lock_grants (ts : list gthread) (c : extcall) : Prop :=
  match c with
  | MuRLock => Forall (λ t, lock_of t ≠ WLocked) ts
  | MuLock => Forall (λ t, lock_of t = Unlocked) ts
  | _ => True
  end.

(** One call of one goroutine, whatever its answer. *)
Inductive lstep : list gthread → list gthread → Prop :=
| lstep_call ts i c k s r :
    ts !! i = Some (mkThread (Call c k) s) → lock_grants ts c →
    lstep ts (<[i := mkThread (k r) (held_after s c r)]> ts).

(** The call returns even if readers wait for a waiting writer, each pool has
    one connection, and closing a pool waits for the connections of all. *)
Definition returns_now (ts : list gthread) (c : extcall) : Prop :=
  match c with
  | MuRLock => lock_grants ts c ∧ Forall (λ t, wants_lock t = false) ts
  | MuLock => lock_grants ts c
  | PoolClose _ | PoolBegin _ _ | PoolQuery _ _ _ _ _ | PoolQueryRow _ _ _ _ _ | PoolExec _ _ _ _
  | PoolPing _ _ => Forall (λ t, ¬ connected t) ts
  | _ => True
  end.

Definition can_go (ts : list gthread) : Prop :=
  ∃ i t c, ts !! i = Some t ∧ next_call t = Some c ∧ returns_now ts c.

(** ** What the monitor rules out *)

Definition may_wait (c : extcall) : bool :=
  match c with
  | MuRLock | MuLock | PoolClose _ | PoolBegin _ _ | PoolQuery _ _ _ _ _ | PoolQueryRow _ _ _ _ _
  | PoolExec _ _ _ _ | PoolPing _ _ => true
  | _ => false
  end.

Lemma may_wait_false ts c : may_wait c = false → returns_now ts c.
Proof. by destruct c. Qed.

Lemma need_Some b s s' : need b s = Some s' → b = true ∧ s' = s.
Proof. destruct b; [|done]. by intros [= ->]. Qed.

(** Whoever may wait holds nothing, or is a writer that closes the old pool. *)
Lemma waits_with s c r s' :
  monitor_step s c r = Some s' → may_wait c = true →
  s = idle ∨ (∃ p, c = PoolClose p) ∧ h_lock s = WLocked.
Proof.
  destruct c; try done; cbn; intros [Hb _]%need_Some _; apply bool_decide_eq_true in Hb; eauto.
Qed.

Lemma lock_after s c r s' :
  monitor_step s c r = Some s' →
  h_lock s' = h_lock s ∨ h_lock s' = Unlocked ∨
  c = MuRLock ∧ h_lock s' = RLocked ∨ c = MuLock ∧ h_lock s' = WLocked.
Proof.
  destruct c; cbn; intros H; try (by injection H as <-; left);
    try (by destruct r; apply need_Some in H as [_ ->]; auto 6);
    try (by apply need_Some in H as [_ ->]; auto 6);
    try (by repeat case_match; simplify_eq; apply need_Some in H as [_ ->]; auto).
Qed.

(** The lock is never held with a connection. *)
Definition neat (s : held) : Prop := h_lock s = Unlocked ∨ h_txs s = [] ∧ h_rows s = [].

Lemma neat_after s c r s' : monitor_step s c r = Some s' → neat s → neat s'.
Proof.
  unfold neat. destruct c; cbn; intros H Hn; try (by injection H as <-);
    try (by apply need_Some in H as [_ ->]);
    try (by apply need_Some in H as [Hb ->]; apply bool_decide_eq_true in Hb as ->; auto);
    try (by destruct r; apply need_Some in H as [Hb ->]; apply bool_decide_eq_true in Hb as ->; auto);
    try (by apply need_Some in H as [_ ->]; left);
    repeat case_match; simplify_eq; apply need_Some in H as [Hb ->]; apply andb_true_iff in Hb as [Hb _];
    apply bool_decide_eq_true in Hb; by left.
Qed.

(** ** The invariant *)

Definition disciplined (t : gthread) : Prop :=
  safe (t_held t) (t_prog t) (eq idle) ∧ neat (t_held t).

Definition excluded (ts : list gthread) : Prop :=
  ∀ i j ti tj, ts !! i = Some ti → ts !! j = Some tj → i ≠ j →
    lock_of ti = WLocked → lock_of tj = Unlocked.

Definition good (ts : list gthread) : Prop := Forall disciplined ts ∧ excluded ts.

(** A goroutine after one of its calls. *)
Lemma disciplined_call c k s r :
  disciplined (mkThread (Call c k) s) →
  ∃ s', monitor_step s c r = Some s' ∧ held_after s c r = s' ∧ disciplined (mkThread (k r) s').
Proof.
  intros [Hs Hn]. cbn in Hs, Hn. specialize (Hs r).
  destruct (monitor_step s c r) as [s'|] eqn:E; [|done]. exists s'. unfold held_after.
  rewrite E. split_and!; [done..|]. split; [done|]. by eapply neat_after.
Qed.

Lemma good_step ts ts' : good ts → lstep ts ts' → good ts'.
Proof.
  intros [Hd Hx] Hstep. inversion Hstep as [? i c k s r Hi Hg]; subst.
  destruct (disciplined_call c k s r) as (s' & Hm & -> & Hd'); [by eapply Forall_lookup_1 in Hd|].
  split; [by apply Forall_insert|].
  assert (∀ j tj, ts !! j = Some tj → i ≠ j →
    (h_lock s' = WLocked → lock_of tj = Unlocked) ∧ (lock_of tj = WLocked → h_lock s' = Unlocked)) as Hnew.
  { intros j tj Hj Hne. pose proof (Hx i j _ _ Hi Hj Hne) as H1.
    pose proof (Hx j i _ _ Hj Hi (not_eq_sym Hne)) as H2. unfold lock_of in H1, H2. cbn in H1, H2.
    destruct (lock_after _ _ _ _ Hm) as [->|[->|[[-> E]|[-> E]]]]; [done|done| |]; cbn in Hg;
      pose proof (Forall_lookup_1 _ _ _ _ Hg Hj) as Hlj; cbn in Hlj; rewrite E; split; congruence. }
  intros j1 j2 t1 t2 H1 H2 Hne. destruct (decide (i = j1)) as [<-|N1].
  - rewrite list_lookup_insert_eq in H1 by by eapply lookup_lt_Some. injection H1 as <-.
    rewrite list_lookup_insert_ne in H2 by done. by apply (Hnew _ _ H2).
  - rewrite list_lookup_insert_ne in H1 by done. destruct (decide (i = j2)) as [<-|N2].
    + rewrite list_lookup_insert_eq in H2 by by eapply lookup_lt_Some. injection H2 as <-.
      by apply (Hnew _ _ H1).
    + rewrite list_lookup_insert_ne in H2 by done. by eapply Hx.
Qed.

Lemma good_start ps : Forall (λ p, tidy idle p) ps → good (fresh_thread <$> ps).
Proof.
  intros Hp. split.
  - apply Forall_fmap. eapply Forall_impl; [exact Hp|]. intros p Ht. split; [exact Ht|by left].
  - intros i j ti tj Hi _ _ Hl. apply list_lookup_fmap_Some in Hi as (p & -> & _). done.
Qed.

(** A goroutine may start. *)
Lemma good_snoc ts p : good ts → tidy idle p → good (ts ++ [fresh_thread p]).
Proof.
  intros [Hd Hx] Hp. split; [apply Forall_app_2, Forall_singleton; [done|split; [exact Hp|by left]]|].
  assert (∀ j t, (ts ++ [fresh_thread p]) !! j = Some t → ts !! j = Some t ∨ lock_of t = Unlocked) as Hl.
  { intros j t [?|[_ Hj]]%lookup_app_Some; [by left|right]. apply list_lookup_singleton_Some in Hj as [_ <-]. done. }
  intros i j ti tj Hi Hj Hne Hw. destruct (Hl _ _ Hj) as [Hj'|?]; [|done].
  destruct (Hl _ _ Hi) as [Hi'|?]; [by eapply (Hx i j)|congruence].
Qed.

(** ** Somebody can go on *)

Definition ended (t : gthread) : Prop := next_call t = None.

#[local] Instance ended_dec t : Decision (ended t).
Proof. unfold ended, next_call. destruct (t_prog t); [left|left|right]; done. Defined.

(** A goroutine that holds something has a next call, which waits only when it
    closes the old pool. *)
Lemma holder_call t :
  disciplined t → t_held t ≠ idle →
  ∃ c, next_call t = Some c ∧
    (may_wait c = false ∨ (∃ p, c = PoolClose p) ∧ lock_of t = WLocked ∧ ¬ connected t).
Proof.
  destruct t as [p s]. intros [Hs Hn] Hne. cbn in Hs, Hn, Hne.
  destruct p as [a|m|c k]; [by destruct Hne; rewrite <-Hs..|]. exists c. split; [done|].
  destruct (may_wait c) eqn:Hw; [right|by left]. specialize (Hs (default_answer c)).
  destruct (monitor_step s c (default_answer c)) as [s'|] eqn:E; [|done].
  destruct (waits_with _ _ _ _ E Hw) as [?|[Hp Hl]]; [done|]. split_and!; [done..|].
  destruct Hn as [Hn|[H1 H2]]; [congruence|]. intros [Hc|Hc]; by apply Hc.
Qed.

Lemma progress ts : good ts → Forall ended ts ∨ can_go ts.
Proof.
  intros [Hd _]. assert (∀ i t, ts !! i = Some t → disciplined t) as Hdi by by apply Forall_lookup.
  destruct (decide (Exists connected ts)) as [(t & Hin & Hc)%Exists_exists|Hc].
  { apply list_elem_of_lookup in Hin as [i Hi]. right.
    destruct (holder_call t) as (c & Hn & Hw); [by eapply Hdi|intros E; unfold connected in Hc; rewrite E in Hc; by destruct Hc|].
    exists i, t, c. split_and!; [done..|]. apply may_wait_false. by destruct Hw as [?|(_ & _ & ?)]. }
  apply not_Exists_Forall in Hc; [|apply _].
  destruct (decide (Exists (λ t, t_held t ≠ idle) ts)) as [(t & Hin & Hh)%Exists_exists|Hh].
  { apply list_elem_of_lookup in Hin as [i Hi]. right.
    destruct (holder_call t) as (c & Hn & Hw); [by eapply Hdi|done|]. exists i, t, c. split_and!; [done..|].
    destruct Hw as [Hw|[[p ->] _]]; [by apply may_wait_false|exact Hc]. }
  apply not_Exists_Forall in Hh; [|apply _].
  assert (Forall (λ t, lock_of t = Unlocked) ts) as Hl.
  { eapply Forall_impl; [exact Hh|]. intros t Ht. unfold lock_of. by rewrite (dec_stable Ht). }
  destruct (decide (Exists (λ t, wants_lock t = true) ts)) as [(t & Hin & Hm)%Exists_exists|Hm].
  { apply list_elem_of_lookup in Hin as [i Hi]. right. exists i, t, MuLock.
    split_and!; [done| |exact Hl]. unfold wants_lock in Hm. by repeat case_match. }
  apply not_Exists_Forall in Hm; [|apply _].
  destruct (decide (Forall ended ts)) as [He|He]; [by left|right].
  apply not_Forall_Exists in He; [|apply _]. apply Exists_exists in He as (t & Hin & He).
  apply list_elem_of_lookup in Hin as [i Hi]. unfold ended in He.
  destruct (next_call t) as [c|] eqn:Hn; [|done]. exists i, t, c. split_and!; [done..|].
  destruct c; try done. split.
  - eapply Forall_impl; [exact Hl|]. cbn. congruence.
  - eapply Forall_impl; [exact Hm|]. intros u Hu. apply not_true_is_false, Hu.
Qed.

(** A goroutine after a call: it cannot call for ever. *)
Definition smaller (t' t : gthread) : Prop := next_of (t_prog t') (t_prog t).

Lemma smaller_wf t : Acc smaller t.
Proof.
  destruct t as [p s]. revert s. induction (next_of_wf p) as [p _ IH]. intros s. constructor.
  intros [p' s'] Hp. by apply IH.
Qed.

End Blocking.

(** No goroutine is about to write the pool pointer while another is about to
    read or write it. *)
Definition race_free {A} (ts : list (gthread (A := A))) : Prop :=
  ∀ i j ti tj p c, ts !! i = Some ti → ts !! j = Some tj → i ≠ j →
    next_call ti = Some (StorePool p) → next_call tj = Some c →
    c ≠ LoadPool ∧ ∀ q, c ≠ StorePool q.

(** Whoever is about to use the pool pointer has the lock for it. *)
Lemma pointer_lock {A} (t : gthread (A := A)) c :
  disciplined t → next_call t = Some c →
  (c = LoadPool → lock_of t ≠ Unlocked) ∧ (∀ p, c = StorePool p → lock_of t = WLocked).
Proof.
  destruct t as [[a|m|c' k] s]; try done. intros [Hs _] [= ->]. cbn in Hs.
  split; [intros ->|intros p ->]; specialize (Hs (default_answer _)); cbn in Hs; unfold lock_of; cbn.
  - destruct (need _ _) as [s'|] eqn:E; [|done]. apply need_Some in E as [Hb _].
    unfold unlocked in Hb. by apply negb_true_iff, bool_decide_eq_false in Hb.
  - destruct (need _ _) as [s'|] eqn:E; [|done]. apply need_Some in E as [Hb _].
    by apply bool_decide_eq_true in Hb.
Qed.

Lemma good_race_free {A} (ts : list (gthread (A := A))) : good ts → race_free ts.
Proof.
  intros [Hd Hx] i j ti tj p c Hi Hj Hne Hs Hc.
  destruct (pointer_lock ti _ (Forall_lookup_1 _ _ _ _ Hd Hi) Hs) as [_ Hw].
  specialize (Hx i j ti tj Hi Hj Hne (Hw p eq_refl)).
  destruct (pointer_lock tj c (Forall_lookup_1 _ _ _ _ Hd Hj) Hc) as [Hl Hst]. split.
  - intros ->. by apply Hl.
  - intros q ->. specialize (Hst q eq_refl). congruence.
Qed.

(** ** The goroutines of a service *)

(** Those [main] starts, the servers apart. *)
Definition keeps_going (t : thread) : Prop :=
  match t with GoCredentialRefresher _ | GoMonitorDBHealth _ _ _ => True | _ => False end.

Lemma tidy_rotate_pool c cfg build (setPool : option pool → go unit) creds :
  (∀ p, tidy idle (setPool p)) → tidy idle (Common.rotate_pool c cfg build setPool creds).
Proof.
  intros Hs. unfold Common.rotate_pool, Common.newPool, zap_log.
  repeat (apply Hs || tidy_step).
Qed.

Lemma tidy_refresher n c role refreshFn :
  (∀ creds, tidy idle (refreshFn creds)) →
  tidy idle (vault.refresher n c role (Some refreshFn) (Some (λ m err, zap_log Warn_ m [ZError err]))).
Proof.
  intros Hr. induction n as [|n IH]; cbn [vault.refresher]; [apply tidy_ret|].
  apply tidy_bind; [|intros []; [exact IH|apply tidy_ret]].
  unfold vault.refresh_once, vault.GetDBCreds, zap_log. repeat (apply Hr || tidy_step).
Qed.

Lemma tidy_monitor n c p service interval : tidy idle (Common.monitorDBHealth n c p service interval).
Proof.
  induction n as [|n IH]; cbn [Common.monitorDBHealth]; [apply tidy_ret|].
  apply tidy_bind; [|intros []; [exact IH|apply tidy_ret]].
  unfold Common.monitor_once, ctx_cancel, zap_log. repeat tidy_step.
  exact (tidy_call idle (SetServingStatus service true) (λ _, eq_refl)).
Qed.

Lemma tidy_goroutine refreshFn n c t :
  (∀ creds, tidy idle (refreshFn creds)) → keeps_going t →
  tidy idle (Common.goroutine refreshFn n c t).
Proof.
  intros Hr Ht. destruct t; try done; cbn [Common.goroutine]; [by apply tidy_refresher|apply tidy_monitor].
Qed.

(** ** Answers of a world in which all is well *)

#[export] Instance lock_grants_dec {A} (ts : list (gthread (A := A))) c : Decision (lock_grants ts c).
Proof. destruct c; cbn; apply _. Defined.

Definition answers (c : extcall) : extres c :=
  match c return extres c with
  | VaultRead _ _ => Ok (Some (mkSecret (Some [("username", AnyString "u"); ("password", AnyString "p")]) "l" 60))
  | LoadPool => Some (Pool 0)
  | PgxNewWithConfig _ _ => Ok (Pool 1)
  | PoolBegin _ _ => Ok (Txn 0)
  | GrpcInvoke _ _ _ ko _ =>
      match ko return gresult (msg ko) with
      | MGetUserResponse => Ok (userv1.mkGetUserResponse (Some (userv1.mkUser "42" "" "" None None)))
      | _ => Fail (ErrText "")
      end
  | c => default_answer c
  end.

Definition an_order : orderv1.CreateOrderRequest :=
  orderv1.mkCreateOrderRequest "42" [Some (orderv1.mkOrderItem "p" "" 1 f64_zero)].
