(* ===== verification/Fairness.v ===== *)
(** * Requests beside the endless loops of a service

    The credential refresher and the health monitor never end of themselves:
    each starts another turn of its loop as long as its context lives.  Here a
    goroutine whose turn asked for another starts it again, for ever, beside
    the requests; in every fair infinite run of such a service every request
    ends. *)
From S2P Require Import Prelude.
From S2P Require Import GoStrings.
From S2P Require Import GoFloat.
From S2P Require Import Proto.
From S2P Require Import GoRuntime.
From S2P Require Import External.
From S2P Require Import Typestate.
From S2P Require Import Grpc.
From S2P Require Import GrpcStubs.
From S2P Require Import UserService.
From S2P Require Import UserProofs.
From S2P Require Import OrderService.
From S2P Require Import OrderServiceProofs.
From S2P Require Import OrderTheorems.
From S2P Require Import Config.
From S2P Require Import Vault.
From S2P Require Import Lifecycle.
From S2P Require Import Resources.
From S2P Require Import Deadlock.
From stdpp Require Import relations.
From Stdlib Require Import Classical.

Abbreviation gthread := (gthread (A := bool)).

(** ** Goroutines that start again *)

(** A request, a loop that may replace the pool, or one that only uses it. *)
Inductive job_kind : Type := Request | Writer | Watcher.

(** A goroutine: the whole body of a request, one turn of a loop; the turn of a
    loop that returns [true] asks for another. *)
Record job := mkJob { j_kind : job_kind; j_turn : go bool }.

Definition start (js : list job) : list gthread := (λ j, fresh_thread (j_turn j)) <$> js.

(** A step of goroutine [i]: a call, whatever its answer, or the next turn. *)
Inductive gstep (js : list job) (i : nat) : list gthread → list gthread → Prop :=
| gstep_call ts c k s r :
    ts !! i = Some (mkThread (Call c k) s) → lock_grants ts c →
    gstep js i ts (<[i := mkThread (k r) (held_after s c r)]> ts)
| gstep_turn ts j s :
    js !! i = Some j → j_kind j ≠ Request → ts !! i = Some (mkThread (Ret true) s) →
    gstep js i ts (<[i := mkThread (j_turn j) s]> ts).

Definition some_step (js : list job) (ts ts' : list gthread) : Prop := ∃ i, gstep js i ts ts'.

(** The next call of goroutine [i] returns if it is made now. *)
Definition ready (i : nat) (ts : list gthread) : Prop :=
  ∃ t c, ts !! i = Some t ∧ next_call t = Some c ∧ returns_now ts c.

Lemma ready_goes js i ts : ready i ts → ∃ ts', gstep js i ts ts'.
Proof.
  intros ([p s] & c & Hi & Hc & Hr). destruct p as [a|m|c' k]; try done. injection Hc as ->.
  eexists. apply (gstep_call js i ts c k s (default_answer c) Hi). destruct c; try done. by destruct Hr.
Qed.

Definition infinitely (P : nat → Prop) : Prop := ∀ n, ∃ m, n ≤ m ∧ P m.

(** An infinite run, in which nothing may happen for a while; a goroutine whose
    call could return infinitely often goes on infinitely often.  No goroutine
    has to start another turn. *)
Record fair_run (js : list job) (σ : nat → list gthread) : Prop := {
  run_start : σ 0 = start js;
  run_steps : ∀ n, σ (S n) = σ n ∨ some_step js (σ n) (σ (S n));
  run_fair : ∀ i, infinitely (λ n, ready i (σ n)) → infinitely (λ n, gstep js i (σ n) (σ (S n)))
}.

(** ** What the kinds promise *)

Definition takes_connection (c : extcall) : bool :=
  match c with PoolBegin _ _ | PoolQuery _ _ _ _ _ => true | _ => false end.
Definition takes_lock (c : extcall) : bool :=
  match c with MuRLock | MuLock => true | _ => false end.

(** A request does not ask for the write lock, a loop takes no connection, and a
    watcher no lock. *)
Definition allowed (k : job_kind) (c : extcall) : Prop :=
  match k with
  | Request => c ≠ MuLock
  | Writer => takes_connection c = false
  | Watcher => takes_connection c = false ∧ takes_lock c = false
  end.
Definition kind_holds (k : job_kind) (t : gthread) : Prop :=
  match k with
  | Request => True
  | Writer => ¬ connected t
  | Watcher => ¬ connected t ∧ lock_of t = Unlocked
  end.
Definition kind_ok (k : job_kind) (t : gthread) : Prop :=
  calls_only (allowed k) (t_prog t) ∧ kind_holds k t.

Definition job_ok (j : job) : Prop := tidy idle (j_turn j) ∧ calls_only (allowed (j_kind j)) (j_turn j).
Definition one_writer (js : list job) : Prop := ∀ i i' j j',
  js !! i = Some j → js !! i' = Some j' → j_kind j = Writer → j_kind j' = Writer → i = i'.

Lemma held_keeps s c r s' :
  monitor_step s c r = Some s' →
  (takes_connection c = false → h_txs s = [] → h_rows s = [] → h_txs s' = [] ∧ h_rows s' = []) ∧
  (takes_lock c = false → h_lock s = Unlocked → h_lock s' = Unlocked).
Proof.
  destruct c; cbn; intros Hm; try (by injection Hm as <-);
    try (by apply need_Some in Hm as [_ ->]);
    try (by destruct r; apply need_Some in Hm as [_ ->]);
    try (by destruct (h_txs s); [|apply need_Some in Hm as [_ ->]]);
    by destruct (h_rows s); [|apply need_Some in Hm as [_ ->]].
Qed.

Lemma unconnected (t : gthread) : ¬ connected t ↔ h_txs (t_held t) = [] ∧ h_rows (t_held t) = [].
Proof.
  unfold connected. split; [|by intros [-> ->] [[]|[]]].
  destruct (h_txs _), (h_rows _); intros Hn; try done; destruct Hn; by (left + right).
Qed.

Lemma kind_call k (t : gthread) c f r s' :
  t_prog t = Call c f → monitor_step (t_held t) c r = Some s' → kind_ok k t →
  kind_ok k (mkThread (f r) s').
Proof.
  intros Hp Hm [Hc Hk]. rewrite Hp in Hc. destruct Hc as [Ha Hc]. split; [apply Hc|].
  destruct (held_keeps _ _ _ _ Hm) as [H1 H2].
  destruct k; cbn in *; [done| |]; rewrite unconnected in *; cbn.
  - destruct Hk. auto.
  - destruct Hk as [[] ?], Ha. auto.
Qed.

(** ** The invariant *)

Definition jobs_good (js : list job) (ts : list gthread) : Prop :=
  good ts ∧ Forall2 (λ j t, kind_ok (j_kind j) t) js ts.

Lemma fresh_kind_ok j : job_ok j → kind_ok (j_kind j) (fresh_thread (j_turn j)).
Proof. intros [_ Hc]. split; [exact Hc|]. destruct (j_kind j); cbn; rewrite ?unconnected; done. Qed.

Lemma jobs_good_start js : Forall job_ok js → jobs_good js (start js).
Proof.
  intros Hjs. split.
  - unfold start. rewrite (list_fmap_compose j_turn fresh_thread). apply good_start.
    apply Forall_fmap. eapply Forall_impl; [exact Hjs|]. by intros j [? _].
  - unfold start. apply Forall2_fmap_r, Forall_Forall2_diag. eapply Forall_impl; [exact Hjs|].
    apply fresh_kind_ok.
Qed.

(** Nothing is held between turns. *)
Lemma returned_idle (t : gthread) v : disciplined t → t_prog t = Ret v → t_held t = idle.
Proof. destruct t as [p s]. intros [Hs _]. cbn in *. intros ->. by symmetry. Qed.

Lemma good_turn (ts : list gthread) i t p :
  good ts → ts !! i = Some t → tidy idle p → good (<[i := fresh_thread p]> ts).
Proof.
  intros [Hd Hx] Hi Hp. split; [by apply Forall_insert; [|split; [exact Hp|by left]]|].
  intros j1 j2 t1 t2 H1 H2 Hne Hw. destruct (decide (i = j1)) as [<-|N1].
  - rewrite list_lookup_insert_eq in H1 by by eapply lookup_lt_Some. by injection H1 as <-.
  - rewrite list_lookup_insert_ne in H1 by done. destruct (decide (i = j2)) as [<-|N2].
    + rewrite list_lookup_insert_eq in H2 by by eapply lookup_lt_Some. by injection H2 as <-.
    + rewrite list_lookup_insert_ne in H2 by done. by eapply (Hx j1 j2).
Qed.

Lemma jobs_good_step js i ts ts' :
  Forall job_ok js → jobs_good js ts → gstep js i ts ts' → jobs_good js ts'.
Proof.
  intros Hjs [Hg Hk] Hs. destruct Hs as [ts c k s r Hi Hl|ts j s Hj _ Hi].
  - split; [eapply good_step; [done|by econstructor]|].
    destruct (Forall2_lookup_r _ _ _ _ _ Hk Hi) as (j & Hj & Hkj).
    pose proof (Forall_lookup_1 _ _ _ _ (proj1 Hg) Hi) as Hd.
    destruct (disciplined_call c k s r Hd) as (s' & Hm & -> & _).
    rewrite <-(list_insert_id js i j Hj). apply Forall2_insert; [done|]. by apply (kind_call _ (mkThread (Call c k) s) c k r).
  - pose proof (Forall_lookup_1 _ _ _ _ Hjs Hj) as Hok.
    assert (s = idle) as -> by (eapply (returned_idle (mkThread _ s)); [exact (Forall_lookup_1 _ _ _ _ (proj1 Hg) Hi)|done]).
    split; [by eapply good_turn; [| |apply Hok]|].
    rewrite <-(list_insert_id js i j Hj). apply Forall2_insert; [done|]. by apply fresh_kind_ok.
Qed.

Lemma jobs_good_reachable js ts :
  Forall job_ok js → rtc (some_step js) (start js) ts → jobs_good js ts.
Proof.
  intros Hjs Hs. pose proof (jobs_good_start js Hjs) as Hg. revert Hg.
  induction Hs as [|x y z [i Hstep] _ IH]; [done|]. intros Hx. by eapply IH, jobs_good_step.
Qed.

(** ** Fair runs *)

Lemma next_of_irrefl {A} (p : go A) : ¬ next_of p p.
Proof. induction (next_of_wf p) as [p _ IH]. intros Hp. by apply (IH p). Qed.

Section Fair.
Context (js : list job) (σ : nat → list gthread).
Context (Hjs : Forall job_ok js) (Hone : one_writer js) (Hrun : fair_run js σ).

Lemma run_good n : jobs_good js (σ n).
Proof.
  induction n as [|n IH]; [rewrite (run_start _ _ Hrun); by apply jobs_good_start|].
  destruct (run_steps _ _ Hrun n) as [->|[i Hs]]; [done|]. by eapply jobs_good_step.
Qed.

Lemma run_disciplined n i t : σ n !! i = Some t → disciplined t.
Proof. intros Hi. exact (Forall_lookup_1 _ _ _ _ (proj1 (proj1 (run_good n))) Hi). Qed.

Lemma run_kind n i t : σ n !! i = Some t → ∃ j, js !! i = Some j ∧ kind_ok (j_kind j) t.
Proof. intros Hi. exact (Forall2_lookup_r _ _ _ _ _ (proj2 (run_good n)) Hi). Qed.

Lemma run_lookup n i j : js !! i = Some j → ∃ t, σ n !! i = Some t ∧ kind_ok (j_kind j) t.
Proof. intros Hj. exact (Forall2_lookup_l _ _ _ _ _ (proj2 (run_good n)) Hj). Qed.

(** What happens to one goroutine in one moment: nothing, a call, a new turn. *)
Lemma run_moment n i t :
  σ n !! i = Some t →
  σ (S n) !! i = Some t ∨
  (∃ t', σ (S n) !! i = Some t' ∧ smaller t' t) ∨
  (∃ j, js !! i = Some j ∧ j_kind j ≠ Request) ∧ t_prog t = Ret true.
Proof.
  intros Hi. destruct (run_steps _ _ Hrun n) as [->|[i' Hs]]; [by left|].
  inversion Hs as [ts c k s r Hi' Hl|ts j s Hj Hk Hi']; subst;
    (destruct (decide (i' = i)) as [->|Hne]; [|left; by rewrite list_lookup_insert_ne]);
    rewrite Hi in Hi'; injection Hi' as ->; right.
  - left. eexists. rewrite list_lookup_insert_eq by by eapply lookup_lt_Some.
    split; [done|]. by eexists.
  - right. split; [by exists j|done].
Qed.

(** Goroutine [i] no longer changes from [n] on. *)
Definition still (i n : nat) : Prop := ∀ m, n ≤ m → σ m !! i = σ n !! i.

Lemma still_later i n m : still i n → n ≤ m → still i m.
Proof. intros Hs Hm k Hk. rewrite (Hs m Hm). apply Hs. lia. Qed.

(** A goroutine that starts no further turn becomes still. *)
Lemma settles i n :
  (∀ m t, n ≤ m → σ m !! i = Some t → t_prog t = Ret true →
    ∀ j, js !! i = Some j → j_kind j = Request) →
  is_Some (σ n !! i) → ∃ N, n ≤ N ∧ still i N.
Proof.
  intros Hno [t Hi]. revert n Hno Hi. induction (smaller_wf t) as [t _ IH]. intros n Hno Hi.
  destruct (classic (still i n)) as [Hs|Hs]; [by exists n|].
  assert (∃ m, n ≤ m ∧ σ m !! i = Some t ∧ σ (S m) !! i ≠ Some t) as (m & Hm & Him & Hne).
  { apply NNPP. intros Hnot. apply Hs. intros m Hm. rewrite Hi. induction Hm as [|m Hm IHm]; [done|].
    apply NNPP. intros Hc. apply Hnot. exists m. split_and!; [lia|done..]. }
  destruct (run_moment m i t Him) as [?|[(t' & Ht' & Hsm)|[(j & Hj & Hk) Hr]]]; [done| |].
  - destruct (IH t' Hsm (S m)) as (N & HN & Hst); [|done|exists N; split; [lia|done]].
    intros m' u Hm'. apply Hno. lia.
  - exfalso. apply Hk. eapply (Hno m t); [lia|done..].
Qed.

(** A still goroutine is not ready again and again. *)
Lemma still_waits i n t c :
  still i n → σ n !! i = Some t → next_call t = Some c → ∃ m, n ≤ m ∧ ∀ k, m ≤ k → ¬ returns_now (σ k) c.
Proof.
  intros Hs Hi Hc. apply NNPP. intros Hnot.
  destruct (run_fair _ _ Hrun i) with (n := n) as (m & Hm & Hstep).
  { intros m. apply NNPP. intros Hno. apply Hnot. exists (n `max` m). split; [lia|]. intros k Hk Hr.
    apply Hno. exists k. split; [lia|]. exists t, c. rewrite (Hs k) by lia. done. }
  pose proof (Hs m Hm) as Him. pose proof (Hs (S m) ltac:(lia)) as His. rewrite Hi in Him, His.
  inversion Hstep as [ts c' k s r Hi' Hl Heq1 Heq|ts j s Hj Hk Hi' Heq1 Heq]; subst;
    rewrite Him in Hi'; injection Hi' as ->; [|done].
  rewrite <-Heq, list_lookup_insert_eq in His by by eapply lookup_lt_Some.
  injection His as Hk _. apply (next_of_irrefl (Call c' k)). by exists r.
Qed.

(** All requests become still. *)
Lemma requests_settle : ∃ N, ∀ i j, js !! i = Some j → j_kind j = Request → still i N.
Proof.
  assert (∀ L, ∃ N, ∀ i j, i < L → js !! i = Some j → j_kind j = Request → still i N) as Hall.
  { induction L as [|L [N HN]]; [exists 0; lia|]. destruct (js !! L) as [j|] eqn:Hj.
    - destruct (classic (j_kind j = Request)) as [Hk|Hk].
      + destruct (settles L 0) as (N' & _ & Hs).
        { intros m t _ _ _ j' Hj'. congruence. }
        { destruct (run_lookup 0 L j Hj) as (t & Ht & _). by exists t. }
        exists (N `max` N'). intros i j' Hi Hj' Hk'. destruct (decide (i = L)) as [->|Hne].
        * eapply still_later; [done|lia].
        * eapply still_later; [by eapply (HN i j'); [lia|..]|lia].
      + exists N. intros i j' Hi Hj' Hk'. destruct (decide (i = L)) as [->|Hne]; [congruence|].
        apply (HN i j'); [lia|done..].
    - exists N. intros i j' Hi Hj' Hk'. destruct (decide (i = L)) as [->|Hne]; [congruence|].
      apply (HN i j'); [lia|done..]. }
  destruct (Hall (length js)) as [N HN]. exists N. intros i j Hj. apply (HN i j); [|done].
  by eapply lookup_lt_Some.
Qed.

(** *** From when the requests are still *)

Section Settled.
Context (N : nat) (HN : ∀ i j, js !! i = Some j → j_kind j = Request → still i N).

(** A request that holds something has a call that returns again and again. *)
Lemma settled_request m i t j :
  N ≤ m → σ m !! i = Some t → js !! i = Some j → j_kind j = Request →
  ¬ connected t ∧ (t_held t ≠ idle → ∃ p, next_call t = Some (PoolClose p)).
Proof.
  intros Hm Hi Hj Hk. pose proof (HN i j Hj Hk) as Hs. pose proof (still_later i N m Hs Hm) as Hs'.
  assert (∀ c, next_call t = Some c → may_wait c = false → False) as Hbusy.
  { intros c Hc Hw. destruct (still_waits i m t c Hs' Hi Hc) as (k & _ & Hno).
    by apply (Hno k), may_wait_false. }
  pose proof (holder_call t (run_disciplined _ _ _ Hi)) as Hcall. split.
  - intros Hcon. destruct Hcall as (c & Hc & [Hw|(_ & _ & Hn)]); [|by eapply Hbusy|done].
    intros E. unfold connected in Hcon. rewrite E in Hcon. by destruct Hcon.
  - intros Hh. destruct (Hcall Hh) as (c & Hc & [Hw|([p ->] & _)]); [by destruct (Hbusy c)|by exists p].
Qed.

Lemma settled_unconnected m : N ≤ m → Forall (λ t, ¬ connected t) (σ m).
Proof.
  intros Hm. apply Forall_lookup. intros i t Hi. destruct (run_kind _ _ _ Hi) as (j & Hj & [_ Hk]).
  destruct (j_kind j) eqn:Ej; [|exact Hk|apply Hk]. by eapply settled_request.
Qed.

(** Hence only the lock can keep anybody waiting. *)
Lemma settled_lock m i n t c :
  N ≤ n → still i n → σ n !! i = Some t → next_call t = Some c → n ≤ m → takes_lock c = true.
Proof.
  intros Hn Hs Hi Hc Hm. destruct (takes_lock c) eqn:Ht; [done|exfalso].
  destruct (still_waits i n t c Hs Hi Hc) as (k & Hk & Hno). apply (Hno k); [done|].
  assert (Forall (λ t, ¬ connected t) (σ k)) as Hf by (apply settled_unconnected; lia). by destruct c.
Qed.

(** Nobody but the writer holds or wants the write lock. *)
Lemma settled_idle m i t j :
  N ≤ m → σ m !! i = Some t → js !! i = Some j → j_kind j ≠ Writer →
  lock_of t = Unlocked ∧ wants_lock t = false.
Proof.
  intros Hm Hi Hj Hw. destruct (run_kind _ _ _ Hi) as (j' & Hj' & [Hc Hk]). rewrite Hj in Hj'.
  injection Hj' as <-. destruct t as [p s]. destruct (j_kind j) eqn:Ej; [|done|].
  - split.
    + destruct (decide (s = idle)) as [->|Hh]; [done|exfalso].
      destruct (settled_request m i _ j Hm Hi Hj Ej) as [_ Hcl]. destruct (Hcl Hh) as [q Hq].
      assert (still i m) as Hs by (eapply still_later; [by eapply HN|done]).
      by discriminate (settled_lock m i m _ _ Hm Hs Hi Hq (le_n _)).
    + unfold wants_lock, next_call. cbn. destruct p as [a|e|[] k]; try done. by destruct Hc.
  - split; [apply Hk|]. unfold wants_lock, next_call. cbn.
    destruct p as [a|e|[] k]; try done. by destruct Hc as [[_ ?] _].
Qed.

(** The writer is again and again without the lock and without a wish for it. *)
Lemma writer_rests n :
  N ≤ n → ∃ m, n ≤ m ∧ returns_now (σ m) MuRLock.
Proof.
  intros Hn. apply NNPP. intros Hnot.
  set (busy (t : gthread) := lock_of t = WLocked ∨ wants_lock t = true).
  assert (∀ m, n ≤ m → ∃ i t j, σ m !! i = Some t ∧ js !! i = Some j ∧ j_kind j = Writer ∧ busy t) as Hbusy.
  { intros m Hm. apply NNPP. intros Hno. apply Hnot. exists m. split; [done|].
    assert (∀ i t, σ m !! i = Some t → ¬ busy t) as Hfree.
    { intros i t Hi Hb. destruct (run_kind _ _ _ Hi) as (j & Hj & _).
      destruct (classic (j_kind j = Writer)) as [Hw|Hw]; [apply Hno; by exists i, t, j|].
      destruct (settled_idle m i t j) as [Hl Hwl]; [lia|done..|]. unfold busy in Hb.
      rewrite Hl, Hwl in Hb. by destruct Hb. }
    split; apply Forall_lookup; intros i t Hi; specialize (Hfree i t Hi); unfold busy in Hfree.
    - naive_solver.
    - apply not_true_is_false. naive_solver. }
  destruct (Hbusy n (le_n _)) as (i & t0 & j & Hi & Hj & Hw & _).
  assert (∀ m, n ≤ m → ∃ t, σ m !! i = Some t ∧ busy t) as Hbi.
  { intros m Hm. destruct (Hbusy m Hm) as (i' & t & j' & Hi' & Hj' & Hw' & Hb).
    rewrite (Hone i i' j j' Hj Hj' Hw Hw'). by exists t. }
  destruct (settles i n) as (M & HM & Hst); [|by exists t0|].
  { intros m t Hm Him Hr. destruct (Hbi m Hm) as (t' & Him' & Hb). rewrite Him in Him'. injection Him' as <-.
    exfalso. pose proof (returned_idle t true (run_disciplined _ _ _ Him) Hr) as Hh.
    unfold busy, lock_of, wants_lock, next_call in Hb. rewrite Hh, Hr in Hb. by destruct Hb. }
  destruct (Hbi M HM) as (t & HMi & Hb). pose proof (run_disciplined _ _ _ HMi) as Hd.
  assert (next_call t = Some MuLock ∧ lock_of t = Unlocked) as [Hc Hl].
  { destruct Hb as [Hl|Hwl].
    - exfalso. destruct (holder_call t Hd) as (c & Hc & Hcase); [intros E; unfold lock_of in Hl; by rewrite E in Hl|].
      pose proof (settled_lock M i M t c ltac:(lia) Hst HMi Hc (le_n _)) as Ht.
      destruct Hcase as [?|[[p ->] _]]; [by destruct c|done].
    - unfold wants_lock, next_call in *. destruct t as [p s]. cbn in *. destruct p as [a|e|[] k]; try done.
      split; [done|]. destruct Hd as [Hs _]. cbn in Hs. specialize (Hs tt).
      destruct (need _ _) as [s'|] eqn:E; [|done]. apply need_Some in E as [E _].
      by apply bool_decide_eq_true in E as ->. }
  destruct (still_waits i M t MuLock Hst HMi Hc) as (k & Hk & Hno). apply (Hno k); [done|].
  apply Forall_lookup. intros i' t' Hi'. destruct (run_kind _ _ _ Hi') as (j' & Hj' & _).
  destruct (classic (j_kind j' = Writer)) as [Hw'|Hw'].
  - rewrite <-(Hone i i' j j' Hj Hj' Hw Hw'), (Hst k), HMi in Hi' by lia. by injection Hi' as <-.
  - eapply (settled_idle k i' t' j'); [lia|done..].
Qed.

(** So the requests are still because they have ended. *)
Lemma settled_ended i j : js !! i = Some j → j_kind j = Request →
  ∃ t, ended t ∧ ∀ m, N ≤ m → σ m !! i = Some t.
Proof.
  intros Hj Hk. destruct (run_lookup N i j Hj) as (t & Hi & [Hc _]). pose proof (HN i j Hj Hk) as Hs.
  exists t. split; [|intros m Hm; by rewrite (Hs m Hm)]. unfold ended.
  destruct (next_call t) as [c|] eqn:En; [exfalso|done].
  pose proof (settled_lock N i N t c (le_n _) Hs Hi En (le_n _)) as Hl.
  assert (c = MuRLock) as ->.
  { destruct t as [p s]. unfold next_call in En. cbn in *. destruct p as [| |c' k]; try done.
    injection En as ->. rewrite Hk in Hc. destruct Hc as [Hc _]. by destruct c. }
  destruct (still_waits i N t MuRLock Hs Hi En) as (m & Hm & Hno).
  destruct (writer_rests m Hm) as (k & Hk' & Hr). by apply (Hno k).
Qed.
End Settled.

Lemma requests_end i j : js !! i = Some j → j_kind j = Request →
  ∃ N t, ended t ∧ ∀ m, N ≤ m → σ m !! i = Some t.
Proof.
  intros Hj Hk. destruct requests_settle as [N HN]. exists N. by eapply settled_ended.
Qed.
End Fair.

(** ** The goroutines of a service *)

(** One turn of a loop that [main] starts, as in [Common.goroutine]. *)
Definition turn (refreshFn : vault.DBCreds → go unit) (c : ctx) (t : thread) : go bool :=
  match t with
  | GoCredentialRefresher role =>
      vault.refresh_once c role (Some refreshFn) (Some (λ m err, zap_log Warn_ m [ZError err]))
  | GoMonitorDBHealth p service interval => Common.monitor_once c p service interval
  | _ => mret false
  end.

Lemma goroutine_turn refreshFn n c t : keeps_going t →
  Common.goroutine refreshFn (S n) c t =
    (turn refreshFn c t ≫= λ again : bool, if again then Common.goroutine refreshFn n c t else mret false).
Proof. by destruct t. Qed.

(** The refresher and the monitor of a service, and requests that arrive some time. *)
Definition service_jobs (refreshFn : vault.DBCreds → go unit) (c : ctx)
    (role : string) (p : pool) (service : string) (interval : Z) (requests : list (go unit)) : list job :=
  mkJob Writer (turn refreshFn c (GoCredentialRefresher role)) ::
  mkJob Watcher (turn refreshFn c (GoMonitorDBHealth p service interval)) ::
  map (λ r, mkJob Request (r ≫= λ _, mret false)) requests.

Definition user_jobs (c : ctx) (cfg : UserConfig.Config) (p : pool) (interval : Z)
    (requests : list user_request) : list job :=
  service_jobs (UserMain.refreshFn c cfg) c (UserConfig.VaultDBRole cfg) p "user.v1.UserService" interval
    (map (λ q, serve_user CtxRequest q ≫= λ _, mret tt) requests).

Definition order_jobs (c : ctx) (cfg : OrderConfig.Config) (p : pool) (interval : Z)
    (r : OrderRepository.OrderRepository) (requests : list order_request) : list job :=
  service_jobs (OrderMain.refreshFn c cfg) c (OrderConfig.VaultDBRole cfg) p "order.v1.OrderService" interval
    (map (λ q, serve_order r CtxRequest q ≫= λ _, mret tt) requests).

Lemma service_one_writer refreshFn c role p srv iv rs : one_writer (service_jobs refreshFn c role p srv iv rs).
Proof.
  assert (∀ i j, service_jobs refreshFn c role p srv iv rs !! i = Some j → j_kind j = Writer → i = 0) as H0.
  { intros [|[|i]] j Hj Hk; [done|by injection Hj as <-|].
    cbn in Hj. apply list_lookup_fmap_Some in Hj as (r & -> & _). done. }
  intros i i' j j' Hi Hi' Hk Hk'. by rewrite (H0 i j), (H0 i' j').
Qed.

(** *** What they call *)

Lemma rotate_pool_connects_not c cfg build (setPool : option pool → go unit) creds :
  (∀ p, calls_only (allowed Writer) (setPool p)) →
  calls_only (allowed Writer) (Common.rotate_pool c cfg build setPool creds).
Proof.
  intros Hs. unfold Common.rotate_pool, Common.newPool, zap_log, ctx_cancel.
  repeat first [apply Hs | calls_only_step | done].
Qed.

Lemma service_jobs_ok refreshFn c role p srv iv rs :
  (∀ creds, tidy idle (refreshFn creds) ∧ calls_only (allowed Writer) (refreshFn creds)) →
  Forall (λ r, tidy idle r ∧ calls_only (allowed Request) r) rs →
  Forall job_ok (service_jobs refreshFn c role p srv iv rs).
Proof.
  intros Hr Hrs. constructor; [|constructor].
  - split; cbn [turn j_turn j_kind]; unfold vault.refresh_once, vault.GetDBCreds, zap_log.
    + repeat (apply Hr || tidy_step).
    + repeat first [apply Hr | calls_only_step | done].
  - split; cbn [turn j_turn j_kind]; unfold Common.monitor_once, ctx_cancel, zap_log.
    + repeat tidy_step. exact (tidy_call idle (SetServingStatus srv true) (λ _, eq_refl)).
    + repeat first [calls_only_step | done].
  - apply Forall_map. eapply Forall_impl; [exact Hrs|]. intros r [Ht Hc].
    split; [apply tidy_bind; [exact Ht|intros; apply tidy_ret]|by apply calls_only_bind].
Qed.

Ltac no_lock := repeat first [calls_only_step | done].

Lemma serve_user_locks_not c q : calls_only (allowed Request) (serve_user c q).
Proof.
  destruct q; apply calls_only_rpc; try done; intros req; cbn;
    unfold UserServiceServer.CreateUser, UserServiceServer.GetUser, UserServiceServer.UpdateUser,
      UserServiceServer.DeleteUser, UserRepository.Create, UserRepository.Get, UserRepository.Update,
      UserRepository.Delete, UserRepository.getPool, zap_log, ctx_cancel; cbn zeta; no_lock.
  all: unfold UserRepository.Get, UserRepository.getPool, ctx_cancel; no_lock.
Qed.

Lemma Create_locks_not c u items : calls_only (allowed Request) (OrderRepository.Create c u items).
Proof.
  unfold OrderRepository.Create, OrderRepository.getPool, OrderRepository.insert_item, ctx_cancel. no_lock.
  generalize f64_zero. induction items as [|[it|] items IH]; intros t; cbn; [done|apply IH|done].
Qed.

Lemma getFromDB_locks_not c id : calls_only (allowed Request) (OrderRepository.getFromDB c id).
Proof.
  unfold OrderRepository.getFromDB, OrderRepository.getItems, OrderRepository.getPool, ctx_cancel. no_lock.
Qed.

Ltac no_lock_order := repeat first
  [ lazymatch goal with
    | |- calls_only _ (OrderRepository.Create _ _ _) => apply Create_locks_not
    | |- calls_only _ (OrderRepository.getFromDB _ _) => apply getFromDB_locks_not
    end
  | calls_only_step | done ].

Lemma serve_order_locks_not r c q : calls_only (allowed Request) (serve_order r c q).
Proof.
  destruct q; apply calls_only_rpc; try done; intros req; cbn;
    unfold OrderServiceServer.CreateOrder, OrderServiceServer.GetOrder, OrderServiceServer.ListOrders,
      OrderServiceServer.CancelOrder, OrderServiceServer.check_item, UserClient.GetUser,
      userv1_grpc.userServiceClient_GetUser, invoke_stub, OrderRepository.Get, OrderRepository.List_,
      OrderRepository.Cancel, OrderCache.Get, OrderCache.Set_, OrderCache.Invalidate,
      OrderRepository.getPool, zap_log, ctx_cancel;
    cbn zeta; no_lock_order.
Qed.

(** *** Both services *)

Lemma user_jobs_ok c cfg p iv qs : Forall job_ok (user_jobs c cfg p iv qs).
Proof.
  apply service_jobs_ok.
  - intros creds. split; [apply tidy_rotate_pool; intros q; apply tidy_SetPool|].
    apply rotate_pool_connects_not. intros q. unfold UserRepository.SetPool. no_lock.
  - apply Forall_map, Forall_true. intros q. split.
    + apply tidy_bind; [apply tidy_serve_user|intros; apply tidy_ret].
    + apply calls_only_bind; [apply serve_user_locks_not|done].
Qed.

Lemma order_jobs_ok c cfg p iv r qs : Forall job_ok (order_jobs c cfg p iv r qs).
Proof.
  apply service_jobs_ok.
  - intros creds. split; [apply tidy_rotate_pool; intros q; apply tidy_SetPool|].
    apply rotate_pool_connects_not. intros q. unfold OrderRepository.SetPool. no_lock.
  - apply Forall_map, Forall_true. intros q. split.
    + apply tidy_bind; [apply tidy_serve_order|intros; apply tidy_ret].
    + apply calls_only_bind; [apply serve_order_locks_not|done].
Qed.

(** The goroutines of one of the two services. *)
Definition service_of (js : list job) : Prop :=
  (∃ c cfg p iv qs, js = user_jobs c cfg p iv qs) ∨
  (∃ c cfg p iv r qs, js = order_jobs c cfg p iv r qs).

Lemma service_of_ok js : service_of js → Forall job_ok js ∧ one_writer js.
Proof.
  intros [(c & cfg & p & iv & qs & ->)|(c & cfg & p & iv & r & qs & ->)].
  - split; [apply user_jobs_ok|apply service_one_writer].
  - split; [apply order_jobs_ok|apply service_one_writer].
Qed.

(** ** Claim *)

(** C22: The credential refresher of a service (which closes the old pool under the write
    lock) and its health monitor, each starting another turn of its endless loop
    whenever the last one asked for it, beside any number of requests of that service,
    whatever their calls answer: in every reachable state no goroutine is about to write
    the pool pointer while another is about to use it, and either every request has
    ended and each loop is between turns or has stopped, or some goroutine can make its
    next call, even if a waiting writer holds readers back, a pool has a single
    connection and closing it waits for the connections of all; and in every infinite
    run that is fair (a goroutine whose call could return infinitely often goes on
    infinitely often), every request ends, though the loops may go on for ever. Every
    call other than for the lock or a connection is assumed to return. *)
Theorem requests_finish (js : list job) :
  service_of js →
  (∀ ts, rtc (some_step js) (start js) ts → race_free ts ∧
     (Forall ended ts ∨ ∃ i ts', ready i ts ∧ gstep js i ts ts')) ∧
  (∀ σ, fair_run js σ → ∀ i j, js !! i = Some j → j_kind j = Request →
     ∃ N t, ended t ∧ ∀ m, N ≤ m → σ m !! i = Some t).
Proof.
  intros [Hok Hone]%service_of_ok. split.
  - intros ts Hs. destruct (jobs_good_reachable js ts Hok Hs) as [Hg _].
    split; [by apply good_race_free|]. destruct (progress ts Hg) as [|(i & t & c & Hi & Hc & Hr)]; [by left|right].
    assert (ready i ts) as Hready by by exists t, c. destruct (ready_goes js i ts Hready) as [ts' Hst].
    by exists i, ts'.
  - intros σ Hrun i j. by apply requests_end.
Qed.

(** ** An endless run

    A schedule of the goroutines, first a list of moves, then two blocks of
    moves of the refresher and of the monitor again and again. *)

Section Scheduled.
Context (js : list job) (ans : ∀ c, extres c).

(** A move of goroutine [i]: its call if the lock grants it, or its next turn. *)
Definition move (ts : list gthread) (i : nat) : list gthread :=
  match ts !! i with
  | Some (mkThread (Call c k) s) =>
      if decide (lock_grants ts c) then <[i := mkThread (k (ans c)) (held_after s c (ans c))]> ts else ts
  | Some (mkThread (Ret true) s) =>
      match js !! i with
      | Some (mkJob Request _) | None => ts
      | Some (mkJob _ p) => <[i := mkThread p s]> ts
      end
  | _ => ts
  end.

Lemma move_step ts i : move ts i = ts ∨ gstep js i ts (move ts i).
Proof.
  unfold move. destruct (ts !! i) as [[[[]|m|c k] s]|] eqn:Hi; try by left.
  - destruct (js !! i) as [[[] p]|] eqn:Hj; try by left.
    all: right; by apply (gstep_turn js i ts _ s Hj).
  - destruct (decide (lock_grants ts c)); [|by left]. right. by apply gstep_call.
Qed.

Lemma move_other ts i i' : i ≠ i' → move ts i !! i' = ts !! i'.
Proof.
  intros Hne. unfold move. repeat case_match; try done; by rewrite list_lookup_insert_ne.
Qed.

Context (pre cyc : list nat).
Definition moves (ts : list gthread) (l : list nat) : list gthread := foldl move ts l.

Definition nth_move (n : nat) : nat :=
  if decide (n < length pre) then pre !!! n else cyc !!! ((n - length pre) mod length cyc).
Fixpoint endless (n : nat) : list gthread :=
  match n with O => start js | S n => move (endless n) (nth_move n) end.

(** The state [rest] comes again and again, in which both loops are between turns. *)
Context (rest : list gthread) (a : nat) (s0 s1 : held).
Context (Hpre : moves (start js) pre = rest) (Hcyc : moves rest cyc = rest)
        (Hmid : moves rest (take a cyc) = rest) (Ha : cyc !! a = Some 1) (H0 : cyc !! 0 = Some 0)
        (Hloops : Forall (λ i, i = 0 ∨ i = 1) cyc)
        (Hkinds : ∀ i j, js !! i = Some j → j_kind j ≠ Request ↔ i = 0 ∨ i = 1)
        (Hr0 : rest !! 0 = Some (mkThread (Ret true) s0)) (Hr1 : rest !! 1 = Some (mkThread (Ret true) s1))
        (Hlen : 2 ≤ length js)
        (Hended : ∀ i t, rest !! i = Some t → ended t).

Lemma endless_pre n : n ≤ length pre → endless n = moves (start js) (take n pre).
Proof.
  induction n as [|n IH]; intros Hn; [done|]. cbn [endless]. rewrite IH by lia.
  unfold nth_move. rewrite decide_True by lia.
  destruct (lookup_lt_is_Some_2 pre n) as [i Hi]; [lia|].
  rewrite (take_S_r _ _ _ Hi), (list_lookup_total_correct _ _ _ Hi).
  unfold moves. by rewrite foldl_app.
Qed.

Lemma endless_cycle k n : n ≤ length cyc →
  endless (length pre + k * length cyc + n) = moves rest (take n cyc).
Proof.
  assert (∀ k n, endless (length pre + k * length cyc) = rest → n ≤ length cyc →
    endless (length pre + k * length cyc + n) = moves rest (take n cyc)) as Hin.
  { clear k n. intros k n Hk. induction n as [|n IH]; intros Hn; [by rewrite Nat.add_0_r|].
    rewrite Nat.add_succ_r. cbn [endless]. rewrite IH by lia. unfold nth_move. rewrite decide_False by lia.
    replace (length pre + k * length cyc + n - length pre) with (n + k * length cyc) by lia.
    rewrite Nat.Div0.mod_add, Nat.mod_small by lia.
    destruct (lookup_lt_is_Some_2 cyc n) as [i Hi]; [lia|].
    rewrite (take_S_r _ _ _ Hi), (list_lookup_total_correct _ _ _ Hi). unfold moves. by rewrite foldl_app. }
  revert n. assert (endless (length pre + k * length cyc) = rest) as Hk; [|intros n; by apply Hin].
  induction k as [|k IH].
  - rewrite Nat.add_0_r, endless_pre, firstn_all by lia. exact Hpre.
  - replace (length pre + S k * length cyc) with (length pre + k * length cyc + length cyc) by lia.
    rewrite Hin, firstn_all by done. exact Hcyc.
Qed.

Lemma loop_moves i s b n k :
  rest !! i = Some (mkThread (Ret true) s) → js !! i = Some b → j_kind b ≠ Request →
  cyc !! n = Some i → moves rest (take n cyc) = rest →
  let m := length pre + k * length cyc + n in gstep js i (endless m) (endless (S m)).
Proof.
  intros Hi Hb Hk Hn Hrest m. assert (n < length cyc) as Hlt by by eapply lookup_lt_Some.
  assert (endless m = rest) as Hm by (unfold m; rewrite endless_cycle by lia; exact Hrest).
  assert (nth_move m = i) as Hmove.
  { unfold nth_move, m. rewrite decide_False by lia.
    replace (length pre + k * length cyc + n - length pre) with (n + k * length cyc) by lia.
    rewrite Nat.Div0.mod_add, Nat.mod_small by lia. by apply list_lookup_total_correct. }
  cbn [endless]. rewrite Hmove, Hm. unfold move. rewrite Hi, Hb. destruct b as [bk bt].
  destruct bk; [done| |]; by apply (gstep_turn js i rest _ s Hb).
Qed.

(** After the first moves only the loops go on. *)
Lemma endless_requests n i : length pre ≤ n → i ≠ 0 → i ≠ 1 → endless n !! i = rest !! i.
Proof.
  intros Hn Hi0 Hi1. induction Hn as [|n Hn IH].
  { rewrite <-(Nat.add_0_r (length pre)), <-(Nat.add_0_r (length pre + 0)).
    change (length pre + 0 + 0) with (length pre + 0 * length cyc + 0). by rewrite endless_cycle by lia. }
  cbn [endless]. rewrite move_other; [exact IH|]. unfold nth_move. rewrite decide_False by lia.
  assert (0 < length cyc) as Hpos by (destruct cyc; [done|cbn; lia]).
  destruct (lookup_lt_is_Some_2 cyc ((n - length pre) mod length cyc)) as [x Hx]; [by apply Nat.mod_upper_bound; lia|].
  rewrite (list_lookup_total_correct _ _ _ Hx).
  pose proof (Forall_lookup_1 _ _ _ _ Hloops Hx) as [->| ->]; congruence.
Qed.

Lemma endless_fair : fair_run js endless.
Proof.
  split; [done| |].
  - intros n. cbn [endless]. destruct (move_step (endless n) (nth_move n)); [by left|right; by eexists].
  - intros i Hready. assert (i = 0 ∨ i = 1) as Hi.
    { destruct (decide (i = 0)); [by left|]. destruct (decide (i = 1)); [by right|exfalso].
      destruct (Hready (length pre)) as (m & Hm & t & c & Ht & Hc & _).
      rewrite (endless_requests m i) in Ht by done. specialize (Hended i t Ht).
      unfold ended in Hended. congruence. }
    destruct (lookup_lt_is_Some_2 js i) as [b Hb]; [lia|].
    assert (j_kind b ≠ Request) as Hk by (by apply (Hkinds i b)).
    assert (0 < length cyc) as Hpos by (destruct cyc; [done|cbn; lia]).
    intros n. exists (length pre + n * length cyc + (if decide (i = 0) then 0 else a)). split.
    { assert (n * 1 ≤ n * length cyc) by (apply Nat.mul_le_mono_l; lia). case_decide; lia. }
    destruct Hi as [->| ->]; cbn [decide].
    + by apply (loop_moves 0 s0 b 0 n).
    + by apply (loop_moves 1 s1 b a n).
Qed.
End Scheduled.

Definition a_config : OrderConfig.Config :=
  OrderConfig.mkConfig "" "" "" "" "" "" "" "" "" "" "" "" "" (mkPoolSettings 25 5 0 0 0 0).

(** A request to create an order and one to list orders, beside both loops. *)
Definition an_hour : list job :=
  order_jobs CtxBackground a_config (Pool 0) (15 * Second) (OrderRepository.mkOrderRepository true)
    [ReqCreateOrder an_order; ReqListOrders orderv1.ListOrdersRequest_zero].

(** The rotation waits for the transaction, the second request for the lock. *)
Definition first_moves : list nat :=
  replicate 8 2 ++ replicate 8 0 ++ replicate 5 3 ++ replicate 40 2 ++ replicate 3 0 ++ replicate 40 3 ++
  replicate 4 1.

(** Nobody cancels the context of the loops. *)
Definition going_on (c : extcall) : extres c :=
  match c return extres c with
  | SelectDoneOrAfter _ _ | SelectDoneOrTick _ _ => false
  | c => answers c
  end.

(** Then a turn of the refresher and one of the monitor, again and again. *)
Definition turns_of_both : list nat := replicate 12 0 ++ replicate 5 1.
Definition between_turns : list gthread :=
  [mkThread (Ret true) idle; mkThread (Ret true) idle; mkThread (Ret false) idle; mkThread (Ret false) idle].

Lemma moves_steps js ans ts l : rtc (some_step js) ts (moves js ans ts l).
Proof.
  revert ts. induction l as [|i l IH]; intros ts; [done|]. cbn.
  destruct (move_step js ans ts i) as [Hm|Hm]; [rewrite Hm; apply IH|].
  eapply rtc_l; [by exists i|apply IH].
Qed.

Lemma an_hour_fair : fair_run an_hour (endless an_hour going_on first_moves turns_of_both).
Proof.
  apply (endless_fair an_hour going_on first_moves turns_of_both between_turns 12 idle idle).
  - vm_compute. reflexivity.
  - vm_compute. reflexivity.
  - vm_compute. reflexivity.
  - reflexivity.
  - reflexivity.
  - unfold turns_of_both. apply Forall_app. split; apply Forall_replicate; auto.
  - intros [|[|[|[|i]]]] j Hj; try done; injection Hj as <-; cbn; intuition congruence.
  - reflexivity.
  - reflexivity.
  - cbn. lia.
  - apply Forall_lookup. unfold between_turns. by repeat constructor.
Qed.

Lemma requests_finish_witness :
  let blocked := moves an_hour going_on (start an_hour) (take 21 first_moves) in
  map next_call blocked =
    [Some (PoolClose (Pool 0)); Some (SelectDoneOrTick CtxBackground (15 * Second));
     Some (TxRollback (Txn 0) CtxRequest); Some MuRLock] ∧
  race_free blocked ∧ (Forall ended blocked ∨ ∃ i ts', ready i blocked ∧ gstep an_hour i blocked ts') ∧
  ∃ σ, fair_run an_hour σ ∧ ∃ N t, ended t ∧ ∀ m, N ≤ m → σ m !! 3 = Some t.
Proof.
  assert (service_of an_hour) as Hs.
  { right. by eexists CtxBackground, a_config, (Pool 0), (15 * Second)%Z, _, _. }
  destruct (requests_finish an_hour Hs) as [Hsafe Hlive]. intros blocked.
  split; [vm_compute; reflexivity|]. destruct (Hsafe blocked) as [Hr Hp]; [apply moves_steps|].
  split; [exact Hr|]. split; [exact Hp|]. eexists. split; [exact an_hour_fair|].
  eapply (Hlive _ an_hour_fair 3); reflexivity.
Defined.
