(* ===== verification/Concurrency.v ===== *)
(** * Requests served concurrently

    A gRPC server runs every request in its own goroutine, and a credential
    refresh replaces the pool meanwhile: any interleaving of the calls of any
    number of them, against the same world.  Locks are taken here without
    waiting, so there are more interleavings than the program has. *)
From S2P Require Import Prelude.
From S2P Require Import GoStrings.
From S2P Require Import GoFloat.
From S2P Require Import Proto.
From S2P Require Import GoRuntime.
From S2P Require Import External.
From S2P Require Import Grpc.
From S2P Require Import GrpcStubs.
From S2P Require Import Stores.
From S2P Require Import UserService.
From S2P Require Import UserProofs.
From S2P Require Import OrderService.
From S2P Require Import OrderProofs.
From S2P Require Import OrderCacheProofs.
From S2P Require Import OrderServiceProofs.
From S2P Require Import MemWorld.
From S2P Require Import OrderTheorems.
From S2P Require Import Vault.
From S2P Require Import Config.
From S2P Require Import Lifecycle.
From S2P Require Import LifecycleProofs.
From stdpp Require Import relations.
Import userv1.

(** ** Goroutines over an environment *)

Section Steps.
Context {W : Type} (H : env W).

(** One call of one goroutine. *)
Definition env_step {A} : list (go A) * W → list (go A) * W → Prop :=
  tstep (λ c w r w', H c w = (r, w')).

(** Calls made in the order of a schedule; a goroutine that has ended, or that
    does not exist, makes none. *)
Fixpoint schedule {A} (sch : list nat) (ts : list (go A)) (w : W) : list (go A) * W :=
  match sch with
  | [] => (ts, w)
  | i :: sch =>
      match ts !! i with
      | Some (Call c k) => let '(r, w') := H c w in schedule sch (<[i := k r]> ts) w'
      | _ => schedule sch ts w
      end
  end.

Lemma schedule_steps {A} sch (ts : list (go A)) w :
  rtc env_step (ts, w) (schedule sch ts w).
Proof.
  revert ts w. induction sch as [|i sch IH]; intros ts w; cbn; [done|].
  destruct (ts !! i) as [[a|s|c k]|] eqn:Hi; try done.
  destruct (H c w) as [r w'] eqn:Hc. eapply rtc_l; [|apply IH]. by econstructor.
Qed.

(** An invariant of every call is an invariant of every interleaving. *)
Lemma steps_invariant {A} (P : extcall → Prop) (I : W → Prop) (ts ts' : list (go A)) w w' :
  (∀ c w, P c → I w → I (H c w).2) →
  Forall (calls_only P) ts → rtc env_step (ts, w) (ts', w') → I w → I w'.
Proof.
  intros HI Hts Hs. remember (ts, w) as x eqn:Hx. remember (ts', w') as y eqn:Hy.
  revert ts w Hts Hx. induction Hs as [x|x z y Hstep _ IH]; intros ts w Hts ->.
  - by injection Hy as -> ->.
  - inversion Hstep as [? i c k ? r w1 Hi Hc]; subst. intros Hw.
    pose proof (Forall_lookup_1 _ _ _ _ Hts Hi) as [Hp Hk].
    eapply (IH eq_refl); [|done|].
    + apply Forall_insert; [done|]. apply Hk.
    + pose proof (HI c w Hp Hw) as Hw1. by rewrite Hc in Hw1.
Qed.
End Steps.

(** ** The directory of users *)

Section Directory.
Context {W : Type} (H : env W) `{!RepoCell H} `{!UserDB H}.

(** Calls that keep the directory, whatever happened before. *)
Definition keeps_directory (c : extcall) : Prop :=
  ∀ w, directory_ok (users w) → directory_ok (users (H c w).2).

Lemma keeps_quiet c : sql_call c = false → keeps_directory c.
Proof. intros Hc w Hw. by rewrite users_frame. Qed.

Lemma keeps_close p : keeps_directory (PoolClose p).
Proof. intros w Hw. by rewrite users_close. Qed.

Lemma keeps_insert p cx name email :
  valid_name (TrimSpace name) → valid_email (TrimSpace email) →
  keeps_directory (PoolQueryRow p cx UserRepository.sql_insert_user
    [AString (TrimSpace name); AString (TrimSpace email)] [KString; KTime; KTime]).
Proof.
  intros Hn He w Hw. pose proof (users_insert p cx (TrimSpace name) (TrimSpace email) w) as Hi.
  assert (∀ id ca ua, users w !! id = None → email_free (TrimSpace email) (users w) →
    directory_ok (<[id := mkUserRow (TrimSpace name) (TrimSpace email) ca ua]> (users w))) as Hadd.
  { intros id ca ua Hid Hf.
    apply (directory_ok_add (users w) _ id (mkUserRow (TrimSpace name) (TrimSpace email) ca ua));
      [done| |done].
    unfold row_ok. cbn. auto using TrimSpace_trimmed. }
  unfold UserRepository.sql_insert_user. destruct (H _ w) as [[(id & ca & ua & [])|e] w']; cbn.
  - destruct Hi as (_ & _ & Hid & Hf & ->). auto.
  - destruct Hi as [_ [->|(id & ca & ua & Hid & Hf & ->)]]; auto.
Qed.

Lemma keeps_select p cx id :
  keeps_directory (PoolQueryRow p cx UserRepository.sql_select_user [AString id]
    [KString; KString; KTime; KTime]).
Proof.
  intros w Hw. pose proof (users_select p cx id w) as Hs.
  unfold UserRepository.sql_select_user. destruct (H _ w) as [r w']; cbn. by destruct Hs as [-> _].
Qed.

Lemma keeps_delete p cx id :
  keeps_directory (PoolExec p cx UserRepository.sql_delete_user [AString id]).
Proof.
  intros w Hw. pose proof (users_delete p cx id w) as Hd.
  unfold UserRepository.sql_delete_user. destruct (H _ w) as [[n|e] w']; cbn.
  - destruct Hd as [-> _]. by apply directory_ok_delete.
  - destruct Hd as [->| ->]; [done|]. by apply directory_ok_delete.
Qed.

Lemma keeps_update p cx id name email ns es :
  ns || es = true →
  (ns = true → valid_name name ∧ trimmed name) → (es = true → valid_email email ∧ trimmed email) →
  keeps_directory (PoolQueryRow p cx (sql_update_user ns es)
    ((if ns then [AString name] else []) ++ (if es then [AString email] else []) ++ [AString id])
    [KString; KString; KString; KTime; KTime]).
Proof.
  intros Hset Hn He w Hw. pose proof (users_update p cx id name email ns es w Hset) as Hu.
  assert (∀ k u now, users w !! k = Some u → email_ok k email es (users w) →
    directory_ok (<[k := set_row u name email ns es now]> (users w))) as Hadd.
  { intros k u now Hk Hf. eapply directory_ok_update; [done..| |].
    - pose proof (map_Forall_lookup_1 _ _ _ _ (proj1 Hw) Hk) as (? & ? & ? & ?).
      unfold row_ok, set_row. cbn.
      destruct ns; [destruct (Hn eq_refl)|]; (destruct es; [destruct (He eq_refl)|]); by split_and!.
    - cbn. destruct es; [right|left]; [by apply Hf|done]. }
  destruct (H _ w) as [[(id' & n' & e' & ca & ua & [])|e] w']; cbn.
  - destruct Hu as (-> & Hf & u & Hk & Hrow & ->). rewrite Hrow. auto.
  - destruct Hu as (_ & _ & [->|(u & now & Hk & Hf & ->)]); auto.
Qed.

(** ** The handlers make only such calls *)

Lemma keeps_getPool : calls_only keeps_directory UserRepository.getPool.
Proof. split; [by apply keeps_quiet|]. intros ?. by repeat (split; [by apply keeps_quiet|intros ?]). Qed.

Ltac keeps_step :=
  first [lazymatch goal with |- calls_only _ UserRepository.getPool => apply keeps_getPool end
        | calls_only_step | by apply keeps_quiet | apply keeps_select | apply keeps_delete
        | apply keeps_close | progress cbn beta iota zeta | done].

Lemma keeps_rpc {S} fm ki ko (method : S → ctx → msg ki → go (goret (msg ko))) srv c req :
  (∀ req, calls_only keeps_directory (method srv c req)) →
  calls_only keeps_directory
    (unary_stub fm ki ko method srv c (decoded ki req) (Some server_interceptor)).
Proof.
  intros Hm. apply calls_only_rpc; [by apply keeps_quiet|intros l m fs; by apply keeps_quiet|done].
Qed.

Lemma keeps_CreateUser c req : calls_only keeps_directory (UserServiceServer.CreateUser c req).
Proof.
  unfold UserServiceServer.CreateUser, UserRepository.Create, ctx_cancel, zap_log. cbn.
  destruct (str_eqb_spec (TrimSpace (CreateUserRequest_Name req)) ""); [done|].
  destruct (UserServiceServer.invalid_email (TrimSpace (CreateUserRequest_Email req))) eqn:He; [done|].
  repeat first [by apply keeps_insert; [|apply invalid_email_spec]|keeps_step].
Qed.

Lemma keeps_GetUser c req : calls_only keeps_directory (UserServiceServer.GetUser c req).
Proof.
  unfold UserServiceServer.GetUser, UserRepository.Get, ctx_cancel, zap_log. repeat keeps_step.
Qed.

Lemma keeps_DeleteUser c req : calls_only keeps_directory (UserServiceServer.DeleteUser c req).
Proof.
  unfold UserServiceServer.DeleteUser, UserRepository.Delete, ctx_cancel, zap_log. repeat keeps_step.
Qed.

Lemma keeps_repo_Update c id name email ns es :
  (ns = true → valid_name name ∧ trimmed name) → (es = true → valid_email email ∧ trimmed email) →
  calls_only keeps_directory (UserRepository.Update c id name email ns es).
Proof.
  intros Hn He. unfold UserRepository.Update. pose proof (update_clauses_spec id name email ns es) as Hs.
  destruct (UserRepository.update_clauses name email ns es) as [[cl args] idx] eqn:Hc.
  destruct (ns || es) eqn:Hb.
  - destruct (Hs eq_refl) as (-> & -> & ->). unfold ctx_cancel. cbn beta iota zeta.
    repeat first [by apply keeps_update|keeps_step].
  - apply orb_false_iff in Hb as [-> ->]. injection Hc as <- <- <-.
    assert (str_eqb "" "" = true) as -> by done. unfold UserRepository.Get, ctx_cancel.
    repeat keeps_step.
Qed.

Lemma mask_loop_valid user paths name email ns es name' email' ns' es' :
  UserServiceServer.mask_loop user paths name email ns es = Ok (name', email', ns', es') →
  (ns = true → valid_name name ∧ trimmed name) → (es = true → valid_email email ∧ trimmed email) →
  (ns' = true → valid_name name' ∧ trimmed name') ∧
  (es' = true → valid_email email' ∧ trimmed email').
Proof.
  revert name email ns es. induction paths as [|path paths IH]; intros name email ns es; cbn.
  { by intros [= <- <- <- <-]. }
  destruct (str_eqb path "name").
  - destruct (str_eqb_spec (TrimSpace (User_GetName user)) "") as [|Hne]; [done|].
    intros Hm _ He. eapply IH; [done| |done]. auto using TrimSpace_trimmed.
  - destruct (str_eqb path "email"); [|done].
    destruct (UserServiceServer.invalid_email (TrimSpace (User_GetEmail user))) eqn:Hi; [done|].
    apply invalid_email_spec in Hi. intros Hm Hn _. eapply IH; [done|done|].
    auto using TrimSpace_trimmed.
Qed.

Lemma keeps_UpdateUser c req : calls_only keeps_directory (UserServiceServer.UpdateUser c req).
Proof.
  unfold UserServiceServer.UpdateUser, zap_log.
  destruct (str_eqb (UpdateUserRequest_Id req) ""); [done|].
  destruct (UpdateUserRequest_UpdateMask req) as [[[|path paths]]|]; [done| |done].
  destruct (UserServiceServer.mask_loop _ _ _ _ _ _) as [[[[name email] ns] es]|] eqn:Hm; [|done].
  apply mask_loop_valid in Hm as [Hn He]; [|done..].
  calls_only_step; [by apply keeps_repo_Update|repeat keeps_step].
Qed.

(** A goroutine of user-service: some requests, one after the other, a rotation
    of the pool, or a goroutine of [main]. *)
Definition user_goroutine (p : go unit) : Prop :=
  (∃ c rs, p = serve_users c rs) ∨ (∃ q, p = UserRepository.SetPool q) ∨
  ∃ n c cfg t, p = discard (UserMain.goroutine n c cfg t).

Lemma keeps_goroutine p : user_goroutine p → calls_only keeps_directory p.
Proof.
  assert (∀ q, calls_only keeps_directory (UserRepository.SetPool q)) as Hset.
  { intros q. unfold UserRepository.SetPool. repeat keeps_step. }
  intros [(c & rs & ->)|[(q & ->)|(n & c & cfg & t & ->)]]; [|done|].
  - induction rs as [|r rs IH]; [done|]. cbn [serve_users]. calls_only_step; [|done].
    destruct r; apply keeps_rpc; intros req; cbn;
      auto using keeps_CreateUser, keeps_GetUser, keeps_UpdateUser, keeps_DeleteUser.
  - apply calls_only_bind; [|done]. apply goroutine_calls; [|done]. intros x Hx.
    apply keeps_quiet. by destruct x.
Qed.

(** C14: Whatever the interleaving of the calls of any number of goroutines that serve user-
    service requests (through the generated handlers and interceptors), rotate the pool
    or are started by main, in every reachable state all stored names and emails are
    trimmed and valid and no two users share an email. *)
Theorem concurrent_directory ts w ts' w' :
  Forall user_goroutine ts → directory_ok (users w) →
  rtc (env_step H) (ts, w) (ts', w') → directory_ok (users w').
Proof.
  intros Hts Hw Hs.
  eapply (steps_invariant H keeps_directory (λ w, directory_ok (users w))); [auto| |done|done].
  eapply Forall_impl; [done|apply keeps_goroutine].
Qed.
End Directory.

(** ** A stale cache entry

    [OrderRepository.Get] reads the database and then writes the cache, and
    [Cancel] updates the database and then deletes the cache entry; nothing
    orders the two pairs. *)

Definition get_and_cancel : list (go iret) :=
  [serve_order repo CtxRequest (ReqGetOrder (orderv1.mkGetOrderRequest "id-1"));
   serve_order repo CtxRequest (ReqCancelOrder (orderv1.mkCancelOrderRequest "id-1"))].

(** The reader up to its write of the cache, the whole cancellation, the rest
    of the reader. *)
Definition race_schedule : list nat := replicate 14 0 ++ replicate 40 1 ++ replicate 5 0.

Definition mem_stale : mem := Eval vm_compute in
  (schedule (mem_env texts true) race_schedule get_and_cancel mem_created).2.

Lemma race_runs :
  schedule (mem_env texts true) race_schedule get_and_cancel mem_created =
    ([Ret (rpc_result MGetOrderResponse got); Ret (rpc_result MCancelOrderResponse cancelled)],
     mem_stale).
Proof. vm_compute. reflexivity. Qed.

Lemma stale_not_ok : ¬ cache_ok (mem_env texts true) mem_stale.
Proof.
  intros Hok. assert (Hk : kv (H := mem_env texts true) mem_stale !! "order:id-1" = Some "{pending}")
    by (vm_compute; reflexivity).
  destruct (Hok _ _ Hk) as (id & o & row & Hkey & _ & Hd & Hrow & _ & _ & _ & Hst & _).
  assert (id = "id-1") as ->.
  { change (OrderCache.key "id-1" = OrderCache.key id) in Hkey.
    symmetry. exact (inj (String.append OrderCache.orderCachePrefix) _ _ Hkey). }
  cbn in Hd. injection Hd as <-. vm_compute in Hrow. injection Hrow as <-. discriminate Hst.
Qed.

(** C20: A GetOrder that read the database before a concurrent CancelOrder finished can
    write the cache after the cancellation deleted the entry: from a well-formed state
    there is an interleaving of the two handlers in which both return normally, the
    order is CANCELLED in the database, the cache no longer agrees with it, and the next
    GetOrder answers PENDING. *)
Theorem cancel_get_race :
  ∃ w w', service_ok (mem_env texts true) (Pool 0) w ∧
    rtc (env_step (mem_env texts true)) (get_and_cancel, w)
      ([Ret (rpc_result MGetOrderResponse got); Ret (rpc_result MCancelOrderResponse cancelled)],
       w') ∧
    option_map or_status (m_orders w' !! "id-1") = Some "CANCELLED" ∧
    ¬ cache_ok (mem_env texts true) w' ∧
    (run (mem_env texts true)
      (OrderServiceServer.GetOrder repo CtxRequest (orderv1.mkGetOrderRequest "id-1")) w').1 = got.
Proof.
  exists mem_created, mem_stale. split; [exact mem_created_ok|]. split.
  { rewrite <-race_runs. apply schedule_steps. }
  split; [reflexivity|]. split; [exact stale_not_ok|]. vm_compute. reflexivity.
Qed.

(** ** A witness for the directory *)

(** Two creations with the same email race; the pool is rotated meanwhile. *)
Definition three_goroutines : list (go unit) :=
  [serve_users CtxRequest [ReqCreateUser (mkCreateUserRequest "Alice" "a@example.com")];
   serve_users CtxRequest [ReqCreateUser (mkCreateUserRequest " Alicia" "a@example.com ")];
   UserRepository.SetPool (Some (Pool 1))].

Definition mem_raced : mem := Eval vm_compute in
  (schedule (mem_env [] true) (concat (replicate 12 [0; 1; 2])) three_goroutines mem0).2.

Lemma concurrent_directory_witness :
  directory_ok (m_users mem_raced) ∧ size (m_users mem_raced) = 1 ∧ m_pool mem_raced = Some (Pool 1).
Proof.
  split; [|vm_compute; by split].
  pose proof (schedule_steps (mem_env [] true) (concat (replicate 12 [0; 1; 2])) three_goroutines mem0)
    as Hs.
  assert (schedule (mem_env [] true) (concat (replicate 12 [0; 1; 2])) three_goroutines mem0 =
    ([Ret tt; Ret tt; Ret tt], mem_raced)) as Hr by (vm_compute; reflexivity).
  rewrite Hr in Hs. refine (concurrent_directory (mem_env [] true) three_goroutines mem0 _ _ _ _ Hs).
  - apply Forall_cons; split; [left; do 2 eexists; reflexivity|].
    apply Forall_cons; split; [left; do 2 eexists; reflexivity|].
    apply Forall_singleton. right; left. eexists. reflexivity.
  - split; [apply map_Forall_empty|]. intros i j u v Hi. exfalso. exact (lookup_empty_Some i u Hi).
Defined.
