(* ===== verification/Monitor.v ===== *)
(** * The health monitor after a credential rotation

    The monitor of both services keeps the pool [main] created.  A rotation
    closes that pool; from then on the monitor can only report a failure,
    whatever runs beside it and however many turns its endless loop takes. *)
From S2P Require Import Prelude.
From S2P Require Import GoStrings.
From S2P Require Import Proto.
From S2P Require Import GoRuntime.
From S2P Require Import External.
From S2P Require Import Typestate.
From S2P Require Import RelyGuarantee.
From S2P Require Import Stores.
From S2P Require Import UserService.
From S2P Require Import OrderService.
From S2P Require Import OrderProofs.
From S2P Require Import Lifecycle.
From S2P Require Import LifecycleProofs.
From S2P Require Import Concurrency.
From stdpp Require Import relations.

(** What pgx promises about a closed pool: it stays closed and cannot be
    pinged. *)
Class PoolLife {W} (H : env W) := {
  closed : W → pool → Prop;
  closed_now : ∀ p w, closed (H (PoolClose p) w).2 p;
  closed_stays : ∀ c w p, closed w p → closed (H c w).2 p;
  closed_ping : ∀ p c w, closed w p → ∃ e, (H (PoolPing p c) w).1 = Some e
}.

(** ** The monitor reports what its last ping said *)

Section Protocol.
Context (p : pool) (service : string).

(** The state is whether the last ping succeeded; only [p] is pinged, and only
    that result is reported, for the service. *)
Definition reporting (ok : bool) (c : extcall) : extres c → option bool :=
  match c return extres c → option bool with
  | PoolPing q _ => λ r, if decide (q = p) then Some (bool_decide (r = None)) else None
  | SetServingStatus s b => λ _, if decide (s = service ∧ b = ok) then Some ok else None
  | _ => λ _, Some ok
  end.

Lemma reporting_ping ok c r : reporting ok (PoolPing p c) r = Some (bool_decide (r = None)).
Proof. unfold reporting. by rewrite decide_True. Qed.
Lemma reporting_status ok r : reporting ok (SetServingStatus service ok) r = Some ok.
Proof. unfold reporting. by rewrite decide_True. Qed.

Lemma monitor_once_reports c interval ok :
  obeys reporting ok (Common.monitor_once c p service interval) (λ _ _, True).
Proof.
  unfold Common.monitor_once, ctx_cancel, zap_log. cbn -[reporting]. intros [|]; cbn -[reporting]; [done|].
  intros e. rewrite reporting_ping. destruct e as [e|]; cbn -[reporting]; intros []; cbn -[reporting].
  - intros []. cbn -[reporting]. intros r. by rewrite (reporting_status false).
  - intros r. by rewrite (reporting_status true).
Qed.

Lemma monitor_reports n c interval ok :
  obeys reporting ok (Common.monitorDBHealth n c p service interval) (λ _ _, True).
Proof.
  revert ok. induction n as [|n IH]; intros ok; cbn [Common.monitorDBHealth]; [done|].
  apply obeys_bind. eapply obeys_mono; [apply monitor_once_reports|]. by intros [[]|] s _.
Qed.
End Protocol.

(** ** In a world in which its pool is closed *)

Section Closed.
Context {W : Type} (H : env W) `{!RepoCell H} `{!PoolLife H}.

(** Goroutine [i] has not seen a ping succeed, and the pool is closed. *)
Definition sees_closed (p : pool) (service : string) (i : nat) (x : list (go unit) * W) : Prop :=
  closed x.2 p ∧ ∃ q, x.1 !! i = Some q ∧ obeys (reporting p service) false q (λ _ _, True).

Lemma sees_closed_step p service i x y :
  env_step H x y → sees_closed p service i x → sees_closed p service i y.
Proof.
  intros Hs [Hc (q & Hi & Hq)]. inversion Hs as [ts j c k w r w' Hj Hr]; subst. cbn in *.
  split; [pose proof (closed_stays c w p Hc) as Hx; by rewrite Hr in Hx|]. cbn.
  destruct (decide (j = i)) as [->|Hne]; [|rewrite list_lookup_insert_ne by done; by exists q].
  rewrite list_lookup_insert_eq by by eapply lookup_lt_Some. exists (k r). split; [done|].
  rewrite Hi in Hj. injection Hj as ->. cbn in Hq. specialize (Hq r).
  destruct (reporting p service false c r) as [ok|] eqn:E; [|done].
  assert (ok = false) as ->; [|done].
  destruct c; cbn in E; try (by injection E as <-); try (by case_decide; simplify_eq).
  case_decide as Hp; [subst|done]. injection E as <-.
  destruct (closed_ping p c w Hc) as [e He]. rewrite Hr in He. cbn in He. by rewrite He.
Qed.

Lemma sees_closed_steps p service i x y :
  rtc (env_step H) x y → sees_closed p service i x → sees_closed p service i y.
Proof. intros Hs Hx. induction Hs as [|x y z Hxy _ IH]; [done|]. by eapply IH, sees_closed_step. Qed.

(** *** Alone: one report of a failure for each tick *)

Definition ticked (e : gevent) : bool :=
  let '(Ev c r) := e in
  match c return extres c → bool with SelectDoneOrTick _ _ => λ r, negb r | _ => λ _, false end r.
Definition reported (e : gevent) : option (string * bool) :=
  let '(Ev c _) := e in match c with SetServingStatus s b => Some (s, b) | _ => None end.
Definition ticks (tr : list gevent) : nat := length (List.filter ticked tr).
Definition reports (tr : list gevent) : list (string * bool) := omap reported tr.

Lemma monitor_alone n c p service interval w :
  closed w p →
  let tr := trace H (Common.monitorDBHealth n c p service interval) w in
  reports tr = replicate (ticks tr) (service, false).
Proof.
  revert w. induction n as [|n IH]; intros w Hc; [done|].
  assert (∀ c w r w', H c w = (r, w') → closed w p → closed w' p) as Hstays.
  { intros c' w0 r w' E Hq. pose proof (closed_stays c' w0 p Hq) as Hx. by rewrite E in Hx. }
  cbn. destruct (H (SelectDoneOrTick c interval) w) as [[|] w1] eqn:H1; [done|].
  destruct (closed_ping p (CtxWithTimeout c (5 * Second)) w1) as [e He]; [by eapply Hstays|]. cbn.
  destruct (H (PoolPing p (CtxWithTimeout c (5 * Second))) w1) as [r w2] eqn:H2. cbn in He. subst r. cbn.
  destruct (H (CtxCancel _) w2) as [[] w3] eqn:H3. cbn.
  destruct (H (ZapLog _ _ _) w3) as [[] w4] eqn:H4. cbn.
  destruct (H (SetServingStatus service false) w4) as [[] w5] eqn:H5. cbn.
  unfold reports, ticks in *. cbn. f_equal. apply IH. eauto 6.
Qed.

(** *** The rotation closes the pool *)

Lemma rotation_closes new p w : cell w = Some p →
  ∃ w', run H (UserRepository.SetPool new) w = (Returned tt, w') ∧ cell w' = new ∧ closed w' p.
Proof.
  intros Hcell. unfold UserRepository.SetPool. cbn.
  destruct (H MuLock w) as [[] w1] eqn:H1. destruct (H LoadPool w1) as [old w2] eqn:H2.
  destruct (H (StorePool new) w2) as [[] w3] eqn:H3.
  assert (old = Some p) as ->.
  { pose proof (cell_load w1) as Hl. rewrite H2 in Hl. cbn in Hl. subst old.
    rewrite <-Hcell. by eapply (cell_call H). }
  cbn. destruct (H (PoolClose p) w3) as [[] w4] eqn:H4.
  destruct (H MuUnlock w4) as [[] w5] eqn:H5. exists w5. split; [done|].
  assert (cell w3 = new) as Hc3.
  { pose proof (cell_store new w2) as Hs. by rewrite H3 in Hs. }
  split; [rewrite <-Hc3; transitivity (cell w4); by eapply (cell_call H)|].
  pose proof (closed_now p w3) as Hx. rewrite H4 in Hx.
  pose proof (closed_stays MuUnlock w4 p Hx) as Hy. by rewrite H5 in Hy.
Qed.

(** C33: A rotation of either service closes the pool it replaces; and from any state in
    which the pool the health monitor was started with is closed, whatever other
    goroutines run beside it (further rotations included) and however many turns it
    takes, every status the monitor reports in a turn begun from then on is NOT_SERVING
    of its service; run alone, it makes exactly one such report for each tick, although
    the repository has a new pool. *)
Theorem monitor_fails_after_rotation p service :
  (∀ new w, cell w = Some p →
     (∃ w', run H (UserRepository.SetPool new) w = (Returned tt, w') ∧ cell w' = new ∧ closed w' p) ∧
     (∃ w', run H (OrderRepository.SetPool new) w = (Returned tt, w') ∧ cell w' = new ∧ closed w' p)) ∧
  (∀ n c interval i ts w ts' w' s b k,
     closed w p → ts !! i = Some (discard (Common.monitorDBHealth n c p service interval)) →
     rtc (env_step H) (ts, w) (ts', w') →
     ts' !! i = Some (Call (SetServingStatus s b) k) → s = service ∧ b = false) ∧
  (∀ n c interval w, closed w p →
     let tr := trace H (Common.monitorDBHealth n c p service interval) w in
     reports tr = replicate (ticks tr) (service, false)).
Proof.
  split; [|split].
  - intros new w Hc. split; [|change OrderRepository.SetPool with UserRepository.SetPool];
      by apply rotation_closes.
  - intros n c interval i ts w ts' w' s b k Hc Hi Hs Hk.
    assert (sees_closed p service i (ts, w)) as Hx.
    { split; [done|]. eexists. split; [exact Hi|]. unfold discard. apply obeys_bind.
      eapply obeys_mono; [apply monitor_reports|]. by intros []. }
    destruct (sees_closed_steps _ _ _ _ _ Hs Hx) as [_ (q & Hq & Ho)]. cbn in Hq. rewrite Hk in Hq.
    injection Hq as <-. specialize (Ho tt). cbn in Ho. by case_decide as Hd.
  - intros n c interval w Hc. by apply monitor_alone.
Qed.
End Closed.

(** ** A run *)

(** A world that remembers the pool pointer and the closed pools. *)
Definition pool_env : env (option pool * list pool) := λ c w,
  match c return extres c * (option pool * list pool) with
  | LoadPool => (w.1, w)
  | StorePool p => (tt, (p, w.2))
  | PoolClose p => (tt, (w.1, p :: w.2))
  | PoolPing p _ => (if bool_decide (p ∈ w.2) then Some (ErrText "closed pool") else None, w)
  | SelectDoneOrTick _ _ => (false, w)
  | c => (default_answer c, w)
  end.

#[export] Program Instance pool_env_cell : RepoCell pool_env := {| cell := fst |}.
Next Obligation. done. Qed.
Next Obligation. done. Qed.
Next Obligation. intros c w Hc. destruct c; try done. by edestruct Hc. Qed.

#[export] Program Instance pool_env_life : PoolLife pool_env := {| closed w p := p ∈ w.2 |}.
Next Obligation. intros p w. cbn. by left. Qed.
Next Obligation. intros c w p Hp. destruct c; try done. cbn. by right. Qed.
Next Obligation. intros p c w Hp. cbn. rewrite bool_decide_true by done. by eexists. Qed.

(** A rotation, then three turns of the monitor beside a second rotation. *)
Definition rotated : option pool * list pool := (run pool_env (UserRepository.SetPool (Some (Pool 1))) (Some (Pool 0), [])).2.
Definition beside : list (go unit) :=
  [discard (Common.monitorDBHealth 3 CtxBackground (Pool 0) "user.v1.UserService" (15 * Second));
   UserRepository.SetPool (Some (Pool 2))].
Definition tenth : list (go unit) * (option pool * list pool) :=
  schedule pool_env [0; 1; 0; 1; 0; 1; 0; 1; 0; 1; 0; 0; 0; 0] beside rotated.

Lemma monitor_fails_after_rotation_witness :
  (∃ s b k, tenth.1 !! 0 = Some (Call (SetServingStatus s b) k) ∧ s = "user.v1.UserService" ∧ b = false) ∧
  reports (trace pool_env (Common.monitorDBHealth 3 CtxBackground (Pool 0) "user.v1.UserService" (15 * Second))
    rotated) = replicate 3 ("user.v1.UserService", false).
Proof.
  destruct (monitor_fails_after_rotation pool_env (Pool 0) "user.v1.UserService") as (_ & Hbeside & Halone).
  assert (closed (H := pool_env) rotated (Pool 0)) as Hc by (vm_compute; left).
  split; [|exact (Halone 3 CtxBackground (15 * Second)%Z rotated Hc)].
  assert (∃ s b k, tenth.1 !! 0 = Some (Call (SetServingStatus s b) k)) as (s & b & k & Hk).
  { do 3 eexists. vm_compute. reflexivity. }
  exists s, b, k. split; [exact Hk|].
  exact (Hbeside 3 CtxBackground (15 * Second)%Z 0 beside rotated tenth.1 tenth.2 s b k Hc eq_refl
    ltac:(rewrite <-surjective_pairing; apply schedule_steps) Hk).
Defined.
