(* ===== verification/System.v ===== *)
(** * The two services together

    The RPC order-service makes to check the user of an order is answered by
    the handlers of user-service over its own world, through the generated
    dispatch table; the network may lose the request or the answer. *)
From S2P Require Import Prelude.
From S2P Require Import GoStrings.
From S2P Require Import GoFloat.
From S2P Require Import Proto.
From S2P Require Import GoRuntime.
From S2P Require Import External.
From S2P Require Import Grpc.
From S2P Require Import GrpcStubs.
From S2P Require Import Stores.
From S2P Require Import UserService.
From S2P Require Import UserProofs.
From S2P Require Import OrderService.
From S2P Require Import OrderProofs.
From S2P Require Import OrderCacheProofs.
From S2P Require Import OrderServiceProofs.
From S2P Require Import MemWorld.

(** ** Dispatch *)

(** The handler a server registered for a full method name. *)
Definition dispatch {S} (desc : ServiceDesc S) (fullMethod : string) : option (method_handler S) :=
  snd <$> find (λ m, str_eqb fullMethod ("/" +:+ ServiceName desc +:+ "/" +:+ m.1)) (Methods desc).

(** The status a handler's error is sent as. *)
Definition wire_error (e : go_error) : go_error :=
  match e with
  | ErrStatus c m => ErrStatus c m
  | e => ErrStatus (status_Code e) (Error e)
  end.

(** What the caller receives of a handler's result. *)
Definition wire_result (ko : mkind) (o : outcome iret) : gresult (msg ko) :=
  match o with
  | Returned (_, Some e) => Fail (wire_error e)
  | Returned (Some (existT k (Some m)), None) =>
      match decide (k = ko) with
      | left e => Ok (eq_rect _ msg m _ e)
      | right _ => Fail (ErrStatus Internal "failed to unmarshal the received message")
      end
  | Returned (_, None) => Fail (ErrStatus Internal "error while marshaling")
  | Panicked _ => Fail (ErrStatus Unavailable "connection closed")
  end.

Inductive delivery : Type := Delivered | RequestLost | AnswerLost.

Section System.
Context {Wu Wo : Type} (Hu : env Wu) (Ho : env Wo) (link : Wu * Wo → delivery).

(** One call of order-service. *)
Definition system : env (Wu * Wo) := λ c w,
  match c return extres c * (Wu * Wo) with
  | GrpcInvoke _ m ki ko req =>
      match dispatch userv1_grpc.UserService_ServiceDesc m with
      | None => (Fail (ErrStatus Unimplemented ("unknown method " +:+ m)), w)
      | Some h =>
          let '(o, wu') := run Hu (h UserServiceServer.server CtxRequest (decoded ki req)
                                     (Some server_interceptor)) w.1 in
          match link w with
          | RequestLost => (Fail (ErrStatus Unavailable "connection refused"), w)
          | AnswerLost => (Fail (ErrStatus Unavailable "connection reset"), (wu', w.2))
          | Delivered => (wire_result ko o, (wu', w.2))
          end
      end
  | c => let '(r, wo') := Ho c w.2 in (r, (w.1, wo'))
  end.

(** Calls that are not RPCs are those of order-service's own world. *)
Definition not_invoke (c : extcall) : Prop :=
  match c with GrpcInvoke _ _ _ _ _ => False | _ => True end.

Lemma system_own c w : not_invoke c → system c w = ((Ho c w.2).1, (w.1, (Ho c w.2).2)).
Proof. intros Hc. destruct c; try done; cbn; by destruct (Ho _ _). Qed.

Lemma system_invoke_own c w : ¬ not_invoke c → (system c w).2.2 = w.2.
Proof.
  intros Hc. destruct c; try (by destruct Hc). unfold system.
  destruct (dispatch _ _) as [h|]; [|done]. destruct (run Hu _ w.1). by destruct (link w).
Qed.

(** ** The interfaces of order-service's world *)

Lemma not_invoke_dec c : not_invoke c ∨ ¬ not_invoke c.
Proof. clear. destruct c; cbn; tauto. Qed.

(** Transfers a law of [Ho] about one call. *)
Ltac transfer law :=
  intros; lazymatch goal with |- context [system ?c ?w] =>
    pose proof law as Hlaw; rewrite (system_own c w I); cbn;
    destruct (Ho c w.2) as [? ?]; exact Hlaw end.

#[export] Program Instance system_cell `{!RepoCell Ho} : RepoCell system :=
  {| cell := λ w, cell (H := Ho) w.2 |}.
Next Obligation. intros ? w. rewrite system_own by done. apply cell_load. Qed.
Next Obligation. intros ? p w. rewrite system_own by done. apply cell_store. Qed.
Next Obligation.
  intros ? c w Hc. destruct (not_invoke_dec c) as [Hn|Hn].
  - rewrite system_own by done. by apply cell_frame.
  - by rewrite system_invoke_own.
Qed.

#[export] Program Instance system_orders `{!OrderDB Ho} : OrderDB system :=
  {| orders := λ w, orders (H := Ho) w.2; tx_view := λ w, tx_view (H := Ho) w.2;
     order_key := order_key (H := Ho); column := column (H := Ho) |}.
Next Obligation. intros ?. apply column_fits. Qed.
Next Obligation.
  intros ? c w Hc. destruct (not_invoke_dec c) as [Hn|Hn].
  - rewrite system_own by done. by apply orders_frame.
  - by rewrite system_invoke_own.
Qed.
Next Obligation. intros ? p w. rewrite system_own by done. apply orders_close. Qed.
Next Obligation. intros ? p cx w. transfer (orders_begin p cx w.2). Qed.
Next Obligation. intros ? t cx id user total w v Hv. transfer (orders_insert t cx id user total w.2 v Hv). Qed.
Next Obligation.
  intros ? t cx iid id pid pname q price w v Hv.
  transfer (orders_insert_item t cx iid id pid pname q price w.2 v Hv).
Qed.
Next Obligation. intros ? t cx w v Hv. transfer (orders_commit t cx w.2 v Hv). Qed.
Next Obligation. intros ? t cx w. rewrite system_own by done. apply orders_rollback. Qed.
Next Obligation. intros ? p cx id w. transfer (orders_cancel p cx id w.2). Qed.
Next Obligation. intros ? p cx id w. transfer (orders_select p cx id w.2). Qed.
Next Obligation. intros ? p cx id w. transfer (orders_items p cx id w.2). Qed.
Next Obligation.
  intros ? p cx user w. pose proof (orders_count p cx user w.2) as Hlaw.
  destruct user; rewrite system_own by done; cbn; by destruct (Ho _ w.2).
Qed.
Next Obligation.
  intros ? p cx user limit offset w. pose proof (orders_list p cx user limit offset w.2) as Hlaw.
  destruct user; rewrite system_own by done; cbn; by destruct (Ho _ w.2).
Qed.

(** ** Asking whether a user exists *)

Section Lookup.
Context `{!RepoCell Hu} `{!UserDB Hu}.

(** What user-service answers, and leaves behind. *)
Definition lookup_answer (id : string) (wu wu' : Wu) (o : outcome (goret userv1.GetUserResponse)) : Prop :=
  cell (H := Hu) wu' = cell (H := Hu) wu ∧
  get_user_post user_key (users (H := Hu) wu) (userv1.mkGetUserRequest id) o (users (H := Hu) wu').

Lemma serve_lookup id p wu o wu' :
  cell (H := Hu) wu = Some p →
  run Hu (userv1_grpc.UserService_GetUser_Handler UserServiceServer.server CtxRequest
    (decoded MGetUserRequest (userv1.mkGetUserRequest id)) (Some server_interceptor)) wu = (o, wu') →
  ∃ o0, o = Returned (rpc_result MGetUserResponse o0) ∧ lookup_answer id wu wu' o0.
Proof.
  intros Hp Hr. refine (wp_run Hu _ (λ o w', ∃ o0, o = Returned (rpc_result MGetUserResponse o0) ∧
    lookup_answer id wu w' o0) _ _ _ _ Hr).
  apply (wp_rpc Hu (users_quiet Hu)).
  - intros c w Hc. destruct (Hu c w) as [r w2] eqn:E. eapply users_quiet_call; [done|..]; by destruct c.
  - intros w1 [Hu1 Hc1]. eapply wp_mono; [eapply (GetUser_spec Hu); by rewrite Hc1|].
    intros o1 w2 [Hc2 Hpost]. split; [congruence|]. by rewrite <-Hu1.
  - intros o1 w1 w2 [Hc1 Hpost] [Hu2 Hc2]. split; [congruence|]. by rewrite Hu2.
Qed.

Lemma system_lookup c id p w r w' :
  cell (H := Hu) w.1 = Some p →
  system (GrpcInvoke c userv1_grpc.UserService_GetUser_FullMethodName MGetUserRequest
    MGetUserResponse (userv1.mkGetUserRequest id)) w = (r, w') →
  w'.2 = w.2 ∧ users (H := Hu) w'.1 = users (H := Hu) w.1 ∧
  match r with
  | Ok resp => is_Some (userv1.GetUserResponse_User resp) ∧
      is_Some (users (H := Hu) w.1 !! user_key id)
  | Fail e => status_FromError e = Some NotFound → users (H := Hu) w.1 !! user_key id = None
  end.
Proof.
  intros Hp. unfold system.
  change (dispatch _ _) with (Some userv1_grpc.UserService_GetUser_Handler). cbn beta iota.
  lazymatch goal with |- context [run ?h ?q ?v] => destruct (run h q v) as [o wu'] eqn:Hr end.
  apply (serve_lookup id p) in Hr as (o0 & -> & Hc & Hpost); [|done].
  assert (users (H := Hu) wu' = users (H := Hu) w.1) as Hsame by apply Hpost.
  destruct (link w); intros [= <- <-]; cbn [fst snd]; [|done..].
  split; [done|]. split; [done|]. destruct Hpost as [_ Hpost].
  destruct o0 as [[[resp|] [[| |[] m|]|]]|]; try done; cbn.
  - destruct Hpost as (_ & row & Hrow & Hres). split; [by eexists|by exists row].
  - by destruct Hpost as (_ & Hrow & _).
Qed.

(** What [UserClient.GetUser] tells about the user. *)
Lemma system_GetUser c id p w :
  cell (H := Hu) w.1 = Some p →
  wp system (UserClient.GetUser c id) (λ o w',
    w'.2 = w.2 ∧ users (H := Hu) w'.1 = users (H := Hu) w.1 ∧
    match o with
    | Returned (Some _, None) => is_Some (users (H := Hu) w.1 !! user_key id)
    | Returned (None, None) => users (H := Hu) w.1 !! user_key id = None
    | Returned (None, Some _) => True
    | _ => False
    end) w.
Proof.
  intros Hp. unfold UserClient.GetUser, userv1_grpc.userServiceClient_GetUser, invoke_stub.
  wp_pure. wp_call_intro r w1 H1. apply (system_lookup c id p w) in H1 as (H2 & H1 & Hr); [|done].
  destruct r as [resp|e]; repeat wp_pure; cbn [deref].
  - destruct Hr as [[user Hres] Hrow]. apply wp_ret. cbn beta iota. rewrite Hres. by apply wp_ret.
  - destruct (status_FromError e) as [st|] eqn:Est; [|by wp_pure].
    destruct (str_eqb_spec (code_String st) "NotFound") as [Hst|Hst]; wp_pure; [|done].
    split_and!; [done..|]. apply Hr. f_equal. by apply (inj code_String).
Qed.
End Lookup.

(** ** Creating an order *)

Lemma calls_no_invoke c user items :
  calls_only not_invoke (OrderRepository.Create c user items).
Proof.
  unfold OrderRepository.Create, OrderRepository.getPool, OrderRepository.insert_item, ctx_cancel.
  repeat calls_only_step; try done.
  generalize f64_zero. induction items as [|[it|] items IH]; intros t; [done|apply IH|done].
Qed.

(** Programs without RPCs leave user-service alone. *)
Lemma wp_no_invoke {A} (p : go A) w :
  calls_only not_invoke p → wp system p (λ _ w', w'.1 = w.1) w.
Proof.
  intros Hp. assert (PreOrder (λ w w' : Wu * Wo, w'.1 = w.1)) as Hpre.
  { split; [by intros ?|]. intros ??? H1 H2. by rewrite H2. }
  apply (wp_calls_only system not_invoke (λ w w', w'.1 = w.1)); [done|].
  intros c w' Hc. by rewrite system_own.
Qed.

Lemma wp_log_own l m fs {A} (k : go A) Q w :
  (∀ w', w'.1 = w.1 → wp system k Q w') → wp system (zap_log l m fs ≫= λ _, k) Q w.
Proof.
  intros Hk. unfold zap_log. apply wp_call_bind. intros r w' Hc. rewrite system_own in Hc by done.
  apply Hk. by injection Hc as _ <-.
Qed.

Context `{!RepoCell Hu} `{!UserDB Hu}.

(** What the answer of [CreateOrder] says about the users. *)
Definition user_checked (key : string → string) (U : users_map) (req : orderv1.CreateOrderRequest)
    (o : outcome (goret orderv1.CreateOrderResponse)) : Prop :=
  let user := key (TrimSpace (orderv1.CreateOrderRequest_UserId req)) in
  match o with
  | Returned (Some _, None) => is_Some (U !! user)
  | Returned (None, Some (ErrStatus NotFound _)) => U !! user = None
  | _ => True
  end.

Lemma CreateOrder_checks_user c req p w :
  cell (H := Hu) w.1 = Some p →
  wp system (OrderServiceServer.CreateOrder c req) (λ o w',
    users (H := Hu) w'.1 = users (H := Hu) w.1 ∧ user_checked user_key (users (H := Hu) w.1) req o) w.
Proof.
  intros Hp. unfold OrderServiceServer.CreateOrder, user_checked.
  cbn [orderv1.CreateOrderRequest_UserId orderv1.CreateOrderRequest_Items].
  set (user := TrimSpace (orderv1.CreateOrderRequest_UserId req)).
  destruct (str_eqb_spec user "") as [Hn|Hn]; [by apply wp_ret|].
  destruct (orderv1.CreateOrderRequest_Items req) as [|item0 items0]; [by apply wp_ret|].
  destruct (check_items_spec 0 (item0 :: items0)) as [[_ ->]|[_ [[m ->]|[_ [s ->]]]]]; [|done..].
  wp_pure. apply wp_ret. cbn beta iota. apply wp_bind.
  eapply wp_mono; [by eapply (system_GetUser c user p)|]. cbn beta.
  intros o1 w1 (H2 & H1 & Ho1). destruct o1 as [[[usr|] [err|]]|]; try done; cbn beta iota in Ho1 |- *.
  - apply wp_bind. eapply wp_mono; [apply wp_no_invoke, calls_no_invoke|]. cbn beta.
    intros o2 w2 Hw2. destruct o2 as [[order [err|]]|]; cbn beta iota.
    + apply wp_log_own. intros w3 Hw3. apply wp_ret. by rewrite Hw3, Hw2.
    + destruct order as [o|]; cbn [deref]; wp_pure; [|apply wp_panic; by rewrite Hw2].
      apply wp_ret. cbn beta iota. apply wp_log_own. intros w3 Hw3. apply wp_ret. by rewrite Hw3, Hw2.
    + by rewrite Hw2.
  - apply wp_log_own. intros w2 Hw2. apply wp_ret. by rewrite Hw2.
Qed.

Context `{!RepoCell Ho} `{!OrderDB Ho}.

(** C3: With the RPC of order-service answered by the real GetUser handler of user-service
    over its own database, through the generated dispatch table and interceptors, and
    with a network that may lose the request or the answer: CreateOrder never changes
    the users, succeeds only if the (trimmed) user id names a stored user, answers
    NotFound only if it names none, and changes the orders exactly as its specification
    says. *)
Theorem system_CreateOrder c req pu po wu wo o wu' wo' :
  cell (H := Hu) wu = Some pu → cell (H := Ho) wo = Some po →
  run system (OrderServiceServer.CreateOrder c req) (wu, wo) = (o, (wu', wo')) →
  users (H := Hu) wu' = users (H := Hu) wu ∧
  user_checked user_key (users (H := Hu) wu) req o ∧
  create_order_post (order_key (H := Ho)) (column (H := Ho)) (orders (H := Ho) wo) req o
    (orders (H := Ho) wo').
Proof.
  intros Hpu Hpo Hr.
  pose proof (wp_run system _ _ _ _ _ (CreateOrder_checks_user c req pu (wu, wo) Hpu) Hr) as [Hw Hch].
  pose proof (wp_run system _ _ _ _ _ (CreateOrder_spec system c req (wu, wo) po Hpo) Hr) as [_ Hpost].
  by split.
Qed.
End System.

(** ** A run *)

Definition order_req : orderv1.CreateOrderRequest :=
  orderv1.mkCreateOrderRequest "u-1" [Some (orderv1.mkOrderItem "sku-1" "Widget" 2 (f64_of_int 10))].
Definition users_world : mem :=
  with_users (<["u-1" := mkUserRow "Alice" "alice@example.com" 1 1]> ∅) mem0.

(** user-service and order-service each on their own in-memory world. *)
Definition two_services : env (mem * mem) :=
  system (mem_env [] true) (mem_env [] true) (λ _, Delivered).

Lemma system_CreateOrder_witness :
  ∃ o w', run two_services (OrderServiceServer.CreateOrder CtxRequest order_req) (users_world, mem0) =
      (o, w') ∧ size (m_orders w'.2) = 1 ∧ user_checked lower
        (m_users users_world) order_req o.
Proof.
  destruct (run two_services (OrderServiceServer.CreateOrder CtxRequest order_req) (users_world, mem0))
    as [o [wu' wo']] eqn:Hr.
  exists o, (wu', wo'). split; [reflexivity|]. split.
  - assert (Hw : (run two_services (OrderServiceServer.CreateOrder CtxRequest order_req)
      (users_world, mem0)).2.2 = wo') by (rewrite Hr; reflexivity).
    rewrite <-Hw. vm_compute. reflexivity.
  - assert (Hu : cell (H := mem_env [] true) users_world = Some (Pool 0)) by reflexivity.
    assert (Ho : cell (H := mem_env [] true) mem0 = Some (Pool 0)) by reflexivity.
    exact (proj1 (proj2 (system_CreateOrder (mem_env [] true) (mem_env [] true) (λ _, Delivered)
      CtxRequest order_req (Pool 0) (Pool 0) users_world mem0 o wu' wo' Hu Ho Hr))).
Defined.
