(* ===== verification/Interceptors.v ===== *)
(** * What the generated handlers and the interceptors make of a method

    The interceptors of both services only observe: a handler called through
    them behaves as without them, plus one log line, and a panic becomes an
    [Internal] status.  Every answer of the two services has the response type
    of its method or is a status error with a code other than [OK]. *)
From S2P Require Import Prelude.
From S2P Require Import GoStrings.
From S2P Require Import Proto.
From S2P Require Import GoRuntime.
From S2P Require Import External.
From S2P Require Import Grpc.
From S2P Require Import GrpcStubs.
From S2P Require Import UserService.
From S2P Require Import UserProofs.
From S2P Require Import OrderService.
From S2P Require Import OrderServiceProofs.
Import userv1 orderv1.

(** ** Transparency *)

(** The events after a handler that started at [start] ended with [o]. *)
Definition log_events (fm : string) (start now : Z) (o : outcome iret) : list gevent :=
  let fields := [ZString "method" fm; ZDuration "duration" (now - start)] in
  match o with
  | Returned (_, Some e) =>
      [Ev TimeNow now;
       Ev (ZapLog Warn_ "gRPC call" (fields ++ [ZString "code" (code_String (status_Code e))])) tt]
  | Returned (_, None) => [Ev TimeNow now; Ev (ZapLog Info_ "gRPC call" fields) tt]
  | Panicked p =>
      [Ev (ZapLog Error_ "panic recovered in gRPC handler" [ZString "method" fm; ZAny "panic" p]) tt]
  end.

(** What the caller gets. *)
Definition recovered (o : outcome iret) : iret :=
  match o with
  | Returned r => r
  | Panicked _ => (None, Some (ErrStatus Internal "internal server error"))
  end.

Lemma exec_zap_log_bind {A} l m fs (k : go A) tr o :
  exec (zap_log l m fs ≫= λ _, k) tr o ↔ ∃ tr', tr = Ev (ZapLog l m fs) tt :: tr' ∧ exec k tr' o.
Proof.
  split.
  - intros ([] & tr' & -> & He). eauto.
  - intros (tr' & -> & He). exists tt. eauto.
Qed.

Lemma exec_now_bind {A} (k : Z → go A) tr o :
  exec (now ← gocall TimeNow; k now) tr o ↔
    ∃ t tr', tr = Ev TimeNow t :: tr' ∧ exec (k t) tr' o.
Proof. done. Qed.

(** The logging interceptor around any handler. *)
Lemma exec_logging c x fm (handler : UnaryHandler) tr o :
  exec (loggingInterceptor c x fm handler) tr o ↔
    ∃ start tr0 o0, exec (handler c x) tr0 o0 ∧
      match o0 with
      | Returned _ => ∃ now, tr = Ev TimeNow start :: tr0 ++ log_events fm start now o0 ∧ o = o0
      | Panicked _ => tr = Ev TimeNow start :: tr0 ∧ o = o0
      end.
Proof.
  unfold loggingInterceptor. rewrite exec_now_bind. split.
  - intros (start & tr' & -> & He). exists start.
    apply exec_bind in He as [(tr0 & [resp err] & tr2 & -> & H1 & H2)|(s & H1 & ->)].
    + exists tr0, (Returned (resp, err)). split; [done|]. apply exec_now_bind in H2 as (now & t & -> & H2).
      exists now. destruct err as [e|]; apply exec_zap_log_bind in H2 as (t' & -> & -> & ->); done.
    + by exists tr', (Panicked s).
  - intros (start & tr0 & o0 & H0 & Ho).
    destruct o0 as [[resp err]|s].
    + destruct Ho as (now & -> & ->). exists start. eexists. split; [done|].
      rewrite exec_bind. left. exists tr0, (resp, err). eexists. split; [done|]. split; [done|].
      destruct err as [e|]; rewrite exec_now_bind; exists now; eexists; (split; [done|]);
        rewrite exec_zap_log_bind; (eexists; split; [done|]; by split).
    + destruct Ho as [-> ->]. exists start, tr0. split; [done|]. rewrite exec_bind. right. by exists s.
Qed.

Lemma exec_server_interceptor c x fm (handler : UnaryHandler) tr o :
  exec (server_interceptor c x fm handler) tr o ↔
    ∃ start now tr0 o0, exec (handler c x) tr0 o0 ∧
      tr = Ev TimeNow start :: tr0 ++ log_events fm start now o0 ∧ o = Returned (recovered o0).
Proof.
  unfold server_interceptor, recoveryInterceptor. rewrite exec_recover.
  setoid_rewrite exec_logging. split.
  - intros [(a & (start & tr0 & o0 & H0 & Ho) & ->)
           |(tr1 & s & tr2 & -> & (start & tr0 & o0 & H0 & Ho) & H2)].
    + destruct o0 as [r|]; [|by destruct Ho as [_ [=]]]. destruct Ho as (now & -> & [= ->]).
      exists start, now, tr0, (Returned r). done.
    + destruct o0 as [r|p]; [by destruct Ho as (? & _ & [=])|]. destruct Ho as [-> [= ->]].
      apply exec_zap_log_bind in H2 as (t & -> & -> & ->).
      exists start, 0%Z, tr0, (Panicked p). done.
  - intros (start & now & tr0 & o0 & H0 & -> & ->). destruct o0 as [r|p]; [left|right].
    + exists r. split; [|done]. exists start, tr0, (Returned r). split; [done|]. by exists now.
    + exists (Ev TimeNow start :: tr0), p. eexists. split; [done|]. split.
      * by exists start, tr0, (Panicked p).
      * apply exec_zap_log_bind. by exists [].
Qed.

(** A generated handler with the interceptors against the same handler without. *)
Definition intercepted {S} (fm : string) (h : method_handler S) : Prop :=
  ∃ ki, ∀ srv c dec tr o,
    exec (h srv c dec (Some server_interceptor)) tr o ↔
    match dec ki with
    | Fail err => tr = [] ∧ o = Returned (None, Some err)
    | Ok _ => ∃ start now tr0 o0, exec (h srv c dec None) tr0 o0 ∧
        tr = Ev TimeNow start :: tr0 ++ log_events fm start now o0 ∧ o = Returned (recovered o0)
    end.

Lemma unary_stub_intercepted {S} fm ki ko (method : S → ctx → msg ki → go (goret (msg ko))) :
  intercepted fm (unary_stub fm ki ko method).
Proof.
  exists ki. intros srv c dec tr o. unfold unary_stub. destruct (dec ki) as [req|err]; [|done].
  rewrite exec_server_interceptor. by rewrite assert_msg_same.
Qed.

(** Every method of a service, under its full name. *)
Definition transparent {S} (desc : ServiceDesc S) : Prop :=
  ∀ name h, (name, h) ∈ Methods desc →
    intercepted ("/" +:+ ServiceName desc +:+ "/" +:+ name) h.

(** C18: For every method in the service descriptors of both services, the handler with the
    two interceptors makes exactly the executions of the handler alone, with one clock
    reading before and, unless it panics, one clock reading and one log line with the
    method name, the elapsed time and the error after it; a panic is logged and becomes
    the error Internal. *)
Theorem interceptors_transparent :
  transparent userv1_grpc.UserService_ServiceDesc ∧ transparent orderv1_grpc.OrderService_ServiceDesc.
Proof.
  split; intros name h Hin; cbn in Hin;
    repeat (apply elem_of_cons in Hin as [[= -> ->]|Hin]; [apply unary_stub_intercepted|]);
    by apply not_elem_of_nil in Hin.
Qed.

(** ** Types of the answers *)

(** A response, or a status error. *)
Definition answers {A} (r : goret A) : Prop :=
  match r with
  | (Some _, None) => True
  | (None, Some (ErrStatus c _)) => c ≠ OK
  | _ => False
  end.

(** The same through the generated handler and the interceptors, which turn a
    panic into a status error without a response. *)
Definition answer_typed (ko : mkind) (o : outcome iret) : Prop :=
  (∃ m : msg ko, o = Returned (Some (existT ko (Some m)), None)) ∨
  (∃ x c s, o = Returned (x, Some (ErrStatus c s)) ∧ c ≠ OK ∧
     (x = None ∨ x = Some (existT ko None))).

Definition user_response (q : user_request) : mkind :=
  match q with
  | ReqCreateUser _ => MCreateUserResponse
  | ReqGetUser _ => MGetUserResponse
  | ReqUpdateUser _ => MUpdateUserResponse
  | ReqDeleteUser _ => MDeleteUserResponse
  end.

Definition order_response (q : order_request) : mkind :=
  match q with
  | ReqCreateOrder _ => MCreateOrderResponse
  | ReqGetOrder _ => MGetOrderResponse
  | ReqListOrders _ => MListOrdersResponse
  | ReqCancelOrder _ => MCancelOrderResponse
  end.

(** From the values of the method to the answer of the call. *)
Lemma stub_answer_typed {S} fm ki ko (method : S → ctx → msg ki → go (goret (msg ko))) srv c req tr o :
  returns answers (method srv c req) →
  exec (unary_stub fm ki ko method srv c (decoded ki req) (Some server_interceptor)) tr o →
  answer_typed ko o.
Proof.
  intros Hm He. unfold unary_stub in He. rewrite decoded_same in He.
  apply exec_server_interceptor in He as (start & now & tr0 & o0 & He & _ & ->).
  rewrite assert_msg_same in He. change (exec (r ← method srv c req; mret (to_iface ko r)) tr0 o0) in He.
  apply exec_bind in He as [(tr1 & r & tr2 & _ & He & _ & ->)|(s & _ & ->)].
  - apply (returns_exec _ _ _ _ Hm) in He. destruct r as [[m|] [[]|]]; cbn in He |- *; try done.
    + left. by exists m.
    + right. eexists _, _, _. split; [done|]. split; [done|]. by right.
  - right. eexists _, _, _. split; [done|]. split; [done|]. by left.
Qed.

Ltac answers_step :=
  first [returns_step | done
        | match goal with |- returns _ (deref ?x) => destruct x; [|exact I] end
        | progress unfold zap_log | progress cbn beta iota zeta].

Lemma returns_CreateUser c req : returns answers (UserServiceServer.CreateUser c req).
Proof.
  unfold UserServiceServer.CreateUser. do 2 (case_match; [done|]).
  apply returns_bind, returns_any. intros [user err]. repeat answers_step.
Qed.

Lemma returns_GetUser c req : returns answers (UserServiceServer.GetUser c req).
Proof.
  unfold UserServiceServer.GetUser. case_match; [done|].
  apply returns_bind, returns_any. intros [user err]. repeat answers_step.
Qed.

Lemma mask_loop_status user paths name email ns es err :
  UserServiceServer.mask_loop user paths name email ns es = Fail err →
  ∃ m, err = ErrStatus InvalidArgument m.
Proof.
  revert name email ns es. induction paths as [|path paths IH]; intros name email ns es; [done|].
  cbn. repeat case_match; eauto; intros [= <-]; eauto.
Qed.

Lemma returns_UpdateUser c req : returns answers (UserServiceServer.UpdateUser c req).
Proof.
  unfold UserServiceServer.UpdateUser. case_match; [done|].
  destruct (UpdateUserRequest_UpdateMask req) as [[[|path paths]]|]; [done| |done].
  destruct (UserServiceServer.mask_loop _ _ _ _ _ _) as [[[[name email] ns] es]|err] eqn:Hm.
  - apply returns_bind, returns_any. intros [user err]. repeat answers_step.
  - by apply mask_loop_status in Hm as [m ->].
Qed.

Lemma returns_DeleteUser c req : returns answers (UserServiceServer.DeleteUser c req).
Proof.
  unfold UserServiceServer.DeleteUser. case_match; [done|].
  apply returns_bind, returns_any. intros [found err]. repeat answers_step.
Qed.

Lemma returns_check_item i item :
  returns (λ o, ∀ r, o = Some r → answers r) (OrderServiceServer.check_item i item).
Proof.
  unfold OrderServiceServer.check_item. apply returns_bind. destruct item as [it|]; [|exact I].
  cbn. repeat case_match; intros ? [=]; by subst.
Qed.

Lemma returns_CreateOrder c req : returns answers (OrderServiceServer.CreateOrder c req).
Proof.
  unfold OrderServiceServer.CreateOrder. case_match; [done|].
  destruct (CreateOrderRequest_Items _) as [|item items]; [done|]. apply returns_bind.
  eapply returns_mono; [apply returns_for_range, returns_check_item|].
  intros [early|] He; [by apply He|].
  apply returns_bind, returns_any. intros [user err]. destruct err, user; repeat answers_step.
  apply returns_any. intros [order err]. repeat answers_step.
Qed.

Lemma returns_GetOrder r c req : returns answers (OrderServiceServer.GetOrder r c req).
Proof.
  unfold OrderServiceServer.GetOrder. case_match; [done|].
  apply returns_bind, returns_any. intros [order err]. repeat answers_step.
Qed.

Lemma returns_ListOrders c req : returns answers (OrderServiceServer.ListOrders c req).
Proof.
  unfold OrderServiceServer.ListOrders. case_match.
  apply returns_bind, returns_any. intros [[orders total] err]. repeat answers_step.
Qed.

Lemma returns_CancelOrder r c req : returns answers (OrderServiceServer.CancelOrder r c req).
Proof.
  unfold OrderServiceServer.CancelOrder. case_match; [done|].
  apply returns_bind, returns_any. intros [order err]. repeat answers_step.
Qed.

Create HintDb go_answers.
#[export] Hint Resolve returns_CreateUser returns_GetUser returns_UpdateUser returns_DeleteUser
  returns_CreateOrder returns_GetOrder returns_ListOrders returns_CancelOrder : go_answers.

Lemma serve_user_typed c q tr o : exec (serve_user c q) tr o → answer_typed (user_response q) o.
Proof. destruct q; apply stub_answer_typed; cbn; auto with go_answers. Qed.

Lemma serve_order_typed r c q tr o : exec (serve_order r c q) tr o → answer_typed (order_response q) o.
Proof. destruct q; apply stub_answer_typed; cbn; auto with go_answers. Qed.

(** C19: In every execution of every method of both services through the generated handler
    and the interceptors, the call returns (it never panics), with exactly one of a
    response and an error: the response is a non-nil message of the method's own type,
    the error a gRPC status of a code other than OK. *)
Theorem responses_typed r c :
  (∀ q tr o, exec (serve_user c q) tr o → answer_typed (user_response q) o) ∧
  (∀ q tr o, exec (serve_order r c q) tr o → answer_typed (order_response q) o).
Proof. split; intros q tr o; [apply serve_user_typed|apply serve_order_typed]. Qed.

(** A request to user-service whose calls all fail. *)
Definition failing : env unit := λ c w, (default_answer c, w).

Lemma responses_typed_witness :
  let p := serve_user CtxRequest (ReqGetUser (userv1.mkGetUserRequest "42")) in
  answer_typed (user_response (ReqGetUser (userv1.mkGetUserRequest "42"))) (run failing p tt).1.
Proof.
  intros p. apply (proj1 (responses_typed (OrderRepository.mkOrderRepository true) CtxRequest)
    (ReqGetUser (userv1.mkGetUserRequest "42")) (trace failing p tt)). apply run_exec.
Defined.
