(* ===== verification/UserLinearizability.v ===== *)
(** * user-service is linearizable

    Each handler makes one statement on the users table, and what it answers is
    determined by that statement.  A trace of a handler among other goroutines
    is therefore a run of the handler alone, against an environment that
    replays the clock readings and the pool of the trace ([replay]) and makes
    the statement in the state it was made in; so the sequential
    specifications of UserProofs hold of it. *)
From S2P Require Import Prelude.
From S2P Require Import GoStrings.
From S2P Require Import GoFloat.
From S2P Require Import Proto.
From S2P Require Import GoRuntime.
From S2P Require Import External.
From S2P Require Import Typestate.
From S2P Require Import Linearizability.
From S2P Require Import Grpc.
From S2P Require Import GrpcStubs.
From S2P Require Import Stores.
From S2P Require Import UserService.
From S2P Require Import UserProofs.
From S2P Require Import MemWorld.
From S2P Require Import UserTheorems.
From S2P Require Import Vault.
From S2P Require Import Config.
From S2P Require Import Lifecycle.
From S2P Require Import LifecycleProofs.
From S2P Require Import Interceptors.
From stdpp Require Import relations.
Import userv1.

(** ** The calls of the handlers *)

(** The statements of user-service, each a transaction of its own. *)
Definition user_stmt (c : extcall) : bool :=
  match c with PoolQueryRow _ _ _ _ _ | PoolExec _ _ _ _ => true | _ => false end.

(** Calls of goroutines of the service: no other calls to the database, and no
    nil pool is stored. *)
Definition user_allowed (c : extcall) : Prop :=
  match c with
  | PoolBegin _ _ | PoolQuery _ _ _ _ _ | TxQueryRow _ _ _ _ _ | TxExec _ _ _ _ | TxCommit _ _
  | TxRollback _ _ | StorePool None => False
  | _ => True
  end.

Definition handler_call (c : extcall) : Prop :=
  match c with
  | TimeNow | ZapLog _ _ _ | MuRLock | MuRUnlock | LoadPool | CtxCancel _ => True
  | c => user_stmt c = true
  end.

Definition is_load (c : extcall) : bool := match c with LoadPool => true | _ => false end.

(** A reading of the pool pointer. *)
Definition pool_read (e : event extres) : option (option pool) :=
  match e with
  | Ev c r => match c return extres c → option (option pool) with LoadPool => λ r, Some r | _ => λ _, None end r
  end.
(** The pool pointer is never nil. *)
Definition pool_there (e : event extres) : Prop := pool_read e ≠ Some None.

(** ** Replaying a trace *)

Definition reading (e : event extres) : list Z :=
  match e with
  | Ev c r => match c return extres c → list Z with TimeNow => λ r, [r] | _ => λ _, [] end r
  end.
Fixpoint readings (tr : list (event extres)) : list Z :=
  match tr with [] => [] | e :: tr => reading e ++ readings tr end.

Section Replay.
Context {W : Type} (H : env W) `{!RepoCell H} `{!UserDB H}.

(** The world, the pool pointer and the readings of the clock to come. *)
Definition replayed : Type := W * option pool * list Z.

Definition replay : env replayed := λ c v,
  let '(w, p, ts) := v in
  match c return extres c * replayed with
  | PoolQueryRow q cx sql args ks =>
      let '(r, w') := H (PoolQueryRow q cx sql args ks) w in (r, (w', p, ts))
  | PoolExec q cx sql args => let '(r, w') := H (PoolExec q cx sql args) w in (r, (w', p, ts))
  | PoolClose q => let '(r, w') := H (PoolClose q) w in (r, (w', p, ts))
  | LoadPool => (p, v)
  | StorePool p' => (tt, (w, p', ts))
  | TimeNow => match ts with [] => (0%Z, v) | t :: ts => (t, (w, p, ts)) end
  | c => (default_answer c, v)
  end.

#[export] Instance replay_cell : RepoCell replay.
Proof.
  refine {| cell := λ v : replayed, v.1.2 |}.
  - by intros [[w p] ts].
  - by intros p [[w p'] ts].
  - intros c [[w p] ts] Hc. destruct c; try done; cbn; try (by case_match).
    by destruct (Hc p0 eq_refl).
Defined.

#[export] Instance replay_db : UserDB replay.
Proof.
  refine {| users := λ v : replayed, users v.1.1; user_key := user_key |}.
  - intros c [[w p] ts] Hc. destruct c; try done; cbn; try (by case_match).
  - intros q [[w p] ts]. cbn. pose proof (users_close q w) as Hl. by destruct (H (PoolClose q) w).
  - intros q cx name email [[w p] ts]. pose proof (users_insert q cx name email w) as Hl.
    cbn. by destruct (H _ w).
  - intros q cx id [[w p] ts]. pose proof (users_select q cx id w) as Hl. cbn. by destruct (H _ w).
  - intros q cx id name email ns es [[w p] ts] Hset.
    pose proof (users_update q cx id name email ns es w Hset) as Hl. cbn. by destruct (H _ w).
  - intros q cx id [[w p] ts]. pose proof (users_delete q cx id w) as Hl. cbn. by destruct (H _ w).
Defined.

(** A trace whose statements lead from [w] to [w'] and that saw the pool [p] is
    a run of the replay. *)
Lemma replay_run {A} (g : go A) tr o w w' p ts :
  exec g tr o → calls_only handler_call g →
  Forall (λ e, ∀ p', pool_read e = Some p' → p' = p) tr → stmts H user_stmt tr w w' →
  run replay g (w, p, readings tr ++ ts) = (o, (w', p, ts)).
Proof.
  revert tr w. induction g as [a|m|c k IH]; intros tr w; cbn [exec].
  - intros [-> ->] _ _ ->. done.
  - intros [-> ->] _ _ ->. done.
  - intros (r & tr' & -> & He) [Hc Hk] [Hp Htr]%Forall_cons_1 Hs.
    specialize (IH r tr'). destruct c; cbn in Hc; try done; cbn in Hs |- *.
    all: try (destruct r; by apply IH).
    all: try (destruct Hs as (w1 & -> & Hs); by apply IH).
    pose proof (Hp r eq_refl) as E. subst p. by apply IH.
Qed.
End Replay.

(** ** The handlers, alone *)

Definition user_post (key : string → string) (U : users_map) (q : user_request) (a : iret)
    (U' : users_map) : Prop :=
  match q with
  | ReqCreateUser r => ∃ o, a = rpc_result MCreateUserResponse o ∧ create_user_post key U r o U'
  | ReqGetUser r => ∃ o, a = rpc_result MGetUserResponse o ∧ get_user_post key U r o U'
  | ReqUpdateUser r => ∃ o, a = rpc_result MUpdateUserResponse o ∧ update_user_post key U r o U'
  | ReqDeleteUser r => ∃ o, a = rpc_result MDeleteUserResponse o ∧ delete_user_post key U r o U'
  end.

Section Alone.
Context {W : Type} (H : env W) `{!RepoCell H} `{!UserDB H}.

Lemma rpc_users_spec {S} (fm : string) (ki ko : mkind)
    (method : S → ctx → msg ki → go (goret (msg ko))) srv c req
    (post : users_map → outcome (goret (msg ko)) → users_map → Prop) w p :
  (∀ w1, cell w1 = Some p →
     wp H (method srv c req) (λ o w', cell w' = cell w1 ∧ post (users w1) o (users w')) w1) →
  cell w = Some p →
  wp H (unary_stub fm ki ko method srv c (decoded ki req) (Some server_interceptor))
    (λ o w', ∃ o0, o = Returned (rpc_result ko o0) ∧ post (users w) o0 (users w')) w.
Proof.
  intros Hm Hcell.
  apply (wp_rpc H (users_quiet H)) with (Q := λ o w', post (users w) o (users w')).
  - intros c' w' Hc. destruct (H c' w') as [r w2] eqn:E.
    eapply users_quiet_call; [done|..]; by destruct c'.
  - intros w1 [Hu Hc]. rewrite <-Hu. eapply wp_mono; [apply Hm; congruence|]. by intros ?? [_ ?].
  - by intros o w1 w2 Ho [-> _].
Qed.

Lemma serve_user_spec c q w p :
  cell w = Some p →
  wp H (serve_user c q) (λ o w', ∃ a, o = Returned a ∧ user_post user_key (users w) q a (users w')) w.
Proof.
  intros Hcell. destruct q as [r|r|r|r]; [
    eapply wp_mono; [apply (rpc_users_spec _ MCreateUserRequest MCreateUserResponse _ _ c r
      (λ U, create_user_post user_key U r) w p); [|done]; intros w1 Hc1; by eapply CreateUser_spec|]|
    eapply wp_mono; [apply (rpc_users_spec _ MGetUserRequest MGetUserResponse _ _ c r
      (λ U, get_user_post user_key U r) w p); [|done]; intros w1 Hc1; by eapply GetUser_spec|]|
    eapply wp_mono; [apply (rpc_users_spec _ MUpdateUserRequest MUpdateUserResponse _ _ c r
      (λ U, update_user_post user_key U r) w p); [|done]; intros w1 Hc1; by eapply UpdateUser_spec|]|
    eapply wp_mono; [apply (rpc_users_spec _ MDeleteUserRequest MDeleteUserResponse _ _ c r
      (λ U, delete_user_post user_key U r) w p); [|done]; intros w1 Hc1; by eapply DeleteUser_spec|]];
    (cbn beta; intros o w' (o0 & -> & Ho); eexists; split; [done|]; by exists o0).
Qed.
End Alone.

(** ** One pool reading and one statement *)

Section Once.
Context (kind : extcall → bool) (once : kind = user_stmt ∨ kind = is_load).

(** What the interceptors call costs nothing. *)
Lemma spend_other n c (Q : outcome (extres c) → nat → Prop) :
  match c with TimeNow | ZapLog _ _ _ => True | _ => False end →
  (∀ r, Q (Returned r) n) → spend kind n (gocall c) Q.
Proof. intros Hc. apply spend_skip. by destruct once as [-> | ->], c. Qed.

Lemma spend_rpc {S} (fm : string) (ki ko : mkind) (method : S → ctx → msg ki → go (goret (msg ko)))
    srv c dec :
  (∀ req, spend kind 1 (method srv c req) (λ _ _, True)) →
  at_most kind 1 (unary_stub fm ki ko method srv c dec (Some server_interceptor)).
Proof.
  intros Hm. unfold at_most, unary_stub. destruct (dec ki) as [req|err]; [|done].
  unfold server_interceptor, recoveryInterceptor, loggingInterceptor, zap_log. apply obeys_recover.
  rewrite assert_msg_same. apply obeys_bind, spend_other; [done|]. intros start.
  repeat apply obeys_bind. eapply obeys_mono; [apply Hm|]. cbn beta. intros [[resp err]|m] n _.
  - apply obeys_ret. cbn beta iota delta [to_iface fst snd]. apply obeys_bind, spend_other; [done|]. intros now.
    destruct err; cbn beta iota; apply obeys_bind, spend_other; done.
  - apply obeys_bind, spend_other; done.
Qed.

Lemma spend_serve_user c q : at_most kind 1 (serve_user c q).
Proof.
  destruct q; apply spend_rpc; intros req; cbn;
    [unfold UserServiceServer.CreateUser|unfold UserServiceServer.GetUser|
     unfold UserServiceServer.UpdateUser|unfold UserServiceServer.DeleteUser];
    unfold UserRepository.Create, UserRepository.Get, UserRepository.Update, UserRepository.Delete,
      UserRepository.getPool, zap_log, ctx_cancel; cbn zeta; destruct once as [-> | ->].
  all: repeat (exact I || spend_step).
  all: unfold UserRepository.Get, UserRepository.getPool, ctx_cancel; cbn zeta; repeat (exact I || spend_step).
Qed.
End Once.

(** ** The calls of the handlers and of the other goroutines *)

Lemma handler_serve_user c q : calls_only handler_call (serve_user c q).
Proof.
  destruct q; apply calls_only_rpc; try done; intros req; cbn;
    [unfold UserServiceServer.CreateUser|unfold UserServiceServer.GetUser|
     unfold UserServiceServer.UpdateUser|unfold UserServiceServer.DeleteUser];
    unfold UserRepository.Create, UserRepository.Get, UserRepository.Update, UserRepository.Delete,
      UserRepository.getPool, zap_log, ctx_cancel;
    repeat (done || calls_only_step).
  all: unfold UserRepository.Get, UserRepository.getPool, ctx_cancel; repeat (done || calls_only_step).
Qed.

Lemma handler_allowed c : handler_call c → user_allowed c.
Proof. by destruct c. Qed.

(** A trace with at most one reading of a pool that is there. *)
Lemma one_pool tr :
  length (filter (λ e, is_load (call_of e) = true) tr) ≤ 1 → Forall pool_there tr →
  ∃ p, Forall (λ e, ∀ p', pool_read e = Some p' → p' = Some p) tr.
Proof.
  induction tr as [|[c r] tr IH]; intros Hlen Hok.
  { exists (Pool 0). apply Forall_nil_2. }
  apply Forall_cons in Hok as [Hr Hok]. rewrite filter_cons in Hlen.
  destruct (decide (is_load (call_of (Ev c r)) = true)) as [Hl|Hl].
  - destruct c; try done. destruct r as [p|]; [|done]. exists p. apply Forall_cons. split.
    + by intros p' [= <-].
    + cbn in Hlen. destruct (filter _ tr) as [|e l] eqn:Hf; [|cbn in Hlen; lia].
      apply Forall_forall. intros e He p' Hp'. exfalso.
      apply (not_elem_of_nil e). rewrite <-Hf. apply list_elem_of_filter. split; [|done].
      by destruct e as [[]].
  - destruct (IH Hlen Hok) as [p Hp]. exists p. apply Forall_cons. split; [|done].
    intros p' Hp'. by destruct c.
Qed.

(** ** Linearizability *)

(** The goroutines of the service for requests: the context and the request. *)
Definition user_prog (q : ctx * user_request) : go iret := serve_user q.1 q.2.

Section Linear.
Context {W : Type} (H : env W) `{!RepoCell H} `{!UserDB H}.

Definition user_effect (q : ctx * user_request) (U : users_map) (a : iret) (U' : users_map) : Prop :=
  user_post user_key U q.2 a U'.

#[export] Instance user_atomic :
  Atomic H users (λ w, is_Some (cell w)) user_stmt user_allowed pool_there user_prog user_effect.
Proof.
  split.
  - intros c w Hc Hw. destruct c; try done; try (by rewrite cell_frame).
    rewrite cell_store. by destruct p.
  - intros c w Hc Hw. destruct c; try done. unfold pool_there. cbn.
    destruct Hw as [p Hp]. by rewrite cell_load, Hp.
  - intros c w Hc Hs. destruct c; try done; try (by apply users_frame). apply users_close.
  - intros q. eapply calls_only_mono; [apply handler_allowed|apply handler_serve_user].
  - intros [c []]; cbn; eauto.
  - intros [c q] tr o He. destruct (serve_user_typed c q tr o He) as [(m & ->)|(x & cd & st & -> & _)]; eauto.
  - intros [c q]. apply spend_serve_user. by left.
  - intros [c q] tr a w w' He Hok [p0 Hp0] Hs.
    assert (∃ p, Forall (λ e, ∀ p', pool_read e = Some p' → p' = Some p) tr) as [p Hp].
    { eapply one_pool; [apply (at_most_exec _ 1 _ _ _ (spend_serve_user is_load (or_intror eq_refl) c q) He)|done]. }
    pose proof (replay_run H _ tr _ w w' (Some p) [] He (handler_serve_user c q) Hp Hs) as Hr.
    rewrite app_nil_r in Hr.
    assert (cell (H := replay H) (w, Some p, readings tr) = Some p) as Hcell by done.
    destruct (wp_run _ _ _ _ _ _ (serve_user_spec (replay H) c q _ p Hcell) Hr) as (a' & [= <-] & Hpost).
    exact Hpost.
Qed.

End Linear.

(** ** The other goroutines of the service *)

(** Rotating the pool, and the goroutines of [main], may run meanwhile. *)
Definition background {A} (p : go A) : go iret := p ≫= λ _, mret (None, None).

Lemma background_quiet {A} (p : go A) :
  calls_only (quiet_call user_stmt user_allowed) p →
  calls_only (quiet_call user_stmt user_allowed) (background p).
Proof. intros Hp. by apply calls_only_bind. Qed.

Lemma SetPool_quiet p :
  calls_only (quiet_call user_stmt user_allowed) (UserRepository.SetPool (Some p)).
Proof. unfold UserRepository.SetPool. repeat (done || calls_only_step). Qed.

Lemma goroutine_quiet n c cfg t :
  calls_only (quiet_call user_stmt user_allowed) (UserMain.goroutine n c cfg t).
Proof. apply goroutine_calls; [|apply SetPool_quiet]. intros x Hx. by destruct x. Qed.

(** ** An execution *)

(** Two creations with one email address while the pool is rotated. *)
Definition alice : ctx * user_request :=
  (CtxRequest, ReqCreateUser (mkCreateUserRequest "Alice" "alice@example.com")).
Definition alicia : ctx * user_request :=
  (CtxRequest, ReqCreateUser (mkCreateUserRequest " Alicia" "alice@example.com")).
Definition user_moves : list (move (Q := ctx * user_request) (A := iret)) :=
  [Arrive alice; Arrive alicia; Start (background (UserRepository.SetPool (Some (Pool 1))))] ++
  mjoin (replicate 14 [Turn 0; Turn 1; Turn 2]).

Definition user_final := serve_run (mem_env [] true) user_prog user_moves [] mem0.

(** What the clients got: nothing yet, or the error of the answer. *)
Definition answer_error (t : option (ctx * user_request) * go iret) : option (option go_error) :=
  match t.2 with Ret a => Some a.2 | _ => None end.

