(* ===== verification/Client.v ===== *)
(** * Clients of the two services

    A program outside the services reaches them through the generated client
    stubs.  Its RPCs are answered by the generated dispatch tables: those of
    user-service over its own world, those of order-service over both worlds,
    since its handlers call user-service.  Either network may lose messages,
    and what protobuf and gRPC make of a message on the wire is a parameter
    with the laws they document (class [Wire]). *)
From S2P Require Import Prelude.
From S2P Require Import GoStrings.
From S2P Require Import GoFloat.
From S2P Require Import Proto.
From S2P Require Import GoRuntime.
From S2P Require Import External.
From S2P Require Import Grpc.
From S2P Require Import GrpcStubs.
From S2P Require Import Stores.
From S2P Require Import UserService.
From S2P Require Import UserProofs.
From S2P Require Import OrderService.
From S2P Require Import OrderServiceProofs.
From S2P Require Import MemWorld.
From S2P Require Import OrderTheorems.
From S2P Require Import System.
From S2P Require Import Interceptors.

(** ** The client stubs, by request *)

(** What a stub returns, as the values its caller gets. *)
Definition stub {ko} (p : go (goret (msg ko))) : go iret := r ← p; mret (to_iface ko r).

Definition user_client (c : ctx) (q : user_request) : go iret :=
  match q with
  | ReqCreateUser q => stub (ko := MCreateUserResponse) (userv1_grpc.userServiceClient_CreateUser c q)
  | ReqGetUser q => stub (ko := MGetUserResponse) (userv1_grpc.userServiceClient_GetUser c q)
  | ReqUpdateUser q => stub (ko := MUpdateUserResponse) (userv1_grpc.userServiceClient_UpdateUser c q)
  | ReqDeleteUser q => stub (ko := MDeleteUserResponse) (userv1_grpc.userServiceClient_DeleteUser c q)
  end.

Definition order_client (c : ctx) (q : order_request) : go iret :=
  match q with
  | ReqCreateOrder q => stub (ko := MCreateOrderResponse) (orderv1_grpc.orderServiceClient_CreateOrder c q)
  | ReqGetOrder q => stub (ko := MGetOrderResponse) (orderv1_grpc.orderServiceClient_GetOrder c q)
  | ReqListOrders q => stub (ko := MListOrdersResponse) (orderv1_grpc.orderServiceClient_ListOrders c q)
  | ReqCancelOrder q => stub (ko := MCancelOrderResponse) (orderv1_grpc.orderServiceClient_CancelOrder c q)
  end.

(** ** The wire *)

(** A nil element of a repeated field arrives as an empty message. *)
Definition filled_items : list (option orderv1.OrderItem) → list (option orderv1.OrderItem) :=
  map (λ i, Some (default orderv1.OrderItem_zero i)).

Definition filled_order (o : orderv1.Order) : orderv1.Order :=
  orderv1.mkOrder (orderv1.Order_Id o) (orderv1.Order_UserId o) (filled_items (orderv1.Order_Items o))
    (orderv1.Order_Total o) (orderv1.Order_Status o) (orderv1.Order_CreatedAt o).

(** What arrives of a message that can be sent. *)
Definition received (k : mkind) : msg k → msg k :=
  match k return msg k → msg k with
  | MCreateOrderRequest => λ m, orderv1.mkCreateOrderRequest (orderv1.CreateOrderRequest_UserId m)
      (filled_items (orderv1.CreateOrderRequest_Items m))
  | MCreateOrderResponse => λ m,
      orderv1.mkCreateOrderResponse (option_map filled_order (orderv1.CreateOrderResponse_Order m))
  | MGetOrderResponse => λ m,
      orderv1.mkGetOrderResponse (option_map filled_order (orderv1.GetOrderResponse_Order m))
  | MCancelOrderResponse => λ m,
      orderv1.mkCancelOrderResponse (option_map filled_order (orderv1.CancelOrderResponse_Order m))
  | MListOrdersResponse => λ m, orderv1.mkListOrdersResponse
      (map (λ o, Some (filled_order (default orderv1.Order_zero o))) (orderv1.ListOrdersResponse_Orders m))
      (orderv1.ListOrdersResponse_Pagination m)
  | _ => λ m, m
  end.

(** A text of printable ASCII characters. *)
Definition printable (s : string) : Prop :=
  Forall (λ b, 32 ≤ byte_val b ≤ 126)%Z (bytes s).

(** Marshalling and unmarshalling a message, which fails for a string that is not
    UTF-8 or a message over the size limit, and otherwise delivers it with its nil
    elements made empty; and the text of a status in the [grpc-message] trailer,
    which is encoded byte by byte and keeps printable text. *)
Class Wire := {
  transmit : ∀ k, msg k → gresult (msg k);
  transmit_ok : ∀ k m m', transmit k m = Ok m' → m' = received k m;
  transmit_text : string → string;
  transmit_printable : ∀ s, printable s → transmit_text s = s
}.

(** ** The network *)

Section Client.
Context {wire : Wire}.
Context {Wc Wu Wo : Type} (Hc : env Wc) (Hu : env Wu) (Ho : env Wo).

(** The answer of the server on its way to the client. *)
Definition answered (ko : mkind) (o : outcome iret) : gresult (msg ko) :=
  match wire_result ko o with
  | Ok m => transmit ko m
  | Fail (ErrStatus c s) => Fail (ErrStatus c (transmit_text s))
  | Fail e => Fail e
  end.
Context (link : Wu * Wo → delivery) (outer : Wc * (Wu * Wo) → delivery).
Context (repo : OrderRepository.OrderRepository).

(** A delivery of an RPC whose handler ended with [o] in [s']. *)
Definition deliver (ko : mkind) (o : outcome iret) (w : Wc * (Wu * Wo)) (s' : Wu * Wo) :
    gresult (msg ko) * (Wc * (Wu * Wo)) :=
  match outer w with
  | RequestLost => (Fail (ErrStatus Unavailable "connection refused"), w)
  | AnswerLost => (Fail (ErrStatus Unavailable "connection reset"), (w.1, s'))
  | Delivered => (answered ko o, (w.1, s'))
  end.

(** One call of the client: a request that cannot be sent does not reach the
    server. *)
Definition client_env : env (Wc * (Wu * Wo)) := λ c w,
  match c return extres c * (Wc * (Wu * Wo)) with
  | GrpcInvoke _ m ki ko req =>
      match transmit ki req with Fail e => (Fail e, w) | Ok req =>
      match dispatch userv1_grpc.UserService_ServiceDesc m with
      | Some h =>
          let '(o, wu') := run Hu (h UserServiceServer.server CtxRequest (decoded ki req)
                                     (Some server_interceptor)) w.2.1 in
          deliver ko o w (wu', w.2.2)
      | None =>
          match dispatch orderv1_grpc.OrderService_ServiceDesc m with
          | Some h =>
              let '(o, s') := run (system Hu Ho link) (h (OrderServiceServer.server repo) CtxRequest
                                (decoded ki req) (Some server_interceptor)) w.2 in
              deliver ko o w s'
          | None => (Fail (ErrStatus Unimplemented ("unknown method " +:+ m)), w)
          end
      end
      end
  | c => let '(r, wc') := Hc c w.1 in (r, (wc', w.2))
  end.

(** ** A remote call is a local one *)

(** The request that arrives. *)
Definition sent {R} (k : mkind) (f : msg k → R) (m : msg k) : gresult R :=
  match transmit k m with Ok m => Ok (f m) | Fail e => Fail e end.

Definition user_sent (q : user_request) : gresult user_request :=
  match q with
  | ReqCreateUser q => sent MCreateUserRequest ReqCreateUser q
  | ReqGetUser q => sent MGetUserRequest ReqGetUser q
  | ReqUpdateUser q => sent MUpdateUserRequest ReqUpdateUser q
  | ReqDeleteUser q => sent MDeleteUserRequest ReqDeleteUser q
  end.

Definition order_sent (q : order_request) : gresult order_request :=
  match q with
  | ReqCreateOrder q => sent MCreateOrderRequest ReqCreateOrder q
  | ReqGetOrder q => sent MGetOrderRequest ReqGetOrder q
  | ReqListOrders q => sent MListOrdersRequest ReqListOrders q
  | ReqCancelOrder q => sent MCancelOrderRequest ReqCancelOrder q
  end.

(** Only a creation with nil items changes on the way. *)
Definition order_received (q : order_request) : order_request :=
  match q with ReqCreateOrder q => ReqCreateOrder (received MCreateOrderRequest q) | q => q end.

Lemma user_sent_ok q q' : user_sent q = Ok q' → q' = q.
Proof.
  destruct q as [q|q|q|q]; cbn; unfold sent; destruct (transmit _ _) as [m|e] eqn:E; intros [= <-];
    by rewrite (transmit_ok _ _ _ E).
Qed.

Lemma order_sent_ok q q' : order_sent q = Ok q' → q' = order_received q.
Proof.
  destruct q as [q|q|q|q]; cbn; unfold sent; destruct (transmit _ _) as [m|e] eqn:E; intros [= <-];
    by rewrite (transmit_ok _ _ _ E).
Qed.

(** What a caller of the stub gets for an error. *)
Definition stub_error (ko : mkind) (e : go_error) : outcome iret :=
  Returned (Some (existT ko None), Some e).

(** What a caller of the stub gets for the handler's outcome [o]: the response,
    unless it cannot be sent, or the code and the message of the status. *)
Definition same_answer (ko : mkind) (o o' : outcome iret) : Prop :=
  (∃ m : msg ko, o = Returned (Some (existT ko (Some m)), None) ∧
     match transmit ko m with
     | Ok _ => o' = Returned (Some (existT ko (Some (received ko m))), None)
     | Fail e => o' = stub_error ko e
     end) ∨
  (∃ x c s s', c ≠ OK ∧ o = Returned (x, Some (ErrStatus c s)) ∧
     (printable s → s' = s) ∧ o' = stub_error ko (ErrStatus c s')).

Lemma wire_result_same k (m : msg k) : wire_result k (Returned (Some (existT k (Some m)), None)) = Ok m.
Proof.
  cbn. destruct (decide (k = k)) as [e|]; [|done].
  by rewrite (Eqdep_dec.UIP_dec mkind_eq_dec e eq_refl).
Qed.

(** The stub around a call that fails, or whose answer is that of [o]. *)
Lemma stub_fails {W} (H : env W) cx m ki ko (req : msg ki) w e :
  H (GrpcInvoke cx m ki ko req) w = (Fail e, w) →
  run H (stub (invoke_stub m ki ko cx req)) w = (stub_error ko e, w).
Proof. intros Hr. unfold stub, invoke_stub. cbn. by rewrite Hr. Qed.

Lemma stub_answer {W} (H : env W) cx m ki ko (req : msg ki) w o w' :
  answer_typed ko o →
  H (GrpcInvoke cx m ki ko req) w = (answered ko o, w') →
  ∃ o', run H (stub (invoke_stub m ki ko cx req)) w = (o', w') ∧ same_answer ko o o'.
Proof.
  intros Ho' Hr. unfold stub, invoke_stub. cbn. rewrite Hr. unfold answered.
  destruct Ho' as [[r ->]|(x & c & s & -> & Hc' & _)].
  - rewrite wire_result_same. destruct (transmit ko r) as [m'|e] eqn:E;
      (eexists; split; [reflexivity|]); left; exists r; rewrite E; [|done].
    by rewrite (transmit_ok _ _ _ E).
  - exists (stub_error ko (ErrStatus c (transmit_text s))).
    split; [by destruct x as [[? [?|]]|]|]. right. exists x, c, s, (transmit_text s).
    split_and!; [done..|apply transmit_printable|done].
Qed.

Lemma serve_run_typed {W} (H : env W) c q w :
  answer_typed (user_response q) (run H (serve_user c q) w).1.
Proof. eapply serve_user_typed, run_exec. Qed.

Lemma serve_order_run_typed {W} (H : env W) c q w :
  answer_typed (order_response q) (run H (serve_order repo c q) w).1.
Proof. eapply serve_order_typed, run_exec. Qed.

(** The call of a stub, and the handler it reaches. *)
Lemma client_user_call c q :
  ∃ m ki ko req h ctor, user_client c q = stub (invoke_stub m ki ko c req) ∧ ko = user_response q ∧
    dispatch userv1_grpc.UserService_ServiceDesc m = Some h ∧ user_sent q = sent ki ctor req ∧
    ∀ req', serve_user CtxRequest (ctor req') =
      h UserServiceServer.server CtxRequest (decoded ki req') (Some server_interceptor).
Proof.
  destruct q as [q|q|q|q].
  - by exists userv1_grpc.UserService_CreateUser_FullMethodName, MCreateUserRequest, MCreateUserResponse, q,
      userv1_grpc.UserService_CreateUser_Handler, ReqCreateUser.
  - by exists userv1_grpc.UserService_GetUser_FullMethodName, MGetUserRequest, MGetUserResponse, q,
      userv1_grpc.UserService_GetUser_Handler, ReqGetUser.
  - by exists userv1_grpc.UserService_UpdateUser_FullMethodName, MUpdateUserRequest, MUpdateUserResponse, q,
      userv1_grpc.UserService_UpdateUser_Handler, ReqUpdateUser.
  - by exists userv1_grpc.UserService_DeleteUser_FullMethodName, MDeleteUserRequest, MDeleteUserResponse, q,
      userv1_grpc.UserService_DeleteUser_Handler, ReqDeleteUser.
Qed.

Lemma client_order_call c q :
  ∃ m ki ko req h ctor, order_client c q = stub (invoke_stub m ki ko c req) ∧ ko = order_response q ∧
    dispatch userv1_grpc.UserService_ServiceDesc m = None ∧
    dispatch orderv1_grpc.OrderService_ServiceDesc m = Some h ∧ order_sent q = sent ki ctor req ∧
    ∀ req', serve_order repo CtxRequest (ctor req') =
      h (OrderServiceServer.server repo) CtxRequest (decoded ki req') (Some server_interceptor).
Proof.
  destruct q as [q|q|q|q].
  - by exists orderv1_grpc.OrderService_CreateOrder_FullMethodName, MCreateOrderRequest, MCreateOrderResponse, q,
      orderv1_grpc.OrderService_CreateOrder_Handler, ReqCreateOrder.
  - by exists orderv1_grpc.OrderService_GetOrder_FullMethodName, MGetOrderRequest, MGetOrderResponse, q,
      orderv1_grpc.OrderService_GetOrder_Handler, ReqGetOrder.
  - by exists orderv1_grpc.OrderService_ListOrders_FullMethodName, MListOrdersRequest, MListOrdersResponse, q,
      orderv1_grpc.OrderService_ListOrders_Handler, ReqListOrders.
  - by exists orderv1_grpc.OrderService_CancelOrder_FullMethodName, MCancelOrderRequest, MCancelOrderResponse, q,
      orderv1_grpc.OrderService_CancelOrder_Handler, ReqCancelOrder.
Qed.

Lemma user_response_sent q q' : user_sent q = Ok q' → user_response q' = user_response q.
Proof. by intros ->%user_sent_ok. Qed.

Lemma order_response_sent q q' : order_sent q = Ok q' → order_response q' = order_response q.
Proof. intros ->%order_sent_ok. by destruct q. Qed.

Lemma user_call_local c q w :
  outer w = Delivered →
  match user_sent q with
  | Ok q' => let '(o, wu') := run Hu (serve_user CtxRequest q') w.2.1 in
      ∃ o', run client_env (user_client c q) w = (o', (w.1, (wu', w.2.2))) ∧
        same_answer (user_response q) o o'
  | Fail e => run client_env (user_client c q) w = (stub_error (user_response q) e, w)
  end.
Proof.
  intros Hd. pose proof (λ q', serve_run_typed Hu CtxRequest q' w.2.1) as Ht.
  pose proof (user_response_sent q) as Hk.
  destruct (client_user_call c q) as (m & ki & ko & req & h & ctor & -> & -> & Hh & Hsent & Hs).
  rewrite Hsent in *. unfold sent in *. destruct (transmit ki req) as [req'|e] eqn:E.
  - specialize (Ht (ctor req')). rewrite (Hk _ eq_refl), Hs in Ht. rewrite Hs.
    destruct (run Hu _ w.2.1) as [o wu'] eqn:Hr. apply stub_answer; [done|].
    unfold client_env. by rewrite E, Hh, Hr; unfold deliver; rewrite Hd.
  - apply stub_fails. unfold client_env. by rewrite E.
Qed.

Lemma order_call_local c q w :
  outer w = Delivered →
  match order_sent q with
  | Ok q' => let '(o, s') := run (system Hu Ho link) (serve_order repo CtxRequest q') w.2 in
      ∃ o', run client_env (order_client c q) w = (o', (w.1, s')) ∧
        same_answer (order_response q) o o'
  | Fail e => run client_env (order_client c q) w = (stub_error (order_response q) e, w)
  end.
Proof.
  intros Hd. pose proof (λ q', serve_order_run_typed (system Hu Ho link) CtxRequest q' w.2) as Ht.
  pose proof (order_response_sent q) as Hk.
  destruct (client_order_call c q) as (m & ki & ko & req & h & ctor & -> & -> & Hn & Hh & Hsent & Hs).
  rewrite Hsent in *. unfold sent in *. destruct (transmit ki req) as [req'|e] eqn:E.
  - specialize (Ht (ctor req')). rewrite (Hk _ eq_refl), Hs in Ht. rewrite Hs.
    destruct (run (system Hu Ho link) _ w.2) as [o s'] eqn:Hr. apply stub_answer; [done|].
    unfold client_env. by rewrite E, Hn, Hh, Hr; unfold deliver; rewrite Hd.
  - apply stub_fails. unfold client_env. by rewrite E.
Qed.

(** C17: Calling any method of either service through its generated client stub over a
    connection that delivers is equivalent to running the generated handler with its
    interceptors on the request as protobuf delivers it, which is the request that was
    sent except that nil items of a CreateOrder arrive as empty items: the server side
    ends in the same state; the client gets the response, its nil elements made empty;
    an error of the handler arrives with the same code and, if its text is printable
    ASCII, the same text; a request that cannot be marshalled fails the call without
    reaching the server, and a response that cannot be fails the call. What marshalling
    does is a parameter with these documented laws. *)
Theorem remote_call_local c w :
  outer w = Delivered →
  (∀ q, match user_sent q with
   | Ok q' => q' = q ∧
       let '(o, wu') := run Hu (serve_user CtxRequest q) w.2.1 in
       ∃ o', run client_env (user_client c q) w = (o', (w.1, (wu', w.2.2))) ∧
         same_answer (user_response q) o o'
   | Fail e => run client_env (user_client c q) w = (stub_error (user_response q) e, w)
   end) ∧
  (∀ q, match order_sent q with
   | Ok q' => q' = order_received q ∧
       let '(o, s') := run (system Hu Ho link) (serve_order repo CtxRequest (order_received q)) w.2 in
       ∃ o', run client_env (order_client c q) w = (o', (w.1, s')) ∧
         same_answer (order_response q) o o'
   | Fail e => run client_env (order_client c q) w = (stub_error (order_response q) e, w)
   end).
Proof.
  intros Hd. split; intros q.
  - pose proof (user_call_local c q w Hd) as Hl. destruct (user_sent q) eqn:E; [|done].
    apply user_sent_ok in E as ->. by split.
  - pose proof (order_call_local c q w Hd) as Hl. destruct (order_sent q) eqn:E; [|done].
    apply order_sent_ok in E as ->. by split.
Qed.
End Client.

(** A wire that carries every message. *)
#[export] Program Instance plain_wire : Wire :=
  {| transmit := λ k m, Ok (received k m); transmit_text := λ s, s |}.
Next Obligation. by intros k m m' [= <-]. Qed.
Next Obligation. done. Qed.

(** A client without a world of its own, over the two in-memory services. *)
Definition gateway : env (unit * (mem * mem)) :=
  client_env (λ c w, (default_answer c, w)) (mem_env [] true) (mem_env [] true)
    (λ _, Delivered) (λ _, Delivered) repo.

(** A nil item arrives as an empty one, which the handler refuses; it would panic
    on the nil item itself. *)
Lemma remote_call_local_witness :
  let q := ReqCreateOrder (orderv1.mkCreateOrderRequest "u-1" [None]) in
  run gateway (order_client CtxBackground q) (tt, (users_world, mem0)) =
    (stub_error MCreateOrderResponse (ErrStatus InvalidArgument "items[0].product_id is required"),
     (tt, (users_world, mem0))) ∧
  ∃ o o', same_answer MCreateOrderResponse o o'.
Proof.
  intros q. pose proof (proj2 (remote_call_local (λ c w, (default_answer c, w)) (mem_env [] true)
    (mem_env [] true) (λ _, Delivered) (λ _, Delivered) repo CtxBackground (tt, (users_world, mem0))
    eq_refl) q) as Hl.
  cbn [order_sent sent transmit plain_wire] in Hl. destruct Hl as [_ Hl].
  destruct (run (system _ _ _) _ _) as [o s'] in Hl. destruct Hl as (o' & _ & Hs).
  split; [vm_compute; reflexivity|]. exists o, o'. exact Hs.
Defined.
