(* ===== verification/OrderConcurrency.v ===== *)
(** * order-service under concurrency

    Any number of requests to order-service run side by side, each with at
    most one open transaction, while credential rotations replace the pool.
    Whatever the order of their calls, every stored order is a complete valid
    creation of a known user, and a cache entry is a read of the stored order
    that may only still say PENDING of an order that is CANCELLED by now. *)
From S2P Require Import Prelude.
From S2P Require Import GoStrings.
From S2P Require Import GoFloat.
From S2P Require Import Proto.
From S2P Require Import GoRuntime.
From S2P Require Import External.
From S2P Require Import RelyGuarantee.
From S2P Require Import Grpc.
From S2P Require Import GrpcStubs.
From S2P Require Import Stores.
From S2P Require Import OrderService.
From S2P Require Import OrderProofs.
From S2P Require Import OrderCacheProofs.
From S2P Require Import OrderServiceProofs.
From S2P Require Import MemWorld.
From S2P Require Import OrderTheorems.
From S2P Require Import Concurrency.
From S2P Require Import Vault.
From S2P Require Import Config.
From S2P Require Import Lifecycle.
From S2P Require Import LifecycleProofs.
From stdpp Require Import relations.
Import orderv1.

(** ** What order-service learns about users

    The only RPC it makes is [GetUser]; an answer with a user tells that the
    user is known, which stays true. *)

Definition order_call (c : extcall) : Prop :=
  match c with
  | GrpcInvoke _ m _ _ _ => m = userv1_grpc.UserService_GetUser_FullMethodName
  | _ => True
  end.

Class UserOracle {W} (H : env W) `{!OrderDB H} := {
  oracle_ok : W → Prop;
  known : W → string → Prop;
  oracle_keeps : ∀ c w, order_call c → oracle_ok w →
    oracle_ok (H c w).2 ∧ ∀ u, known w u → known (H c w).2 u;
  oracle_get : ∀ cx id w resp w', oracle_ok w →
    H (GrpcInvoke cx userv1_grpc.UserService_GetUser_FullMethodName MGetUserRequest
         MGetUserResponse (userv1.mkGetUserRequest id)) w = (Ok resp, w') →
    is_Some (userv1.GetUserResponse_User resp) → known w' (order_key id)
}.

(** Rows are only added, and only a status changes, until it is CANCELLED. *)
Definition grows (O O' : orders_map) : Prop :=
  ∀ id row, O !! id = Some row →
  ∃ s, (or_status row = "CANCELLED" → s = "CANCELLED") ∧ O' !! id = Some (set_status s row).

Lemma set_status_same row : set_status (or_status row) row = row.
Proof. by destruct row. Qed.

#[export] Instance grows_preorder : PreOrder grows.
Proof.
  split.
  - intros O id row Hr. exists (or_status row). by rewrite set_status_same.
  - intros O1 O2 O3 H1 H2 id row Hr. destruct (H1 _ _ Hr) as (s & Hc & Hs).
    destruct (H2 _ _ Hs) as (s' & Hc' & Hs'). exists s'. by auto.
Qed.

Lemma grows_cancel O id row : O !! id = Some row → grows O (<[id := set_status "CANCELLED" row]> O).
Proof.
  intros Hid id' row' Hr. destruct (decide (id' = id)) as [->|Hne].
  - exists "CANCELLED". split; [done|]. rewrite lookup_insert_eq. by simplify_eq.
  - exists (or_status row'). split; [done|]. by rewrite lookup_insert_ne, set_status_same.
Qed.

Lemma grows_union O d : d ##ₘ O → grows O (d ∪ O).
Proof.
  intros Hd id row Hr. exists (or_status row). split; [done|]. rewrite set_status_same.
  by apply lookup_union_Some_r.
Qed.

Section Concurrent.
Context {W : Type} (H : env W) `{!OrderDB H} `{!OrderKV H} `{!OrderTx H} `{!UserOracle H}.

(** ** The invariant, and what a goroutine may rely on *)

Definition orders_known (w : W) : Prop :=
  map_Forall (λ _ row, order_row_ok order_key column row ∧ known w (or_user row)) (orders w).

(** A status that may have been read earlier of a row: every order starts as
    PENDING, and a CANCELLED one stays so, hence CANCELLED is never read of an
    order that is not CANCELLED. *)
Definition stale_status (s : string) (row : order_row) : Prop :=
  s ∈ ["PENDING"; "CANCELLED"] ∧ (s = "CANCELLED" → or_status row = "CANCELLED").

(** A read of the stored order, now or before its cancellation. *)
Definition near_read (O : orders_map) (id : string) (o : Order) : Prop :=
  ∃ row s, O !! order_key id = Some row ∧ stale_status s row ∧
    order_read (complete_reads H) id (set_status s row) o.

Definition cache_near (w : W) : Prop :=
  ∀ k d, kv w !! k = Some d →
  ∃ id o, k = OrderCache.key id ∧ decodes d o ∧ near_read (orders w) id o.

Definition orders_inv (w : W) : Prop := orders_known w ∧ cache_near w ∧ oracle_ok w.

(** The token is the open transaction. *)
Definition tx_rely (τ : option txn) (w w' : W) : Prop :=
  grows (orders w) (orders w') ∧ (∀ u, known w u → known w' u) ∧
  (∀ t, tx_allocated w t → tx_allocated w' t) ∧
  (∀ t, τ = Some t → tx_new w' t = tx_new w t).
Definition tx_valid (τ : option txn) (w : W) : Prop := ∀ t, τ = Some t → tx_allocated w t.
Definition tx_compat (τ σ : option txn) : Prop := ∀ t, τ = Some t → σ ≠ Some t.

#[export] Instance tx_rely_preorder τ : PreOrder (tx_rely τ).
Proof.
  split; [by intros w|]. intros w1 w2 w3 (?&?&?&Ht1) (?&?&?&Ht2).
  split_and!; [by etrans|auto..|]. intros t Ht. by rewrite Ht2, Ht1.
Qed.

#[export] Instance tx_compat_sym : Symmetric tx_compat.
Proof. intros τ σ Hc t -> Hτ. by eapply Hc. Qed.

Abbreviation promise := (guarantee orders_inv tx_rely tx_valid tx_compat).
Abbreviation cwp := (cwp orders_inv tx_rely tx_valid tx_compat).
Abbreviation harmless := (harmless orders_inv tx_rely tx_valid tx_compat).

Lemma near_read_grows O O' id o : near_read O id o → grows O O' → near_read O' id o.
Proof.
  intros (row & s & Hr & [Hs Hst] & Ho) Hg. destruct (Hg _ _ Hr) as (s' & Hc & Hr').
  exists (set_status s' row), s. split_and!; [done|split; [done|by auto]|done].
Qed.

Lemma cache_near_shrink w w' :
  cache_near w → kv w' ⊆ kv w → grows (orders w) (orders w') → cache_near w'.
Proof.
  intros Hc Hk Hg k d Hd. eapply lookup_weaken in Hd; [|done].
  destruct (Hc _ _ Hd) as (id & o & ? & ? & Ho). exists id, o. eauto using near_read_grows.
Qed.

(** A step that keeps the orders known, and the transactions of the others. *)
Lemma promise_call c τ w :
  order_call c → not_redis_set c → orders_inv w → tx_valid τ w →
  orders_known (H c w).2 → grows (orders w) (orders (H c w).2) →
  (∀ t, τ ≠ Some t → tx_allocated w t → tx_new (H c w).2 t = tx_new w t) →
  promise τ w τ (H c w).2.
Proof.
  intros Hc Hs (Hk & Hca & Hor) Hv Hk' Hg Ht. destruct (oracle_keeps c w Hc Hor) as [Hor' Hkn].
  assert (∀ σ, tx_valid σ w → tx_valid σ (H c w).2) as Hval.
  { intros σ Hσ t Hτ. apply tx_allocated_keeps. by apply Hσ. }
  split; [|split; [by apply Hval|]].
  - split; [done|]. split; [|done]. eapply cache_near_shrink; [done| |done]. by apply kv_frame.
  - intros σ Hσ Hcomp. split; [|by split; [apply Hval|]]. split_and!; [done..| |].
    + intros t. apply tx_allocated_keeps.
    + intros t Hτ. apply Ht; [|by apply Hσ]. intros Hτ'. by eapply Hcomp.
Qed.

Lemma promise_drop τ w w' : promise τ w τ w' → promise τ w None w'.
Proof.
  intros (Hi & _ & Hg). split; [done|]. split; [done|]. intros σ Hσ Hc.
  by destruct (Hg σ Hσ Hc) as (? & ? & _).
Qed.

(** ** Calls that change neither the tables nor the transactions *)

Definition plain_call (c : extcall) : Prop :=
  order_call c ∧ not_redis_set c ∧ tx_call c = false ∧ ∀ w, orders (H c w).2 = orders w.

Lemma plain_quiet c : order_call c → not_redis_set c → sql_call c = false → plain_call c.
Proof.
  intros Ho Hs Hc. split_and!; [done..|by destruct c|]. intros w. by apply orders_frame.
Qed.

Lemma orders_known_same w w' :
  orders_known w → orders w' = orders w → (∀ u, known w u → known w' u) → orders_known w'.
Proof.
  intros Hw Ho Hk. unfold orders_known. rewrite Ho.
  eapply map_Forall_impl; [exact Hw|]. intros id row [? ?]. auto.
Qed.

Lemma plain_harmless c : plain_call c → harmless H c.
Proof.
  intros (Hc & Hs & Ht & Ho) τ w Hv Hw. destruct (oracle_keeps c w Hc (proj2 (proj2 Hw))) as [_ Hk].
  assert (grows (orders w) (orders (H c w).2)) as Hg by by rewrite Ho.
  split.
  - apply promise_call; [done..| |done|].
    + eapply orders_known_same; [apply Hw|done..].
    + intros t _ _. by rewrite tx_frame.
  - split_and!; [done..| |].
    + intros t. apply tx_allocated_keeps.
    + intros t _. by rewrite tx_frame.
Qed.

Lemma cwp_plain {A} (p : go A) τ w :
  calls_only plain_call p → cwp H p (λ _ τ' w', τ' = τ ∧ tx_rely τ w w') τ w.
Proof. intros Hp. apply cwp_harmless; [apply _|].
  eapply calls_only_mono; [apply plain_harmless|done]. Qed.

(** [calls_only plain_call] for the calls around the statements. *)
Ltac plain_step :=
  first [calls_only_step | by apply plain_quiet | progress unfold zap_log, ctx_cancel
        | progress cbn beta iota zeta | done].

Lemma plain_getPool : calls_only plain_call (OrderRepository.getPool ≫= deref).
Proof. unfold OrderRepository.getPool. repeat plain_step. Qed.

(** Facts the others cannot take away. *)
Definition lasting {A} (Q : outcome A → option txn → W → Prop) : Prop :=
  ∀ o τ w w', Q o τ w → tx_rely τ w w' → Q o τ w'.

(** A body that runs under its own timeout with the pool of the repository. *)
Lemma cwp_pooled {A} q (body : pool → go A) Q τ w :
  lasting Q →
  (∀ s w1, tx_rely τ w w1 → Q (Panicked s) τ w1) →
  (∀ p w1, tx_rely τ w w1 → cwp H (body p) Q τ w1) →
  cwp H (with_defer (ctx_cancel q) ((OrderRepository.getPool ≫= deref) ≫= body)) Q τ w.
Proof.
  intros Hl Hs Hb. assert (∀ o τ' w', Q o τ' w' → cwp H (ctx_cancel q) (λ od τ'' w'',
    match od with Returned _ => Q o τ'' w'' | Panicked s => Q (Panicked s) τ'' w'' end) τ' w') as Hd.
  { intros o τ' w' HQ. unfold ctx_cancel.
    apply cwp_harmless_one; [apply _|by apply plain_harmless, plain_quiet|].
    intros r w1 Hr. by eapply Hl. }
  cwp_pure. apply cwp_bind. eapply cwp_mono; [apply cwp_plain, plain_getPool|]. cbn beta.
  intros [p|s] τ' w' [-> Hr]; [|by apply Hd, Hs]. eapply cwp_mono; [by apply Hb|]. auto.
Qed.

(** ** The repository *)

(** Later, with the same token. *)
Definition since (τ : option txn) (w : W) (P : Prop) (τ' : option txn) (w' : W) : Prop :=
  τ' = τ ∧ tx_rely τ w w' ∧ P.

Lemma since_lasting {A} τ w (P : outcome A → Prop) : lasting (λ o, since τ w (P o)).
Proof. intros o τ' w1 w2 (-> & Hr & HP) Hr'. split_and!; [done|by etrans|done]. Qed.

Definition items_of (row : order_row) (o : outcome (list (option OrderItem) * option go_error)) : Prop :=
  match o with
  | Returned (items, None) => ∃ its rest, items = map (Some ∘ item_of_row) its ∧
      its ++ rest ≡ₚ or_items row ∧ (complete_reads H → rest = [])
  | _ => True
  end.

(** A statement that only reads. *)
Lemma plain_read c : order_call c → not_redis_set c → tx_call c = false →
  (∀ w, let '(_, w') := H c w in orders w' = orders w) → plain_call c.
Proof. intros Ho Hs Ht Hr. split_and!; [done..|]. intros w. specialize (Hr w). by destruct (H c w). Qed.

Lemma plain_select p cx id :
  plain_call (PoolQueryRow p cx OrderRepository.sql_select_order [AString id]
    [KString; KString; KFloat64; KTime]).
Proof.
  apply plain_read; [done..|]. intros w. pose proof (orders_select p cx id w) as Hl.
  unfold OrderRepository.sql_select_order. destruct (H _ w). apply Hl.
Qed.

Lemma plain_items p cx id :
  plain_call (PoolQuery p cx OrderRepository.sql_select_items [AString id]
    [KString; KString; KInt32; KFloat64]).
Proof.
  apply plain_read; [done..|]. intros w. pose proof (orders_items p cx id w) as Hl.
  unfold OrderRepository.sql_select_items. destruct (H _ w). apply Hl.
Qed.

Lemma cwp_getItems c id row τ w :
  orders w !! order_key id = Some row →
  cwp H (OrderRepository.getItems c id) (λ o, since τ w (items_of row o)) τ w.
Proof.
  intros Hrow. unfold OrderRepository.getItems. apply cwp_pooled; [apply since_lasting|done|].
  intros p w1 Hr1. apply cwp_call. intros w2 Hr2 Hv Hi.
  assert (tx_rely τ w w2) as Hr by by etrans. destruct (proj1 Hr _ _ Hrow) as (s & _ & Hs).
  destruct (plain_harmless _ (plain_items p (OrderRepository.queryTimeout c) id) τ w2 Hv Hi) as [Hp Hr3].
  exists τ. split; [exact Hp|]. clear Hp.
  pose proof (orders_items p (OrderRepository.queryTimeout c) id w2) as Hl.
  unfold OrderRepository.sql_select_items in *. destruct (H _ w2) as [r w3] eqn:E. destruct Hl as [_ Hl].
  cbn [fst snd] in *. assert (tx_rely τ w w3) as Hr' by by etrans.
  destruct r as [rs|e]; [|by apply cwp_ret]. cwp_pure. apply cwp_ret.
  rewrite Hs in Hl. destruct Hl as (l & (seen & rest & -> & Hcomp & Hsc) & Hperm). cbn in Hperm.
  apply cwp_harmless_one; [apply _|by apply plain_harmless, plain_quiet|]. intros u w4 Hr4.
  split_and!; [done|by etrans|].
  destruct (scan_items_spec _ _ [] Hsc) as [-> |[e ->]]; [|done].
  exists seen, rest. split_and!; [done..|]. intros Hreads. eapply Hcomp, Hreads, E.
Qed.

(** A read that started in [w0]: of a status the order had since. *)
Definition reads_since (w0 : W) (id : string) (o : Order) (w : W) : Prop :=
  ∃ row s, orders w !! order_key id = Some row ∧ stale_status s row ∧
    order_read (complete_reads H) id (set_status s row) o ∧
    ∀ row0, orders w0 !! order_key id = Some row0 → or_status row0 = "CANCELLED" →
      s = "CANCELLED" ∧ or_status row = "CANCELLED".

(** What an order that was returned promises, if the others do not undo it. *)
Definition returns_order (τ : option txn) (P : Order → W → Prop) (o : outcome (goret Order))
    (τ' : option txn) (w : W) : Prop :=
  τ' = τ ∧ match o with Returned (Some ord, None) => P ord w | _ => True end.
Definition kept (P : Order → W → Prop) : Prop :=
  ∀ o w w', P o w → grows (orders w) (orders w') → P o w'.

Lemma returns_order_lasting τ P : kept P → lasting (returns_order τ P).
Proof.
  intros HP [[[ord|] [e|]]|s] τ' w w' [-> Ho] Hr; try done. split; [done|].
  eapply HP; [done|apply Hr].
Qed.

Lemma near_read_kept id : kept (λ o w, near_read (orders w) id o).
Proof. intros o w w' Ho Hg. by eapply near_read_grows. Qed.

Lemma reads_since_kept w0 id : kept (reads_since w0 id).
Proof.
  intros o w w' (row & s & Hr & [Hs Hca] & Ho & Hc) Hg. destruct (Hg _ _ Hr) as (s' & Hs' & Hr').
  exists (set_status s' row), s. split_and!; [done|split; [done|by auto]|done|]. intros row0 H0 Hst.
  destruct (Hc row0 H0 Hst). auto.
Qed.

Lemma reads_since_near w0 id o w : reads_since w0 id o w → near_read (orders w) id o.
Proof. intros (row & s & ? & ? & ? & _). by exists row, s. Qed.

Lemma cwp_getFromDB c id τ w :
  cwp H (OrderRepository.getFromDB c id) (returns_order τ (reads_since w id)) τ w.
Proof.
  unfold OrderRepository.getFromDB. apply cwp_pooled; [apply returns_order_lasting, reads_since_kept|done|].
  intros p w1 Hr1. apply cwp_call. intros w2 Hr2 Hv Hi. exists τ.
  split; [by apply plain_harmless; [apply plain_select|..]|].
  pose proof (orders_select p (OrderRepository.queryTimeout c) id w2) as Hl.
  unfold OrderRepository.sql_select_order. destruct (H _ w2) as [r w3]. destruct Hl as [Ho3 Hl]. cbn [fst snd].
  destruct r as [(user & s & total & ca & [])|e]; [|by case_match].
  destruct Hl as [items Hrow]. set (row := mkOrderRow user s total ca items) in Hrow.
  assert (s ∈ ["PENDING"; "CANCELLED"]) as Hs.
  { destruct (map_Forall_lookup_1 _ _ _ _ (proj1 Hi) Hrow) as [(u & its & ca' & s' & _ & _ & _ & _ & Hs & Heq) _].
    unfold row in Heq. by injection Heq as _ -> _ _ _. }
  assert (∀ row0, orders w !! order_key id = Some row0 → or_status row0 = "CANCELLED" → s = "CANCELLED") as Hcan.
  { intros row0 H0 Hst. destruct (proj1 Hr1 _ _ H0) as (s1 & Hc1 & H1).
    destruct (proj1 Hr2 _ _ H1) as (s2 & Hc2 & H2). rewrite Hrow in H2. injection H2 as _ -> _ _ _. auto. }
  rewrite <-Ho3 in Hrow. clear w1 w2 Hr1 Hr2 Hv Hi Ho3.
  cwp_pure. eapply cwp_mono; [by apply (cwp_getItems _ _ row)|]. cbn beta.
  intros [[its [e|]]|m] τ' w' (-> & Hr & Hits); try done. apply cwp_ret. split; [done|].
  destruct Hits as (l & rest & -> & Hp & Hc). destruct (proj1 Hr _ _ Hrow) as (s' & Hst' & Hs').
  exists (set_status s' row), s.
  split_and!; [done|by split| |intros row0 H0 Hst; specialize (Hcan _ H0 Hst); auto].
  unfold order_read. split_and!; [done..|]. by exists l, rest.
Qed.

(** *** Reading through the cache *)

Lemma cwp_cache_Get c id τ w :
  cwp H (OrderCache.Get c id) (returns_order τ (λ o w', near_read (orders w') id o)) τ w.
Proof.
  unfold OrderCache.Get. apply cwp_call. intros w1 _ Hv Hi. exists τ.
  destruct (plain_harmless (RedisGet c (OrderCache.key id)) ltac:(by apply plain_quiet) τ w1 Hv Hi) as [Hp Hr1].
  split; [exact Hp|]. clear Hp Hv. pose proof (kv_get c (OrderCache.key id) w1) as Hg.
  destruct (H (RedisGet c (OrderCache.key id)) w1) as [[d|e] w2]; cbn [fst snd] in *; [|by case_match].
  destruct (proj1 (proj2 Hi) _ _ Hg) as (id' & o & Hk & Hd & Ho). apply cache_key_inj in Hk as <-.
  clear Hi Hg. apply cwp_call. intros w3 Hr3 Hv Hi. exists τ.
  destruct (plain_harmless (PjUnmarshal d) ltac:(by apply plain_quiet) τ w3 Hv Hi) as [Hp Hr4].
  split; [exact Hp|]. pose proof (pj_unmarshal d w3 o) as Hu.
  destruct (H (PjUnmarshal d) w3) as [[o'|e] w4]; cbn [fst snd] in *; apply cwp_ret; [|done].
  rewrite (Hu o' Hd eq_refl). split; [done|]. do 3 (eapply near_read_grows; [|by apply Hr4 || apply Hr3 || apply Hr1]). done.
Qed.

Lemma cwp_cache_Set c id o τ w :
  near_read (orders w) id o →
  cwp H (OrderCache.Set_ c o) (λ r τ' w', τ' = τ ∧ tx_rely τ w w') τ w.
Proof.
  intros Ho. unfold OrderCache.Set_. apply cwp_call. intros w1 Hr1 Hv Hi. exists τ.
  destruct (plain_harmless (PjMarshal o) ltac:(by apply plain_quiet) τ w1 Hv Hi) as [Hp Hr2].
  split; [exact Hp|]. clear Hp. pose proof (pj_marshal o w1) as Hm.
  assert (Forall is_Some (Order_Items o)) as Hits.
  { destruct Ho as (? & ? & _ & _ & Ho). by eapply order_read_items. }
  destruct (H (PjMarshal o) w1) as [[d|e] w2]; cbn [fst snd] in *; [|apply cwp_ret; split; [done|by etrans]].
  specialize (Hm d Hits eq_refl). clear Hv Hi. assert (tx_rely τ w w2) as Hr by by etrans.
  intros w3 Hr3 Hv Hi. assert (near_read (orders w3) id o) as Ho3.
  { eapply near_read_grows; [done|]. etrans; [apply Hr|apply Hr3]. }
  assert (Order_Id o = id) as -> by by destruct Ho as (? & ? & _ & _ & ? & _).
  exists τ. set (c1 := RedisSet _ _ _ _). destruct (orders_frame c1 w3 eq_refl) as [Hos _].
  destruct (oracle_keeps c1 w3 I (proj2 (proj2 Hi))) as [Hor Hkn].
  pose proof (tx_frame c1 w3 eq_refl) as Htx.
  assert (∀ σ, tx_rely σ w3 (H c1 w3).2) as Hrel.
  { intros σ. split_and!; [by rewrite Hos|done|intros t; apply tx_allocated_keeps|by rewrite Htx]. }
  assert (∀ σ, tx_valid σ w3 → tx_valid σ (H c1 w3).2) as Hval.
  { intros σ Hσ t Ht. by apply tx_allocated_keeps, Hσ. }
  split; [|cbn; split; [done|]; etrans; [done|]; by etrans].
  split; [|split; [by apply Hval|]].
  2: { intros σ Hσ Hc. split_and!; [apply Hrel|by apply Hval|done]. }
  split; [eapply orders_known_same; [apply Hi|done..]|]. split; [|done].
  intros k' d' Hk. rewrite Hos.
  assert (k' = OrderCache.key id ∧ d' = d ∨ kv w3 !! k' = Some d') as [[-> ->]|Hk3].
  { pose proof (kv_set c (OrderCache.key id) d OrderCache.orderCacheTTL w3) as Hs.
    change (RedisSet _ _ _ _) with c1 in Hs. destruct (H c1 w3) as [r w4].
    destruct Hs as [Hs|[_ Hs]]; pose proof (lookup_weaken _ _ _ _ Hk Hs) as Hk3; [|by right].
    apply lookup_insert_Some in Hk3 as [[<- <-]|[_ Hk3]]; [by left|by right]. }
  - exists id, o. auto.
  - by apply (proj1 (proj2 Hi)).
Qed.

Lemma cwp_log l m fs {A} (k : go A) Q τ w :
  (∀ w', tx_rely τ w w' → cwp H k Q τ w') → cwp H (zap_log l m fs ≫= λ _, k) Q τ w.
Proof.
  intros Hk. unfold zap_log. apply cwp_harmless_call; [apply _|by apply plain_harmless, plain_quiet|].
  auto.
Qed.

(** What the others see of a request: it ends without an open transaction. *)
Definition closed {A} (_ : outcome A) (τ : option txn) (_ : W) : Prop := τ = None.

Lemma cwp_Get r c id w :
  cwp H (OrderRepository.Get r c id) (returns_order None (λ o w', near_read (orders w') id o)) None w.
Proof.
  unfold OrderRepository.Get. apply cwp_bind.
  apply (cwp_mono _ _ _ _ _ _ (λ o τ w', τ = None ∧
    ∀ ord, o = Returned (Some ord) → near_read (orders w') id ord)).
  { destruct (OrderRepository.has_rdb r); [|by apply cwp_ret]. cwp_pure.
    eapply cwp_mono; [apply cwp_cache_Get|]. cbn beta.
    intros [[[ord|] [e|]]|s] τ w1 [-> Ho]; cbn beta iota; try apply cwp_ret; try by split.
    apply cwp_log. intros w2 Hr. apply cwp_ret. split; [done|]. intros ? [= <-].
    eapply near_read_grows; [done|apply Hr]. }
  intros [hit|s] τ w' [-> Hhit]; [|done]. destruct hit as [o|]; [apply cwp_ret; split; [done|by apply Hhit]|].
  cwp_pure. eapply cwp_mono; [apply cwp_getFromDB|]. cbn beta.
  intros [[[o|] [e|]]|s] τ' w1 [-> Ho]; try done. apply reads_since_near in Ho.
  cwp_pure. apply (cwp_mono _ _ _ _ _ _ (λ r τ w', τ = None ∧ near_read (orders w') id o)).
  2: { intros [u|m] τ' w2 [-> Hn]; [by apply cwp_ret|done]. }
  destruct (OrderRepository.has_rdb r); [|by apply cwp_ret]. cwp_pure.
  eapply cwp_mono; [by eapply cwp_cache_Set|]. intros [[e|]|s] τ' w2 [-> Hr].
  - unfold zap_log. apply cwp_harmless_one; [apply _|by apply plain_harmless, plain_quiet|].
    intros u w3 Hr3. split; [done|]. eapply near_read_grows; [done|]. etrans; [apply Hr|apply Hr3].
  - apply cwp_ret. split; [done|]. eapply near_read_grows; [done|apply Hr].
  - split; [done|]. eapply near_read_grows; [done|apply Hr].
Qed.

(** *** Cancelling *)

Ltac plain_leaf :=
  lazymatch goal with
  | |- calls_only _ (OrderRepository.getPool ≫= deref) => apply plain_getPool
  | |- plain_call _ => first [apply plain_select | apply plain_items]
  end.

Lemma plain_getFromDB c id : calls_only plain_call (OrderRepository.getFromDB c id).
Proof.
  unfold OrderRepository.getFromDB, OrderRepository.getItems.
  repeat first [plain_leaf | plain_step].
Qed.

Lemma orders_known_cancel w w' id row :
  orders_known w → orders w !! id = Some row → (∀ u, known w u → known w' u) →
  orders w' = <[id := set_status "CANCELLED" row]> (orders w) → orders_known w'.
Proof.
  intros Hw Hrow Hk Ho. assert (orders_ok order_key column (orders w)) as Hok.
  { eapply map_Forall_impl; [exact Hw|]. by intros ?? [? _]. }
  intros id' row' Hid. rewrite Ho in Hid. split.
  - eapply orders_ok_cancelled; done.
  - apply lookup_insert_Some in Hid as [[_ <-]|[_ Hid]]; apply Hk.
    + by destruct (map_Forall_lookup_1 _ _ _ _ Hw Hrow).
    + by destruct (map_Forall_lookup_1 _ _ _ _ Hw Hid).
Qed.

Lemma promise_cancel p cx id τ w :
  tx_valid τ w → orders_inv w →
  promise τ w τ
    (H (PoolQueryRow p cx OrderRepository.sql_cancel_order [AString id] [KString]) w).2.
Proof.
  intros Hv Hi. set (c := PoolQueryRow _ _ _ _ _).
  destruct (oracle_keeps c w Logic.I (proj2 (proj2 Hi))) as [_ Hk].
  pose proof (orders_cancel p cx id w) as Hl. unfold OrderRepository.sql_cancel_order in c. fold c in Hl.
  assert (orders (H c w).2 = orders w ∨ ∃ row, orders w !! order_key id = Some row ∧
    orders (H c w).2 = <[order_key id := set_status "CANCELLED" row]> (orders w)) as Hcase.
  { destruct (H c w) as [[[s []]|e] w']; cbn; [|by destruct Hl]. destruct Hl as (_ & row & ? & ?). eauto. }
  apply promise_call; [done..| | |].
  - destruct Hcase as [Ho|(row & Hrow & Ho)]; [eapply orders_known_same|eapply orders_known_cancel];
      try done; apply Hi.
  - destruct Hcase as [->|(row & Hrow & ->)]; [done|by apply grows_cancel].
  - intros t _ _. by rewrite tx_frame.
Qed.

(** The stored order is cancelled, as its present content says. *)
Definition cancelled (id : string) (o : Order) (w : W) : Prop :=
  ∃ row, orders w !! order_key id = Some row ∧ or_status row = "CANCELLED" ∧
    order_read (complete_reads H) id row o.

Lemma cancelled_kept id : kept (cancelled id).
Proof.
  intros o w w' (row & Hr & Hc & Ho) Hg. destruct (Hg _ _ Hr) as (s & Hs & Hr'). rewrite (Hs Hc) in Hr'.
  exists row. split_and!; [|done..]. rewrite Hr', <-Hc. by rewrite set_status_same.
Qed.

Lemma cwp_Cancel r c id w :
  cwp H (OrderRepository.Cancel r c id) (returns_order None (cancelled id)) None w.
Proof.
  unfold OrderRepository.Cancel. apply cwp_pooled; [apply returns_order_lasting, cancelled_kept|done|].
  intros p w1 _. apply cwp_call. intros w2 _ Hv Hi. exists None. split; [by apply promise_cancel|].
  pose proof (orders_cancel p (OrderRepository.queryTimeout c) id w2) as Hl.
  unfold OrderRepository.sql_cancel_order. destruct (H _ w2) as [[[s []]|e] w3]; cbn [fst snd]; [|by case_match].
  destruct Hl as (_ & row & Hrow & Ho).
  assert (orders w3 !! order_key id = Some (set_status "CANCELLED" row)) as H3 by by rewrite Ho, lookup_insert_eq.
  clear Hrow Ho Hi Hv. apply cwp_bind. eapply cwp_mono.
  { apply cwp_plain. destruct (OrderRepository.has_rdb r); [|done]. unfold OrderCache.Invalidate. repeat plain_step. }
  intros [u|m] τ w4 [-> Hr4]; [|done]. cbn beta iota.
  destruct (proj1 Hr4 _ _ H3) as (s4 & Hs4 & H4). specialize (Hs4 eq_refl). subst s4.
  eapply cwp_mono; [apply cwp_getFromDB|]. cbn beta.
  intros [[[ord|] [e|]]|m] τ w5 [-> Ho]; try done. split; [done|].
  destruct Ho as (row5 & s5 & H5 & _ & Ho & Hc5). destruct (Hc5 _ H4 eq_refl) as [-> Hst].
  exists row5. split_and!; [done..|]. by rewrite <-(set_status_same row5), Hst.
Qed.

(** *** Creating *)

(** The open transaction [t] has inserted [d], and [u] is known. *)
Definition pending (t : txn) (d : orders_map) (u : string) (w : W) : Prop :=
  tx_new w t = Some d ∧ known w u.

Lemma pending_rely t d u w w' : pending t d u w → tx_rely (Some t) w w' → pending t d u w'.
Proof. intros [Ht Hu] (_ & Hk & _ & Htx). split; [by rewrite Htx|auto]. Qed.

Lemma tx_of_plain c t : tx_of c = Some t → order_call c ∧ not_redis_set c.
Proof. by destruct c. Qed.

(** A statement of the open transaction. *)
Lemma cwp_tx_call {A} c t d u (P : extres c → W → Prop) (k : extres c → go A) Q w :
  tx_of c = Some t →
  (∀ w1, tx_new w1 t = Some d → orders (H c w1).2 = orders w1 ∧ P (H c w1).1 (H c w1).2) →
  pending t d u w →
  (∀ r w2, P r w2 → known w2 u → cwp H (k r) Q (Some t) w2) →
  cwp H (gocall c ≫= k) Q (Some t) w.
Proof.
  intros Hc HP Hp Hk. apply cwp_call. intros w1 Hr Hv Hi.
  destruct (pending_rely _ _ _ _ _ Hp Hr) as [Ht Hu]. destruct (HP w1 Ht) as [Ho HP'].
  destruct (tx_of_plain _ _ Hc) as [Hoc Hns].
  destruct (oracle_keeps c w1 Hoc (proj2 (proj2 Hi))) as [_ Hkn].
  exists (Some t). split; [|by apply Hk; auto].
  apply promise_call; [done..| | |].
  - eapply orders_known_same; [apply Hi|done..].
  - by rewrite Ho.
  - intros t' Hne _. eapply tx_other; [done|]. by intros ->.
Qed.

(** The row after the items [its] were inserted. *)
Definition with_items (o : order_row) (its : list OrderItem) : order_row :=
  mkOrderRow (or_user o) (or_status o) (or_total o) (or_created o)
    (or_items o ++ map (λ it, stored_item column (OrderItem_ProductId it) (OrderItem_ProductName it)
       (OrderItem_Quantity it) (OrderItem_UnitPrice it)) its).

Definition inserted (t : txn) (id : string) (o : order_row) (u : string)
    (r : outcome (option (goret Order))) (τ : option txn) (w : W) : Prop :=
  τ = Some t ∧ (r = Returned None → pending t {[order_key id := o]} u w) ∧
  ∀ early, r = Returned (Some early) → early.1 = None.

Lemma cwp_insert_items qCtx t id o u its i w :
  pending t {[order_key id := o]} u w →
  cwp H (for_range i (map Some its) (OrderRepository.insert_item qCtx t id))
    (inserted t id (with_items o its) u) (Some t) w.
Proof.
  revert o i w. induction its as [|it its IH]; intros o i w Hp; cbn [map for_range].
  { split_and!; [done| |done]. intros _. unfold with_items. cbn. rewrite app_nil_r. by destruct o. }
  apply cwp_bind. unfold OrderRepository.insert_item at 1.
  apply cwp_harmless_call; [apply _|by apply plain_harmless, plain_quiet|]. intros iid w1 Hr1.
  cbn [deref]. cwp_pure. cwp_pure.
  eapply (cwp_tx_call (TxExec t qCtx _ _) t {[order_key id := o]} u (λ r w2, r = None →
    tx_new w2 t = Some {[order_key id := with_items o [it]]})); [done| |by eapply pending_rely|].
  - intros w2 Ht. pose proof (tx_insert_item t qCtx iid id (OrderItem_ProductId it)
      (OrderItem_ProductName it) (OrderItem_Quantity it) (OrderItem_UnitPrice it) w2 _ Ht) as Hl.
    unfold OrderRepository.sql_insert_item. destruct (H _ w2) as [r w3]. destruct Hl as [Ho Hl].
    split; [done|]. cbn. intros ->. rewrite (Hl o) by apply lookup_singleton_eq.
    by rewrite insert_singleton_eq.
  - intros e w2 He Hu. destruct e as [e|]; [split_and!; [done..|]; by intros ? [= <-]|]. specialize (He eq_refl).
    cwp_pure. eapply cwp_mono; [apply (IH (with_items o [it]) (S i) w2); by split|].
    intros r τ' w3 (-> & Hins & He'). split_and!; [done| |done]. intros Hr. specialize (Hins Hr).
    unfold with_items in *. cbn in *. by rewrite <-app_assoc in Hins.
Qed.

Lemma orders_known_commit w w' d :
  orders_known w → (∀ u, known w u → known w' u) → orders w' = d ∪ orders w →
  map_Forall (λ _ row, order_row_ok order_key column row ∧ known w' (or_user row)) d →
  orders_known w'.
Proof.
  intros Hw Hk Ho Hd id row Hid. rewrite Ho in Hid.
  apply lookup_union_Some_raw in Hid as [Hid|[_ Hid]]; [by apply (Hd id)|].
  destruct (map_Forall_lookup_1 _ _ _ _ Hw Hid). auto.
Qed.

Lemma stored_order_ok user its ca :
  user ≠ "" → trimmed user → its ≠ [] → Forall item_valid (map Some its) →
  order_row_ok order_key column (stored_order order_key column user its ca).
Proof. intros. exists user, its, ca, "PENDING". split_and!; [done..|set_solver|done]. Qed.

Lemma cwp_commit qCtx t id row w (k : option go_error → go (goret Order)) Q :
  order_row_ok order_key column row →
  pending t {[order_key id := row]} (or_user row) w →
  (∀ e w', (e = None → orders w' !! order_key id = Some row) → cwp H (k e) Q (Some t) w') →
  cwp H (gocall (TxCommit t qCtx) ≫= k) Q (Some t) w.
Proof.
  intros Hok Hp Hk. apply cwp_call. intros w1 Hr Hv Hi. exists (Some t). split.
  2: { apply Hk. intros He. destruct (pending_rely _ _ _ _ _ Hp Hr) as [Ht _].
       pose proof (tx_commit t qCtx w1 _ Ht) as Hl. destruct (H (TxCommit t qCtx) w1) as [e w2].
       cbn in He |- *. subst e. destruct Hl as [_ ->].
       by apply lookup_union_Some_l, lookup_singleton_eq. }
  destruct (pending_rely _ _ _ _ _ Hp Hr) as [Ht Hu].
  destruct (oracle_keeps (TxCommit t qCtx) w1 Logic.I (proj2 (proj2 Hi))) as [_ Hkn].
  pose proof (tx_commit t qCtx w1 _ Ht) as Hl.
  assert (orders (H (TxCommit t qCtx) w1).2 = orders w1 ∨ {[order_key id := row]} ##ₘ orders w1 ∧
    orders (H (TxCommit t qCtx) w1).2 = {[order_key id := row]} ∪ orders w1) as Hcase.
  { destruct (H (TxCommit t qCtx) w1) as [[e|] w2]; auto. }
  apply promise_call; [done..| | |].
  - destruct Hcase as [Ho|[_ Ho]]; [eapply orders_known_same|eapply orders_known_commit]; try done;
      try apply Hi. apply map_Forall_singleton. auto.
  - destruct Hcase as [->|[Hd ->]]; [done|by apply grows_union].
  - intros t' Hne _. eapply tx_other; [done|]. by intros ->.
Qed.

(** The statements between the begin and the deferred rollback. *)
(** The order is stored as the request has it, and returned as it was created. *)
Definition created (user : string) (its : list OrderItem) (o : Order) (w : W) : Prop :=
  ∃ s ca, orders w !! order_key (Order_Id o) =
      Some (set_status s (stored_order order_key column user its ca)) ∧
    o = mkOrder (Order_Id o) user (map Some its) (order_total its) OrderStatus_ORDER_STATUS_PENDING
          (Some (timestamppb_New ca)).

Lemma created_kept user its : kept (created user its).
Proof.
  intros o w w' (s & ca & Hr & Ho) Hg. destruct (Hg _ _ Hr) as (s' & _ & Hr'). by exists s', ca.
Qed.

Lemma cwp_create_tx qCtx t user its w :
  user ≠ "" → trimmed user → its ≠ [] → Forall item_valid (map Some its) →
  pending t ∅ (order_key user) w →
  cwp H (orderID ← gocall UuidNew;
         total ← OrderRepository.sum_total (map Some its) f64_zero;
         r ← gocall (TxQueryRow t qCtx OrderRepository.sql_insert_order
               [AString orderID; AString user; AFloat64 total] [KTime]);
         match r with
         | Fail err => mret (None, Some (ErrWrap "insert order" err))
         | Ok (createdAt, _) =>
             o ← for_range 0 (map Some its) (OrderRepository.insert_item qCtx t orderID);
             match o with
             | Some early => mret early
             | None =>
                 e ← gocall (TxCommit t qCtx);
                 match e with
                 | Some err => mret (None, Some (ErrWrap "commit tx" err))
                 | None => mret (Some (mkOrder orderID user (map Some its) total
                     OrderStatus_ORDER_STATUS_PENDING (Some (timestamppb_New createdAt))), None)
                 end
             end
         end) (returns_order (Some t) (created user its)) (Some t) w.
Proof.
  intros Hu Htr Hne Hval Hp. apply cwp_harmless_call; [apply _|by apply plain_harmless, plain_quiet|].
  intros id w1 Hr1. rewrite sum_total_spec. cwp_pure. cwp_pure.
  change (fold_left _ _ _) with (order_total its). apply (pending_rely _ _ _ _ _ Hp) in Hr1.
  eapply (cwp_tx_call (TxQueryRow t qCtx _ _ [KTime]) t ∅ (order_key user) (λ r w2,
    ∀ ca u, r = Ok (ca, u) → tx_new w2 t = Some {[order_key id :=
      mkOrderRow (order_key user) "PENDING" (c_numeric column (order_total its)) ca []]})); [done| |done|].
  - intros w2 Ht. pose proof (tx_insert t qCtx id user (order_total its) w2 _ Ht) as Hl.
    unfold OrderRepository.sql_insert_order. destruct (H _ w2) as [r w3]. destruct Hl as [Ho Hl].
    split; [done|]. cbn. intros ca u ->. by destruct Hl as [_ ->].
  - intros [[ca u]|e] w2 Hr Hk; [|done]. specialize (Hr ca u eq_refl). cwp_pure.
    eapply cwp_mono; [eapply (cwp_insert_items _ _ _ _ (order_key user)); by split|].
    intros [[[ord err]|]|s] τ w3 (-> & Hins & He); [|clear He|done].
    { specialize (He _ eq_refl). cbn in He. by subst. }
    specialize (Hins eq_refl).
    eapply cwp_commit; [by apply stored_order_ok|exact Hins|]. intros [e|] w4 Hc; [done|].
    split; [done|]. exists "PENDING", ca. split; [exact (Hc eq_refl)|done].
Qed.

Lemma cwp_rollback c t w :
  cwp H (gocall (TxRollback t c) ≫= λ _, mret tt)
    (λ o τ w', o = Returned tt ∧ τ = None ∧ grows (orders w) (orders w')) (Some t) w.
Proof.
  apply cwp_call. intros w1 Hr Hv Hi. exists None. split.
  2: { split_and!; [done..|]. pose proof (orders_rollback t c w1) as ->. apply Hr. }
  apply (promise_drop (Some t)).
  destruct (oracle_keeps (TxRollback t c) w1 Logic.I (proj2 (proj2 Hi))) as [_ Hk].
  pose proof (orders_rollback t c w1) as Ho.
  apply promise_call; [done..| | |].
  - eapply orders_known_same; [apply Hi|done..].
  - by rewrite Ho.
  - intros t' Hne _. eapply tx_other; [done|]. by intros ->.
Qed.

Lemma promise_begin p cx w :
  orders_inv w →
  let '(r, w') := H (PoolBegin p cx) w in
  orders w' = orders w ∧ (∀ u, known w u → known w' u) ∧
  match r with
  | Ok t => promise None w (Some t) w' ∧ tx_new w' t = Some ∅
  | Fail _ => promise None w None w'
  end.
Proof.
  intros Hi. pose proof (orders_begin p cx w) as Ho. pose proof (tx_begin p cx w) as Ht.
  destruct (oracle_keeps (PoolBegin p cx) w Logic.I (proj2 (proj2 Hi))) as [Hor Hk].
  pose proof (tx_allocated_keeps (PoolBegin p cx) w) as Hal.
  pose proof (kv_frame (PoolBegin p cx) w ltac:(done)) as Hkv.
  destruct (H (PoolBegin p cx) w) as [r w']. cbn in *. destruct Ho as [Ho _].
  split; [done|]. split; [done|].
  assert (orders_inv w') as Hi'.
  { split; [eapply orders_known_same; [apply Hi|done..]|]. split; [|done].
    eapply cache_near_shrink; [apply Hi|done|by rewrite Ho]. }
  assert (∀ σ, tx_valid σ w → tx_valid σ w') as Hval by (intros σ Hσ t ->; by apply Hal, Hσ).
  assert (∀ σ, tx_valid σ w → (∀ t', σ = Some t' → tx_new w' t' = tx_new w t') → tx_rely σ w w') as Hrel.
  { intros σ Hσ Htx. split_and!; [by rewrite Ho|done|intros t; by apply Hal|done]. }
  destruct r as [t|e].
  - destruct Ht as (Hfree & Hnew & Hemp & Hoth). split; [|done]. split; [done|].
    split; [by intros ? [= <-]|]. intros σ Hσ _.
    assert (σ ≠ Some t) as Hne by (intros ->; by apply Hfree, Hσ).
    split_and!; [apply Hrel; [done|]|by apply Hval|by intros ? [= <-]].
    intros t' ->. apply Hoth. congruence.
  - split; [done|]. split; [done|]. intros σ Hσ _. split_and!; [apply Hrel; [done|]|by apply Hval|done].
    intros t' _. by rewrite Ht.
Qed.

Lemma cwp_Create c user its w :
  user ≠ "" → trimmed user → its ≠ [] → Forall item_valid (map Some its) →
  known w (order_key user) →
  cwp H (OrderRepository.Create c user (map Some its)) (returns_order None (created user its)) None w.
Proof.
  intros Hu Htr Hne Hval Hk. unfold OrderRepository.Create.
  apply cwp_pooled; [apply returns_order_lasting, created_kept|done|]. intros p w1 Hr1. apply cwp_call. intros w2 Hr2 Hv Hi.
  assert (known w2 (order_key user)) as Hk2 by (apply Hr2, Hr1, Hk).
  pose proof (promise_begin p (OrderRepository.queryTimeout c) w2 Hi) as Hb.
  destruct (H _ w2) as [[t|e] w3]; destruct Hb as (_ & Hk3 & Hb); cbn [fst snd].
  2: { by exists None. }
  destruct Hb as [Hb Ht]. exists (Some t). split; [exact Hb|]. cwp_pure.
  eapply cwp_mono; [apply cwp_create_tx; try done; by split; auto|].
  cbn beta. intros o τ w4 [-> Ho]. eapply cwp_mono; [apply cwp_rollback|].
  intros ? ? w5 (-> & -> & Hg). split; [done|].
  destruct o as [[[ord|] [e|]]|]; try done. by eapply created_kept.
Qed.

(** *** Listing and rotating *)

Lemma plain_count p cx user :
  plain_call (PoolQueryRow p cx (OrderRepository.count_query user).1
    (OrderRepository.count_query user).2 [KInt32]).
Proof.
  apply plain_read; [done..|]. intros w. destruct (H _ w) as [r w'] eqn:E.
  by apply (count_query_call H) in E as [? _].
Qed.

Lemma plain_list p cx user limit offset :
  plain_call (PoolQuery p cx (OrderRepository.list_query user limit offset).1
    (OrderRepository.list_query user limit offset).2 [KString; KString; KString; KFloat64; KTime]).
Proof.
  apply plain_read; [done..|]. intros w. destruct (H _ w) as [r w'] eqn:E.
  by apply (list_query_call H) in E as [? _].
Qed.

Lemma plain_List c user page size : calls_only plain_call (OrderRepository.List_ c user page size).
Proof.
  unfold OrderRepository.List_. destruct (OrderRepository.list_window page size) as [limit offset].
  pose proof (plain_count) as Hc. pose proof (plain_list) as Hl.
  specialize (λ p cx, Hc p cx user). specialize (λ p cx, Hl p cx user limit offset).
  destruct (OrderRepository.count_query user) as [cq ca].
  destruct (OrderRepository.list_query user limit offset) as [lq la]. cbn in Hc, Hl.
  repeat first [lazymatch goal with
    | |- calls_only _ (OrderRepository.getPool ≫= deref) => apply plain_getPool
    | |- plain_call (PoolQueryRow _ _ _ _ _) => apply Hc
    | |- plain_call (PoolQuery _ _ _ _ _) => apply Hl
    end | plain_step].
Qed.

Lemma plain_SetPool q : calls_only plain_call (OrderRepository.SetPool q).
Proof.
  unfold OrderRepository.SetPool. repeat first [lazymatch goal with
    |- plain_call (PoolClose _) =>
      apply plain_read; [done..|intros w; pose proof (orders_close p w) as [Ho _]; by destruct (H _ w)]
    end | plain_step].
Qed.

(** ** The handlers *)

Lemma cwp_GetUser c id τ w :
  cwp H (UserClient.GetUser c id) (λ o τ' w', τ' = τ ∧
    ∀ u, o = Returned (Some u, None) → known w' (order_key id)) τ w.
Proof.
  unfold UserClient.GetUser, userv1_grpc.userServiceClient_GetUser, invoke_stub.
  cwp_pure. apply cwp_call. intros w1 _ Hv Hi. exists τ. split; [by apply plain_harmless; [apply plain_quiet|..]|].
  pose proof (oracle_get c id w1) as Hg.
  destruct (H _ w1) as [[resp|e] w2]; cbn [fst snd]; cwp_pure; cbn [deref].
  - cwp_pure. apply cwp_ret. split; [done|]. intros u [= Hu].
    apply (Hg _ _ (proj2 (proj2 Hi)) eq_refl). by rewrite Hu.
  - repeat case_match; by apply cwp_ret.
Qed.

Lemma cwp_closed_plain {A} (p : go A) w : calls_only plain_call p → cwp H p closed None w.
Proof. intros Hp. eapply cwp_mono; [by apply cwp_plain|]. by intros ??? [-> _]. Qed.

(** What a successful answer promises. *)
Definition create_answer (req : CreateOrderRequest) (o : outcome (goret CreateOrderResponse)) (w : W) : Prop :=
  match o with
  | Returned (Some resp, None) => ∃ its ord, CreateOrderRequest_Items req = map Some its ∧
      CreateOrderResponse_Order resp = Some ord ∧
      created (TrimSpace (CreateOrderRequest_UserId req)) its ord w
  | _ => True
  end.
Definition get_answer (req : GetOrderRequest) (o : outcome (goret GetOrderResponse)) (w : W) : Prop :=
  match o with
  | Returned (Some resp, None) => ∃ ord, GetOrderResponse_Order resp = Some ord ∧
      near_read (orders w) (GetOrderRequest_Id req) ord
  | _ => True
  end.
Definition cancel_answer (req : CancelOrderRequest) (o : outcome (goret CancelOrderResponse)) (w : W) : Prop :=
  match o with
  | Returned (Some resp, None) => ∃ ord, CancelOrderResponse_Order resp = Some ord ∧
      cancelled (CancelOrderRequest_Id req) ord w
  | _ => True
  end.

(** It ends without a transaction, and its answer is right. *)
Definition answers {R} (Q : outcome R → W → Prop) (o : outcome R) (τ : option txn) (w : W) : Prop :=
  τ = None ∧ Q o w.

(** An error after some logging. *)
Lemma cwp_failed {R} (Q : outcome (goret R) → W → Prop) l m fs cd st w :
  (∀ w', Q (Returned (status_fail cd st)) w') →
  cwp H (zap_log l m fs ≫= λ _, mret (status_fail cd st)) (answers Q) None w.
Proof. intros HQ. apply cwp_log. intros w' _. by apply cwp_ret. Qed.

Lemma cwp_CreateOrder c req w :
  cwp H (OrderServiceServer.CreateOrder c req) (answers (create_answer req)) None w.
Proof.
  unfold OrderServiceServer.CreateOrder. cbn [CreateOrderRequest_UserId CreateOrderRequest_Items].
  set (user := TrimSpace (CreateOrderRequest_UserId req)).
  destruct (str_eqb_spec user "") as [|Hu]; [done|].
  destruct (CreateOrderRequest_Items req) as [|item0 items0] eqn:Heq; [done|].
  set (items := item0 :: items0) in *.
  destruct (check_items_spec 0 items) as [[Hok ->]|[_ [[m ->]|[_ [s ->]]]]]; [|done..].
  destruct (all_some_or_nil items) as [[its Hits]|Hnil].
  2: { by apply (proj1 (Forall_forall _ _) Hok) in Hnil. }
  cwp_pure. apply cwp_ret. apply cwp_bind. eapply cwp_mono; [apply cwp_GetUser|]. cbn beta.
  intros [[[u|] [err|]]|s] τ w1 [-> Hk]; try done; try (by apply cwp_failed).
  specialize (Hk u eq_refl). rewrite Hits in *. apply cwp_bind. eapply cwp_mono.
  { apply cwp_Create; [done|apply TrimSpace_trimmed|by intros ->|done|done]. }
  intros [[order [err|]]|s] τ w2 [-> Ho]; [by apply cwp_failed| |done].
  destruct order as [ord|]; [|done]. cbn [deref]. cwp_pure. apply cwp_ret. apply cwp_log.
  intros w3 Hr. apply cwp_ret. split; [done|]. exists its, ord. split_and!; [done|done|].
  eapply created_kept; [done|apply Hr].
Qed.

Lemma cwp_GetOrder r c req w :
  cwp H (OrderServiceServer.GetOrder r c req) (answers (get_answer req)) None w.
Proof.
  unfold OrderServiceServer.GetOrder. case_match; [done|]. cwp_pure.
  eapply cwp_mono; [apply cwp_Get|]. intros [[order [err|]]|s] τ w1 [-> Ho]; [by apply cwp_failed| |done].
  destruct order as [ord|]; [|by apply cwp_ret]. apply cwp_ret. split; [done|]. by exists ord.
Qed.

Lemma cwp_CancelOrder r c req w :
  cwp H (OrderServiceServer.CancelOrder r c req) (answers (cancel_answer req)) None w.
Proof.
  unfold OrderServiceServer.CancelOrder. case_match; [done|]. cwp_pure.
  eapply cwp_mono; [apply cwp_Cancel|]. intros [[order [err|]]|s] τ w1 [-> Ho]; [by apply cwp_failed| |done].
  destruct order as [ord|]; [|by apply cwp_ret]. apply cwp_log. intros w2 Hr. apply cwp_ret.
  split; [done|]. exists ord. split; [done|]. eapply cancelled_kept; [done|apply Hr].
Qed.

Lemma cwp_ListOrders c req w : cwp H (OrderServiceServer.ListOrders c req) closed None w.
Proof.
  unfold OrderServiceServer.ListOrders. destruct (OrderServiceServer.request_page req) as [page size].
  apply cwp_closed_plain. calls_only_step; [apply plain_List|]. repeat plain_step.
Qed.

(** A method through its generated handler and the interceptors. *)
Definition through_rpc {ko} (Q : outcome (goret (msg ko)) → W → Prop) (o : outcome iret) (w : W) : Prop :=
  ∃ o0, o = Returned (rpc_result ko o0) ∧ Q o0 w.

Lemma cwp_rpc {S} fm ki ko (method : S → ctx → msg ki → go (goret (msg ko))) srv c req Q w :
  (∀ o w w', Q o w → grows (orders w) (orders w') → Q o w') →
  (∀ w1, cwp H (method srv c req) (answers Q) None w1) →
  cwp H (unary_stub fm ki ko method srv c (decoded ki req) (Some server_interceptor))
    (answers (through_rpc Q)) None w.
Proof.
  intros HQ Hm. unfold unary_stub. rewrite decoded_same. unfold server_interceptor, recoveryInterceptor.
  apply cwp_recover. unfold loggingInterceptor.
  apply cwp_harmless_call; [apply _|by apply plain_harmless, plain_quiet|]. intros start w1 _.
  rewrite assert_msg_same. cwp_pure. cwp_pure. apply cwp_ret. cbn [deref]. cwp_pure. apply cwp_ret.
  cwp_pure. eapply cwp_mono; [apply Hm|]. intros [[resp err]|s] τ w2 [-> Ho]; cbn beta iota.
  - apply cwp_ret. cbn beta iota delta [to_iface fst snd].
    apply cwp_harmless_call; [apply _|by apply plain_harmless, plain_quiet|]. intros now w3 Hr3.
    assert (∀ w4, tx_rely None w3 w4 → answers (through_rpc Q) (Returned (to_iface ko (resp, err))) None w4) as Hend.
    { intros w4 Hr4. split; [done|]. exists (Returned (resp, err)). split; [done|].
      eapply HQ; [exact Ho|etrans; [apply Hr3|apply Hr4]]. }
    destruct err as [e|]; cbn beta iota; apply cwp_log; intros w4 Hr4; apply cwp_ret; by apply Hend.
  - apply cwp_log. intros w3 Hr3. apply cwp_ret. split; [done|]. exists (Panicked s). split; [done|].
    eapply HQ; [exact Ho|apply Hr3].
Qed.

(** The right answers to each kind of request. *)
Definition right_answer (q : order_request) (o : outcome iret) (w : W) : Prop :=
  match q with
  | ReqCreateOrder req => through_rpc (ko := MCreateOrderResponse) (create_answer req) o w
  | ReqGetOrder req => through_rpc (ko := MGetOrderResponse) (get_answer req) o w
  | ReqListOrders _ => through_rpc (ko := MListOrdersResponse) (λ _ _, True) o w
  | ReqCancelOrder req => through_rpc (ko := MCancelOrderResponse) (cancel_answer req) o w
  end.

Lemma create_answer_kept req o w w' :
  create_answer req o w → grows (orders w) (orders w') → create_answer req o w'.
Proof.
  intros Ho Hg. destruct o as [[[resp|] [e|]]|]; try done. destruct Ho as (its & ord & ? & ? & Hc).
  exists its, ord. split_and!; [done..|]. by eapply created_kept.
Qed.

Lemma get_answer_kept req o w w' :
  get_answer req o w → grows (orders w) (orders w') → get_answer req o w'.
Proof.
  intros Ho Hg. destruct o as [[[resp|] [e|]]|]; try done. destruct Ho as (ord & ? & Hn).
  exists ord. split; [done|]. by eapply near_read_grows.
Qed.

Lemma cancel_answer_kept req o w w' :
  cancel_answer req o w → grows (orders w) (orders w') → cancel_answer req o w'.
Proof.
  intros Ho Hg. destruct o as [[[resp|] [e|]]|]; try done. destruct Ho as (ord & ? & Hn).
  exists ord. split; [done|]. by eapply cancelled_kept.
Qed.

Lemma right_answer_kept q o w w' : right_answer q o w → grows (orders w) (orders w') → right_answer q o w'.
Proof.
  intros Ho Hg. destruct q as [req|req|req|req]; destruct Ho as (o0 & -> & Ho); exists o0; (split; [done|]);
    eauto using create_answer_kept, get_answer_kept, cancel_answer_kept.
Qed.

Lemma cwp_serve_order r c q w : cwp H (serve_order r c q) (answers (right_answer q)) None w.
Proof.
  destruct q as [req|req|req|req]; apply cwp_rpc; intros.
  - by eapply create_answer_kept.
  - apply cwp_CreateOrder.
  - by eapply get_answer_kept.
  - apply cwp_GetOrder.
  - done.
  - eapply cwp_mono; [apply cwp_ListOrders|done].
  - by eapply cancel_answer_kept.
  - apply cwp_CancelOrder.
Qed.

(** The goroutines of [main]. *)
Lemma plain_goroutine n c cfg t : calls_only plain_call (OrderMain.goroutine n c cfg t).
Proof.
  apply goroutine_calls; [|intros p; apply plain_SetPool].
  intros x Hx. apply plain_quiet; by destruct x.
Qed.

(** A goroutine of order-service: some requests, one after the other, a
    rotation of the pool, or a goroutine of [main]. *)
Definition order_goroutine (p : go unit) : Prop :=
  (∃ r c qs, p = serve_orders r c qs) ∨ (∃ q, p = OrderRepository.SetPool q) ∨
  ∃ n c cfg t, p = discard (OrderMain.goroutine n c cfg t).

Lemma cwp_goroutine p w : order_goroutine p → cwp H p closed None w.
Proof.
  intros [(r & c & qs & ->)|[(q & ->)|(n & c & cfg & t & ->)]]; [|apply cwp_closed_plain, plain_SetPool|].
  2: { by apply cwp_closed_plain, calls_only_bind; [apply plain_goroutine|]. }
  revert w. induction qs as [|q qs IH]; intros w; [done|]. cbn [serve_orders]. cwp_pure.
  eapply (cwp_mono _ _ _ _ _ _ closed).
  { eapply cwp_mono; [apply cwp_serve_order|]. by intros o τ w1 [-> _]. }
  intros [x|s] τ w1 ->; [apply IH|done].
Qed.
End Concurrent.

(** One environment for all goroutines. *)
Lemma env_steps_mstep {W A} (H : env W) (ts ts' : list (go A)) w w' :
  rtc (env_step H) (ts, w) (ts', w') → rtc (mstep (λ _, H)) (ts, w) (ts', w').
Proof.
  apply (rtc_subrel (env_step H)). intros x y Hxy. inversion Hxy as [? i c k v r v' Hi Hc]; subst.
  assert (r = (H c v).1 ∧ v' = (H c v).2) as [-> ->] by by rewrite Hc.
  exact (mstep_call (λ _, H) ts0 i c k v Hi).
Qed.

(** ** order-service alone

    Nothing is asked of user-service here. *)
Section Alone.
Context {W : Type} (H : env W) `{!OrderDB H} `{!OrderKV H} `{!OrderTx H}.

Definition any_user : UserOracle H.
Proof. by refine {| oracle_ok := λ _, True; known := λ _ _, True |}. Defined.
#[local] Existing Instance any_user.

Lemma order_goroutines_ready (ts : list (go unit)) w :
  Forall order_goroutine ts → orders_inv H w →
  ready (orders_inv H) (tx_rely H) (tx_valid H) tx_compat (λ _, H) (λ _ _ _ _, True) ts w.
Proof.
  intros Hts Hw. split; [done|]. exists (λ _, None). split; [|done].
  intros i p Hp. split; [done|]. eapply cwp_mono; [apply cwp_goroutine|done].
  by eapply Forall_lookup_1 in Hts.
Qed.

(** C11: Whatever the interleaving of the calls of any number of goroutines that serve
    order-service requests (through the generated handlers and interceptors), rotate the
    pool or are started by main, with any number of transactions open at once, in every
    reachable state every committed order is complete and valid and every cache entry is
    a read of the stored order, except that it may still say PENDING of an order that is
    CANCELLED by now (never CANCELLED of one that is not). *)
Theorem concurrent_orders ts w ts' w' :
  Forall order_goroutine ts →
  orders_ok order_key column (orders w) → cache_near H w →
  rtc (env_step H) (ts, w) (ts', w') →
  orders_ok order_key column (orders w') ∧ cache_near H w'.
Proof.
  intros Hts Ho Hc Hs.
  assert (orders_inv H w') as (Ho' & Hc' & _).
  { eapply (ready_invariant (orders_inv H) (tx_rely H) (tx_valid H) tx_compat _ (λ _ _ _ _, True));
      [done| |by apply env_steps_mstep].
    apply order_goroutines_ready; [done|]. split; [|done].
    eapply map_Forall_impl; [exact Ho|]. done. }
  split; [|done]. eapply map_Forall_impl; [exact Ho'|]. by intros ?? [? _].
Qed.
End Alone.

(** A cache that agrees with the orders is near them. *)
Lemma cache_ok_near {W} (H : env W) `{!OrderDB H} `{!OrderKV H} w :
  cache_ok H w → orders_ok order_key column (orders w) → cache_near H w.
Proof.
  intros Hc Ho k d Hk. destruct (Hc _ _ Hk) as (id & o & row & -> & _ & Hd & Hrow & Hr).
  exists id, o. split_and!; [done..|]. exists row, (or_status row). rewrite set_status_same.
  split_and!; [done| |done]. split; [|done].
  destruct (map_Forall_lookup_1 _ _ _ _ Ho Hrow) as (u & its & ca & s & _ & _ & _ & _ & Hs & ->). done.
Qed.

(** *** A run

    Two creations with their transactions open at the same time, a read and a
    cancellation of the first order, and a rotation. *)
Definition order_goroutines : list (go unit) :=
  [serve_orders repo CtxRequest [ReqCreateOrder create_req];
   serve_orders repo CtxRequest [ReqCreateOrder create_req];
   serve_orders repo CtxRequest [ReqGetOrder (mkGetOrderRequest "id-2");
                                 ReqCancelOrder (mkCancelOrderRequest "id-2")];
   OrderRepository.SetPool (Some (Pool 1))].

Definition order_schedule : list nat :=
  concat (replicate 20 [0; 1]) ++ concat (replicate 60 [2; 3]).

Definition mem_interleaved : mem := Eval vm_compute in
  (schedule (mem_env texts true) order_schedule order_goroutines mem_user).2.

Lemma concurrent_orders_witness :
  orders_ok lower exact_columns (m_orders mem_interleaved) ∧
  size (m_orders mem_interleaved) = 2 ∧ m_pool mem_interleaved = Some (Pool 1) ∧
  option_map or_status (m_orders mem_interleaved !! "id-2") = Some "CANCELLED".
Proof.
  split; [|vm_compute; by repeat split].
  pose proof (schedule_steps (mem_env texts true) order_schedule order_goroutines mem_user) as Hs.
  assert (schedule (mem_env texts true) order_schedule order_goroutines mem_user =
    ([Ret tt; Ret tt; Ret tt; Ret tt], mem_interleaved)) as Hr by (vm_compute; reflexivity).
  rewrite Hr in Hs. destruct mem_user_ok as (_ & Hc & Ho).
  refine (proj1 (concurrent_orders (mem_env texts true) order_goroutines mem_user _ _ _ Ho
    (cache_ok_near _ _ Hc Ho) Hs)).
  do 3 (apply Forall_cons; split; [left; do 3 eexists; reflexivity|]).
  apply Forall_singleton. right; left. eexists. reflexivity.
Defined.
