(* ===== verification/OrderAnswers.v ===== *)
(** * Right answers under concurrency

    What order-service answers to a request is right whatever else runs: orders
    are never removed, only their status changes, and a cancelled order stays
    cancelled, so no other request can undo what an answer says. *)
From S2P Require Import Prelude.
From S2P Require Import GoStrings.
From S2P Require Import GoFloat.
From S2P Require Import Proto.
From S2P Require Import GoRuntime.
From S2P Require Import External.
From S2P Require Import RelyGuarantee.
From S2P Require Import Grpc.
From S2P Require Import GrpcStubs.
From S2P Require Import Stores.
From S2P Require Import OrderService.
From S2P Require Import OrderProofs.
From S2P Require Import OrderCacheProofs.
From S2P Require Import OrderServiceProofs.
From S2P Require Import MemWorld.
From S2P Require Import OrderTheorems.
From S2P Require Import Concurrency.
From S2P Require Import OrderConcurrency.
From S2P Require Import Vault.
From S2P Require Import Config.
From S2P Require Import Lifecycle.
From stdpp Require Import relations.
Import orderv1.

(** A goroutine for a request, one that rotates the pool, or one of [main]. *)
Inductive order_job : option order_request → go iret → Prop :=
| job_request r c q : order_job (Some q) (serve_order r c q)
| job_rotation p : order_job None (OrderRepository.SetPool p ≫= λ _, mret (None, None))
| job_main n c cfg t : order_job None (OrderMain.goroutine n c cfg t ≫= λ _, mret (None, None)).

Section Answers.
Context {W : Type} (H : env W) `{!OrderDB H} `{!OrderKV H} `{!OrderTx H}.
#[local] Existing Instance any_user.

(** What the goroutine of a request has achieved when it returns. *)
Definition job_done (js : list (option order_request)) (i : nat) (o : outcome iret)
    (_ : option txn) (w : W) : Prop :=
  match js !! i with Some (Some q) => right_answer H q o w | _ => True end.

Lemma order_jobs_ready js ts w :
  Forall2 order_job js ts → orders_inv H w →
  ready (orders_inv H) (tx_rely H) (tx_valid H) tx_compat (λ _, H) (job_done js) ts w.
Proof.
  intros Hts Hw. split; [done|]. exists (λ _, None). split; [|done].
  intros i p Hp. split; [done|]. destruct (Forall2_lookup_r _ _ _ _ _ Hts Hp) as (j & Hj & Hjob).
  unfold job_done. rewrite Hj. destruct Hjob as [r c q|q|n c cfg t].
  - eapply cwp_mono; [apply cwp_serve_order|]. by intros o τ w1 [_ Ho].
  - eapply cwp_mono; [apply cwp_plain|done]. apply calls_only_bind; [apply plain_SetPool|done].
  - eapply cwp_mono; [apply cwp_plain|done]. apply calls_only_bind; [apply plain_goroutine|done].
Qed.

(** C12: What order-service answers is right whatever else runs: in every reachable state of
    any number of concurrent requests (through the generated handlers and interceptors),
    pool rotations and goroutines of main, every request that has returned did so with a
    gRPC result, and if it succeeded, a created order is stored with the user, items and
    total of the request, a cancelled order is stored as CANCELLED with the content that
    was returned, and an order that was read agrees with the stored one, except that it
    may still say PENDING of an order that is CANCELLED by now (never CANCELLED of one
    that is not). *)
Theorem concurrent_answers js ts w ts' w' i q a :
  Forall2 order_job js ts →
  orders_ok order_key column (orders w) → cache_near H w →
  rtc (env_step H) (ts, w) (ts', w') →
  js !! i = Some (Some q) → ts' !! i = Some (Ret a) →
  right_answer H q (Returned a) w'.
Proof.
  intros Hts Ho Hc Hs Hj Ha.
  destruct (ready_answer (orders_inv H) (tx_rely H) (tx_valid H) tx_compat (λ _, H) (job_done js)
    ltac:(intros k o τ v v' Hk Hr; unfold job_done in *; repeat case_match; try done;
          eapply right_answer_kept; [exact Hk|apply Hr]) ts w ts' w' i a) as [τ Hi].
  - apply order_jobs_ready; [done|]. split; [|done].
    eapply map_Forall_impl; [exact Ho|]. done.
  - by apply env_steps_mstep.
  - done.
  - unfold job_done in Hi. by rewrite Hj in Hi.
Qed.
End Answers.

(** ** A run

    A creation, a cancellation of the order it will create, a read and a
    rotation, step by step in turn. *)
Definition order_jobs : list (option order_request) :=
  [Some (ReqCreateOrder create_req); Some (ReqCancelOrder (mkCancelOrderRequest "id-1"));
   Some (ReqGetOrder (mkGetOrderRequest "id-1")); None].
Definition order_threads : list (go iret) :=
  [serve_order repo CtxRequest (ReqCreateOrder create_req);
   serve_order repo CtxRequest (ReqCancelOrder (mkCancelOrderRequest "id-1"));
   serve_order repo CtxRequest (ReqGetOrder (mkGetOrderRequest "id-1"));
   OrderRepository.SetPool (Some (Pool 1)) ≫= λ _, mret (None, None)].
Definition after_jobs := schedule (mem_env texts true)
  (replicate 40 0 ++ concat (replicate 60 [1; 2; 3])) order_threads mem_user.

Lemma concurrent_answers_witness :
  ∃ a, after_jobs.1 !! 1 = Some (Ret a) ∧ a.2 = None ∧
    right_answer (mem_env texts true) (ReqCancelOrder (mkCancelOrderRequest "id-1")) (Returned a) after_jobs.2.
Proof.
  assert (∃ a, after_jobs.1 !! 1 = Some (Ret a) ∧ a.2 = None) as (a & Ha & He).
  { eexists. split; [vm_compute; reflexivity|reflexivity]. }
  exists a. split; [exact Ha|]. split; [exact He|]. destruct mem_user_ok as (_ & Hc & Ho).
  refine (concurrent_answers (mem_env texts true) order_jobs order_threads mem_user
    after_jobs.1 after_jobs.2 1 _ a _ Ho (cache_ok_near _ _ Hc Ho) _ eq_refl Ha).
  - repeat (apply Forall2_cons; split; [constructor|]). apply Forall2_nil_2.
  - rewrite <-surjective_pairing. apply schedule_steps.
Defined.
