(* ===== verification/SystemConcurrency.v ===== *)
(** * Both services under concurrency

    Goroutines of user-service and of order-service run side by side, each
    over its own database; order-service asks user-service over a network that
    may lose messages.  As long as no user is deleted, every stored order
    belongs to a stored user. *)
From S2P Require Import Prelude.
From S2P Require Import GoStrings.
From S2P Require Import GoFloat.
From S2P Require Import Proto.
From S2P Require Import GoRuntime.
From S2P Require Import External.
From S2P Require Import RelyGuarantee.
From S2P Require Import Grpc.
From S2P Require Import GrpcStubs.
From S2P Require Import Stores.
From S2P Require Import UserService.
From S2P Require Import UserProofs.
From S2P Require Import OrderService.
From S2P Require Import OrderProofs.
From S2P Require Import OrderCacheProofs.
From S2P Require Import OrderServiceProofs.
From S2P Require Import MemWorld.
From S2P Require Import OrderTheorems.
From S2P Require Import Concurrency.
From S2P Require Import System.
From S2P Require Import OrderConcurrency.
From S2P Require Import Vault.
From S2P Require Import Config.
From S2P Require Import Lifecycle.
From S2P Require Import LifecycleProofs.
From stdpp Require Import relations.

(** ** Calls that only add users *)

Section Growing.
Context {W : Type} (H : env W) `{!RepoCell H} `{!UserDB H}.

(** A stored user stays stored, and a pool that was there stays or is replaced
    by another. *)
Definition keeps_users (c : extcall) : Prop :=
  c ≠ StorePool None ∧ ∀ w u, is_Some (users w !! u) → is_Some (users (H c w).2 !! u).

Lemma keeps_users_quiet c : sql_call c = false → c ≠ StorePool None → keeps_users c.
Proof. intros Hc Hp. split; [done|]. intros w u Hu. by rewrite users_frame. Qed.

Lemma keeps_users_close p : keeps_users (PoolClose p).
Proof. split; [done|]. intros w u Hu. by rewrite users_close. Qed.

Lemma cell_stays c w : c ≠ StorePool None → is_Some (cell w) → is_Some (cell (H c w).2).
Proof.
  intros Hc Hw. assert ((∃ p, c = StorePool (Some p)) ∨ ∀ q, c ≠ StorePool q) as [[p ->]|Hn].
  - destruct c; try (by right). destruct p; [left; by eexists|done].
  - rewrite cell_store. by eexists.
  - by rewrite cell_frame.
Qed.

Lemma insert_is_Some (U : gmap string user_row) id v u :
  is_Some (U !! u) → is_Some (<[id := v]> U !! u).
Proof. intros Hu. rewrite lookup_insert_is_Some. destruct (decide (id = u)); auto. Qed.

Lemma keeps_users_insert p cx name email :
  keeps_users (PoolQueryRow p cx UserRepository.sql_insert_user
    [AString name; AString email] [KString; KTime; KTime]).
Proof.
  split; [done|]. intros w u Hu. pose proof (users_insert p cx name email w) as Hi.
  unfold UserRepository.sql_insert_user. destruct (H _ w) as [[(id & ca & ua & [])|e] w']; cbn.
  - destruct Hi as (_ & _ & _ & _ & ->). by apply insert_is_Some.
  - destruct Hi as [_ [->|(id & ca & ua & _ & _ & ->)]]; [done|]. by apply insert_is_Some.
Qed.

Lemma keeps_users_select p cx id :
  keeps_users (PoolQueryRow p cx UserRepository.sql_select_user [AString id]
    [KString; KString; KTime; KTime]).
Proof.
  split; [done|]. intros w u Hu. pose proof (users_select p cx id w) as Hs.
  unfold UserRepository.sql_select_user. destruct (H _ w) as [r w']; cbn. by destruct Hs as [-> _].
Qed.

Lemma keeps_users_update p cx id name email ns es :
  ns || es = true →
  keeps_users (PoolQueryRow p cx (sql_update_user ns es)
    ((if ns then [AString name] else []) ++ (if es then [AString email] else []) ++ [AString id])
    [KString; KString; KString; KTime; KTime]).
Proof.
  intros Hset. split; [done|]. intros w k Hk. pose proof (users_update p cx id name email ns es w Hset) as Hu.
  destruct (H _ w) as [[(id' & n' & e' & ca & ua & [])|e] w']; cbn.
  - destruct Hu as (_ & _ & u & _ & _ & ->). by apply insert_is_Some.
  - destruct Hu as (_ & _ & [->|(u & now & _ & _ & ->)]); [done|]. by apply insert_is_Some.
Qed.

Lemma keeps_users_getPool : calls_only keeps_users UserRepository.getPool.
Proof.
  split; [by apply keeps_users_quiet|]. intros ?.
  by repeat (split; [by apply keeps_users_quiet|intros ?]).
Qed.

Ltac keeps_users_step :=
  first [lazymatch goal with
         | |- calls_only _ UserRepository.getPool => apply keeps_users_getPool
         | |- keeps_users (PoolClose _) => apply keeps_users_close
         | |- keeps_users (PoolQueryRow _ _ UserRepository.sql_insert_user _ _) =>
             apply keeps_users_insert
         | |- keeps_users (PoolQueryRow _ _ UserRepository.sql_select_user _ _) =>
             apply keeps_users_select
         end
        | calls_only_step | by apply keeps_users_quiet | progress unfold zap_log, ctx_cancel
        | progress cbn beta iota zeta | done].

Lemma keeps_users_Get c id : calls_only keeps_users (UserRepository.Get c id).
Proof. unfold UserRepository.Get. repeat keeps_users_step. Qed.

Lemma keeps_users_CreateUser c req : calls_only keeps_users (UserServiceServer.CreateUser c req).
Proof. unfold UserServiceServer.CreateUser, UserRepository.Create. repeat keeps_users_step. Qed.

Lemma keeps_users_GetUser c req : calls_only keeps_users (UserServiceServer.GetUser c req).
Proof.
  unfold UserServiceServer.GetUser. calls_only_step; [done|].
  calls_only_step; [apply keeps_users_Get|repeat keeps_users_step].
Qed.

Lemma keeps_users_Update c id name email ns es :
  calls_only keeps_users (UserRepository.Update c id name email ns es).
Proof.
  unfold UserRepository.Update. pose proof (update_clauses_spec id name email ns es) as Hs.
  destruct (UserRepository.update_clauses name email ns es) as [[cl args] idx] eqn:Hc.
  destruct (ns || es) eqn:Hb.
  - destruct (Hs eq_refl) as (-> & -> & ->).
    repeat first [lazymatch goal with
      |- keeps_users (PoolQueryRow _ _ (sql_update_user _ _) _ _) => by apply keeps_users_update
      end | keeps_users_step].
  - apply orb_false_iff in Hb as [-> ->]. injection Hc as <- <- <-. apply keeps_users_Get.
Qed.

Lemma keeps_users_UpdateUser c req : calls_only keeps_users (UserServiceServer.UpdateUser c req).
Proof.
  unfold UserServiceServer.UpdateUser. calls_only_step; [done|].
  destruct (userv1.UpdateUserRequest_UpdateMask req) as [[[|path paths]]|]; [done| |done].
  destruct (UserServiceServer.mask_loop _ _ _ _ _ _) as [[[[name email] ns] es]|]; [|done].
  calls_only_step; [apply keeps_users_Update|repeat keeps_users_step].
Qed.

Lemma keeps_users_SetPool q : q ≠ None → calls_only keeps_users (UserRepository.SetPool q).
Proof.
  intros Hq. unfold UserRepository.SetPool.
  repeat first [by apply keeps_users_quiet; [|intros [= ->]]|keeps_users_step].
Qed.
End Growing.

(** ** The interfaces of order-service over both worlds *)

Section Both.
Context {Wu Wo : Type} (Hu : env Wu) (Ho : env Wo) (link : Wu * Wo → delivery).
Context `{!RepoCell Hu} `{!UserDB Hu} `{!OrderDB Ho} `{!OrderKV Ho} `{!OrderTx Ho}.

Abbreviation Sy := (system Hu Ho link).

(** The world of order-service after any of its calls. *)
Lemma system_orders_side c w :
  (Sy c w).2.2 = w.2 ∨ not_invoke c ∧ Sy c w = ((Ho c w.2).1, (w.1, (Ho c w.2).2)).
Proof.
  destruct (not_invoke_dec c) as [Hn|Hn]; [right|left].
  - split; [done|]. by apply (system_own Hu Ho link).
  - by apply (system_invoke_own Hu Ho link).
Qed.

Ltac by_side c w :=
  let Hn := fresh in
  destruct (system_orders_side c w) as [->|[Hn ->]]; [done|cbn [fst snd]].

Ltac transfer law :=
  intros; lazymatch goal with |- context [system Hu Ho link ?c ?w] =>
    pose proof law as Hlaw; rewrite (system_own Hu Ho link c w Logic.I); cbn;
    destruct (Ho c w.2) as [? ?]; exact Hlaw end.

#[export] Program Instance system_kv : OrderKV Sy :=
  {| kv := λ w, kv (H := Ho) w.2; decodes := decodes (H := Ho) |}.
Next Obligation. intros d o o'. apply decodes_fun. Qed.
Next Obligation. intros c w Hc. by_side c w. by apply kv_frame. Qed.
Next Obligation. intros cx k w. transfer (kv_get cx k w.2). Qed.
Next Obligation. intros cx k d t w. transfer (kv_set cx k d t w.2). Qed.
Next Obligation. intros cx k w. rewrite system_own by done. apply kv_del. Qed.
Next Obligation. intros o w d. rewrite system_own by done. apply pj_marshal. Qed.
Next Obligation. intros d w o o'. rewrite system_own by done. apply pj_unmarshal. Qed.

#[export] Program Instance system_tx : OrderTx Sy :=
  {| tx_new := λ w, tx_new (H := Ho) w.2; tx_allocated := λ w, tx_allocated (H := Ho) w.2 |}.
Next Obligation. intros c w Hc. by_side c w. by apply tx_frame. Qed.
Next Obligation. intros c w t Ht. by_side c w. by apply tx_allocated_keeps. Qed.
Next Obligation. intros c t t' w Ht Hne. by_side c w. by eapply tx_other. Qed.
Next Obligation. intros p cx w. transfer (tx_begin p cx w.2). Qed.
Next Obligation. intros t cx id user total w d Hd. transfer (tx_insert t cx id user total w.2 d Hd). Qed.
Next Obligation.
  intros t cx iid id pid pname q price w d Hd.
  transfer (tx_insert_item t cx iid id pid pname q price w.2 d Hd).
Qed.
Next Obligation. intros t cx w d Hd. transfer (tx_commit t cx w.2 d Hd). Qed.

(** ** What the answers of user-service tell *)

Definition users_fixed (c : extcall) : Prop :=
  (∀ p, c ≠ StorePool p) ∧ ∀ w, users (H := Hu) (Hu c w).2 = users (H := Hu) w.

Lemma users_fixed_quiet c : sql_call c = false → (∀ p, c ≠ StorePool p) → users_fixed c.
Proof. intros Hc Hp. split; [done|]. intros w. by apply users_frame. Qed.

Lemma GetUser_fixed c req : calls_only users_fixed (UserServiceServer.GetUser c req).
Proof.
  assert (∀ p cx id, users_fixed (PoolQueryRow p cx UserRepository.sql_select_user [AString id]
    [KString; KString; KTime; KTime])) as Hsel.
  { intros p cx id. split; [done|]. intros w. pose proof (users_select p cx id w) as Hs.
    unfold UserRepository.sql_select_user. destruct (Hu _ w) as [r w']; cbn. by destruct Hs as [-> _]. }
  unfold UserServiceServer.GetUser, UserRepository.Get, UserRepository.getPool.
  repeat first [lazymatch goal with |- users_fixed (PoolQueryRow _ _ _ _ _) => apply Hsel end
    | calls_only_step | by apply users_fixed_quiet | progress unfold zap_log, ctx_cancel
    | progress cbn beta iota zeta | done].
Qed.

Lemma run_fixed {A} (p : go A) w :
  calls_only users_fixed p →
  users (H := Hu) (run Hu p w).2 = users (H := Hu) w ∧ cell (H := Hu) (run Hu p w).2 = cell (H := Hu) w.
Proof.
  revert w. induction p as [a|s|c k IH]; intros w; cbn; [done..|]. intros [[Hp Hw] Hk].
  specialize (Hw w). pose proof (cell_frame c w Hp) as Hc.
  destruct (Hu c w) as [r w']. cbn in *. destruct (IH r w' (Hk r)) as [-> ->]. done.
Qed.

Lemma serve_GetUser_fixed dec :
  calls_only users_fixed (userv1_grpc.UserService_GetUser_Handler UserServiceServer.server
    CtxRequest dec (Some server_interceptor)).
Proof.
  apply calls_only_rpc; [by apply users_fixed_quiet|intros l m fs; by apply users_fixed_quiet|].
  intros req. apply GetUser_fixed.
Qed.

(** The calls order-service makes leave the users as they are. *)
Lemma system_users_invoke cx ki ko req w :
  let w' := (Sy (GrpcInvoke cx userv1_grpc.UserService_GetUser_FullMethodName ki ko req) w).2 in
  users (H := Hu) w'.1 = users (H := Hu) w.1 ∧ cell (H := Hu) w'.1 = cell (H := Hu) w.1.
Proof.
  unfold system. change (dispatch _ _) with (Some userv1_grpc.UserService_GetUser_Handler). cbn beta iota.
  pose proof (run_fixed _ w.1 (serve_GetUser_fixed (decoded ki req))) as Hf.
  destruct (run Hu _ w.1) as [o wu']. by destruct (link w).
Qed.

Lemma system_users c w :
  order_call c →
  users (H := Hu) (Sy c w).2.1 = users (H := Hu) w.1 ∧ cell (H := Hu) (Sy c w).2.1 = cell (H := Hu) w.1.
Proof.
  intros Hc. destruct (not_invoke_dec c) as [Hn|Hn]; [by rewrite system_own|].
  destruct c; try (by destruct Hn). cbn in Hc. subst. apply system_users_invoke.
Qed.

Context (Hkey : ∀ id, user_key (H := Hu) id = order_key (H := Ho) id).

(** user-service as order-service sees it: up, with a well-formed directory. *)
#[local] Program Instance system_oracle : UserOracle Sy := {|
  oracle_ok := λ w, is_Some (cell (H := Hu) w.1) ∧ directory_ok (users (H := Hu) w.1);
  known := λ w u, is_Some (users (H := Hu) w.1 !! u) |}.
Next Obligation. intros c w Hc [Hp Hd]. by destruct (system_users c w Hc) as [-> ->]. Qed.
Next Obligation.
  intros cx id w resp w' [[p Hp] _] Hc [u Hresp]. cbn.
  eapply (system_lookup Hu Ho link) in Hc as (_ & Hsame & _ & Hk); [|exact Hp].
  rewrite Hsame, <-Hkey. exact Hk.
Qed.

(** ** The goroutines of both services *)

Inductive service : Type := UserSide | OrderSide.

(** user-service makes its calls on its own world. *)
Definition user_side : env (Wu * Wo) := λ c w,
  let '(r, wu') := Hu c w.1 in (r, (wu', w.2)).

Definition env_of (s : service) : env (Wu * Wo) :=
  match s with UserSide => user_side | OrderSide => Sy end.

(** Requests that delete no user, one after the other, a rotation of the pool,
    or a goroutine of [main]. *)
Definition keeps_user (q : user_request) : Prop :=
  match q with ReqDeleteUser _ => False | _ => True end.
Definition goroutine_of (s : service) (p : go unit) : Prop :=
  match s with
  | UserSide => (∃ c qs, Forall keeps_user qs ∧ p = serve_users c qs) ∨
      (∃ q, p = UserRepository.SetPool (Some q)) ∨
      ∃ n c cfg t, p = discard (UserMain.goroutine n c cfg t)
  | OrderSide => order_goroutine p
  end.

Definition grows_users (c : extcall) : Prop := keeps_directory Hu c ∧ keeps_users Hu c.

Lemma grows_goroutine p : goroutine_of UserSide p → calls_only grows_users p.
Proof.
  intros Hp. apply calls_only_and.
  { apply keeps_goroutine. destruct Hp as [(c & qs & _ & ->)|[(q & ->)|Hp]]; [left|right; left|right; right]; eauto. }
  destruct Hp as [(c & qs & Hqs & ->)|[(q & ->)|(n & c & cfg & t & ->)]]; [|by apply keeps_users_SetPool|].
  2: { apply calls_only_bind; [|done]. apply goroutine_calls; [|intros p; by apply keeps_users_SetPool].
       intros x Hx. apply keeps_users_quiet; by destruct x. }
  induction Hqs as [|q qs Hq _ IH]; [done|]. cbn [serve_users].
  apply calls_only_bind; [|done]. destruct q; try done; apply calls_only_rpc;
    try (intros; by apply keeps_users_quiet); intros req; cbn;
    [apply keeps_users_CreateUser|apply keeps_users_GetUser|apply keeps_users_UpdateUser].
Qed.

Abbreviation harmless_here :=
  (harmless (orders_inv Sy) (tx_rely Sy) (tx_valid Sy) tx_compat user_side).

Lemma user_call_harmless c : grows_users c → harmless_here c.
Proof.
  intros [Hd [Hp Hk]] τ w Hv (Hkn & Hca & [Hcell Hdir]).
  assert (user_side c w = ((Hu c w.1).1, ((Hu c w.1).2, w.2))) as E.
  { unfold user_side. by destruct (Hu c w.1). }
  rewrite E. cbn [fst snd].
  assert (∀ σ, tx_rely Sy σ w ((Hu c w.1).2, w.2)) as Hrel.
  { intros σ. split_and!; [done|cbn; intros u; apply Hk|done|done]. }
  pose proof (cell_stays Hu c w.1 Hp Hcell) as Hcell'.
  split; [|apply Hrel]. split; [|split; [done|]].
  - split; [|split; [exact Hca|split; [exact Hcell'|by apply Hd]]].
    eapply map_Forall_impl; [exact Hkn|]. intros id row [? Hrow]. split; [done|]. by apply Hk.
  - intros σ Hσ Hcomp. split_and!; [apply Hrel|exact Hσ|done].
Qed.

(** Every order is a complete valid creation of a stored user. *)
Definition orders_linked (w : Wu * Wo) : Prop :=
  map_Forall (λ _ row, order_row_ok (order_key (H := Ho)) (column (H := Ho)) row ∧
    is_Some (users (H := Hu) w.1 !! or_user row)) (orders (H := Ho) w.2).

(** C7: Both services run together, order-service asking user-service over the network
    (which may lose requests and answers): whatever the interleaving of the calls of any
    number of goroutines of the two services, each one serving requests other than
    DeleteUser, rotating the pool or started by main, in every reachable state the users
    are well formed with unique emails, every stored order is complete, valid and of a
    stored user, and every cache entry is a read of the stored order, except that it may
    still say PENDING of an order that is CANCELLED by now (never CANCELLED of one that
    is not). *)
Theorem both_services side (ts ts' : list (go unit)) w w' :
  (∀ i p, ts !! i = Some p → goroutine_of (side i) p) →
  is_Some (cell (H := Hu) w.1) → directory_ok (users (H := Hu) w.1) →
  orders_linked w → cache_near Sy w →
  rtc (mstep (λ i, env_of (side i))) (ts, w) (ts', w') →
  directory_ok (users (H := Hu) w'.1) ∧ orders_linked w' ∧ cache_near Sy w'.
Proof.
  intros Hts Hcell Hdir Hl Hca Hs.
  assert (orders_inv Sy w') as (? & ? & _ & ?); [|done].
  eapply (ready_invariant (orders_inv Sy) (tx_rely Sy) (tx_valid Sy) tx_compat _ (λ _ _ _ _, True));
    [done| |exact Hs].
  split; [done|]. exists (λ _, None). split; [|done]. intros i p Hp. split; [done|].
  specialize (Hts i p Hp). destruct (side i).
  - eapply cwp_mono; [apply cwp_harmless; [apply _|]|done].
    eapply calls_only_mono; [apply user_call_harmless|]. by apply grows_goroutine.
  - eapply cwp_mono; [by apply cwp_goroutine|done].
Qed.
End Both.

(** ** A run

    A user is created and the pool of user-service replaced while two orders
    are placed, one of them for a user that does not exist. *)
Definition both_env : service → env (mem * mem) :=
  env_of (mem_env [] true) (mem_env [] true) (λ _, Delivered).
Definition both_side (i : nat) : service := if (i <? 2)%nat then UserSide else OrderSide.

Definition bob_joins : go unit :=
  serve_users CtxRequest [ReqCreateUser (userv1.mkCreateUserRequest "Bob" "bob@example.com")].
Definition orders_for (user : string) : go unit :=
  serve_orders repo CtxRequest
    [ReqCreateOrder (orderv1.mkCreateOrderRequest user (orderv1.CreateOrderRequest_Items order_req))].
Definition both_goroutines : list (go unit) :=
  [bob_joins; UserRepository.SetPool (Some (Pool 1)); orders_for "u-1"; orders_for "ghost"].

Definition both_schedule : list nat := concat (replicate 30 [2; 0; 3; 1]).

Definition both_after : mem * mem := Eval vm_compute in
  (mschedule (λ i, both_env (both_side i)) both_schedule both_goroutines (users_world, mem0)).2.

(** The directory of [users_world]. *)
Lemma users_world_ok : directory_ok (m_users users_world).
Proof.
  split.
  - apply map_Forall_singleton. repeat split; try (vm_compute; reflexivity); discriminate.
  - assert (∀ i u, m_users users_world !! i = Some u → i = "u-1") as Hone.
    { intros i u Hi. unfold users_world in Hi. cbn in Hi.
      apply lookup_insert_Some in Hi as [[<- _]|[_ Hi]]; [done|].
      exfalso. exact (lookup_empty_Some i u Hi). }
    intros i j u v Hi Hj _. by rewrite (Hone _ _ Hi), (Hone _ _ Hj).
Qed.

Lemma both_services_witness :
  orders_linked (mem_env [] true) (mem_env [] true) both_after ∧
  size (m_orders both_after.2) = 1 ∧ size (m_users both_after.1) = 2.
Proof.
  split; [|vm_compute; by split].
  pose proof (mschedule_steps (λ i, both_env (both_side i)) both_schedule both_goroutines
    (users_world, mem0)) as Hs.
  assert (mschedule (λ i, both_env (both_side i)) both_schedule both_goroutines (users_world, mem0) =
    ([Ret tt; Ret tt; Ret tt; Ret tt], both_after)) as Hr by (vm_compute; reflexivity).
  rewrite Hr in Hs.
  refine (proj1 (proj2 (both_services (mem_env [] true) (mem_env [] true) (λ _, Delivered)
    (λ id, eq_refl) both_side both_goroutines _ (users_world, mem0) both_after _ _ _ _ _ Hs))).
  - intros [|[|[|[|i]]]] p Hp; [left|right; left|left|left|done].
    + exists CtxRequest, [ReqCreateUser (userv1.mkCreateUserRequest "Bob" "bob@example.com")].
      split; [by constructor|]. exact (eq_sym (inj Some bob_joins p Hp)).
    + exists (Pool 1). exact (eq_sym (inj Some (UserRepository.SetPool _) p Hp)).
    + do 3 eexists. exact (eq_sym (inj Some (orders_for "u-1") p Hp)).
    + do 3 eexists. exact (eq_sym (inj Some (orders_for "ghost") p Hp)).
  - by eexists.
  - exact users_world_ok.
  - apply map_Forall_empty.
  - intros k d Hk. exfalso. exact (lookup_empty_Some k d Hk).
Defined.

(** ** Why no user may be deleted

    user-service answers that the user exists, deletes the user, and
    order-service stores the order. *)
Definition bob_leaves : go unit :=
  serve_users CtxRequest [ReqDeleteUser (userv1.mkDeleteUserRequest "u-1")].
Definition leaving_side (i : nat) : service := if (i <? 1)%nat then UserSide else OrderSide.
Definition leaving_after : list (go unit) * (mem * mem) :=
  mschedule (λ i, both_env (leaving_side i)) (replicate 4 1 ++ replicate 12 0 ++ replicate 30 1)
    [bob_leaves; orders_for "u-1"] (users_world, mem0).

(** A concurrent DeleteUser can leave an order of a user that is gone, although
    CreateOrder had asked for the user. *)
Example order_of_deleted_user :
  rtc (mstep (λ i, both_env (leaving_side i))) ([bob_leaves; orders_for "u-1"], (users_world, mem0))
    leaving_after ∧
  leaving_after.1 = [Ret tt; Ret tt] ∧
  map (λ x, or_user x.2) (map_to_list (m_orders leaving_after.2.2)) = ["u-1"] ∧
  m_users leaving_after.2.1 !! "u-1" = None.
Proof. split; [apply mschedule_steps|vm_compute; done]. Qed.
