(* ===== verification/SystemHistory.v ===== *)
(** * Orders of users that were stored

    Both services run side by side and users may be deleted too.  A ghost
    record of the user ids stored so far is added to the world of user-service;
    it changes no answer, so every run of the system is a run with the record
    ([recorded_steps]), and what is recorded was stored at some moment of that
    run.  Every order is of a recorded user. *)
From S2P Require Import Prelude.
From S2P Require Import GoStrings.
From S2P Require Import GoFloat.
From S2P Require Import Proto.
From S2P Require Import GoRuntime.
From S2P Require Import External.
From S2P Require Import RelyGuarantee.
From S2P Require Import Grpc.
From S2P Require Import GrpcStubs.
From S2P Require Import Stores.
From S2P Require Import UserService.
From S2P Require Import UserProofs.
From S2P Require Import OrderService.
From S2P Require Import OrderProofs.
From S2P Require Import OrderCacheProofs.
From S2P Require Import OrderServiceProofs.
From S2P Require Import MemWorld.
From S2P Require Import OrderTheorems.
From S2P Require Import Concurrency.
From S2P Require Import System.
From S2P Require Import UserLinearizability.
From S2P Require Import OrderConcurrency.
From S2P Require Import SystemConcurrency.
From S2P Require Import Vault.
From S2P Require Import Config.
From S2P Require Import Lifecycle.
From S2P Require Import LifecycleProofs.
From stdpp Require Import relations gmap.

(** ** A world with a record *)

Section Record.
Context {W : Type} (H : env W).

(** The record is carried along, or extended by the users stored now. *)
Definition carried : env (W * gset string) := λ c w,
  let '(r, w') := H c w.1 in (r, (w', w.2)).

Lemma carried_eq c w : carried c w = ((H c w.1).1, ((H c w.1).2, w.2)).
Proof. unfold carried. by destruct (H c w.1). Qed.

Lemma run_carried {A} (p : go A) w :
  run carried p w = ((run H p w.1).1, ((run H p w.1).2, w.2)).
Proof.
  destruct w as [w g]. cbn [fst snd]. revert w. induction p as [a|s|c k IH]; intros w; cbn; [done..|].
  rewrite carried_eq. cbn [fst snd]. destruct (H c w) as [r w']. apply IH.
Qed.

#[export] Program Instance carried_cell `{!RepoCell H} : RepoCell carried :=
  {| cell := λ w, cell (H := H) w.1 |}.
Next Obligation. intros ? w. rewrite carried_eq. apply cell_load. Qed.
Next Obligation. intros ? p w. rewrite carried_eq. apply cell_store. Qed.
Next Obligation. intros ? c w Hc. rewrite carried_eq. by apply cell_frame. Qed.

Ltac transfer law := intros; pose proof law as Hlaw; rewrite carried_eq; by destruct (H _ _).

#[export] Program Instance carried_users `{!UserDB H} : UserDB carried :=
  {| users := λ w, users (H := H) w.1; user_key := user_key (H := H) |}.
Next Obligation. intros ? c w Hc. rewrite carried_eq. by apply users_frame. Qed.
Next Obligation. intros ? p w. rewrite carried_eq. apply users_close. Qed.
Next Obligation. intros ? p cx name email w. transfer (users_insert p cx name email w.1). Qed.
Next Obligation. intros ? p cx id w. transfer (users_select p cx id w.1). Qed.
Next Obligation.
  intros ? p cx id name email ns es w Hset. transfer (users_update p cx id name email ns es w.1 Hset).
Qed.
Next Obligation. intros ? p cx id w. transfer (users_delete p cx id w.1). Qed.

Definition recorded `{!UserDB H} : env (W * gset string) := λ c w,
  let '(r, w') := H c w.1 in (r, (w', w.2 ∪ dom (users (H := H) w'))).
End Record.

Section History.
Context {Wu Wo : Type} (Hu : env Wu) (Ho : env Wo) (link : Wu * Wo → delivery).
Context `{!RepoCell Hu} `{!UserDB Hu} `{!OrderDB Ho} `{!OrderKV Ho} `{!OrderTx Ho}.

Abbreviation Cu := (carried Hu).
Definition plain (w : (Wu * gset string) * Wo) : Wu * Wo := (w.1.1, w.2).
Definition with_record (g : gset string) (w : Wu * Wo) : (Wu * gset string) * Wo := ((w.1, g), w.2).

(** The two services, the record carried along by the calls of order-service
    and extended by those of user-service. *)
Abbreviation Sy := (system Cu Ho (λ w, link (plain w))).
Definition history_env (s : service) : env ((Wu * gset string) * Wo) :=
  match s with UserSide => user_side (recorded Hu) | OrderSide => Sy end.

(** ** The record changes nothing *)

Lemma system_carried c g w :
  Sy c (with_record g w) =
  ((system Hu Ho link c w).1, with_record g (system Hu Ho link c w).2).
Proof.
  destruct (not_invoke_dec c) as [Hn|Hn]; [by rewrite !system_own|].
  destruct c; try (by destruct Hn). unfold system, with_record.
  destruct (dispatch _ _) as [h|]; [|done]. rewrite run_carried. cbn [fst snd].
  destruct (run Hu _ w.1) as [o wu']. cbn [fst snd]. unfold plain. cbn [fst snd].
  rewrite <-surjective_pairing. by destruct (link w).
Qed.

(** A call of either service answers the same, and the record grows by users
    that are stored after it. *)
Lemma history_call s c g w :
  ∃ g', history_env s c (with_record g w) =
      ((env_of Hu Ho link s c w).1, with_record g' (env_of Hu Ho link s c w).2) ∧
    ∀ u, u ∈ g' → u ∈ g ∨ is_Some (users (H := Hu) (env_of Hu Ho link s c w).2.1 !! u).
Proof.
  destruct s; cbn [history_env env_of].
  - unfold user_side, recorded. cbn [with_record fst snd]. destruct (Hu c w.1) as [r wu']. cbn [fst snd].
    eexists. split; [done|]. intros u. by rewrite elem_of_union, elem_of_dom.
  - rewrite system_carried. eexists. split; [done|]. auto.
Qed.

Section Run.
Context (side : nat → service).

Definition plain_step : list (go unit) * (Wu * Wo) → list (go unit) * (Wu * Wo) → Prop :=
  mstep (λ i, env_of Hu Ho link (side i)).

(** At some moment of a run from [s] to [s'] the user was stored. *)
Definition stored_during (s s' : list (go unit) * (Wu * Wo)) (u : string) : Prop :=
  ∃ s1, rtc plain_step s s1 ∧ rtc plain_step s1 s' ∧ is_Some (users (H := Hu) s1.2.1 !! u).

Lemma stored_during_extend s s1 s' u : stored_during s s1 u → plain_step s1 s' → stored_during s s' u.
Proof. intros (s0 & H1 & H2 & Hs) Hstep. exists s0. split_and!; [done|by eapply rtc_r|done]. Qed.

(** Every run is a run with the record, started with the users stored then. *)
Lemma recorded_steps s s' :
  rtc plain_step s s' →
  ∃ g, rtc (mstep (λ i, history_env (side i)))
      (s.1, with_record (dom (users (H := Hu) s.2.1)) s.2) (s'.1, with_record g s'.2) ∧
    ∀ u, u ∈ g → stored_during s s' u.
Proof.
  revert s'. apply rtc_ind_r.
  - eexists. split; [done|]. intros u Hin%elem_of_dom. exists s. by split_and!.
  - intros s1 s2 Hs1 Hstep (g & Hg & Hin). pose proof Hstep as Hstep'.
    inversion Hstep as [ts i c k w Hi]; subst. cbn [fst snd] in *.
    destruct (history_call (side i) c g w) as (g' & He & Hg'). exists g'. split.
    + eapply rtc_r; [exact Hg|].
      pose proof (mstep_call (λ i, history_env (side i)) ts i c k (with_record g w) Hi) as Hm.
      cbv beta in Hm. by rewrite He in Hm.
    + intros u [Hu'|Hu']%Hg'; [by eapply stored_during_extend, Hstep'; apply Hin|].
      eexists. split_and!; [eapply rtc_r; [exact Hs1|exact Hstep']|done|done].
Qed.
End Run.

(** ** Orders are of recorded users *)

Context (Hkey : ∀ id, user_key (H := Hu) id = order_key (H := Ho) id).

(** The calls of order-service leave the record as it is. *)
Lemma record_kept c w : (Sy c w).2.1.2 = w.1.2.
Proof. destruct w as [[wu g] wo]. change ((wu, g), wo) with (with_record g (wu, wo)). by rewrite system_carried. Qed.

(** user-service is up, its directory well formed, and its users recorded. *)
Definition recorded_ok (w : (Wu * gset string) * Wo) : Prop :=
  is_Some (cell (H := Hu) w.1.1) ∧ directory_ok (users (H := Hu) w.1.1) ∧
  dom (users (H := Hu) w.1.1) ⊆ w.1.2.

#[local] Program Instance record_oracle : UserOracle Sy :=
  {| oracle_ok := recorded_ok; known := λ w u, u ∈ w.1.2 |}.
Next Obligation.
  intros c w Hc (Hp & Hd & Hr). unfold recorded_ok. rewrite record_kept.
  destruct (system_users Cu Ho (λ w, link (plain w)) c w Hc) as [Hus Hcl].
  cbn in Hus, Hcl. by rewrite Hus, Hcl.
Qed.
Next Obligation.
  intros cx id w resp w' ([p Hp] & _ & Hr) Hc [u Hresp]. cbn.
  pose proof (record_kept (GrpcInvoke cx userv1_grpc.UserService_GetUser_FullMethodName
    MGetUserRequest MGetUserResponse (userv1.mkGetUserRequest id)) w) as Hk. rewrite Hc in Hk.
  eapply (system_lookup Cu Ho (λ w, link (plain w))) in Hc as (_ & _ & _ & Hst); [|exact Hp].
  cbn in Hk, Hst. rewrite Hk, <-Hkey. by apply Hr, elem_of_dom.
Qed.

Lemma carried_reads : complete_reads Sy ↔ complete_reads (system Hu Ho link).
Proof.
  split; intros Hc p cx sql args ks w rs w' Hw.
  - eapply (Hc p cx sql args ks (with_record ∅ w)). rewrite system_carried, Hw. done.
  - destruct w as [[wu g] wo]. change ((wu, g), wo) with (with_record g (wu, wo)) in Hw.
    rewrite system_carried in Hw. apply (f_equal fst) in Hw. cbn [fst] in Hw.
    eapply (Hc p cx sql args ks (wu, wo)). by rewrite (surjective_pairing (system Hu Ho link _ _)), Hw.
Qed.

Lemma carried_cache g w : cache_near Sy (with_record g w) ↔ cache_near (system Hu Ho link) w.
Proof. unfold cache_near, near_read, order_read. by setoid_rewrite carried_reads. Qed.

(** Requests of user-service, deletions included, a rotation of the pool, or a
    goroutine of [main]. *)
Definition any_goroutine (s : service) (p : go unit) : Prop :=
  match s with
  | UserSide => (∃ c qs, p = serve_users c qs) ∨ (∃ q, p = UserRepository.SetPool (Some q)) ∨
      ∃ n c cfg t, p = discard (UserMain.goroutine n c cfg t)
  | OrderSide => order_goroutine p
  end.

Definition keeps_service (c : extcall) : Prop := keeps_directory Hu c ∧ c ≠ StorePool None.

Lemma keeps_service_goroutine p : any_goroutine UserSide p → calls_only keeps_service p.
Proof.
  intros Hp. apply calls_only_and.
  { apply keeps_goroutine. destruct Hp as [(c & qs & ->)|[(q & ->)|Hp]]; [left|right; left|right; right]; eauto. }
  assert (∀ q, calls_only (λ c, c ≠ StorePool None) (UserRepository.SetPool (Some q))) as Hset.
  { intros q. unfold UserRepository.SetPool. repeat (done || calls_only_step). }
  destruct Hp as [(c & qs & ->)|[(q & ->)|(n & c & cfg & t & ->)]]; [|apply Hset|].
  - induction qs as [|q qs IH]; [done|]. cbn [serve_users]. apply calls_only_bind; [|done].
    eapply calls_only_mono; [|apply handler_serve_user]. by intros ? ?%handler_allowed ->.
  - apply calls_only_bind; [|done]. apply goroutine_calls; [|done]. intros x Hx ->. done.
Qed.

Abbreviation harmless_here :=
  (harmless (orders_inv Sy) (tx_rely Sy) (tx_valid Sy) tx_compat (user_side (recorded Hu))).

Lemma recorded_call_harmless c : keeps_service c → harmless_here c.
Proof.
  intros [Hd Hp] τ w Hv (Hkn & Hca & (Hcell & Hdir & Hrec)).
  assert (user_side (recorded Hu) c w = ((Hu c w.1.1).1,
    (((Hu c w.1.1).2, w.1.2 ∪ dom (users (H := Hu) (Hu c w.1.1).2)), w.2))) as E.
  { unfold user_side, recorded. by destruct (Hu c w.1.1). }
  rewrite E. cbn [fst snd].
  assert (∀ σ, tx_rely Sy σ w (((Hu c w.1.1).2, w.1.2 ∪ dom (users (H := Hu) (Hu c w.1.1).2)), w.2))
    as Hrel.
  { intros σ. split_and!; [done|cbn; set_solver|done|done]. }
  pose proof (cell_stays Hu c w.1.1 Hp Hcell) as Hcell'.
  split; [|apply Hrel]. split; [|split; [done|]].
  - split; [|split; [exact Hca|split_and!; [exact Hcell'|by apply Hd|cbn; set_solver]]].
    eapply map_Forall_impl; [exact Hkn|]. intros id row [? Hrow]. split; [done|].
    cbn in Hrow |- *. set_solver.
  - intros σ Hσ Hcomp. split_and!; [apply Hrel|exact Hσ|done].
Qed.

(** C8: With DeleteUser allowed too, whatever the interleaving of the calls of any number of
    goroutines of both services (serving requests, rotating the pool or started by
    main), over a network that may lose messages: in every reachable state the users are
    well formed, every stored order is complete, valid and of a user that was stored at
    some moment of the run, and every cache entry is a read of the stored order, except
    that it may still say PENDING of an order that is CANCELLED by now (never CANCELLED
    of one that is not). *)
Theorem orders_of_past_users side (ts ts' : list (go unit)) w w' :
  (∀ i p, ts !! i = Some p → any_goroutine (side i) p) →
  is_Some (cell (H := Hu) w.1) → directory_ok (users (H := Hu) w.1) →
  orders_linked Hu Ho w → cache_near (system Hu Ho link) w →
  rtc (plain_step side) (ts, w) (ts', w') →
  directory_ok (users (H := Hu) w'.1) ∧
  map_Forall (λ _ row, order_row_ok (order_key (H := Ho)) (column (H := Ho)) row ∧
    stored_during side (ts, w) (ts', w') (or_user row)) (orders (H := Ho) w'.2) ∧
  cache_near (system Hu Ho link) w'.
Proof.
  intros Hts Hcell Hdir Hl Hca (g & Hg & Hin)%recorded_steps. cbn [fst snd] in Hg.
  assert (orders_inv Sy (with_record g w')) as (Hkn & Hcn & _ & Hd & _).
  { eapply (ready_invariant (orders_inv Sy) (tx_rely Sy) (tx_valid Sy) tx_compat _
      (λ _ _ _ _, True)); [done| |exact Hg].
    split.
    - split; [|split; [by apply carried_cache|by split_and!]]. eapply map_Forall_impl; [exact Hl|].
      intros id row [? Hu']. split; [done|]. by apply elem_of_dom.
    - exists (λ _, None). split; [|done]. intros i p Hp. split; [done|].
      specialize (Hts i p Hp). unfold history_env. destruct (side i).
      + eapply cwp_mono; [apply cwp_harmless; [apply _|]|done].
        eapply calls_only_mono; [apply recorded_call_harmless|]. by apply keeps_service_goroutine.
      + eapply cwp_mono; [by apply cwp_goroutine|done]. }
  split_and!; [exact Hd| |by apply carried_cache in Hcn]. eapply map_Forall_impl; [exact Hkn|].
  intros id row [Hok Hrow]. split; [exact Hok|]. by apply Hin.
Qed.
End History.

(** ** A run

    The user of [leaving_after] is asked for, deleted, and then has an order. *)
Lemma orders_of_past_users_witness :
  m_users leaving_after.2.1 !! "u-1" = None ∧ size (m_orders leaving_after.2.2) = 1 ∧
  map_Forall (λ _ row, stored_during (mem_env [] true) (mem_env [] true) (λ _, Delivered) leaving_side
      ([bob_leaves; orders_for "u-1"], (users_world, mem0)) leaving_after (or_user row))
    (m_orders leaving_after.2.2).
Proof.
  split; [vm_compute; reflexivity|]. split; [vm_compute; reflexivity|].
  pose proof (mschedule_steps (λ i, both_env (leaving_side i))
    (replicate 4 1 ++ replicate 12 0 ++ replicate 30 1) [bob_leaves; orders_for "u-1"]
    (users_world, mem0)) as Hs. fold leaving_after in Hs.
  destruct leaving_after as [ts' w'].
  refine (map_Forall_impl _ _ _ (proj1 (proj2 (orders_of_past_users (mem_env [] true) (mem_env [] true)
    (λ _, Delivered) (λ id, eq_refl) leaving_side [bob_leaves; orders_for "u-1"] ts'
    (users_world, mem0) w' _ _ users_world_ok _ _ Hs))) (λ id row Hrow, proj2 Hrow)).
  - intros [|[|i]] p Hp; [left|left|done].
    + exists CtxRequest, [ReqDeleteUser (userv1.mkDeleteUserRequest "u-1")].
      exact (eq_sym (inj Some bob_leaves p Hp)).
    + do 3 eexists. exact (eq_sym (inj Some (orders_for "u-1") p Hp)).
  - by eexists.
  - apply map_Forall_empty.
  - intros k d Hk. exfalso. exact (lookup_empty_Some k d Hk).
Defined.
