(* ===== verification/Drain.v ===== *)
(** * Shutdown lets the requests in progress finish

    The process of a service: its [main], the goroutines [main] starts, and the
    requests that arrive while a goroutine is in [Serve].  [GracefulStop] waits
    for the requests in progress, so nothing they use is closed before they
    have ended; nobody is left waiting; and from the moment it is called every
    run of the process ends. *)
From S2P Require Import Prelude.
From S2P Require Import GoStrings.
From S2P Require Import Proto.
From S2P Require Import GoRuntime.
From S2P Require Import External.
From S2P Require Import Typestate.
From S2P Require Import Grpc.
From S2P Require Import GrpcStubs.
From S2P Require Import UserService.
From S2P Require Import UserProofs.
From S2P Require Import OrderService.
From S2P Require Import OrderServiceProofs.
From S2P Require Import OrderTheorems.
From S2P Require Import Transport.
From S2P Require Import Vault.
From S2P Require Import Config.
From S2P Require Import Migrations.
From S2P Require Import Lifecycle.
From S2P Require Import LifecycleProofs.
From S2P Require Import Resources.
From S2P Require Import Deadlock.
From stdpp Require Import relations.
From Stdlib Require Import Relation_Operators Wellfounded.
Import Common.

(** ** What grpc-go promises about [GracefulStop]

    "It stops the server from accepting new connections and RPCs and blocks
    until all the pending RPCs are finished." *)
Class GracefulServer := {
  (** a new RPC may start, whether the stop was called, with [n] in progress *)
  admits (stopping : bool) (n : nat) : Prop;
  (** the stop may return, with [n] in progress *)
  stop_returns (n : nat) : Prop;
  admits_none : ∀ n, ¬ admits true n;
  stop_waits : ∀ n, stop_returns n → n = 0;
  stop_ends : stop_returns 0
}.

(** ** The process of a service *)

(** The program of [main], what its goroutines may run, and the requests. *)
Record service := mkService {
  sv_main : go exit_status;
  sv_spawns : thread → go bool → Prop;
  sv_request : go bool → Prop
}.

Definition user_service : service := {|
  sv_main := UserMain.main;
  sv_spawns t p := ∃ n c cfg, p = UserMain.goroutine n c cfg t;
  sv_request p := ∃ c q, p = (serve_user c q ≫= λ _, mret false)
|}.
Definition order_service : service := {|
  sv_main := OrderMain.main;
  sv_spawns t p := ∃ n c cfg, p = OrderMain.goroutine n c cfg t;
  sv_request p := ∃ r c q, p = (serve_order r c q ≫= λ _, mret false)
|}.

Abbreviation goroutine_state := (gthread (A := bool)).

Record process := mkProcess {
  p_main : go exit_status;
  p_threads : list goroutine_state;
  p_requests : list nat;  (* the goroutines that serve a request *)
  p_stopping : bool;      (* GracefulStop was called *)
  p_exited : bool         (* a logger's Fatal has ended the process *)
}.

Definition ended_at (ts : list goroutine_state) (i : nat) : Prop :=
  match ts !! i with Some t => ended t | None => True end.
#[export] Instance ended_at_dec ts i : Decision (ended_at ts i).
Proof. unfold ended_at, ended, next_call. repeat case_match; first [by left|by right]. Defined.

(** The number of requests that have not ended. *)
Definition pending (ts : list goroutine_state) (reqs : list nat) : nat :=
  length (filter (λ i, ¬ ended_at ts i) reqs).
Definition in_progress (σ : process) : nat := pending (p_threads σ) (p_requests σ).

Definition exits (c : extcall) : bool :=
  match c with ZapLog Fatal_ _ _ => true | _ => false end.
Definition serving (t : goroutine_state) : Prop := next_call t = Some GrpcServe.
Definition main_call (p : go exit_status) : option extcall :=
  match p with Call c _ => Some c | _ => None end.

(** The process has ended. *)
Definition over (σ : process) : Prop := p_exited σ = true ∨ main_call (p_main σ) = None.

Section Process.
Context `{!GracefulServer} (sv : service).

(** The goroutine a call of [main] starts. *)
Definition starts (c : extcall) (ts : list goroutine_state) : Prop :=
  match c with
  | GoSpawn t => ∃ p, sv_spawns sv t p ∧ ts = [fresh_thread p]
  | _ => ts = []
  end.

(** One call of [main] or of a goroutine, whatever it answers, or an RPC that
    arrives.  [GracefulStop] is two steps: it is called, and it returns. *)
Inductive pstep : process → process → Prop :=
| p_main_step c k r new ts reqs :
    c ≠ GrpcGracefulStop → starts c new →
    ∀ stopping, pstep (mkProcess (Call c k) ts reqs stopping false)
      (mkProcess (k r) (ts ++ new) reqs stopping (exits c))
| p_stop_called k ts reqs :
    pstep (mkProcess (Call GrpcGracefulStop k) ts reqs false false)
      (mkProcess (Call GrpcGracefulStop k) ts reqs true false)
| p_stop_returned k ts reqs :
    stop_returns (pending ts reqs) →
    pstep (mkProcess (Call GrpcGracefulStop k) ts reqs true false)
      (mkProcess (k tt) ts reqs true false)
| p_thread_step m ts reqs stopping i c k s r :
    main_call m ≠ None → ts !! i = Some (mkThread (Call c k) s) → lock_grants ts c →
    pstep (mkProcess m ts reqs stopping false)
      (mkProcess m (<[i := mkThread (k r) (held_after s c r)]> ts) reqs stopping (exits c))
| p_arrival m ts reqs stopping p :
    main_call m ≠ None → Exists serving ts → admits stopping (pending ts reqs) → sv_request sv p →
    pstep (mkProcess m ts reqs stopping false)
      (mkProcess m (ts ++ [fresh_thread p]) (reqs ++ [length ts]) stopping false).

Definition boot : process := mkProcess (sv_main sv) [] [] false false.

(** ** What [main] may call, and when *)

(** Calls that give up something requests use, or report that all is done. *)
Definition closes (c : extcall) : bool :=
  match c with
  | PoolClose _ | RedisClose | ConnClose _ | HttpShutdown _ | TracerShutdown _ | MeterShutdown _
  | ZapSync => true
  | _ => false
  end.
Definition spawns (c : extcall) : bool := match c with GoSpawn _ => true | _ => false end.

Definition is_stop (c : extcall) : bool := match c with GrpcGracefulStop => true | _ => false end.

(** Nothing is closed before [GracefulStop] has returned, and nothing started
    after. *)
Definition stop_protocol (stopped : bool) (c : extcall) (_ : extres c) : option bool :=
  if is_stop c then (if stopped then None else Some true)
  else if (if stopped then spawns c else closes c) then None else Some stopped.
End Process.

(** [main] keeps to the protocol, and has stopped the server if it returns. *)
Definition stops (stopped : bool) (p : go exit_status) : Prop :=
  obeys stop_protocol stopped p (λ o s, o = Returned MainReturned → s = true).

(** Calls that are allowed before, and after. *)
Definition before (c : extcall) : Prop := is_stop c || closes c = false.
Definition after (c : extcall) : Prop := is_stop c || spawns c = false.

Lemma before_neutral c : before c → ∀ r, stop_protocol false c r = Some false.
Proof. unfold before, stop_protocol. by destruct (is_stop c), (closes c). Qed.

Lemma after_neutral c : after c → ∀ r, stop_protocol true c r = Some true.
Proof. unfold after, stop_protocol. by destruct (is_stop c), (spawns c). Qed.

Lemma stops_setup {A} (p : go A) (f : A → go exit_status) :
  calls_only before p → (∀ a, stops false (f a)) → stops false (p ≫= f).
Proof.
  intros Hp Hf. apply obeys_bind. eapply obeys_mono.
  - apply obeys_neutral. eapply calls_only_mono; [apply before_neutral|exact Hp].
  - intros [a|m] ? ->; [apply Hf|done].
Qed.

Lemma stops_after (p : go exit_status) : calls_only after p → stops true p.
Proof.
  intros Hp. eapply obeys_mono.
  - apply obeys_neutral. eapply calls_only_mono; [apply after_neutral|exact Hp].
  - by intros ? ? ->.
Qed.

Lemma stops_fatal m e : stops false (fatal m e).
Proof. apply stops_setup; [done|]. by intros []. Qed.

Lemma stops_or_fatal {A} m (r : option A * option go_error) k :
  (∀ a, stops false (k a)) → stops false (or_fatal m r k).
Proof. intros Hk. destruct r as [a [e|]]; [apply stops_fatal|apply Hk]. Qed.

(** [Graceful], when the first callback stops the server. *)
Lemma stops_graceful c timeout cb cbs k :
  (∀ c, shutdown.Func cb c = (gocall GrpcGracefulStop ≫= λ _, mret None)) →
  calls_only after (shutdown.run_callbacks timeout cbs ≫= λ _, k) →
  stops false (shutdown.Graceful c timeout (cb :: cbs) ≫= λ _, k).
Proof.
  intros Hcb Hk sig. cbn.
  assert (stops false (shutdown.run_callbacks timeout (cb :: cbs) ≫= λ _, k)) as Hrest.
  { cbn [shutdown.run_callbacks]. rewrite Hcb. intros []. intros []. intros []. by apply stops_after. }
  destruct sig; [|exact Hrest]. intros []. exact Hrest.
Qed.

(** ** The two mains *)

Lemma callbacks_after timeout cbs (k : go exit_status) :
  Forall (λ cb, ∀ c, calls_only after (shutdown.Func cb c)) cbs → calls_only after k →
  calls_only after (shutdown.run_callbacks timeout cbs ≫= λ _, k).
Proof.
  intros Hc Hk. apply calls_only_bind; [|done].
  induction Hc as [|cb cbs Hcb _ IH]; cbn [shutdown.run_callbacks]; [done|]. unfold ctx_cancel.
  repeat first [apply Hcb|apply IH|calls_only_step|done].
Qed.

Ltac callback_calls :=
  repeat (apply Forall_cons; split; [intros ?|]); try apply Forall_nil_2; cbn [shutdown.Func];
  unfold otel.Shutdown, UserClientConn.Close; repeat calls_only_step; done.

Lemma user_serve_stops c cfg p : stops false (UserMain.serve c cfg p).
Proof.
  unfold UserMain.serve. do 2 (apply stops_setup; [done|intros ?]).
  apply stops_setup; [done|]. intros [e|]; [apply stops_fatal|].
  apply stops_setup; [done|]. intros _. apply stops_graceful; [done|].
  apply callbacks_after; [callback_calls|done].
Qed.

Lemma order_serve_stops c cfg p conn : stops false (OrderMain.serve c cfg p conn).
Proof.
  unfold OrderMain.serve. do 2 (apply stops_setup; [done|intros ?]).
  apply stops_setup; [done|]. intros [e|]; [apply stops_fatal|].
  apply stops_setup; [done|]. intros _. apply stops_graceful; [done|].
  apply callbacks_after; [callback_calls|].
  unfold UserClientConn.Close. repeat calls_only_step; done.
Qed.

(** One step of start-up. *)
Ltac stops_step :=
  lazymatch goal with
  | |- stops false (UserMain.serve _ _ _) => apply user_serve_stops
  | |- stops false (OrderMain.serve _ _ _ _) => apply order_serve_stops
  | |- stops false (fatal _ _) => apply stops_fatal
  | |- stops false (or_fatal _ _ _) => apply stops_or_fatal; intros ?
  | |- stops false (match ?x with _ => _ end) => destruct x
  | |- stops false (_ ≫= _) => apply stops_setup; [unfold tls.LoadServerConfig; setup_calls|intros ?]
  | |- stops false _ => progress cbv beta zeta
  end.

Lemma vault_setup_stops c use addr token role url build k :
  (∀ vc u, stops false (k vc u)) → stops false (vault_setup c use addr token role url build k).
Proof. intros Hk. unfold vault_setup. repeat first [apply Hk|stops_step]. Qed.

Lemma user_main_stops : stops false UserMain.main.
Proof.
  unfold UserMain.main, UserMain.start.
  repeat first [apply vault_setup_stops; intros ? ?|stops_step|done].
Qed.

Lemma order_main_stops : stops false OrderMain.main.
Proof.
  unfold OrderMain.main, OrderMain.start.
  repeat first [apply vault_setup_stops; intros ? ?|stops_step|done].
Qed.

(** ** The goroutines *)

Lemma tidy_spawned refreshFn n c t :
  (∀ creds, tidy idle (refreshFn creds)) → tidy idle (goroutine refreshFn n c t).
Proof.
  intros Hr. destruct t as [role|p srv d|port|]; [by apply tidy_goroutine..| |];
    cbn [goroutine]; unfold fatal, zap_log; repeat tidy_step.
Qed.

(** A service whose goroutines give back what they take. *)
Class Orderly (sv : service) : Prop := {
  orderly_main : stops false (sv_main sv);
  orderly_spawns t p : sv_spawns sv t p → tidy idle p;
  orderly_request p : sv_request sv p → tidy idle p
}.

#[export] Instance user_orderly : Orderly user_service.
Proof.
  split; [apply user_main_stops| |].
  - intros t p (n & c & cfg & ->). apply tidy_spawned. intros creds.
    apply tidy_rotate_pool. intros q. apply tidy_SetPool.
  - intros p (c & q & ->). apply tidy_bind; [apply tidy_serve_user|done].
Qed.

#[export] Instance order_orderly : Orderly order_service.
Proof.
  split; [apply order_main_stops| |].
  - intros t p (n & c & cfg & ->). apply tidy_spawned. intros creds.
    apply tidy_rotate_pool. intros q. apply tidy_SetPool.
  - intros p (r & c & q & ->). apply tidy_bind; [apply tidy_serve_order|done].
Qed.

(** ** The invariant *)

Lemma pending_none ts reqs : pending ts reqs = 0 ↔ Forall (ended_at ts) reqs.
Proof.
  unfold pending. induction reqs as [|i reqs IH]; [done|]. rewrite filter_cons, Forall_cons.
  destruct (decide (¬ ended_at ts i)) as [Hi|Hi]; cbn; [split; [done|tauto]|].
  apply dec_stable in Hi. tauto.
Qed.

(** A goroutine that has ended stays so. *)
Lemma ended_at_call ts i c k s t j :
  ts !! i = Some (mkThread (Call c k) s) → ended_at ts j → ended_at (<[i := t]> ts) j.
Proof.
  unfold ended_at. intros Hi Hj. destruct (decide (i = j)) as [<-|Hne].
  - rewrite Hi in Hj. done.
  - by rewrite list_lookup_insert_ne.
Qed.

Section Invariant.
Context `{!GracefulServer} (sv : service) `{!Orderly sv}.

Abbreviation step := (pstep sv).

(** Once the server has stopped no request is in progress; once it is stopping
    [main] waits for that. *)
Definition drained (σ : process) : Prop :=
  ∃ stopped, stops stopped (p_main σ) ∧
    if stopped then p_stopping σ = true ∧ in_progress σ = 0
    else p_stopping σ = true → main_call (p_main σ) = Some GrpcGracefulStop.
Definition inv (σ : process) : Prop := good (p_threads σ) ∧ drained σ.

Lemma inv_boot : inv (boot sv).
Proof.
  split; [split; [by apply Forall_nil_2|by intros ? ?]|].
  exists false. split; [apply orderly_main|done].
Qed.

Lemma starts_good c new ts : starts sv c new → good ts → good (ts ++ new).
Proof.
  intros Hs Hg. destruct c; cbn in Hs; try (by subst; rewrite app_nil_r).
  destruct Hs as (p & Hp & ->). apply good_snoc; [done|]. by eapply orderly_spawns.
Qed.

(** After a call of [main] that is not [GracefulStop]. *)
Lemma stops_next b c k r :
  stops b (Call c k) → c ≠ GrpcGracefulStop →
  stops b (k r) ∧ (if b then spawns c = false else closes c = false).
Proof.
  intros Hs Hc. destruct (obeys_next _ _ _ _ _ r Hs) as (b' & Hb & Hk). unfold stop_protocol in Hb.
  assert (is_stop c = false) as Hi by by destruct c. rewrite Hi in Hb.
  destruct b, (spawns c), (closes c); by simplify_eq.
Qed.

Lemma starts_none c new : starts sv c new → spawns c = false → new = [].
Proof. by destruct c. Qed.

Lemma inv_step σ σ' : inv σ → step σ σ' → inv σ'.
Proof.
  intros [Hg (b & Hs & Hb)] Hstep. destruct Hstep as
    [c k r new ts reqs Hc Hnew stopping|k ts reqs|k ts reqs Hr|m ts reqs stopping i c k s r Hm Hi Hl
    |m ts reqs stopping p Hm _ Ha Hp]; cbn in Hg, Hs, Hb.
  - split; [by eapply starts_good|]. destruct (stops_next b c k r Hs Hc) as [Hk Hx].
    exists b. split; [exact Hk|]. destruct b; cbn.
    + by rewrite (starts_none _ _ Hnew Hx), app_nil_r.
    + intros Hst. by injection (Hb Hst) as ->.
  - split; [done|]. exists false. split; [|done].
    destruct b; [|done]. by destruct Hb.
  - split; [done|]. exists true. specialize (Hs tt). destruct b; [done|]. split; [exact Hs|].
    split; [done|]. by apply stop_waits.
  - split; [eapply good_step; [exact Hg|by econstructor]|]. exists b. split; [done|].
    destruct b; [|done]. destruct Hb as [Hst Hn]. split; [done|]. apply pending_none.
    apply pending_none in Hn. eapply Forall_impl; [exact Hn|]. intros j. by eapply ended_at_call.
  - split; [apply good_snoc; [done|by eapply orderly_request]|]. exists b. split; [done|].
    destruct b; [|done]. destruct Hb as [-> _]. by apply admits_none in Ha.
Qed.

Lemma inv_reachable σ : rtc step (boot sv) σ → inv σ.
Proof. revert σ. apply rtc_ind_r; [apply inv_boot|]. intros σ σ' _ Hs Hi. by eapply inv_step. Qed.

(** ** Nobody waits for ever *)

(** The next call of [main] returns even if every call for a connection, or to
    close a pool, waits for all connections. *)
Definition main_returns (σ : process) (c : extcall) : Prop :=
  (may_wait c = true → Forall (λ t, ¬ connected t) (p_threads σ)) ∧
  (c = GrpcGracefulStop → p_stopping σ = true → in_progress σ = 0).

Definition can_continue (σ : process) : Prop :=
  (∃ c, main_call (p_main σ) = Some c ∧ main_returns σ c) ∨ can_go (p_threads σ).

(** It can make the step, if the goroutines to start exist. *)
Lemma can_continue_step σ :
  (∀ t, ∃ p, sv_spawns sv t p) → ¬ over σ → can_continue σ → ∃ σ', step σ σ'.
Proof.
  intros Hex Ho Hc. destruct σ as [m ts reqs stopping ex]. unfold over in Ho. cbn in Ho.
  destruct ex; [by destruct Ho; left|].
  destruct Hc as [(c & Hm & Hr)|(i & [q s] & c & Hi & Hn & Hr)]; cbn in *.
  - destruct m as [a|e|c' k]; try done. injection Hm as ->.
    destruct (is_stop c) eqn:Hs.
    + destruct c; try done. destruct stopping; [|eexists; apply p_stop_called].
      eexists. apply p_stop_returned.
      assert (pending ts reqs = 0) as -> by by apply Hr. apply stop_ends.
    + assert (∃ new, starts sv c new) as [new Hnew].
      { destruct c; try (by eexists). destruct (Hex t) as [p Hp]. by exists [fresh_thread p], p. }
      exists (mkProcess (k (default_answer c)) (ts ++ new) reqs stopping (exits c)).
      apply p_main_step; [by intros ->|done].
  - destruct q as [a|e|c' k]; try done. injection Hn as ->. eexists.
    eapply (p_thread_step sv m ts reqs stopping i c k s (default_answer c)); [|exact Hi|].
    + intros Hm. apply Ho. by right.
    + destruct c; try done. by destruct Hr.
Qed.

(** Somebody that holds a connection, or a request in progress, is not ended. *)
Lemma all_ended ts reqs :
  good ts → Forall ended ts → Forall (λ t, ¬ connected t) ts ∧ pending ts reqs = 0.
Proof.
  intros [Hd _] He. split.
  - apply Forall_lookup. intros i t Hi Hc. eapply Forall_lookup_1 in Hd, He; [|done..].
    destruct (holder_call t Hd) as (c & Hn & _); [|by rewrite He in Hn].
    intros E. unfold connected in Hc. rewrite E in Hc. by destruct Hc.
  - apply pending_none, Forall_true. intros i. unfold ended_at. destruct (ts !! i) eqn:Hi; [|done].
    by eapply Forall_lookup_1 in He.
Qed.

Lemma continues σ : inv σ → over σ ∨ can_continue σ.
Proof.
  intros [Hg _]. destruct (main_call (p_main σ)) as [c|] eqn:Hm; [right|by left; right].
  destruct (progress _ Hg) as [He|Hc]; [left|by right].
  destruct (all_ended (p_threads σ) (p_requests σ) Hg He) as [Hn Hp]. by exists c.
Qed.

(** ** Stopping ends *)

(** [main], or a goroutine, is a call further. *)
Definition further : (go exit_status * list goroutine_state) → _ → Prop :=
  symprod _ _ next_of (one_step smaller).

Lemma further_wf x : Acc further x.
Proof.
  destruct x as [m ts]. apply Acc_symprod; [apply next_of_wf|]. apply one_step_wf, smaller_wf.
Qed.

Lemma stopping_step σ σ' :
  inv σ → p_stopping σ = true → step σ σ' →
  p_stopping σ' = true ∧ further (p_main σ', p_threads σ') (p_main σ, p_threads σ).
Proof.
  intros [Hg (b & Hs & Hb)] Hst Hstep. destruct Hstep as
    [c k r new ts reqs Hc Hnew stopping|k ts reqs|k ts reqs Hr|m ts reqs stopping i c k s r Hm Hi Hl
    |m ts reqs stopping p Hm _ Ha Hp]; cbn in Hg, Hs, Hb, Hst |- *; subst; try done.
  - destruct (stops_next b c k r Hs Hc) as [_ Hx]. destruct b; [|by injection (Hb eq_refl) as ->].
    rewrite (starts_none _ _ Hnew Hx), app_nil_r. split; [done|]. apply left_sym. by exists r.
  - split; [done|]. apply left_sym. by exists tt.
  - split; [done|]. apply right_sym. econstructor; [exact Hi|]. by exists r.
  - by apply admits_none in Ha.
Qed.

Lemma stopping_ends σ : inv σ → p_stopping σ = true → Acc (flip step) σ.
Proof.
  remember (p_main σ, p_threads σ) as x eqn:Hx. revert σ Hx.
  induction (further_wf x) as [x _ IH]. intros σ -> Hi Hs. constructor. intros σ' Hstep.
  destruct (stopping_step σ σ' Hi Hs Hstep) as [Hs' Hf].
  eapply IH; [exact Hf|done|by eapply inv_step|done].
Qed.
End Invariant.

(** ** Claim *)

(** C10: In every reachable state of the process of either service (its whole main, the
    goroutines main starts, and any requests that arrive while the gRPC server serves,
    with the blocking of the lock; GracefulStop as grpc-go documents it): when main is
    about to close a pool, Redis, the connection to user-service, the metrics server or
    the telemetry, or has returned, the server is stopped and no request is in progress;
    no two goroutines race on the pool pointer; until the process has ended somebody can
    make a call, even if calls for a connection wait for all connections; and once
    GracefulStop is called every run of the process ends, the loops of the refresher and
    of the monitor taking any bounded number of turns. *)
Theorem shutdown_drains `{!GracefulServer} sv σ :
  sv = user_service ∨ sv = order_service → rtc (pstep sv) (boot sv) σ →
  (∀ c, main_call (p_main σ) = Some c → closes c = true → p_stopping σ = true ∧ in_progress σ = 0) ∧
  (p_main σ = Ret MainReturned → p_stopping σ = true ∧ in_progress σ = 0) ∧
  race_free (p_threads σ) ∧ (over σ ∨ can_continue σ) ∧
  (p_stopping σ = true → Acc (flip (pstep sv)) σ).
Proof.
  intros Hsv Hr. assert (Orderly sv) as Ho by (destruct Hsv as [->| ->]; apply _).
  pose proof (inv_reachable sv σ Hr) as Hi. pose proof Hi as [Hg (b & Hs & Hb)].
  split_and!; [| |by apply good_race_free|by apply continues|by apply stopping_ends].
  - intros c Hc Hcl. destruct (p_main σ) as [| |c' k]; [done..|]. injection Hc as ->.
    destruct (stops_next b c k (default_answer c) Hs) as [_ Hx]; [by intros ->|].
    destruct b; [done|]. by rewrite Hcl in Hx.
  - intros Hm. rewrite Hm in Hs. destruct b; [done|]. by specialize (Hs eq_refl).
Qed.

(** ** A run *)

(** A server that takes RPCs until it is stopped. *)
#[local] Program Instance plain_server : GracefulServer :=
  {| admits stopping _ := stopping = false; stop_returns n := n = 0 |}.
Solve All Obligations with done.

Section Drive.
Context (answer : ∀ c, extres c) (body : thread → go bool).

Inductive action : Type := ActMain | ActThread (i : nat) | ActArrive (p : go bool).

Definition started (c : extcall) : list goroutine_state :=
  match c with GoSpawn t => [fresh_thread (body t)] | _ => [] end.

#[local] Instance serving_dec t : Decision (serving t).
Proof. unfold serving. destruct (next_call t) as [[]|]; first [by left|by right]. Defined.

(** What the action does to a running process, if it is possible. *)
Definition main_acts (c : extcall) (k : extres c → go exit_status) (σ : process) : process :=
  let 'mkProcess _ ts reqs stopping _ := σ in
  if is_stop c then
    if stopping then
      if decide (pending ts reqs = 0) then mkProcess (k (answer c)) ts reqs true false else σ
    else mkProcess (Call c k) ts reqs true false
  else mkProcess (k (answer c)) (ts ++ started c) reqs stopping (exits c).
Definition thread_acts (i : nat) (σ : process) : process :=
  let 'mkProcess m ts reqs stopping _ := σ in
  match ts !! i with
  | Some (mkThread (Call c k) s) =>
      if decide (lock_grants ts c)
      then mkProcess m (<[i := mkThread (k (answer c)) (held_after s c (answer c))]> ts) reqs
             stopping (exits c)
      else σ
  | _ => σ
  end.
Definition rpc_arrives (p : go bool) (σ : process) : process :=
  let 'mkProcess m ts reqs stopping _ := σ in
  if negb stopping && bool_decide (Exists serving ts)
  then mkProcess m (ts ++ [fresh_thread p]) (reqs ++ [length ts]) stopping false else σ.

Definition act (a : action) (σ : process) : process :=
  if p_exited σ then σ else
  match p_main σ with
  | Call c k =>
      match a with
      | ActMain => main_acts c k σ
      | ActThread i => thread_acts i σ
      | ActArrive p => rpc_arrives p σ
      end
  | _ => σ
  end.

Definition possible (sv : service) (a : action) : Prop :=
  match a with ActArrive p => sv_request sv p | _ => True end.

Lemma act_steps sv a σ :
  (∀ t, sv_spawns sv t (body t)) → possible sv a → rtc (pstep sv) σ (act a σ).
Proof.
  intros Hb Ha. destruct σ as [m ts reqs stopping ex]. unfold act. cbn [p_exited p_main].
  destruct ex; [done|]. destruct m as [x|e|c k]; [done..|]. destruct a as [|i|p]; cbn.
  - destruct (is_stop c) eqn:Hs.
    + destruct c; try done. destruct stopping; [|apply rtc_once, p_stop_called].
      destruct (decide (pending ts reqs = 0)) as [Hp|]; [|done].
      destruct (answer GrpcGracefulStop). by apply rtc_once, p_stop_returned.
    + apply rtc_once, p_main_step; [by intros ->|]. destruct c; try done. by eexists.
  - destruct (ts !! i) as [[[x|m|c' k'] s]|] eqn:Hi; try done.
    destruct (decide (lock_grants ts c')); [|done]. by apply rtc_once, p_thread_step.
  - destruct (negb stopping && _) eqn:He; [|done]. apply andb_true_iff in He as [Hs He].
    apply bool_decide_eq_true in He. destruct stopping; [done|]. by apply rtc_once, p_arrival.
Qed.

Definition acts (l : list action) (σ : process) : process := foldl (λ σ a, act a σ) σ l.

Lemma acts_steps sv l σ :
  (∀ t, sv_spawns sv t (body t)) → Forall (possible sv) l → rtc (pstep sv) σ (acts l σ).
Proof.
  intros Hb Hl. revert σ. induction Hl as [|a l Ha _ IH]; intros σ; [done|].
  etrans; [by apply act_steps|]. apply IH.
Qed.
End Drive.

(** Everything works, and a user is found. *)
Definition fine (c : extcall) : extres c :=
  match c return extres c with
  | LoadPool => Some (Pool 0)
  | WaitSignalOrDone _ => Some "terminated"
  | PoolQueryRow p cx sql args ks => (boot_env (PoolQueryRow p cx sql args ks) tt).1
  | c => (boot_env c tt).1
  end.
Definition one_turn : thread → go bool := UserMain.goroutine 1 CtxBackground some_config.
Definition get_user : go bool :=
  serve_user CtxRequest (ReqGetUser (userv1.mkGetUserRequest "u-1")) ≫= λ _, mret false.

(** [main] waits for a request, which then ends. *)
Definition stopping_run : list action :=
  replicate 50 ActMain ++ [ActThread 2; ActThread 2; ActArrive get_user] ++ replicate 3 (ActThread 3) ++
  replicate 9 ActMain.
Definition closing_run : list action := stopping_run ++ replicate 20 (ActThread 3) ++ replicate 10 ActMain.
Definition after_run (l : list action) : process := acts fine one_turn l (boot user_service).

Lemma run_reachable l :
  Forall (λ a, a = ActArrive get_user ∨ possible user_service a) l →
  rtc (pstep user_service) (boot user_service) (after_run l).
Proof.
  intros Hl. apply acts_steps; [intros t; by do 3 eexists|]. eapply Forall_impl; [exact Hl|].
  intros a [->|Ha]; [|exact Ha]. by do 2 eexists.
Qed.

Lemma shutdown_drains_witness :
  main_call (p_main (after_run stopping_run)) = Some GrpcGracefulStop ∧
  in_progress (after_run stopping_run) = 1 ∧
  Acc (flip (pstep user_service)) (after_run stopping_run) ∧
  main_call (p_main (after_run closing_run)) = Some (PoolClose (Pool 0)) ∧
  in_progress (after_run closing_run) = 0.
Proof.
  assert (Forall (λ a, a = ActArrive get_user ∨ possible user_service a) closing_run) as Hc.
  { repeat (apply Forall_cons; split; [by (right; exact I) || left|]). apply Forall_nil_2. }
  assert (main_call (p_main (after_run closing_run)) = Some (PoolClose (Pool 0))) as Hm
    by (vm_compute; reflexivity).
  split_and!; [vm_compute; reflexivity|vm_compute; reflexivity| |exact Hm|].
  - apply (shutdown_drains user_service); [by left| |vm_compute; reflexivity].
    apply run_reachable. by apply Forall_app in Hc as [Hc _].
  - refine (proj2 (proj1 (shutdown_drains user_service _ (or_introl eq_refl) (run_reachable _ Hc)) _ Hm _)).
    reflexivity.
Defined.
