(* ===== verification/LoadTestProofs.v ===== *)
(** * What the load test measures

    The printed percentiles are the nearest-rank percentiles of the recorded
    durations and the counts are those of the results received, when the
    consumer is done before [main] reads the statistics; nothing makes [main]
    wait for it, and then the report can divide by zero. *)
From S2P Require Import Prelude.
From S2P Require Import GoStrings.
From S2P Require Import GoFloat.
From S2P Require Import Proto.
From S2P Require Import GoRuntime.
From S2P Require Import External.
From S2P Require Import Grpc.
From S2P Require Import GrpcStubs.
From S2P Require Import RelyGuarantee.
From S2P Require Import LoadTest.
From stdpp Require Import sorting relations.
From Stdlib Require Import Floats.SpecFloat.
Import loadtest.

(** ** Percentiles of a list *)

Definition at_most (x : Z) (l : list Z) : nat := length (filter (λ d, d ≤ x)%Z l).
Definition below (x : Z) (l : list Z) : nat := length (filter (λ d, d < x)%Z l).

(** [x] is the nearest-rank [a/b] percentile of [l]: the least element that at
    least that part of [l] does not exceed. *)
Definition is_percentile (a b : Z) (l : list Z) (x : Z) : Prop :=
  x ∈ l ∧ (a * Z.of_nat (length l) ≤ b * Z.of_nat (at_most x l))%Z ∧
  (b * Z.of_nat (below x l) < a * Z.of_nat (length l))%Z.

(** At most half of [l] is below [x], and more than half is not above. *)
Definition is_upper_median (l : list Z) (x : Z) : Prop :=
  x ∈ l ∧ (2 * Z.of_nat (below x l) ≤ Z.of_nat (length l))%Z ∧
  (Z.of_nat (length l) < 2 * Z.of_nat (at_most x l))%Z.

Lemma filter_all {A} (P : A → Prop) `{!∀ x, Decision (P x)} l : Forall P l → filter P l = l.
Proof.
  induction 1 as [|x l Hx _ IH]; [done|]. rewrite filter_cons, IH. by destruct (decide (P x)).
Qed.

Lemma filter_none {A} (P : A → Prop) `{!∀ x, Decision (P x)} l :
  Forall (λ x, ¬ P x) l → filter P l = [].
Proof.
  induction 1 as [|x l Hx _ IH]; [done|]. rewrite filter_cons, IH. by destruct (decide (P x)).
Qed.

Lemma sorted_rank l i x :
  StronglySorted Z.le l → l !! i = Some x → S i ≤ at_most x l ∧ below x l ≤ i.
Proof.
  intros Hs Hi. pose proof (take_drop_middle _ _ _ Hi) as E.
  rewrite <-E in Hs. apply StronglySorted_app in Hs as (Hc & _ & Hs2).
  apply StronglySorted_cons in Hs2 as [Hall _].
  assert (i < length l)%nat as Hlen by by eapply lookup_lt_Some.
  assert (Forall (λ d, d ≤ x)%Z (take i l)) as Hle.
  { apply Forall_forall. intros d Hd. apply Hc; [done|]. by left. }
  unfold at_most, below. rewrite <-E, !filter_app, !length_app.
  rewrite (filter_all (λ d, d ≤ x)%Z (take i l)) by done.
  rewrite !filter_cons. destruct (decide (x ≤ x)%Z); [|lia]. destruct (decide (x < x)%Z); [lia|].
  assert (filter (λ d, d < x)%Z (drop (S i) l) = []) as ->.
  { apply filter_none. eapply Forall_impl; [exact Hall|]. cbn. lia. }
  pose proof (length_filter (λ d, d < x)%Z (take i l)).
  cbn [length]. rewrite length_take in *. lia.
Qed.

Lemma merge_sort_Z l : StronglySorted Z.le (merge_sort Z.le l) ∧ merge_sort Z.le l ≡ₚ l.
Proof. split; [apply StronglySorted_merge_sort; apply _|apply merge_sort_Permutation]. Qed.

(** The element of rank [c] of the sorted list, for [c] the part [a/b] of the
    length, rounded up. *)
Lemma rank_percentile a b l c x :
  (0 < b)%Z → (b * (c - 1) < a * Z.of_nat (length l) ≤ b * c)%Z → (1 ≤ c)%Z →
  merge_sort Z.le l !! Z.to_nat (c - 1) = Some x → is_percentile a b l x.
Proof.
  intros Hb Hc H1 Hx. destruct (merge_sort_Z l) as [Hs Hp].
  destruct (sorted_rank _ _ _ Hs Hx) as [Hle Hlt].
  unfold is_percentile, at_most, below in *. rewrite Hp in Hle, Hlt. split; [|nia].
  rewrite <-Hp. by eapply list_elem_of_lookup_2.
Qed.

Lemma rank_median l x :
  merge_sort Z.le l !! Z.to_nat (Z.quot (Z.of_nat (length l)) 2) = Some x → is_upper_median l x.
Proof.
  intros Hx. destruct (merge_sort_Z l) as [Hs Hp]. destruct (sorted_rank _ _ _ Hs Hx) as [Hle Hlt].
  unfold is_upper_median, at_most, below in *. rewrite Hp in Hle, Hlt.
  rewrite Z.quot_div_nonneg in * by lia. pose proof (Z.div_mod (Z.of_nat (length l)) 2).
  pose proof (Z.mod_pos_bound (Z.of_nat (length l)) 2). split; [|lia].
  rewrite <-Hp. by eapply list_elem_of_lookup_2.
Qed.

(** The indices the report computes are within the list. *)
Lemma percentile_index_rank n a b m :
  (0 < a < b)%Z → (b ≤ 100)%Z → (b * Zpos m = a * 2 ^ 53 - 8)%Z → (2 ^ 52 ≤ Zpos m < 2 ^ 53)%Z →
  (0 < n < 2 ^ 45)%Z →
  let i := percentile_index n (S754_finite false m (-53)) in
  (0 ≤ i < n)%Z ∧ (b * (i + 1 - 1) < a * n ≤ b * (i + 1))%Z.
Proof.
  intros Ha Hb Hm Hmb Hn. unfold percentile_index. cbn zeta.
  pose proof (ceil_fraction n a b m Ha Hb Hm Hmb ltac:(lia) ltac:(lia)) as Hc. cbn zeta in Hc. nia.
Qed.

Lemma at_index_Some {A} (l : list A) i :
  (0 ≤ i < Z.of_nat (length l))%Z → ∃ x, l !! Z.to_nat i = Some x ∧ at_index l i = Ret x.
Proof.
  intros Hi. destruct (lookup_lt_is_Some_2 l (Z.to_nat i)) as [x Hx]; [lia|]. exists x. split; [done|].
  unfold at_index. destruct (Z.leb_spec 0 i); [|lia]. by rewrite Hx.
Qed.

(** The percentile the report looks up. *)
Lemma percentile_lookup l a b m :
  (0 < a < b)%Z → (b ≤ 100)%Z → (b * Zpos m = a * 2 ^ 53 - 8)%Z → (2 ^ 52 ≤ Zpos m < 2 ^ 53)%Z →
  l ≠ [] → (Z.of_nat (length l) < 2 ^ 45)%Z →
  ∃ x, at_index (merge_sort Z.le l)
      (percentile_index (Z.of_nat (length l)) (S754_finite false m (-53))) = Ret x ∧
    is_percentile a b l x.
Proof.
  intros Ha Hb Hm Hmb Hl Hlen. assert (0 < length l)%nat as Hpos by (destruct l; [done|cbn; lia]).
  destruct (merge_sort_Z l) as [_ Hp]. pose proof (Permutation_length Hp) as Hpl.
  destruct (percentile_index_rank (Z.of_nat (length l)) a b m) as [Hi Hr]; [done..|lia|].
  destruct (at_index_Some (merge_sort Z.le l) (percentile_index (Z.of_nat (length l))
    (S754_finite false m (-53)))) as (x & Hx & Hat); [lia|].
  exists x. split; [done|]. eapply (rank_percentile a b l); [lia|exact Hr|lia|].
  rewrite <-Hx. f_equal. lia.
Qed.

Lemma median_lookup l :
  l ≠ [] → ∃ x, at_index (merge_sort Z.le l) (Z.quot (Z.of_nat (length l)) 2) = Ret x ∧
    is_upper_median l x.
Proof.
  intros Hl. assert (0 < length l)%nat as Hpos by (destruct l; [done|cbn; lia]).
  destruct (merge_sort_Z l) as [_ Hp]. pose proof (Permutation_length Hp) as Hpl.
  destruct (at_index_Some (merge_sort Z.le l) (Z.quot (Z.of_nat (length l)) 2)) as (x & Hx & Hat).
  { rewrite Hpl, Z.quot_div_nonneg by lia. split; [apply Z.div_pos; lia|apply Z.div_lt; lia]. }
  exists x. split; [done|]. by apply rank_median.
Qed.

(** ** Sums that wrap around *)

Lemma to_int64_add x y : to_int64 (to_int64 x + y) = to_int64 (x + y).
Proof.
  unfold to_int64, wrap_signed. f_equal.
  replace ((x + 2 ^ (64 - 1)) `mod` 2 ^ 64 - 2 ^ (64 - 1) + y + 2 ^ (64 - 1))%Z
    with ((x + 2 ^ (64 - 1)) `mod` 2 ^ 64 + y)%Z by ring.
  rewrite Zplus_mod_idemp_l. f_equal. ring.
Qed.

Fixpoint sum (l : list Z) : Z :=
  match l with [] => 0 | d :: l => d + sum l end.

Lemma sum_durs_sum l : sum_durs l = to_int64 (sum l).
Proof.
  unfold sum_durs. assert (∀ t, fold_left (λ t d, to_int64 (t + d)) l (to_int64 t) = to_int64 (t + sum l)) as Hf.
  { induction l as [|d l IH]; intros t; cbn; [by rewrite Z.add_0_r|].
    rewrite to_int64_add, IH. f_equal. lia. }
  exact (Hf 0%Z).
Qed.

Lemma sum_perm l l' : l ≡ₚ l' → sum l = sum l'.
Proof. induction 1; cbn; lia. Qed.

(** ** The shared statistics *)

Record stats := mkStats { count : Z; errCount : Z; durs : list Z }.
Definition no_stats : stats := mkStats 0 0 [].

Record load_world := mkLoad {
  lw_stats : gmap nat stats;
  lw_queue : list result;
  lw_out : list (string * list fmt_arg)
}.

Definition stats_of (w : load_world) (s : nat) : stats := default no_stats (lw_stats w !! s).
Definition set_stats (s : nat) (st : stats) (w : load_world) : load_world :=
  mkLoad (<[s := st]> (lw_stats w)) (lw_queue w) (lw_out w).

(** Memory, a closed channel and the terminal. *)
Definition load_env : env load_world := λ c w,
  match c return extres c * load_world with
  | LoadStats s a =>
      let st := stats_of w s in
      match a return extres (LoadStats s a) * load_world with
      | AddCount => (tt, set_stats s (mkStats (to_int64 (count st + 1)) (errCount st) (durs st)) w)
      | AddErrCount => (tt, set_stats s (mkStats (count st) (to_int64 (errCount st + 1)) (durs st)) w)
      | AppendDur d => (tt, set_stats s (mkStats (count st) (errCount st) (durs st ++ [d])) w)
      | GetCount => (count st, w)
      | GetErrCount => (errCount st, w)
      | GetDurs => (durs st, w)
      | StatsLock | StatsUnlock => (tt, w)
      end
  | ChanRecv =>
      match lw_queue w with
      | [] => (None, w)
      | r :: rs => (Some (duration r, err r, op r), mkLoad (lw_stats w) rs (lw_out w))
      end
  | FmtPrintf f args => (tt, mkLoad (lw_stats w) (lw_queue w) (lw_out w ++ [(f, args)]))
  | c => (default_answer c, w)
  end.

(** The line printed for [durs] and [e] errors. *)
Definition good_line (label : string) (l : list Z) (e : Z) (args : list fmt_arg) : Prop :=
  ∃ p50 p95 p99 n, n = Z.of_nat (length l) ∧
    is_upper_median l p50 ∧ is_percentile 19 20 l p95 ∧ is_percentile 99 100 l p99 ∧
    args = [FString label; FInt n; FFloat (f64_div (f64_of_int n) (Seconds (to_int64 (sum l))));
      fmtDuration (Z.quot (to_int64 (sum l)) n); fmtDuration p50; fmtDuration p95; fmtDuration p99;
      FFloat (f64_mul (f64_div (f64_of_int e) (f64_of_int n)) (f64_of_int 100))].

Lemma quot_int64 x n : is_int64 x → (0 < n)%Z → to_int64 (Z.quot x n) = Z.quot x n.
Proof.
  unfold is_int64. intros Hx Hn. apply to_int64_id. unfold is_int64.
  destruct (Z.le_gt_cases 0 x).
  - pose proof (Z.quot_pos x n). pose proof (Z.quot_le_upper_bound x n x). nia.
  - pose proof (Z.quot_pos (- x) n). pose proof (Z.quot_le_upper_bound (- x) n (- x)).
    rewrite Z.quot_opp_l in * by lia. nia.
Qed.

Lemma report_run s label w l e :
  stats_of w s = mkStats (Z.of_nat (length l)) e l → l ≠ [] → (Z.of_nat (length l) < 2 ^ 45)%Z →
  wp load_env (report s label) (λ o w', o = Returned tt ∧ lw_stats w' = lw_stats w ∧
    lw_queue w' = lw_queue w ∧
    ∃ args, lw_out w' = lw_out w ++ [(report_format, args)] ∧ good_line label l e args) w.
Proof.
  intros Hst Hl Hlen. assert (0 < length l)%nat as Hpos by (destruct l; [done|cbn; lia]).
  destruct (merge_sort_Z l) as [_ Hp]. pose proof (Permutation_length Hp) as Hpl.
  destruct (percentile_lookup l 19 20 8556839292003942) as (p95 & H95 & Hp95); [lia..|done|done|].
  destruct (percentile_lookup l 99 100 8917127262193582) as (p99 & H99 & Hp99); [lia..|done|done|].
  destruct (median_lookup l Hl) as (p50 & H50 & Hp50).
  unfold report. wp_call_intro n w1 H1. injection H1 as <- <-. rewrite Hst. cbn [count].
  destruct (Z.eqb_spec (Z.of_nat (length l)) 0); [lia|].
  wp_call_intro u1 w1 H1. injection H1 as _ <-. wp_call_intro ds w1 H1. injection H1 as <- <-.
  wp_call_intro u2 w1 H1. injection H1 as _ <-. rewrite Hst. cbn [durs]. rewrite Hpl.
  unfold div64. destruct (Z.eqb_spec (Z.of_nat (length l)) 0); [lia|].
  do 2 wp_pure. rewrite H50. do 2 wp_pure. unfold c095, c099. rewrite H95. do 2 wp_pure.
  rewrite H99. do 2 wp_pure. wp_call_intro e' w1 H1. injection H1 as <- <-. rewrite Hst.
  wp_call_intro u w1 H1. injection H1 as _ <-. cbn [errCount].
  split_and!; [by destruct u|done..|]. eexists. split; [done|].
  exists p50, p95, p99, (Z.of_nat (length l)). split_and!; try done.
  rewrite sum_durs_sum, (sum_perm _ _ Hp), quot_int64; [done|apply to_int64_range|lia].
Qed.

(** ** What the consumer records *)

(** The results the statistics object [s] counts. *)
Definition feeds (s : nat) (r : result) : Prop :=
  s = total ∨ s = createUserStats ∧ op r = "CreateUser" ∨ s = getUserStats ∧ op r = "GetUser" ∨
  s = createOrderStats ∧ op r = "CreateOrder" ∨ s = getOrderStats ∧ op r = "GetOrder".
#[export] Instance feeds_dec s r : Decision (feeds s r).
Proof. unfold feeds. apply _. Defined.

Definition fed (s : nat) (rs : list result) : list result := filter (feeds s) rs.
Definition errors (rs : list result) : Z := Z.of_nat (length (filter (λ r, err r = true) rs)).
Definition tally (rs : list result) : stats :=
  mkStats (Z.of_nat (length rs)) (errors rs) (map duration rs).

Lemma stats_of_set s st w : stats_of (set_stats s st w) s = st.
Proof. unfold stats_of, set_stats. cbn. by rewrite lookup_insert_eq. Qed.
Lemma stats_of_set_ne s s' st w : s' ≠ s → stats_of (set_stats s st w) s' = stats_of w s'.
Proof. intros Hs. unfold stats_of, set_stats. cbn. by rewrite lookup_insert_ne. Qed.

Lemma tally_snoc rs r :
  (Z.of_nat (length rs) < 2 ^ 45)%Z →
  tally (rs ++ [r]) = mkStats (to_int64 (count (tally rs) + 1))
    (if err r then to_int64 (errCount (tally rs) + 1) else errCount (tally rs))
    (durs (tally rs) ++ [duration r]).
Proof.
  intros Hlen. unfold tally, errors. cbn [count errCount durs].
  rewrite map_app, filter_app, !length_app, filter_cons, filter_nil.
  pose proof (length_filter (λ r, err r = true) rs).
  rewrite to_int64_id by (unfold is_int64; lia).
  destruct (decide (err r = true)) as [E|E]; [rewrite E|rewrite (not_true_is_false _ E)].
  - rewrite to_int64_id by (unfold is_int64; lia). f_equal; cbn; lia.
  - f_equal; cbn; lia.
Qed.

(** [add] records one result in its object. *)
Lemma add_run s rs r w (Q : outcome unit → load_world → Prop) :
  stats_of w s = tally rs → (Z.of_nat (length rs) < 2 ^ 45)%Z →
  (∀ w', lw_queue w' = lw_queue w → lw_out w' = lw_out w → stats_of w' s = tally (rs ++ [r]) →
     (∀ s', s' ≠ s → stats_of w' s' = stats_of w s') → Q (Returned tt) w') →
  wp load_env (add s (duration r) (err r)) Q w.
Proof.
  intros Hst Hlen HQ. unfold add. wp_call_intro u w1 H1. injection H1 as _ <-. rewrite Hst.
  set (w1 := set_stats _ _ w). wp_pure.
  assert (wp load_env (if err r then gocall (LoadStats s AddErrCount) else mret tt)
    (λ o w2, o = Returned tt ∧ lw_queue w2 = lw_queue w ∧ lw_out w2 = lw_out w ∧
       (∀ s', s' ≠ s → stats_of w2 s' = stats_of w s') ∧
       stats_of w2 s = mkStats (to_int64 (count (tally rs) + 1))
         (if err r then to_int64 (errCount (tally rs) + 1) else errCount (tally rs))
         (durs (tally rs))) w1) as He.
  { destruct (err r).
    - wp_call_intro v w2 H2. injection H2 as _ <-. split_and!; [by destruct v|done..| |].
      + intros s' Hs. unfold w1. by rewrite !stats_of_set_ne.
      + unfold w1. by rewrite !stats_of_set.
    - apply wp_ret. split_and!; [done..| |].
      + intros s' Hs. unfold w1. by rewrite stats_of_set_ne.
      + unfold w1. by rewrite stats_of_set. }
  eapply wp_mono; [exact He|]. cbn beta. intros o w2 (-> & Hq & Ho & Hne & Hs2). cbn beta iota.
  wp_call_intro v w3 H3. injection H3 as _ <-. wp_call_intro v2 w3 H3. injection H3 as _ <-.
  wp_call_intro v3 w3 H3. injection H3 as _ <-.
  assert (v3 = tt) as -> by by destruct v3. rewrite Hs2. cbn [count errCount durs].
  apply HQ; [done..| |].
  - by rewrite stats_of_set, tally_snoc.
  - intros s' Hs. rewrite stats_of_set_ne by done. auto.
Qed.

Lemma fed_snoc s rs r : fed s (rs ++ [r]) = if decide (feeds s r) then fed s rs ++ [r] else fed s rs.
Proof.
  unfold fed. rewrite filter_app, filter_cons, filter_nil. destruct (decide (feeds s r)); [done|].
  by rewrite app_nil_r.
Qed.

Lemma fed_length s rs : length (fed s rs) ≤ length rs.
Proof. apply length_filter. Qed.

(** The statistics after [rs] were received. *)
Definition recorded (rs : list result) (w : load_world) : Prop := ∀ s, stats_of w s = tally (fed s rs).

Lemma op_add_run r rs w w0 (Q : outcome unit → load_world → Prop) :
  (Z.of_nat (length rs) < 2 ^ 45)%Z → recorded rs w0 →
  stats_of w total = tally (fed total (rs ++ [r])) →
  (∀ s, s ≠ total → stats_of w s = stats_of w0 s) →
  (∀ w', lw_queue w' = lw_queue w → lw_out w' = lw_out w → recorded (rs ++ [r]) w' → Q (Returned tt) w') →
  wp load_env
    (if str_eqb (op r) "CreateUser" then add createUserStats (duration r) (err r)
     else if str_eqb (op r) "GetUser" then add getUserStats (duration r) (err r)
     else if str_eqb (op r) "CreateOrder" then add createOrderStats (duration r) (err r)
     else if str_eqb (op r) "GetOrder" then add getOrderStats (duration r) (err r)
     else mret tt) Q w.
Proof.
  intros Hlen Hrec Ht Hne HQ.
  assert (∀ s, s ≠ total → feeds s r → (∀ s', s' ≠ s → s' ≠ total → ¬ feeds s' r) →
    wp load_env (add s (duration r) (err r)) Q w) as Hadd.
  { intros s Hs Hf Ho. apply (add_run s (fed s rs)).
    - rewrite Hne by done. apply Hrec.
    - pose proof (fed_length s rs). lia.
    - intros w' Hq Hout Hst Hoth. apply HQ; [done..|]. intros s'. rewrite fed_snoc.
      destruct (decide (s' = s)) as [->|Hss]; [by rewrite decide_True|].
      rewrite Hoth by done. destruct (decide (s' = total)) as [->|Hst'].
      + by rewrite Ht, fed_snoc.
      + rewrite decide_False by auto. rewrite Hne by done. apply Hrec. }
  repeat (lazymatch goal with |- wp _ (if str_eqb (op r) ?x then _ else _) _ _ =>
    destruct (str_eqb_spec (op r) x) as [E|?] end;
    [apply Hadd; [done|unfold feeds; intuition congruence|unfold feeds; rewrite E; intuition congruence]|]).
  apply wp_ret, HQ; [done..|]. intros s. rewrite fed_snoc. destruct (decide (s = total)) as [->|Hs].
  - by rewrite Ht, fed_snoc.
  - rewrite decide_False; [rewrite Hne by done; apply Hrec|]. unfold feeds. intuition congruence.
Qed.

Lemma consumer_run rs : ∀ n pre w,
  recorded pre w → lw_queue w = rs → (length rs < n)%nat →
  (Z.of_nat (length pre + length rs) < 2 ^ 45)%Z →
  wp load_env (consumer n) (λ o w', o = Returned tt ∧ recorded (pre ++ rs) w' ∧ lw_queue w' = [] ∧
    lw_out w' = lw_out w) w.
Proof.
  induction rs as [|r rs IH]; intros n pre w Hrec Hq Hn Hlen; (destruct n as [|n]; [cbn in Hn; lia|]).
  - cbn [consumer]. wp_call_intro x w1 H1. cbn in H1. rewrite Hq in H1. injection H1 as <- <-.
    apply wp_ret. by rewrite app_nil_r.
  - cbn [consumer]. cbn [length] in *. wp_call_intro x w1 H1. cbn in H1. rewrite Hq in H1.
    injection H1 as <- <-. set (w1 := mkLoad _ _ _). apply wp_bind.
    apply (add_run total (fed total pre)); [exact (Hrec total)|pose proof (fed_length total pre); lia|].
    intros w2 Hq2 Ho2 Ht Hne. cbn beta iota. apply wp_bind.
    apply (op_add_run r pre w2 w1); [lia|exact Hrec| |done|].
    { rewrite Ht, fed_snoc. by rewrite decide_True by (by left). }
    intros w3 Hq3 Ho3 Hrec3. cbn beta iota. eapply wp_mono.
    + apply (IH n (pre ++ [r])); [done|by rewrite Hq3, Hq2|lia|rewrite length_app; cbn; lia].
    + intros o w4 (-> & Hr4 & Hq4 & Ho4). split_and!; [done|by rewrite <-app_assoc in Hr4|done|].
      by rewrite Ho4, Ho3, Ho2.
Qed.

(** ** The summary *)

(** What [report] prints for the results [rs] of an object: nothing when there
    are none. *)
Definition good_report (label : string) (rs : list result) (out : list (string * list fmt_arg)) : Prop :=
  match rs with
  | [] => out = []
  | _ => ∃ args, out = [(report_format, args)] ∧ good_line label (map duration rs) (errors rs) args
  end.

Lemma report_recorded s label rs w :
  recorded rs w → (Z.of_nat (length rs) < 2 ^ 45)%Z →
  wp load_env (report s label) (λ o w', o = Returned tt ∧ recorded rs w' ∧
    ∃ out, lw_out w' = lw_out w ++ out ∧ good_report label (fed s rs) out) w.
Proof.
  intros Hrec Hlen. pose proof (fed_length s rs) as Hf. pose proof (Hrec s) as Hs. unfold tally in Hs.
  destruct (fed s rs) as [|r rs'] eqn:E.
  - unfold report. wp_call_intro n w1 H1. injection H1 as <- <-. rewrite Hs. cbn. apply wp_ret.
    split_and!; [done..|]. exists []. by rewrite app_nil_r.
  - eapply wp_mono.
    + apply (report_run s label w (map duration (r :: rs')) (errors (r :: rs'))); [|done|].
      * by rewrite length_map.
      * rewrite length_map. lia.
    + cbn beta. intros o w' (-> & Hst & _ & args & Ho & Hg). split_and!; [done| |].
      * intros s'. unfold stats_of. rewrite Hst. apply Hrec.
      * exists [(report_format, args)]. split; [done|]. by exists args.
Qed.

(** The results of one operation. *)
Definition of_op (o : string) (rs : list result) : list result := filter (λ r, op r = o) rs.
Definition calls_of (o : string) (rs : list result) : Z := Z.of_nat (length (of_op o rs)).

Lemma fed_total rs : fed total rs = rs.
Proof. apply filter_all, Forall_forall. intros r _. by left. Qed.

Lemma fed_op s o rs :
  (s, o) ∈ [(createUserStats, "CreateUser"); (getUserStats, "GetUser");
            (createOrderStats, "CreateOrder"); (getOrderStats, "GetOrder")] →
  fed s rs = of_op o rs.
Proof.
  intros Hs. apply list_filter_iff. intros r. unfold feeds.
  repeat (apply elem_of_cons in Hs as [[= -> ->]|Hs];
    [unfold total, createUserStats, getUserStats, createOrderStats, getOrderStats; intuition congruence|]).
  by apply elem_of_nil in Hs.
Qed.

Lemma two_ops_length o o' rs :
  o ≠ o' → (length (of_op o rs) + length (of_op o' rs) ≤ length rs)%nat.
Proof.
  intros Ho. unfold of_op. induction rs as [|r rs IH]; [done|]. rewrite !filter_cons.
  destruct (decide (op r = o)), (decide (op r = o')); cbn [length]; try congruence; lia.
Qed.

Lemma two_ops_int64 o o' rs :
  o ≠ o' → (Z.of_nat (length rs) < 2 ^ 45)%Z →
  to_int64 (calls_of o rs + calls_of o' rs) = (calls_of o rs + calls_of o' rs)%Z.
Proof.
  intros Ho Hlen. pose proof (two_ops_length o o' rs Ho). unfold calls_of.
  apply to_int64_id. unfold is_int64. lia.
Qed.

(** The last line, for [w] writes and [r] reads among [n] calls. *)
Definition totals_args (w r n : Z) : list fmt_arg :=
  let percent x := FFloat (f64_mul (f64_div (f64_of_int x) (f64_of_int n)) (f64_of_int 100)) in
  [FInt w; percent w; FInt r; percent r; FInt n].

(** What [summary] prints for the results [rs]. *)
Definition good_summary (rs : list result) (out : list (string * list fmt_arg)) : Prop :=
  ∃ hdr l0 l1 l2 l3 l4 last_format,
    out = hdr ++ l0 ++ l1 ++ l2 ++ l3 ++ l4 ++ [(last_format,
      totals_args (calls_of "CreateUser" rs + calls_of "CreateOrder" rs)
        (calls_of "GetUser" rs + calls_of "GetOrder" rs) (Z.of_nat (length rs)))] ∧
    length hdr = 7 ∧ good_report "TOTAL" rs l0 ∧
    good_report "CreateUser" (of_op "CreateUser" rs) l1 ∧
    good_report "GetUser" (of_op "GetUser" rs) l2 ∧
    good_report "CreateOrder" (of_op "CreateOrder" rs) l3 ∧
    good_report "GetOrder" (of_op "GetOrder" rs) l4.

Ltac report_step Hrec Hlen out Ho Hg :=
  wp_pure; eapply wp_mono; [apply (report_recorded _ _ _ _ Hrec Hlen)|]; cbn beta;
  clear Hrec; intros ? ? (-> & Hrec & out & Ho & Hg); cbn beta iota.

Ltac read_count Hrec :=
  let cnt := fresh in let w1 := fresh in let H1 := fresh in
  wp_call_intro cnt w1 H1; injection H1 as <- <-; rewrite Hrec.

Lemma summary_run start vus writeRatio rs w :
  recorded rs w → (Z.of_nat (length rs) < 2 ^ 45)%Z →
  wp load_env (summary start vus writeRatio) (λ o w', o = Returned tt ∧
    ∃ out, lw_out w' = lw_out w ++ out ∧ good_summary rs out) w.
Proof.
  intros Hrec Hlen. unfold summary, println. wp_call_intro now w1 H1. injection H1 as <- <-.
  do 7 (wp_call_intro u w1 H1; injection H1 as _ <-; clear u).
  set (w1 := mkLoad _ _ _). assert (recorded rs w1) as Hrec1 by exact Hrec.
  assert (∃ hdr, lw_out w1 = lw_out w ++ hdr ∧ length hdr = 7%nat) as (hdr & Hhdr & Hh7).
  { eexists. unfold w1. cbn [lw_out]. rewrite <-!app_assoc. split; [reflexivity|]. by vm_compute. }
  clearbody w1.
  report_step Hrec1 Hlen l0 Ho0 Hg0. report_step Hrec1 Hlen l1 Ho1 Hg1.
  report_step Hrec1 Hlen l2 Ho2 Hg2. report_step Hrec1 Hlen l3 Ho3 Hg3.
  report_step Hrec1 Hlen l4 Ho4 Hg4.
  do 5 read_count Hrec1. wp_call_intro u w1' H1. injection H1 as _ <-.
  rewrite fed_total in Hg0.
  rewrite (fed_op createUserStats "CreateUser") in Hg1 |- * by set_solver.
  rewrite (fed_op getUserStats "GetUser") in Hg2 |- * by set_solver.
  rewrite (fed_op createOrderStats "CreateOrder") in Hg3 |- * by set_solver.
  rewrite (fed_op getOrderStats "GetOrder") in Hg4 |- * by set_solver.
  rewrite fed_total. split; [by destruct u|]. cbn [lw_out count tally].
  fold (calls_of "CreateUser" rs) (calls_of "CreateOrder" rs) (calls_of "GetUser" rs) (calls_of "GetOrder" rs).
  rewrite !two_ops_int64 by done. eexists. split.
  { rewrite Ho4, Ho3, Ho2, Ho1, Ho0, Hhdr, <-!app_assoc. reflexivity. }
  unfold good_summary. exists hdr, l0, l1, l2, l3, l4. eexists. split_and!; done.
Qed.

(** The consumer, and then the summary. *)
Lemma consumer_summary_run rs n start vus writeRatio w :
  lw_stats w = ∅ → lw_queue w = rs → (length rs < n)%nat → (Z.of_nat (length rs) < 2 ^ 45)%Z →
  ∃ w', run load_env (consumer n ≫= λ _, summary start vus writeRatio) w = (Returned tt, w') ∧
    ∃ out, lw_out w' = lw_out w ++ out ∧ good_summary rs out.
Proof.
  intros Hst Hq Hn Hlen.
  assert (wp load_env (consumer n ≫= λ _, summary start vus writeRatio) (λ o w', o = Returned tt ∧
    ∃ out, lw_out w' = lw_out w ++ out ∧ good_summary rs out) w) as Hwp.
  { apply wp_bind. eapply wp_mono.
    - apply (consumer_run rs n []); [|done..]. intros s. unfold stats_of. by rewrite Hst.
    - intros o w1 (-> & Hrec & _ & Ho). cbn beta iota. rewrite <-Ho. by apply summary_run. }
  destruct (run _ _ w) as [o w'] eqn:Hr. destruct (wp_run _ _ _ _ _ _ Hwp Hr) as [-> Hout]. eauto.
Qed.

(** Forty results, one of them slow and failed. *)
Definition sample : list result :=
  mkResult 900000000 true "CreateOrder" :: replicate 39 (mkResult 2000000 false "GetUser").

(** ** The race with the consumer *)

(** C40: Nothing makes main wait for the consumer: from fresh statistics and any non-empty
    queue of results there is an interleaving in which main reads the count of a result
    whose duration is not yet recorded and panics with an integer division by zero. *)
Theorem report_race r rs n start vus writeRatio w :
  lw_stats w = ∅ → lw_queue w = r :: rs →
  ∃ ts' w', rtc (mstep (λ _, load_env)) ([consumer (S n); summary start vus writeRatio], w) (ts', w') ∧
    ts' !! 1 = Some (Panic "integer divide by zero").
Proof.
  intros Hst Hq.
  destruct (mschedule (λ _, load_env) ([0; 0] ++ replicate 12 1)
    [consumer (S n); summary start vus writeRatio] w) as [ts' w'] eqn:E.
  exists ts', w'. split; [rewrite <-E; apply mschedule_steps|].
  destruct w as [st q out]. cbn in Hst, Hq. subst st q. destruct r as [d e o].
  cbn in E. injection E as <- _. reflexivity.
Qed.

Lemma report_race_witness :
  ∃ ts' w', rtc (mstep (λ _, load_env)) ([consumer 41; summary 0 10 c095], mkLoad ∅ sample []) (ts', w') ∧
    ts' !! 1 = Some (Panic "integer divide by zero").
Proof. by eapply (report_race _ _ 40 0 10 c095 (mkLoad ∅ sample [])). Defined.
