(* ===== verification/LoadTestWorkers.v ===== *)
(** * The virtual users of the load test

    What a virtual user does on every run, whatever its calls answer: each turn
    it completes sends one result, of one of the four operations and with the
    error flag of its one call, and however it ends it is counted out of the
    wait group. *)
From S2P Require Import Prelude.
From S2P Require Import GoStrings.
From S2P Require Import GoFloat.
From S2P Require Import Proto.
From S2P Require Import GoRuntime.
From S2P Require Import External.
From S2P Require Import Grpc.
From S2P Require Import GrpcStubs.
From S2P Require Import LoadTest.
From S2P Require Import LoadTestProofs.
Import loadtest.

(** ** All traces of a program *)

Definition traces {A} (p : go A) (Q : list (event extres) → outcome A → Prop) : Prop :=
  ∀ tr o, exec p tr o → Q tr o.

Lemma traces_ret {A} (a : A) (Q : list (event extres) → outcome A → Prop) : Q [] (Returned a) → traces (mret a) Q.
Proof. intros HQ tr o [-> ->]. done. Qed.

Lemma traces_panic {A} s (Q : list (event extres) → outcome A → Prop) : Q [] (Panicked s) → traces (Panic s) Q.
Proof. intros HQ tr o [-> ->]. done. Qed.

Lemma traces_call {A} c (f : extres c → go A) (Q : list (event extres) → outcome A → Prop) :
  (∀ r, traces (f r) (λ tr o, Q (Ev c r :: tr) o)) → traces (gocall c ≫= f) Q.
Proof. intros Hf tr o (r & tr' & -> & He). by apply (Hf r). Qed.

Lemma traces_bind {A B} (p : go A) (f : A → go B) (Q : list (event extres) → outcome B → Prop) :
  traces p (λ tr1 o1, match o1 with
                      | Returned a => traces (f a) (λ tr2 o, Q (tr1 ++ tr2) o)
                      | Panicked s => Q tr1 (Panicked s)
                      end) →
  traces (p ≫= f) Q.
Proof.
  intros Hp tr o [(tr1 & a & tr2 & -> & H1 & H2)|(s & H1 & ->)]%exec_bind.
  - exact (Hp _ _ H1 _ _ H2).
  - exact (Hp _ _ H1).
Qed.

Lemma traces_mono {A} (p : go A) (P Q : list (event extres) → outcome A → Prop) :
  traces p P → (∀ tr o, P tr o → Q tr o) → traces p Q.
Proof. intros Hp HPQ tr o He. by apply HPQ, Hp. Qed.

Ltac traces_step :=
  lazymatch goal with
  | |- traces (mret _) _ => apply traces_ret
  | |- traces (Ret _) _ => apply traces_ret
  | |- traces (Panic _) _ => apply traces_panic
  | |- traces (gocall _ ≫= _) _ => apply traces_call; intros ?
  | |- traces (match ?x with _ => _ end) _ => destruct x eqn:?
  end; cbn beta iota.

(** ** What a trace tells *)

(** The results sent. *)
Fixpoint sends (tr : list (event extres)) : list result :=
  match tr with
  | [] => []
  | Ev c _ :: tr => match c with ChanSend d e op => mkResult d e op :: sends tr | _ => sends tr end
  end.

(** Whether each call to a service failed. *)
Definition rpc_failed (e : event extres) : list bool :=
  match e with
  | Ev c r =>
      match c return extres c → list bool with
      | GrpcInvoke _ _ _ _ _ => λ r, [match r with Fail _ => true | Ok _ => false end]
      | _ => λ _, []
      end r
  end.
Fixpoint rpcs (tr : list (event extres)) : list bool :=
  match tr with [] => [] | e :: tr => rpc_failed e ++ rpcs tr end.

(** The documented range of [rng.Intn]. *)
Definition intn_in_range (e : event extres) : Prop :=
  match e with
  | Ev c r =>
      match c return extres c → Prop with
      | RandIntn n => λ r, (0 ≤ r < n)%Z
      | _ => λ _, True
      end r
  end.

Definition is_done (e : event extres) : Prop := match e with Ev c _ => c = WgDone end.

Lemma sends_app tr1 tr2 : sends (tr1 ++ tr2) = sends tr1 ++ sends tr2.
Proof. induction tr1 as [|[[] r] tr1 IH]; cbn; by rewrite ?IH. Qed.
Lemma rpcs_app tr1 tr2 : rpcs (tr1 ++ tr2) = rpcs tr1 ++ rpcs tr2.
Proof. induction tr1 as [|e tr1 IH]; cbn; [done|]. by rewrite IH, app_assoc. Qed.

Definition operations : list string := ["CreateUser"; "GetUser"; "CreateOrder"; "GetOrder"].

(** ** One turn *)

(** A call that has nothing to do with the other goroutines of the load test. *)
Definition silent (c : extcall) : Prop :=
  match c with
  | ChanMake _ | ChanSend _ _ _ | ChanRecv | ChanClose | WgAdd | WgDone | WgWait | GoLoad _
  | LoadStats _ _ => False
  | _ => True
  end.

Lemma silent_trace {A} (p : go A) tr o :
  calls_only silent p → exec p tr o → sends tr = [] ∧ Forall (λ e, ¬ is_done e) tr.
Proof.
  intros Hp He. pose proof (calls_only_exec _ _ _ _ Hp He) as Hs. clear Hp He.
  induction Hs as [|[c r] tr Hc _ [IH1 IH2]]; [done|]. split.
  - by destruct c.
  - constructor; [|done]. cbn. by intros ->.
Qed.

Lemma stub_traces m ki ko c req :
  traces (invoke_stub m ki ko c req) (λ tr o, ∃ r, o = Returned r ∧ rpcs tr = [failed r]).
Proof.
  unfold invoke_stub. apply traces_call. intros [out|err]; apply traces_ret; by eexists.
Qed.

Lemma randomOp_traces writeRatio :
  traces (randomOp writeRatio) (λ tr o, rpcs tr = [] ∧ ∃ op, o = Returned op ∧ op ∈ operations).
Proof.
  unfold randomOp. repeat traces_step; (split; [done|]); eexists; (split; [done|]); set_solver.
Qed.

Lemma pick_traces ids :
  traces (pick ids) (λ tr o, rpcs tr = [] ∧
    match o with Returned _ => True | Panicked _ => ¬ Forall intn_in_range tr end).
Proof.
  unfold pick, at_index. repeat traces_step; (split; [done|]); try done;
    intros [Hi _]%Forall_cons_1; cbn in Hi.
  destruct (Z.leb_spec 0 r); [|lia].
  assert (is_Some (ids !! Z.to_nat r)) as [? Hs] by (apply lookup_lt_is_Some; lia). congruence.
Qed.

Lemma randomOp_silent writeRatio : calls_only silent (randomOp writeRatio).
Proof. unfold randomOp. repeat calls_only_step; done. Qed.

Lemma pick_silent ids : calls_only silent (pick ids).
Proof. unfold pick, at_index. repeat calls_only_step; done. Qed.

Lemma stub_silent m ki ko c req : calls_only silent (invoke_stub m ki ko c req).
Proof. unfold invoke_stub. repeat calls_only_step; done. Qed.

Lemma call_op_silent c id userIDs orderIDs op : calls_only silent (call_op c id userIDs orderIDs op).
Proof. unfold call_op. repeat calls_only_step; try done; first [apply pick_silent|apply stub_silent]. Qed.

(** Prepares the facts on a part of the trace for its continuation. *)
Ltac traces_part H :=
  apply traces_bind; eapply traces_mono; [apply H|cbn beta]; intros ? ?.

Lemma call_op_traces c id userIDs orderIDs op :
  traces (call_op c id userIDs orderIDs op) (λ tr o,
    match o with
    | Returned e => length (rpcs tr) ≤ 1 ∧ e = existsb (λ b, b) (rpcs tr)
    | Panicked _ => rpcs tr = [] ∧ ¬ Forall intn_in_range tr
    end).
Proof.
  assert (∀ m ki ko req (pre : list (event extres)), rpcs pre = [] →
    traces (r ← invoke_stub m ki ko c req; mret (failed r)) (λ tr o,
      match o with
      | Returned e => length (rpcs (pre ++ tr)) ≤ 1 ∧ e = existsb (λ b, b) (rpcs (pre ++ tr))
      | Panicked _ => rpcs (pre ++ tr) = [] ∧ ¬ Forall intn_in_range (pre ++ tr)
      end)) as Hstub.
  { intros m ki ko req pre Hpre. traces_part (stub_traces m ki ko c req). intros (r & -> & Hr).
    apply traces_ret. rewrite !rpcs_app, Hpre, Hr. cbn. by rewrite orb_false_r. }
  unfold call_op, userv1_grpc.userServiceClient_CreateUser, userv1_grpc.userServiceClient_GetUser,
    orderv1_grpc.orderServiceClient_CreateOrder, orderv1_grpc.orderServiceClient_GetOrder.
  repeat (lazymatch goal with |- traces (if str_eqb _ _ then _ else _) _ => destruct (str_eqb _ _) end).
  - traces_step. exact (Hstub _ _ _ _ [Ev TimeNow r] eq_refl).
  - traces_part (pick_traces userIDs). destruct o as [uid|]; [|done]. intros [Hr _].
    by apply Hstub.
  - traces_part (pick_traces userIDs). destruct o as [uid|]; [|done]. intros [Hr _].
    traces_step. eapply traces_mono; [apply (Hstub _ MCreateOrderRequest MCreateOrderResponse _ (tr ++ [Ev (RandIntn 5) r]))|].
    + by rewrite rpcs_app, Hr.
    + intros tr2 o. cbn beta. by rewrite <-app_assoc.
  - traces_step; [|apply traces_ret; split; [cbn; lia|done]].
    traces_part (pick_traces orderIDs). destruct o as [oid|]; [|done]. intros [Hr _].
    by apply Hstub.
  - apply traces_ret. split; [cbn; lia|done].
Qed.

(** One turn, and whether there is another. *)
Lemma worker_turn_traces c id start dur writeRatio userIDs orderIDs :
  traces (worker_turn c id start dur writeRatio userIDs orderIDs) (λ tr o,
    Forall (λ e, ¬ is_done e) tr ∧ length (rpcs tr) ≤ 1 ∧
    match o with
    | Returned true => ∃ d op, sends tr = [mkResult d (existsb (λ b, b) (rpcs tr)) op] ∧ op ∈ operations
    | Returned false => sends tr = [] ∧ rpcs tr = []
    | Panicked _ => sends tr = [] ∧ rpcs tr = [] ∧ ¬ Forall intn_in_range tr
    end).
Proof.
  unfold worker_turn. apply traces_call. intros now. destruct (dur <=? now - start)%Z.
  { apply traces_ret. split_and!; [by repeat constructor|cbn; lia|done..]. }
  apply traces_bind. intros tr1 o1 He1.
  destruct (randomOp_traces _ _ _ He1) as (Hr1 & op & -> & Hop).
  destruct (silent_trace _ _ _ (randomOp_silent _) He1) as [Hs1 Hd1].
  apply traces_call. intros opStart. apply traces_bind. intros tr2 o2 He2.
  pose proof (call_op_traces _ _ _ _ _ _ _ He2) as Hc.
  destruct (silent_trace _ _ _ (call_op_silent _ _ _ _ _) He2) as [Hs2 Hd2].
  assert (∀ tr3 : list (event extres), Forall (λ e, ¬ is_done e) tr3 → Forall (λ e, ¬ is_done e)
    (Ev TimeNow now :: tr1 ++ Ev TimeNow opStart :: tr2 ++ tr3)) as Hd.
  { intros tr3 Hd3. constructor; [done|]. apply Forall_app_2; [done|].
    constructor; [done|]. by apply Forall_app_2. }
  destruct o2 as [e|s].
  - destruct Hc as [Hlen ->]. apply traces_call. intros now'. apply traces_call. intros u.
    apply traces_ret. split_and!.
    + apply Hd. by repeat constructor.
    + cbn. rewrite rpcs_app, Hr1. cbn. rewrite rpcs_app. cbn. by rewrite app_nil_r.
    + cbn. rewrite rpcs_app, sends_app, Hr1, Hs1. cbn. rewrite rpcs_app, sends_app, Hs2. cbn.
      rewrite app_nil_r. by eexists _, op.
  - split_and!.
    + specialize (Hd [] (Forall_nil_2 _)). by rewrite app_nil_r in Hd.
    + cbn. rewrite rpcs_app, Hr1. cbn. destruct Hc as [-> _]. cbn. lia.
    + cbn. by rewrite sends_app, Hs1.
    + cbn. rewrite rpcs_app, Hr1. cbn. apply Hc.
    + intros Hin. apply Hc. apply Forall_cons_1 in Hin as [_ Hin].
      apply Forall_app in Hin as [_ Hin]. by apply Forall_cons_1 in Hin as [_ Hin].
Qed.

(** ** A virtual user *)

(** The failed calls to the services. *)
Definition failures (tr : list (event extres)) : Z :=
  Z.of_nat (length (filter (λ b, b = true) (rpcs tr))).

(** Every result is of one of the operations, and the failed ones are as many
    as the failed calls. *)
Definition honest (tr : list (event extres)) : Prop :=
  Forall (λ r, op r ∈ operations) (sends tr) ∧ errors (sends tr) = failures tr.

Lemma errors_app rs1 rs2 : errors (rs1 ++ rs2) = (errors rs1 + errors rs2)%Z.
Proof. unfold errors. rewrite filter_app, length_app. lia. Qed.
Lemma failures_app tr1 tr2 : failures (tr1 ++ tr2) = (failures tr1 + failures tr2)%Z.
Proof. unfold failures. rewrite rpcs_app, filter_app, length_app. lia. Qed.

Lemma honest_app tr1 tr2 : honest tr1 → honest tr2 → honest (tr1 ++ tr2).
Proof.
  intros [H1 E1] [H2 E2]. split; [rewrite sends_app; by apply Forall_app_2|].
  rewrite sends_app, errors_app, failures_app. lia.
Qed.

Lemma honest_silent tr : sends tr = [] → rpcs tr = [] → honest tr.
Proof. intros Hs Hr. unfold honest, failures. by rewrite Hs, Hr. Qed.

Lemma honest_turn tr d op :
  sends tr = [mkResult d (existsb (λ b, b) (rpcs tr)) op] → op ∈ operations →
  length (rpcs tr) ≤ 1 → honest tr.
Proof.
  intros Hs Hop Hlen. unfold honest, failures. rewrite Hs. split; [by apply Forall_singleton|].
  destruct (rpcs tr) as [|[] [|]]; cbn in *; [done..|lia| |lia]; done.
Qed.

Lemma worker_loop_traces n c id start dur writeRatio userIDs orderIDs :
  traces (worker_loop n c id start dur writeRatio userIDs orderIDs) (λ tr o,
    Forall (λ e, ¬ is_done e) tr ∧ honest tr ∧ length (sends tr) ≤ n ∧
    match o with
    | Returned again => again = true → length (sends tr) = n
    | Panicked _ => ¬ Forall intn_in_range tr
    end).
Proof.
  induction n as [|n IH]; cbn [worker_loop].
  { apply traces_ret. by split_and!. }
  traces_part (worker_turn_traces c id start dur writeRatio userIDs orderIDs).
  destruct o as [[]|]; intros (Hd & Hlen & Ho).
  - destruct Ho as (d & op & Hs & Hop). eapply traces_mono; [apply IH|]. cbn beta.
    intros tr2 o (Hd2 & Hh2 & Hlen2 & Ho2). split_and!.
    + by apply Forall_app_2.
    + apply honest_app; [by eapply honest_turn|done].
    + rewrite sends_app, Hs. cbn. lia.
    + rewrite sends_app, Hs. destruct o; cbn.
      * intros Ha. by rewrite Ho2.
      * intros Hin. apply Ho2. by apply Forall_app in Hin as [_ Hin].
  - destruct Ho as [Hs Hr]. apply traces_ret. rewrite app_nil_r, Hs.
    split_and!; [done|by apply honest_silent|cbn; lia|done].
  - destruct Ho as (Hs & Hr & Hin). rewrite Hs.
    split_and!; [done|by apply honest_silent|cbn; lia|done].
Qed.

(** A complete trace of at most [n] turns: the last call, and no other, leaves
    the wait group. *)
Definition good_trace (n : nat) (tr : list (event extres)) (o : outcome bool) : Prop :=
  (∃ pre, tr = pre ++ [Ev WgDone tt] ∧ Forall (λ e, ¬ is_done e) pre) ∧
  honest tr ∧ length (sends tr) ≤ n ∧
  match o with
  | Returned again => again = true → length (sends tr) = n
  | Panicked _ => ¬ Forall intn_in_range tr
  end.

(** A virtual user's whole run. *)
Lemma worker_traces n c id start dur writeRatio userIDs orderIDs :
  traces (worker n c id start dur writeRatio userIDs orderIDs) (good_trace n).
Proof.
  intros tr o He. apply exec_defer in He as (tr1 & o1 & tr2 & -> & He & Hd).
  destruct Hd as [[Hd ->]|(s & (r & tr' & _ & [_ ?]) & _)]; [|done].
  destruct Hd as ([] & tr' & -> & -> & _). destruct He as (now & tr & -> & He).
  destruct (worker_loop_traces _ _ _ _ _ _ _ _ _ _ He) as (Hnd & Hh & Hlen & Ho).
  assert (sends ((Ev TimeNow now :: tr) ++ [Ev WgDone tt]) = sends tr) as Hs.
  { cbn. rewrite sends_app. cbn. by rewrite app_nil_r. }
  unfold good_trace. rewrite Hs. split_and!; [| |done|].
  - exists (Ev TimeNow now :: tr). split; [done|]. by constructor.
  - apply honest_app; [|by apply honest_silent]. by apply (honest_app [Ev TimeNow now]); [apply honest_silent|].
  - destruct o1; [done|]. intros Hin. apply Ho.
    apply Forall_app in Hin as [Hin _]. by apply Forall_cons_1 in Hin as [_ Hin].
Qed.

(** However a virtual user ends, its last call, and no other, leaves the wait
    group; it sends at most one result per turn, exactly one if it returns, and
    it panics only on a random index out of range. *)
Theorem worker_done n c id start dur writeRatio userIDs orderIDs tr o :
  exec (worker n c id start dur writeRatio userIDs orderIDs) tr o →
  (∃ pre, tr = pre ++ [Ev WgDone tt] ∧ Forall (λ e, ¬ is_done e) pre) ∧
  length (sends tr) ≤ n ∧ (o = Returned true → length (sends tr) = n) ∧
  (Forall intn_in_range tr → ∃ again, o = Returned again).
Proof.
  intros He. destruct (worker_traces _ _ _ _ _ _ _ _ _ _ He) as (Hd & _ & Hlen & Ho).
  split_and!; [done|done| |].
  - intros ->. by apply Ho.
  - intros Hin. destruct o; [eauto|]. by destruct (Ho Hin).
Qed.

(** A virtual user whose every call fails, for two turns. *)
Definition alone : env unit := λ c w, (default_answer c, w).
Definition user0 : go bool := worker 2 CtxBackground 0 0 1 c095 ["u1"] [].
Definition trace0 : list (event extres) := trace alone user0 tt.

Lemma worker_done_witness :
  length (sends trace0) = 2 ∧
  (∃ pre, trace0 = pre ++ [Ev WgDone tt] ∧ Forall (λ e, ¬ is_done e) pre) ∧
  length (sends trace0) ≤ 2 ∧
  ((run alone user0 tt).1 = Returned true → length (sends trace0) = 2) ∧
  (Forall intn_in_range trace0 → ∃ again, (run alone user0 tt).1 = Returned again).
Proof.
  split; [by vm_compute|]. apply (worker_done 2 CtxBackground 0 0 1 c095 ["u1"] []). apply run_exec.
Defined.

(** ** The whole load test *)

(** The results of workers that may have made any number of turns. *)
Definition worker_of (tr : list (event extres)) : Prop :=
  ∃ n c id start dur writeRatio userIDs orderIDs o,
    exec (worker n c id start dur writeRatio userIDs orderIDs) tr o.

Lemma errors_perm rs1 rs2 : rs1 ≡ₚ rs2 → errors rs1 = errors rs2.
Proof. intros Hp. unfold errors. by rewrite Hp. Qed.

Lemma workers_honest trs :
  Forall worker_of trs → honest (concat trs) ∧ sends (concat trs) = concat (map sends trs) ∧
    failures (concat trs) = sum (map failures trs).
Proof.
  induction 1 as [|tr trs Hw _ (Hh & Hs & Hf)]; [by split_and!|].
  destruct Hw as (n & c & id & start & dur & wr & us & os & o & He).
  destruct (worker_traces _ _ _ _ _ _ _ _ _ _ He) as (_ & Hh1 & _ & _). cbn [concat map sum].
  split_and!; [by apply honest_app|by rewrite sends_app, Hs|by rewrite failures_app, Hf].
Qed.

Lemma all_operations rs :
  Forall (λ r, op r ∈ operations) rs →
  (calls_of "CreateUser" rs + calls_of "CreateOrder" rs + (calls_of "GetUser" rs + calls_of "GetOrder" rs) =
    Z.of_nat (length rs))%Z.
Proof.
  unfold calls_of, of_op. induction 1 as [|r rs Hop _ IH]; [done|]. rewrite !filter_cons.
  unfold operations in Hop. rewrite !elem_of_cons, elem_of_nil in Hop.
  destruct Hop as [E|[E|[E|[E|[]]]]]; repeat case_decide; try congruence; cbn [length]; lia.
Qed.

(** C39: When the consumer has received, in any order, the results sent in any runs of the
    load-test workers before main reads the statistics, the summary prints for all
    results and for each operation the exact count, the nearest-rank 95th and 99th
    percentiles, the upper median, the mean and the error rate of the durations
    received, and no line for an operation without results; the errors counted are the
    calls that failed, and writes plus reads are the total. *)
Theorem load_test_accounts trs rs n start vus writeRatio w :
  Forall worker_of trs → rs ≡ₚ concat (map sends trs) →
  lw_stats w = ∅ → lw_queue w = rs → (length rs < n)%nat → (Z.of_nat (length rs) < 2 ^ 45)%Z →
  ∃ w' out, run load_env (consumer n ≫= λ _, summary start vus writeRatio) w = (Returned tt, w') ∧
    lw_out w' = lw_out w ++ out ∧ good_summary rs out ∧ errors rs = sum (map failures trs) ∧
    (calls_of "CreateUser" rs + calls_of "CreateOrder" rs +
      (calls_of "GetUser" rs + calls_of "GetOrder" rs) = Z.of_nat (length rs))%Z.
Proof.
  intros Hw Hp Hst Hq Hn Hlen. destruct (workers_honest trs Hw) as ([Hops He] & Hs & Hf).
  destruct (consumer_summary_run rs n start vus writeRatio w Hst Hq Hn Hlen) as (w' & Hr & out & Ho & Hg).
  exists w', out. rewrite Hs in Hops, He. split_and!; [done..| |].
  - by rewrite (errors_perm _ _ Hp), He, Hf.
  - apply all_operations. by rewrite Hp.
Qed.

Lemma load_test_accounts_witness :
  let rs := sends trace0 in
  ∃ w' out, run load_env (consumer 3 ≫= λ _, summary 0 1 c095) (mkLoad ∅ rs []) = (Returned tt, w') ∧
    lw_out w' = [] ++ out ∧ good_summary rs out ∧ errors rs = sum (map failures [trace0]) ∧
    (calls_of "CreateUser" rs + calls_of "CreateOrder" rs +
      (calls_of "GetUser" rs + calls_of "GetOrder" rs) = Z.of_nat (length rs))%Z.
Proof.
  apply (load_test_accounts [trace0] (sends trace0) 3 0 1 c095 (mkLoad ∅ (sends trace0) []));
    [|by cbn [map concat]; rewrite app_nil_r|done|done|vm_compute; lia|by vm_compute].
  apply Forall_singleton. exists 2%nat, CtxBackground, 0%Z, 0%Z, 1%Z, c095, ["u1"], []. eexists. apply run_exec.
Defined.
