(* ===== verification/LoadTestRun.v ===== *)
(** * The goroutines of the load test

    [main], the consumer and the virtual users of [scripts/loadtest/main.go] run
    side by side over the channel of results, the wait group and the locks of
    the statistics.  Calls of [sync] and of channels wait, or are run-time
    errors, as the Go specification says; every other call may answer anything.
    Nobody uses the channel or the wait group wrongly, somebody can always go
    on until [main] has ended, and every run ends. *)
From S2P Require Import Prelude.
From S2P Require Import GoStrings.
From S2P Require Import GoFloat.
From S2P Require Import Proto.
From S2P Require Import GoRuntime.
From S2P Require Import External.
From S2P Require Import Typestate.
From S2P Require Import Grpc.
From S2P Require Import GrpcStubs.
From S2P Require Import LoadTest.
From S2P Require Import LoadTestProofs.
From S2P Require Import LoadTestWorkers.
From stdpp Require Import relations.
Import loadtest.

(** ** Shared objects *)

(** The channel (nil before [make]) with its results and its capacity, the
    counter of the wait group, and the locks taken. *)
Record shared := mkShared {
  sh_cap : option Z;
  sh_queue : list result;
  sh_closed : bool;
  sh_wg : nat;
  sh_locks : gset nat
}.

Definition shared0 : shared := mkShared None [] false 0 ∅.

Definition set_queue (q : list result) (sh : shared) : shared :=
  mkShared (sh_cap sh) q (sh_closed sh) (sh_wg sh) (sh_locks sh).
Definition set_wg (n : nat) (sh : shared) : shared :=
  mkShared (sh_cap sh) (sh_queue sh) (sh_closed sh) n (sh_locks sh).
Definition set_locks (l : gset nat) (sh : shared) : shared :=
  mkShared (sh_cap sh) (sh_queue sh) (sh_closed sh) (sh_wg sh) l.

(** The state after a call that answers [r], or nothing if it cannot. *)
Definition effect (sh : shared) (c : extcall) : extres c → option shared :=
  match c return extres c → option shared with
  | ChanMake n => λ _, Some (mkShared (Some n) [] false (sh_wg sh) (sh_locks sh))
  | ChanSend d e o => λ _,
      match sh_cap sh with
      | Some n =>
          if negb (sh_closed sh) && bool_decide (Z.of_nat (length (sh_queue sh)) < n)%Z
          then Some (set_queue (sh_queue sh ++ [mkResult d e o]) sh) else None
      | None => None
      end
  | ChanRecv => λ r,
      match r, sh_queue sh with
      | Some (d, e, o), x :: q =>
          if bool_decide (d = duration x ∧ e = err x ∧ o = op x) then Some (set_queue q sh) else None
      | None, [] => if sh_closed sh then Some sh else None
      | _, _ => None
      end
  | ChanClose => λ _,
      match sh_cap sh with
      | Some n =>
          if sh_closed sh then None
          else Some (mkShared (Some n) (sh_queue sh) true (sh_wg sh) (sh_locks sh))
      | None => None
      end
  | WgAdd => λ _, Some (set_wg (S (sh_wg sh)) sh)
  | WgDone => λ _, match sh_wg sh with S n => Some (set_wg n sh) | O => None end
  | WgWait => λ _, match sh_wg sh with O => Some sh | S _ => None end
  | LoadStats s a => λ _,
      match a with
      | StatsLock => if decide (s ∈ sh_locks sh) then None else Some (set_locks ({[s]} ∪ sh_locks sh) sh)
      | StatsUnlock => if decide (s ∈ sh_locks sh) then Some (set_locks (sh_locks sh ∖ {[s]}) sh) else None
      | _ => Some sh
      end
  | _ => λ _, Some sh
  end.

(** The run-time errors of these calls: a send on a closed channel, a second
    close, a nil channel, a negative counter, an unlock of what is not locked. *)
Definition misuse (sh : shared) (c : extcall) : Prop :=
  match c with
  | ChanSend _ _ _ | ChanClose => sh_closed sh = true ∨ sh_cap sh = None
  | ChanRecv => sh_cap sh = None
  | WgDone => sh_wg sh = 0
  | LoadStats s StatsUnlock => s ∉ sh_locks sh
  | _ => False
  end.

(** ** Steps *)

Definition body {A} (p : go A) : go unit := p ≫= λ _, mret tt.

Section Run.
(** The turns of a virtual user, and of the consumer. *)
Context (turns fuel : nat).

(** What a goroutine of [main] runs; the variables it captures may be any. *)
Definition starts (t : load_thread) (p : go unit) : Prop :=
  match t with
  | LoadConsumer => p = consumer fuel
  | LoadWorker id => ∃ c start dur writeRatio userIDs orderIDs,
      p = body (worker turns c id start dur writeRatio userIDs orderIDs)
  end.
Definition spawned (c : extcall) (new : list (go unit)) : Prop :=
  match c with GoLoad t => ∃ p, new = [p] ∧ starts t p | _ => new = [] end.

Inductive rstep : list (go unit) * shared → list (go unit) * shared → Prop :=
| rstep_call ts sh i c k r sh' new :
    ts !! i = Some (Call c k) → effect sh c r = Some sh' → spawned c new →
    rstep (ts, sh) (<[i := k r]> ts ++ new, sh').

(** The process has ended: [main] has, or a goroutine has panicked. *)
Definition over (ts : list (go unit)) : Prop :=
  (∃ u, ts !! 0 = Some (Ret u)) ∨ ∃ i m, ts !! i = Some (Panic m).

Definition misused (ts : list (go unit)) (sh : shared) : Prop :=
  ∃ i c k, ts !! i = Some (Call c k) ∧ misuse sh c.

(** ** What each goroutine does *)

(** The part of [main] after each call, with the users to start; the consumer
    with the results received, the lock it holds and whether the channel is
    open; a virtual user with the turns left, until it leaves the wait group. *)
Inductive phase : Type :=
| Fresh | Made | Spawning (m : nat) | Adding (m : nat) | Waited | Closed (lock : option nat).
Inductive role : Type :=
| Loading (ph : phase)
| Consuming (k : nat) (lock : option nat) (open : bool)
| Working (left : nat) (inside : bool).

Context (users : nat).

Definition protocol (ρ : role) (c : extcall) : extres c → option role :=
  match c return extres c → option role with
  | ChanMake n => λ _,
      match ρ with
      | Loading Fresh => if bool_decide (0 < n)%Z then Some (Loading Made) else None
      | _ => None
      end
  | ChanSend _ _ _ => λ _, match ρ with Working (S n) true => Some (Working n true) | _ => None end
  | ChanRecv => λ r,
      match ρ with
      | Consuming k None true =>
          Some (match r with Some _ => Consuming (S k) None true | None => Consuming k None false end)
      | _ => None
      end
  | ChanClose => λ _, match ρ with Loading Waited => Some (Loading (Closed None)) | _ => None end
  | WgAdd => λ _, match ρ with Loading (Spawning (S m)) => Some (Loading (Adding m)) | _ => None end
  | WgDone => λ _, match ρ with Working n true => Some (Working n false) | _ => None end
  | WgWait => λ _, match ρ with Loading (Spawning 0) => Some (Loading Waited) | _ => None end
  | GoLoad LoadConsumer => λ _,
      match ρ with Loading Made => Some (Loading (Spawning users)) | _ => None end
  | GoLoad (LoadWorker _) => λ _,
      match ρ with Loading (Adding m) => Some (Loading (Spawning m)) | _ => None end
  | LoadStats s a => λ _,
      match a, ρ with
      | StatsLock, Loading (Closed None) => Some (Loading (Closed (Some s)))
      | StatsLock, Consuming k None o => Some (Consuming k (Some s) o)
      | StatsUnlock, Loading (Closed (Some s')) =>
          if bool_decide (s = s') then Some (Loading (Closed None)) else None
      | StatsUnlock, Consuming k (Some s') o =>
          if bool_decide (s = s') then Some (Consuming k None o) else None
      | (StatsLock | StatsUnlock), _ | _, Working _ _ => None
      | _, _ => Some ρ
      end
  | _ => λ _, Some ρ
  end.

(** How a goroutine may end. *)
Definition role_done (ρ : role) : Prop :=
  match ρ with
  | Loading _ => True
  | Consuming k lock open => lock = None ∧ (open = true → fuel ≤ k)
  | Working _ inside => inside = false
  end.
Definition ends {A} (o : outcome A) (ρ : role) : Prop :=
  match o with Returned _ => role_done ρ | Panicked _ => True end.

Abbreviation plays ρ p Q := (obeys protocol ρ p Q).

#[local] Instance silent_dec c : Decision (silent c).
Proof. unfold silent. destruct c; apply _. Defined.

Lemma silent_protocol ρ c r : silent c → protocol ρ c r = Some ρ.
Proof. by destruct c. Qed.

(** Nothing but calls of its own. *)
Lemma plays_silent {A} ρ (p : go A) : calls_only silent p → plays ρ p (λ _ ρ', ρ' = ρ).
Proof.
  intros Hp. apply obeys_neutral. eapply calls_only_mono; [|exact Hp]. intros c Hc r.
  by apply silent_protocol.
Qed.

Lemma plays_body {A} ρ (p : go A) : plays ρ p ends → plays ρ (body p) ends.
Proof. intros Hp. apply obeys_bind. eapply obeys_mono; [exact Hp|]. by intros []. Qed.

(** The next call, which leads to one state. *)
#[local] Ltac play :=
  eapply obeys_call_bind; [intros ?; cbn; rewrite ?bool_decide_true by done; reflexivity|intros ?].

(** ** The consumer and the virtual users *)

Lemma plays_add k o s d e :
  plays (Consuming k None o) (add s d e) (λ _ ρ, ρ = Consuming k None o).
Proof.
  unfold add. play. apply obeys_bind, (obeys_mono _ _ _ (λ _ ρ, ρ = Consuming k None o)).
  - destruct e; [|done]. by intros [].
  - intros [[]|m] ρ ->; [|done]. do 2 play. intros r'. cbn. by rewrite bool_decide_true.
Qed.

Lemma plays_consumer n k : k + n = fuel → plays (Consuming k None true) (consumer n) ends.
Proof.
  revert k. induction n as [|n IH]; intros k Hk; [cbn; split; [done|lia]|].
  cbn [consumer]. intros r. cbn [protocol]. destruct r as [[[d e] o]|]; [|done]. cbn beta iota.
  apply obeys_bind. eapply obeys_mono; [apply plays_add|]. intros [[]|m] ρ ->; [|done].
  apply obeys_bind, (obeys_mono _ _ _ (λ _ ρ, ρ = Consuming (S k) None true)).
  - repeat (case_match; [apply plays_add|]). done.
  - intros [[]|m] ρ ->; [|done]. apply IH. lia.
Qed.

Lemma plays_worker_turn l c id start dur writeRatio userIDs orderIDs :
  plays (Working (S l) true) (worker_turn c id start dur writeRatio userIDs orderIDs) (λ o ρ,
    match o with Returned true => ρ = Working l true | _ => ρ = Working (S l) true end).
Proof.
  unfold worker_turn. play. case_match; [done|].
  apply obeys_bind. eapply obeys_mono; [apply plays_silent, randomOp_silent|].
  intros [op|m] ρ ->; [|done]. play.
  apply obeys_bind. eapply obeys_mono; [apply plays_silent, call_op_silent|].
  intros [e|m] ρ ->; [|done]. by do 2 play.
Qed.

Lemma plays_worker_loop n c id start dur writeRatio userIDs orderIDs :
  plays (Working n true) (worker_loop n c id start dur writeRatio userIDs orderIDs)
    (λ _ ρ, ∃ l, ρ = Working l true).
Proof.
  induction n as [|n IH]; cbn [worker_loop]; [by exists 0|].
  apply obeys_bind. eapply obeys_mono; [apply plays_worker_turn|].
  intros [[]|m] ρ ->; [exact IH|by eexists|by eexists].
Qed.

Lemma plays_worker n c id start dur writeRatio userIDs orderIDs :
  plays (Working n true) (worker n c id start dur writeRatio userIDs orderIDs) ends.
Proof.
  unfold worker. apply obeys_defer. play.
  eapply obeys_mono; [apply plays_worker_loop|]. intros o ρ [l ->]. by destruct o.
Qed.

(** ** [main] *)

Lemma plays_start_workers m i :
  plays (Loading (Spawning m)) (start_workers m i) (λ o ρ, o = Returned tt ∧ ρ = Loading (Spawning 0)).
Proof. revert i. induction m as [|m IH]; intros i; [done|].
  cbn [start_workers]. do 2 play. apply IH. Qed.

(** Programs that keep the part of [main]. *)
Definition keeps (ρ : role) (c : extcall) : Prop := ∀ r, protocol ρ c r = Some ρ.

Lemma plays_keeps {A} ρ (p : go A) : calls_only (keeps ρ) p → plays ρ p (λ _ ρ', ρ' = ρ).
Proof. apply obeys_neutral. Qed.

Lemma plays_report s label :
  plays (Loading (Closed None)) (report s label) (λ _ ρ, ρ = Loading (Closed None)).
Proof.
  unfold report. play. case_match; [done|]. do 3 play. apply plays_keeps. cbn beta zeta iota.
  unfold div64, at_index. repeat first [calls_only_step|by intros ?].
Qed.

Lemma plays_then {A B} ρ ρ' (p : go A) (f : A → go B) Q :
  plays ρ p (λ _ ρ1, ρ1 = ρ') → (∀ a, plays ρ' (f a) Q) → (∀ m, Q (Panicked m) ρ') →
  plays ρ (p ≫= f) Q.
Proof.
  intros Hp Hf HQ. apply obeys_bind. eapply obeys_mono; [exact Hp|]. by intros [] ? ->.
Qed.

Lemma plays_summary start vus writeRatio :
  plays (Loading (Closed None)) (summary start vus writeRatio) (λ _ ρ, ρ = Loading (Closed None)).
Proof.
  unfold summary, println.
  repeat (eapply plays_then; [first [apply plays_report|apply plays_keeps; split; [by intros ?|done]]|intros ?|done]).
  apply plays_keeps. by split.
Qed.

Lemma create_users_silent n c i ids : calls_only silent (create_users n c i ids).
Proof.
  revert i ids. induction n as [|n IH]; intros i ids; cbn [create_users]; [done|].
  repeat (done || apply IH || apply stub_silent || calls_only_step).
Qed.

Lemma create_orders_silent n c i us ids : calls_only silent (create_orders n c i us ids).
Proof.
  revert i ids. induction n as [|n IH]; intros i ids; cbn [create_orders]; [done|].
  unfold at_index. repeat (done || apply IH || apply stub_silent || calls_only_step).
Qed.

Lemma plays_load vus writeRatio :
  users = Z.to_nat vus → is_int64 (vus * 100) →
  plays (Loading Fresh) (load vus writeRatio) ends.
Proof.
  intros Hu Hv. assert (mul64 vus 2 = vus * 2)%Z as Hm2.
  { unfold mul64. apply to_int64_id. unfold is_int64 in *. lia. }
  assert (mul64 vus 100 = vus * 100)%Z as Hm100 by by apply to_int64_id.
  unfold load, println. cbn zeta. rewrite Hm2, Hm100. clear Hm2 Hm100. play.
  destruct (Z.le_gt_cases vus 0) as [Hneg|Hpos].
  { replace (Z.to_nat (vus * 2)) with 0%nat by lia. by do 2 play. }
  eapply plays_then; [apply plays_silent, create_users_silent|intros userIDs|done].
  play. destruct (length userIDs =? 0)%nat; [by play|]. play.
  eapply plays_then; [apply plays_silent, create_orders_silent|intros orderIDs|done].
  do 2 play. unfold make_chan. destruct (Z.ltb_spec (vus * 100) 0); [lia|].
  eapply obeys_call_bind; [intros ?; cbn; by rewrite bool_decide_true by lia|intros _].
  play. apply obeys_bind. rewrite <-Hu. eapply obeys_mono; [apply plays_start_workers|].
  intros o ρ [-> ->]. do 2 play. eapply plays_then; [apply plays_summary|done|done].
Qed.

(** What [main] starts plays its part. *)
Lemma starts_plays t p :
  starts t p → plays (match t with LoadConsumer => Consuming 0 None true | LoadWorker _ => Working turns true end) p ends.
Proof.
  destruct t as [|id]; unfold starts; [intros ->; by apply plays_consumer|].
  intros (c & start & dur & wr & us & os & ->). apply plays_body, plays_worker.
Qed.

(** ** Conserved quantities *)

(** What a goroutine contributes to the number of [main]s, to the number of
    consumers, to the counter of the wait group, to the results that were or
    will be sent, and to the holders of a lock. *)
Definition w_main (ρ : role) : nat := match ρ with Loading _ => 1 | _ => 0 end.
Definition w_consumer (ρ : role) : nat :=
  match ρ with Loading Fresh | Loading Made | Consuming _ _ _ => 1 | _ => 0 end.
Definition w_group (ρ : role) : nat :=
  match ρ with Loading (Adding _) | Working _ true => 1 | _ => 0 end.
Definition w_results (ρ : role) : nat :=
  match ρ with
  | Loading Fresh | Loading Made => turns * users
  | Loading (Spawning m) => turns * m
  | Loading (Adding m) => turns * S m
  | Loading _ => 0
  | Consuming k _ _ => k
  | Working l _ => l
  end.
Definition lock_of (ρ : role) : option nat :=
  match ρ with Loading (Closed l) | Consuming _ l _ => l | _ => None end.
Definition w_lock (s : nat) (ρ : role) : nat := if decide (lock_of ρ = Some s) then 1 else 0.

Abbreviation total f ρs := (sum_list_with f ρs).

Lemma total_insert (f : role → nat) ρs i ρ ρ' new :
  ρs !! i = Some ρ → total f (<[i := ρ']> ρs ++ new) + f ρ = total f ρs + f ρ' + total f new.
Proof.
  rewrite sum_list_with_app. revert i. induction ρs as [|x ρs IH]; intros [|i] Hi; try done.
  - injection Hi as ->. cbn. lia.
  - specialize (IH i Hi). change (<[S i := ρ']> (x :: ρs)) with (x :: <[i := ρ']> ρs).
    cbn [sum_list_with]. lia.
Qed.

Lemma total_one (f : role → nat) ρs i ρ : ρs !! i = Some ρ → f ρ ≤ total f ρs.
Proof.
  revert i. induction ρs as [|x ρs IH]; intros [|i] Hi; cbn; try done.
  - injection Hi as ->. lia.
  - specialize (IH i Hi). lia.
Qed.

Lemma total_two (f : role → nat) ρs i j ρ σ :
  ρs !! i = Some ρ → ρs !! j = Some σ → i ≠ j → f ρ + f σ ≤ total f ρs.
Proof.
  revert i j. induction ρs as [|x ρs IH]; intros [|i] [|j] Hi Hj Hne; cbn in *; try done.
  - injection Hi as ->. pose proof (total_one f _ _ _ Hj). lia.
  - injection Hj as ->. pose proof (total_one f _ _ _ Hi). lia.
  - specialize (IH i j Hi Hj ltac:(lia)). lia.
Qed.

Lemma total_pos (f : role → nat) ρs : 0 < total f ρs → ∃ i ρ, ρs !! i = Some ρ ∧ 0 < f ρ.
Proof.
  induction ρs as [|x ρs IH]; cbn; [lia|]. intros Ht. destruct (decide (0 < f x)) as [Hx|Hx].
  - by exists 0, x.
  - destruct IH as (i & ρ & Hi & Hρ); [lia|]. by exists (S i), ρ.
Qed.

(** ** The invariant *)

Definition phase_ok (ph : phase) (sh : shared) : Prop :=
  sh_closed sh = match ph with Closed _ => true | _ => false end ∧
  match ph with Fresh => sh_cap sh = None | _ => ∃ n, sh_cap sh = Some n ∧ (0 < n)%Z end ∧
  match ph with Spawning _ | Adding _ => True | _ => sh_wg sh = 0 end.

Record coherent (ρs : list role) (sh : shared) : Prop := mkCoherent {
  c_first : ∃ ph, ρs !! 0 = Some (Loading ph) ∧ phase_ok ph sh;
  c_main : total w_main ρs = 1;
  c_consumer : total w_consumer ρs = 1;
  c_group : total w_group ρs = sh_wg sh;
  c_results : total w_results ρs + length (sh_queue sh) ≤ turns * users;
  c_locks : ∀ s, total (w_lock s) ρs = if decide (s ∈ sh_locks sh) then 1 else 0;
  c_open : ∀ i k l, ρs !! i = Some (Consuming k l false) → sh_closed sh = true ∧ sh_queue sh = []
}.

(** ** The moves *)

Definition takes_locks (ρ : role) : bool :=
  match ρ with Loading (Closed _) | Consuming _ _ _ => true | _ => false end.
Definition with_lock (l : option nat) (ρ : role) : role :=
  match ρ with
  | Loading (Closed _) => Loading (Closed l)
  | Consuming k _ o => Consuming k l o
  | ρ => ρ
  end.

(** What an allowed call does to the part, the shared objects, and the
    goroutines. *)
Inductive move (sh : shared) : role → role → shared → list role → Prop :=
| move_none ρ : move sh ρ ρ sh []
| move_make n :
    (0 < n)%Z →
    move sh (Loading Fresh) (Loading Made) (mkShared (Some n) [] false (sh_wg sh) (sh_locks sh)) []
| move_consumer : move sh (Loading Made) (Loading (Spawning users)) sh [Consuming 0 None true]
| move_add m : move sh (Loading (Spawning (S m))) (Loading (Adding m)) (set_wg (S (sh_wg sh)) sh) []
| move_worker m : move sh (Loading (Adding m)) (Loading (Spawning m)) sh [Working turns true]
| move_wait : sh_wg sh = 0 → move sh (Loading (Spawning 0)) (Loading Waited) sh []
| move_close n :
    sh_cap sh = Some n →
    move sh (Loading Waited) (Loading (Closed None))
      (mkShared (Some n) (sh_queue sh) true (sh_wg sh) (sh_locks sh)) []
| move_send l x :
    sh_closed sh = false →
    move sh (Working (S l) true) (Working l true) (set_queue (sh_queue sh ++ [x]) sh) []
| move_recv k x q :
    sh_queue sh = x :: q →
    move sh (Consuming k None true) (Consuming (S k) None true) (set_queue q sh) []
| move_end k :
    sh_queue sh = [] → sh_closed sh = true →
    move sh (Consuming k None true) (Consuming k None false) sh []
| move_done l n : sh_wg sh = S n → move sh (Working l true) (Working l false) (set_wg n sh) []
| move_lock s ρ :
    takes_locks ρ = true → s ∉ sh_locks sh →
    move sh (with_lock None ρ) (with_lock (Some s) ρ) (set_locks ({[s]} ∪ sh_locks sh) sh) []
| move_unlock s ρ :
    takes_locks ρ = true → s ∈ sh_locks sh →
    move sh (with_lock (Some s) ρ) (with_lock None ρ) (set_locks (sh_locks sh ∖ {[s]}) sh) [].

Definition new_roles (c : extcall) : list role :=
  match c with
  | GoLoad LoadConsumer => [Consuming 0 None true]
  | GoLoad (LoadWorker _) => [Working turns true]
  | _ => []
  end.

Lemma allowed_move sh ρ c r ρ' sh' :
  protocol ρ c r = Some ρ' → effect sh c r = Some sh' → move sh ρ ρ' sh' (new_roles c).
Proof.
  destruct (decide (silent c)) as [Hc|Hc].
  { intros Hp He. rewrite silent_protocol in Hp by done. injection Hp as <-.
    assert (effect sh c r = Some sh) as Heq by by destruct c. rewrite Heq in He. injection He as <-.
    assert (new_roles c = []) as -> by by destruct c. constructor. }
  destruct c; try (by destruct Hc); cbn [protocol effect new_roles]; intros Hp He.
  - (* LoadStats *) destruct a.
    1-6: destruct ρ; simplify_eq; constructor.
    + destruct (decide (i ∈ sh_locks sh)) as [Hl|Hl]; simplify_eq.
      destruct ρ as [[| | | | |[|]]|k [|] o|]; simplify_eq.
      * by apply (move_lock sh i (Loading (Closed None))).
      * by apply (move_lock sh i (Consuming k None o)).
    + destruct (decide (i ∈ sh_locks sh)) as [Hl|Hl]; simplify_eq.
      destruct ρ as [[| | | | |[s|]]|k [s|] o|]; simplify_eq; case_bool_decide; simplify_eq.
      * by apply (move_unlock sh s (Loading (Closed None))).
      * by apply (move_unlock sh s (Consuming k None o)).
  - (* ChanMake *) destruct ρ as [[]| |]; simplify_eq; case_bool_decide; simplify_eq; by constructor.
  - (* ChanSend *) destruct ρ as [| |[|l] []]; simplify_eq.
    destruct (sh_cap sh); simplify_eq. destruct (sh_closed sh) eqn:Hc'; simplify_eq.
    cbn in He. case_bool_decide; simplify_eq. by constructor.
  - (* ChanRecv *) destruct ρ as [|k [] []|]; simplify_eq.
    destruct r as [[[d e] o]|], (sh_queue sh) as [|x q] eqn:Hq; simplify_eq.
    + case_bool_decide; simplify_eq. by eapply move_recv.
    + destruct (sh_closed sh) eqn:Hc'; simplify_eq. by constructor.
  - (* ChanClose *) destruct ρ as [[]| |]; simplify_eq. destruct (sh_cap sh) eqn:Hcap; simplify_eq.
    destruct (sh_closed sh); simplify_eq. by constructor.
  - (* WgAdd *) destruct ρ as [[| |[]| | |]| |]; simplify_eq. constructor.
  - (* WgDone *) destruct ρ as [| |l []]; simplify_eq. destruct (sh_wg sh) eqn:Hw; simplify_eq.
    by constructor.
  - (* WgWait *) destruct ρ as [[| |[]| | |]| |]; simplify_eq. destruct (sh_wg sh) eqn:Hw; simplify_eq.
    by constructor.
  - (* GoLoad *) destruct t; destruct ρ as [[]| |]; simplify_eq; constructor.
Qed.

(** The part of [main] after a move of any goroutine. *)
Lemma first_move ρs sh i ρ ρ' sh' new :
  coherent ρs sh → ρs !! i = Some ρ → move sh ρ ρ' sh' new →
  ∃ ph, (<[i := ρ']> ρs ++ new) !! 0 = Some (Loading ph) ∧ phase_ok ph sh'.
Proof.
  intros Hc Hi Hm. destruct (c_first _ _ Hc) as (ph & H0 & Hcl & Hcap & Hwg).
  assert (i < length ρs) as Hlt by by eapply lookup_lt_Some.
  rewrite lookup_app_l by (rewrite length_insert; lia).
  destruct (decide (i = 0)) as [->|Hne].
  - rewrite list_lookup_insert_eq by done. rewrite H0 in Hi. injection Hi as Hρ. unfold phase_ok.
    destruct Hm as [ρ| | | | | | | | | | |s ρ Ht|s ρ Ht]; simplify_eq.
    1: by exists ph.
    all: try (destruct ρ as [[| | | | |l']| |]; simplify_eq/=).
    all: eexists; split; [reflexivity|]; cbn in *; split_and!; try done; try congruence.
    + by exists n.
    + destruct Hcap as (n' & Hn & Hpos). exists n. split; [done|]. congruence.
  - rewrite list_lookup_insert_ne by done. exists ph. split; [done|]. unfold phase_ok.
    pose proof (total_two w_main ρs i 0 ρ (Loading ph) Hi H0 Hne) as Ht. rewrite (c_main _ _ Hc) in Ht.
    destruct Hm; cbn in Ht |- *; try lia; try done.
    split_and!; [done..|]. destruct ph; try done; congruence.
Qed.

(** A consumer that has seen the end of the channel. *)
Lemma open_move ρs sh i ρ ρ' sh' new :
  coherent ρs sh → ρs !! i = Some ρ → move sh ρ ρ' sh' new →
  ∀ j k l, (<[i := ρ']> ρs ++ new) !! j = Some (Consuming k l false) →
    sh_closed sh' = true ∧ sh_queue sh' = [].
Proof.
  intros Hc Hi Hm j k l Hj. assert (i < length ρs) as Hlt by by eapply lookup_lt_Some.
  assert ((∃ l', ρs !! j = Some (Consuming k l' false) ∧ (j = i → ρ = Consuming k l' false)) ∨
    j = i ∧ sh_closed sh = true ∧ sh_queue sh = [] ∧ sh' = sh) as [(l' & Hl & Hρ)|(-> & Ho & Hq & ->)]; [|..|done].
  - apply lookup_app_Some in Hj as [Hj|[_ Hj]].
    2: { exfalso. destruct Hm; cbn in Hj; destruct (j - _); by simplify_eq/=. }
    destruct (decide (j = i)) as [->|Hne]; [|rewrite list_lookup_insert_ne in Hj by done; left; eauto; by exists l].
    rewrite list_lookup_insert_eq in Hj by done. injection Hj as ->.
    inversion Hm; subst; try by (right; auto). 
    + left. by exists l.
    + destruct ρ0 as [[]| |]; simplify_eq/=. left. by exists None.
    + destruct ρ0 as [[]| |]; simplify_eq/=. left. by exists (Some s).
  - destruct (c_open _ _ Hc _ _ _ Hl) as [Ho Hq].
    destruct Hm; cbn; try done; try congruence.
    destruct (decide (j = i)) as [->|Hne]; [by specialize (Hρ eq_refl)|].
    pose proof (total_two w_consumer ρs j i _ _ Hl Hi Hne) as Ht. rewrite (c_consumer _ _ Hc) in Ht. cbn in Ht. lia.
Qed.

Lemma w_lock_with s s' ρ :
  takes_locks ρ = true → w_lock s (with_lock (Some s') ρ) = (if decide (s' = s) then 1 else 0) ∧
    w_lock s (with_lock None ρ) = 0.
Proof. unfold w_lock. destruct ρ as [[]| |]; cbn; try done; intros _; repeat case_decide; naive_solver. Qed.

Lemma with_lock_other l ρ :
  w_main (with_lock l ρ) = w_main ρ ∧ w_consumer (with_lock l ρ) = w_consumer ρ ∧
  w_group (with_lock l ρ) = w_group ρ ∧ w_results (with_lock l ρ) = w_results ρ.
Proof. by destruct ρ as [[]| |]. Qed.

Lemma coherent_move ρs sh i ρ ρ' sh' new :
  coherent ρs sh → ρs !! i = Some ρ → move sh ρ ρ' sh' new → coherent (<[i := ρ']> ρs ++ new) sh'.
Proof.
  intros Hc Hi Hm.
  assert (∀ f, total f (<[i := ρ']> ρs ++ new) + f ρ = total f ρs + f ρ' + total f new) as Ht.
  { intros f. by apply total_insert. }
  pose proof (Ht w_main) as T1. pose proof (Ht w_consumer) as T2. pose proof (Ht w_group) as T3.
  pose proof (Ht w_results) as T4.
  rewrite (c_main _ _ Hc) in T1. rewrite (c_consumer _ _ Hc) in T2. rewrite (c_group _ _ Hc) in T3.
  pose proof (c_results _ _ Hc) as T5.
  constructor; [by eapply first_move|..|by eapply open_move].
  1-4: destruct Hm as [| | | | | | |? ? ?|? ? ? Hq| | |s ρ Htl|s ρ Htl];
    try (destruct ρ as [[]| |]; try done); rewrite ?Hq in *; cbn in *; rewrite ?length_app; cbn; try lia.
  intros s'. specialize (Ht (w_lock s')). rewrite (c_locks _ _ Hc) in Ht.
  revert Ht. generalize (total (w_lock s') (<[i := ρ']> ρs ++ new)). intros N Ht.
  destruct Hm as [| | | | | | | | | | |s ρ Htl Hs|s ρ Htl Hs]; cbn in Ht |- *; try lia;
    try (unfold w_lock in Ht; cbn in Ht; repeat case_decide; try congruence; lia);
    destruct (w_lock_with s' s ρ Htl) as [E1 E2]; rewrite E1, E2 in Ht; clear E1 E2;
    (destruct (decide (s = s')) as [<-|Hne];
     [|rewrite (decide_ext _ (s' ∈ sh_locks sh)) by (rewrite ?elem_of_union, ?elem_of_difference, elem_of_singleton; intuition congruence); lia]).
  - rewrite decide_False in Ht by done. rewrite decide_True by (rewrite ?elem_of_union, ?elem_of_difference, elem_of_singleton; intuition congruence). lia.
  - rewrite decide_True in Ht by done. rewrite decide_False by (rewrite ?elem_of_union, ?elem_of_difference, elem_of_singleton; intuition congruence). lia.
Qed.

(** ** Every reachable state *)

Definition good (s : list (go unit) * shared) : Prop :=
  ∃ ρs, Forall2 (λ p ρ, plays ρ p ends) s.1 ρs ∧ coherent ρs s.2.

Lemma load_good_start vus writeRatio :
  users = Z.to_nat vus → is_int64 (vus * 100) → good ([body (load vus writeRatio)], shared0).
Proof.
  intros Hu Hv. exists [Loading Fresh]. split.
  - apply Forall2_cons. split; [|done]. by apply plays_body, plays_load.
  - split; cbn; try done; try lia.
    + exists Fresh. by split_and!.
    + by intros [|[|i]].
Qed.

Lemma spawned_plays c new :
  spawned c new → Forall2 (λ p ρ, plays ρ p ends) new (new_roles c).
Proof.
  intros Hn. destruct c; cbn in Hn; try (subst; apply Forall2_nil_2).
  destruct Hn as (p & -> & Hp). apply starts_plays in Hp. destruct t; by repeat constructor.
Qed.

Lemma load_good_step s s' : good s → rstep s s' → good s'.
Proof.
  intros (ρs & Hp & Hc) Hs. destruct Hs as [ts sh i c k r sh' new Hi He Hn]. cbn in *.
  destruct (Forall2_lookup_l _ _ _ _ _ Hp Hi) as (ρ & Hρ & Hpl).
  destruct (obeys_next _ _ _ _ _ r Hpl) as (ρ' & Hpr & Hk).
  exists (<[i := ρ']> ρs ++ new_roles c). cbn. split.
  - apply Forall2_app; [by apply Forall2_insert|by apply spawned_plays].
  - eapply coherent_move; [done..|]. by eapply allowed_move.
Qed.

Lemma main_part ρs sh i ph : coherent ρs sh → ρs !! i = Some (Loading ph) → i = 0 ∧ phase_ok ph sh.
Proof.
  intros Hc Hi. destruct (c_first _ _ Hc) as (ph' & H0 & Hok).
  destruct (decide (i = 0)) as [->|Hne]; [split; [done|congruence]|].
  pose proof (total_two w_main ρs i 0 _ _ Hi H0 Hne) as Ht. rewrite (c_main _ _ Hc) in Ht. cbn in Ht. lia.
Qed.

(** While a virtual user is at work [main] has started it and waits. *)
Lemma working_open ρs sh i l :
  coherent ρs sh → ρs !! i = Some (Working l true) → sh_closed sh = false ∧ is_Some (sh_cap sh) ∧ 0 < sh_wg sh.
Proof.
  intros Hc Hi. pose proof (total_one w_group ρs i _ Hi) as Ht. rewrite (c_group _ _ Hc) in Ht. cbn in Ht.
  destruct (c_first _ _ Hc) as (ph & _ & Hcl & Hcap & Hwg).
  destruct ph; try lia; destruct Hcap as (n & -> & _); split_and!; eauto.
Qed.

Lemma holds_lock ρs sh i ρ s : coherent ρs sh → ρs !! i = Some ρ → lock_of ρ = Some s → s ∈ sh_locks sh.
Proof.
  intros Hc Hi Hl. pose proof (total_one (w_lock s) ρs i _ Hi) as Ht. rewrite (c_locks _ _ Hc) in Ht.
  unfold w_lock in Ht. rewrite decide_True in Ht by done. case_decide; [done|lia].
Qed.

Lemma good_not_misused ts sh : good (ts, sh) → ¬ misused ts sh.
Proof.
  intros (ρs & Hp & Hc) (i & c & k & Hi & Hm). cbn in *.
  destruct (Forall2_lookup_l _ _ _ _ _ Hp Hi) as (ρ & Hρ & Hpl).
  destruct (obeys_next _ _ _ _ _ (default_answer c) Hpl) as (ρ' & Hpr & _). clear Hpl.
  destruct c; try done; cbn in Hm, Hpr.
  - destruct a; try done.
    destruct ρ as [[| | | | |[s|]]|n [s|] o|]; simplify_eq; case_bool_decide; simplify_eq;
      apply Hm; by eapply (holds_lock _ _ i).
  - destruct ρ as [| |[|l] []]; simplify_eq. destruct (working_open _ _ _ _ Hc Hρ) as (Ho & [n Hn] & _).
    destruct Hm; congruence.
  - destruct ρ as [|n [] []|]; simplify_eq. destruct (c_first _ _ Hc) as (ph & H0 & _ & Hcap & _).
    destruct ph; try (destruct Hcap as (n' & Hn & _); congruence).
    assert (i ≠ 0) as Hne by (intros ->; congruence).
    pose proof (total_two w_consumer ρs i 0 _ _ Hρ H0 Hne) as Ht. rewrite (c_consumer _ _ Hc) in Ht. cbn in Ht. lia.
  - destruct ρ as [[]| |]; simplify_eq. destruct (main_part _ _ _ _ Hc Hρ) as (_ & Ho & (n & Hn & _) & _).
    destruct Hm; congruence.
  - destruct ρ as [| |l []]; simplify_eq. destruct (working_open _ _ _ _ Hc Hρ) as (_ & _ & Hw). lia.
Qed.

(** ** Somebody can go on *)

(** The call has to wait. *)
Definition waits (sh : shared) (c : extcall) : Prop :=
  match c with
  | ChanSend _ _ _ => ∃ n, sh_cap sh = Some n ∧ (n ≤ Z.of_nat (length (sh_queue sh)))%Z
  | ChanRecv => sh_queue sh = [] ∧ sh_closed sh = false
  | WgWait => sh_wg sh ≠ 0
  | LoadStats s StatsLock => s ∈ sh_locks sh
  | _ => False
  end.

Lemma effect_defined sh c : ¬ misuse sh c → ¬ waits sh c → ∃ r sh', effect sh c r = Some sh'.
Proof.
  intros Hm Hw. destruct c; try (by exists (default_answer _); eexists); cbn in *.
  - exists (default_answer (LoadStats i a)). destruct a; try (by eexists); cbn; case_decide; try done; by eexists.
  - exists tt. destruct (sh_cap sh) as [n|]; [|by destruct Hm; right].
    destruct (sh_closed sh); [by destruct Hm; left|]. case_bool_decide; [by eexists|].
    destruct Hw. exists n. split; [done|lia].
  - destruct (sh_queue sh) as [|x q] eqn:Hq.
    + exists None. destruct (sh_closed sh); [by eexists|]. by destruct Hw.
    + exists (Some (duration x, err x, op x)). rewrite bool_decide_true by done. by eexists.
  - exists tt. destruct (sh_cap sh) as [n|]; [|by destruct Hm; right].
    destruct (sh_closed sh); [by destruct Hm; left|]. by eexists.
  - exists tt. destruct (sh_wg sh); [done|by eexists].
  - exists tt. destruct (sh_wg sh); [by eexists|by destruct Hw].
Qed.

#[local] Instance waits_dec sh c : Decision (waits sh c).
Proof.
  destruct c; cbn; try apply _; [destruct a; apply _|]. destruct (sh_cap sh) as [n|] eqn:Hn.
  - destruct (decide (n ≤ Z.of_nat (length (sh_queue sh)))%Z) as [Hle|Hle]; [left; by exists n|right].
    by intros (n' & [= <-] & ?).
  - right. by intros (n' & ? & _).
Defined.

Lemma spawned_some c : ∃ new, spawned c new.
Proof.
  destruct c; try (by exists []). destruct t as [|id]; [by eexists [_], _|].
  eexists [_], _. split; [done|]. exists CtxBackground, 0%Z, 0%Z, f64_zero, [], []. done.
Qed.

Section Progress.
Context (ts : list (go unit)) (sh : shared) (ρs : list role).
Context (Hp : Forall2 (λ p ρ, plays ρ p ends) ts ρs) (Hc : coherent ρs sh).
Context (Hover : ¬ over ts) (Hfuel : turns * users < fuel).

Lemma goes i c k : ts !! i = Some (Call c k) → ¬ waits sh c → ∃ s', rstep (ts, sh) s'.
Proof.
  intros Hi Hw. destruct (effect_defined sh c) as (r & sh' & He); [|done|].
  - intros Hm. apply (good_not_misused ts sh); [by exists ρs|]. by exists i, c, k.
  - destruct (spawned_some c) as [new Hn]. eexists. by eapply rstep_call.
Qed.

(** A goroutine that has not done its part has a next call, which it may make. *)
Lemma has_next i ρ :
  ρs !! i = Some ρ → i = 0 ∨ ¬ role_done ρ →
  ∃ c k, ts !! i = Some (Call c k) ∧ ∀ r, is_Some (protocol ρ c r).
Proof.
  intros Hi Hd. destruct (Forall2_lookup_r _ _ _ _ _ Hp Hi) as (p & Hpi & Hpl).
  destruct p as [u|m|c k].
  - exfalso. destruct Hd as [->|Hd]; [|by apply Hd]. apply Hover. left. by exists u.
  - exfalso. apply Hover. right. by exists i, m.
  - exists c, k. split; [done|]. intros r. destruct (obeys_next _ _ _ _ _ r Hpl) as (ρ' & -> & _). done.
Qed.

Lemma holder s : s ∈ sh_locks sh → ∃ i ρ, ρs !! i = Some ρ ∧ lock_of ρ = Some s.
Proof.
  intros Hs. destruct (total_pos (w_lock s) ρs) as (i & ρ & Hi & Hw).
  - rewrite (c_locks _ _ Hc), decide_True by done. lia.
  - exists i, ρ. split; [done|]. unfold w_lock in Hw. case_decide; [done|lia].
Qed.

Lemma one_consumer i j k l o k' l' o' :
  ρs !! i = Some (Consuming k l o) → ρs !! j = Some (Consuming k' l' o') → l = l'.
Proof.
  intros Hi Hj. destruct (decide (i = j)) as [->|Hne]; [congruence|].
  pose proof (total_two w_consumer ρs i j _ _ Hi Hj Hne) as Ht. rewrite (c_consumer _ _ Hc) in Ht. cbn in Ht. lia.
Qed.

(** The consumer goes on if it holds a lock or there are results, and [main]
    holds no lock. *)
Lemma consumer_goes i k l o :
  ρs !! i = Some (Consuming k l o) → l ≠ None ∨ sh_queue sh ≠ [] →
  (∀ s, ρs !! 0 ≠ Some (Loading (Closed (Some s)))) → ∃ s', rstep (ts, sh) s'.
Proof.
  intros Hi Hl Hmain. destruct (has_next i _ Hi) as (c & kk & Hci & Hpr).
  { right. intros [-> Ho]. destruct Hl as [Hl|Hl]; [done|]. destruct o.
    - specialize (Ho eq_refl). pose proof (total_one w_results ρs i _ Hi) as Ht.
      pose proof (c_results _ _ Hc). cbn in Ht. lia.
    - by destruct (c_open _ _ Hc _ _ _ Hi). }
  apply (goes i c kk Hci). intros Hw. destruct (Hpr (default_answer c)) as [ρ' Hρ'].
  destruct c; try done; cbn in Hw, Hρ'.
  - destruct a; try done. destruct l; [done|]. destruct (holder _ Hw) as (j & σ & Hj & Hσ).
    destruct σ as [[| | | | |l']|k' l' o'|]; simplify_eq/=.
    + destruct (main_part _ _ _ _ Hc Hj) as [-> _]. by eapply Hmain.
    + by pose proof (one_consumer _ _ _ _ _ _ _ _ Hi Hj).
  - destruct l, o; try done. by destruct Hl, Hw.
Qed.

(** A virtual user waits only for a place in the channel. *)
Lemma working_waits l c :
  (∀ r, is_Some (protocol (Working l true) c r)) → (∃ n, sh_cap sh = Some n ∧ (0 < n)%Z) →
  ¬ waits sh c ∨ sh_queue sh ≠ [].
Proof.
  intros Hpr (n & Hn & Hpos). destruct (Hpr (default_answer c)) as [ρ' Hρ'].
  destruct c; try (by left; intros []); cbn in Hρ'; try done; [destruct a; try done; by left; intros []|].
  destruct (sh_queue sh) as [|x q] eqn:Hq; [left|by right].
  intros (n' & Hn' & Hle). rewrite Hn in Hn'. injection Hn' as <-. rewrite Hq in Hle. cbn in Hle. lia.
Qed.

Lemma load_progress : ∃ s', rstep (ts, sh) s'.
Proof.
  destruct (c_first _ _ Hc) as (ph & H0 & Hok).
  destruct (has_next 0 _ H0) as (c & k & Hc0 & Hpr); [by left|].
  assert (waits sh c → ∃ s', rstep (ts, sh) s') as Hwait.
  { intros Hw. destruct (Hpr (default_answer c)) as [ρ' Hρ']. destruct c; try done; cbn in Hw, Hρ'.
    - (* a lock the consumer holds *)
      destruct a; try done. destruct ph as [| | | | |[|]]; try done.
      destruct (holder _ Hw) as (j & σ & Hj & Hσ).
      destruct σ as [[| | | | |l']|k' l' o'|]; simplify_eq/=.
      + destruct (main_part _ _ _ _ Hc Hj) as [-> _]. congruence.
      + eapply consumer_goes; [done|by left|congruence].
    - (* the virtual users *)
      destruct ph as [| |[]| | |]; try done.
      destruct (total_pos w_group ρs) as (j & σ & Hj & Hσ); [rewrite (c_group _ _ Hc); lia|].
      destruct σ as [[]| |l []]; cbn in Hσ; try lia.
      { destruct (main_part _ _ _ _ Hc Hj) as [-> _]. congruence. }
      destruct (has_next j _ Hj) as (c' & k' & Hj' & Hpr'); [by right|].
            destruct (working_waits l c') as [Hgo|Hq]; [apply Hpr'| |by eapply goes|].
      { by destruct Hok as (_ & (n & Hn & Hpos) & _); exists n. }
      destruct (total_pos w_consumer ρs) as (m & τ & Hm & Hτ); [rewrite (c_consumer _ _ Hc); lia|].
      destruct τ as [ph|k1 l1 o1|]; [|eapply consumer_goes; [done|by right|congruence]|cbn in Hτ; lia].
      destruct (main_part _ _ _ _ Hc Hm) as [-> _]. rewrite H0 in Hm. injection Hm as <-. cbn in Hτ. lia. }
  destruct (decide (waits sh c)) as [Hw|Hw]; [by apply Hwait|by eapply goes].
Qed.
End Progress.

#[export] Instance over_dec ts : Decision (over ts).
Proof.
  set (main_ended := match ts !! 0 with Some (Ret _) => true | _ => false end).
  set (panicked := λ p : go unit, match p with Panic _ => true | _ => false end).
  destruct (decide (main_ended = true ∨ Exists (λ p, panicked p = true) ts)) as [Ho|Ho]; [left|right].
  - destruct Ho as [Hm|(p & Hin & Hp)%Exists_exists].
    + left. unfold main_ended in Hm. destruct (ts !! 0) as [[u| |]|] eqn:H0; try done. by exists u.
    + apply list_elem_of_lookup in Hin as [i Hi]. destruct p as [|m|]; try done. right. by exists i, m.
  - intros [[u H0]|(i & m & Hi)]; apply Ho.
    + left. unfold main_ended. by rewrite H0.
    + right. apply Exists_exists. exists (Panic m). split; [by eapply list_elem_of_lookup_2|done].
Defined.

(** ** Every run ends *)

Definition no_spawn (c : extcall) : Prop := match c with GoLoad _ => False | _ => True end.

(** Only [main] starts goroutines. *)
Lemma starts_no_spawn t p : starts t p → calls_only no_spawn p.
Proof.
  intros Hs. apply starts_plays in Hs.
  refine (obeys_calls_only protocol (λ ρ, w_main ρ = 0) _ _ _ _ _ _ Hs); [|by destruct t].
  clear. intros ρ c r ρ' Hρ Hpr. destruct (decide (silent c)) as [Hc|Hc].
  { rewrite silent_protocol in Hpr by done. injection Hpr as <-. by destruct c. }
  destruct ρ as [|k l o|l b]; [done|..]; destruct c; try (by destruct Hc); cbn in Hpr |- *; try done;
    try (by destruct t).
  all: try (by destruct l, o; simplify_eq); try (by destruct l, b; simplify_eq); try (by destruct b; simplify_eq).
  all: repeat case_match; by simplify_eq/=.
Qed.

Lemma rstep_wf p rest sh : Forall (calls_only no_spawn) rest → Acc (flip rstep) (p :: rest, sh).
Proof.
  revert rest sh. induction (next_of_wf p) as [p _ IHp]. intros rest sh.
  revert sh. induction (one_step_wf next_of rest next_of_wf) as [rest _ IHr]. intros sh Hr.
  constructor. intros s' Hs. inversion Hs as [? ? i c k r sh' new Hi He Hn]; subst.
  destruct i as [|i]; cbn in Hi |- *.
  - injection Hi as ->. apply IHp; [by exists r|]. apply Forall_app_2; [done|].
    destruct c; cbn in Hn; try (subst; apply Forall_nil_2). destruct Hn as (q & -> & Hq).
    apply Forall_singleton. by eapply starts_no_spawn.
  - pose proof (Forall_lookup_1 _ _ _ _ Hr Hi) as [Hc Hk].
    assert (new = []) as -> by by destruct c. rewrite app_nil_r. apply IHr.
    + econstructor; [done|]. by exists r.
    + by apply Forall_insert.
Qed.

End Run.

Lemma Acc_rtc {X} (R : X → X → Prop) x y : Acc (flip R) x → rtc R x y → Acc (flip R) y.
Proof. intros Hx Hr. induction Hr as [|x y z Hxy _ IH]; [done|]. by apply IH, (Acc_inv Hx). Qed.

(** C38: In every reachable state of the load test, with the consumer and the virtual users
    running beside main over the channel of results, the wait group and the locks of the
    statistics: no goroutine is about to send on a closed or nil channel, to close it
    twice, to make the counter negative or to unlock a free lock; main has ended, or a
    goroutine has panicked, or some goroutine can make its next call; and every run
    ends. For a number of users whose channel size does not overflow, virtual users with
    any bound on their turns, and a consumer with one turn more than there can be
    results. *)
Theorem run_completes turns vus writeRatio ts sh :
  is_int64 (vus * 100) →
  rtc (rstep turns (turns * Z.to_nat vus + 1)) ([body (load vus writeRatio)], shared0) (ts, sh) →
  ¬ misused ts sh ∧
  (over ts ∨ ∃ s', rstep turns (turns * Z.to_nat vus + 1) (ts, sh) s') ∧
  Acc (flip (rstep turns (turns * Z.to_nat vus + 1))) (ts, sh).
Proof.
  intros Hv Hs. set (fuel := turns * Z.to_nat vus + 1) in *.
  assert (good turns fuel (Z.to_nat vus) (ts, sh)) as Hg.
  { pose proof (load_good_start turns fuel (Z.to_nat vus) vus writeRatio eq_refl Hv) as Hg. revert Hg.
    induction Hs as [|x y z Hxy _ IH]; [done|]. intros Hg. by apply IH, (load_good_step _ _ _ x). }
  split_and!.
  - by eapply good_not_misused.
  - destruct (decide (over ts)) as [Ho|Ho]; [by left|right].
    destruct Hg as (ρs & Hp & Hc). eapply load_progress; [exact Hp|exact Hc|done|unfold fuel; lia].
  - eapply Acc_rtc; [|exact Hs]. apply rstep_wf with (users := 0). apply Forall_nil_2.
Qed.

(** ** A run *)

(** Each goroutine of the schedule makes its next call if it can; the virtual
    users go on until their turns are used up. *)
Section Drive.
Context (turns fuel : nat) (answer : ∀ c : extcall, extres c).

Definition started (c : extcall) : list (go unit) :=
  match c with
  | GoLoad LoadConsumer => [consumer fuel]
  | GoLoad (LoadWorker id) => [body (worker turns CtxBackground id 0 1 (f64_of_int 0) ["u1"] [])]
  | _ => []
  end.

(** The answer of a receive is the first result. *)
Definition answer_in (sh : shared) (c : extcall) : extres c :=
  match c return extres c with
  | ChanRecv => match sh_queue sh with x :: _ => Some (duration x, err x, op x) | [] => None end
  | c => answer c
  end.

Fixpoint drive (sch : list nat) (ts : list (go unit)) (sh : shared) : list (go unit) * shared :=
  match sch with
  | [] => (ts, sh)
  | i :: sch =>
      match ts !! i with
      | Some (Call c k) =>
          match effect sh c (answer_in sh c) with
          | Some sh' => drive sch (<[i := k (answer_in sh c)]> ts ++ started c) sh'
          | None => drive sch ts sh
          end
      | _ => drive sch ts sh
      end
  end.

Lemma drive_steps sch ts sh : rtc (rstep turns fuel) (ts, sh) (drive sch ts sh).
Proof.
  revert ts sh. induction sch as [|i sch IH]; intros ts sh; cbn; [done|].
  destruct (ts !! i) as [[u|m|c k]|] eqn:Hi; try done.
  destruct (effect sh c (answer_in sh c)) as [sh'|] eqn:He; [|done].
  eapply rtc_l; [eapply (rstep_call _ _ _ _ i c k _ _ (started c)); [done|exact He|]|apply IH].
  destruct c; try done. destruct t; [by eexists|]. eexists. split; [done|]. by eexists _, _, _, _, _, _.
Qed.
End Drive.

(** Users are created, everything else fails. *)
Definition answer0 (c : extcall) : extres c :=
  match c return extres c with
  | GrpcInvoke _ _ _ ko _ =>
      match ko return gresult (msg ko) with
      | MCreateUserResponse => Ok (userv1.mkCreateUserResponse (Some (userv1.mkUser "u1" "" "" None None)))
      | _ => Fail (ErrText "unavailable")
      end
  | c => default_answer c
  end.

(** Two virtual users with one turn each; [main] has come to wait for them. *)
Definition two_users := drive 1 3 answer0 (replicate 60 0 ++ mjoin (replicate 12 [2; 1; 3; 0]))
  [body (load 2 (f64_of_int 0))] shared0.

(** [main] prints its summary while a result is still in the channel. *)
Lemma run_completes_witness :
  sh_closed two_users.2 = true ∧ sh_wg two_users.2 = 0 ∧ length (sh_queue two_users.2) = 1 ∧
  ¬ misused two_users.1 two_users.2 ∧
  (over two_users.1 ∨ ∃ s', rstep 1 3 (two_users.1, two_users.2) s') ∧
  Acc (flip (rstep 1 3)) (two_users.1, two_users.2).
Proof.
  do 3 (split; [by vm_compute|]).
  apply (run_completes 1 2 (f64_of_int 0) two_users.1 two_users.2); [by vm_compute|].
  rewrite <-surjective_pairing. apply drive_steps.
Defined.
